(** * msgpack-javascript: the stream decoder, the buffer-resident decoder and
      the encoder

    A shallow embedding of [src/StreamDecoder.ts] together with the entry
    points of [src/decode.ts] and [src/encode.ts].  The decoder is a state
    machine over an explicit frame stack; its only access to the input is the
    "read N bytes" primitive [readBytes], which fills a reusable scratch
    buffer from a pull callback.  Typed-array views ([Uint8Array]) are
    modelled as references into a heap of [ArrayBuffer]s, because the decoder
    hands out views of its scratch buffer and keeps writing to it. *)

From Stdlib Require Import ZArith List String Strings.Byte Bool Lia DecimalString.
From stdpp Require Import base list.
Import ListNotations.

#[local] Set Warnings "-register-all".

Local Open Scope Z_scope.

(** ** Bytes and big-endian numbers *)

Definition byte_to_Z (b : byte) : Z := Z.of_N (Byte.to_N b).

(** [Uint8Array] stores every written number modulo 256. *)
Definition byte_of_Z (z : Z) : byte :=
  match Byte.of_N (Z.to_N (z mod 256)) with
  | Some b => b
  | None => x00
  end.

(** Big-endian unsigned value of a byte sequence, as [DataView.getUintN]. *)
Definition be_uint (bs : list byte) : Z :=
  fold_left (fun acc b => acc * 256 + byte_to_Z b) bs 0.

(** Two's complement reading of an unsigned [bits]-wide number, as
    [DataView.getIntN]. *)
Definition to_signed (bits : Z) (u : Z) : Z :=
  if u <? 2 ^ (bits - 1) then u else u - 2 ^ bits.

(** ** The heap of array buffers and the views on it *)

Abbreviation ArrayBuffer := (list byte).
Abbreviation Heap := (list ArrayBuffer).

(** A [Uint8Array]: a window on a buffer of the heap. *)
Record Uint8Array := mkView {
  buffer : nat;
  byteOffset : nat;
  byteLength : nat
}.

(** [new ArrayBuffer(n)]: a zero-filled buffer appended to the heap. *)
Definition newArrayBuffer (n : Z) (h : Heap) : nat * Heap :=
  (length h, h ++ [repeat x00 (Z.to_nat n)]).

Definition bufferOf (h : Heap) (id : nat) : ArrayBuffer :=
  default [] (h !! id).

(** The bytes seen through a view. *)
Definition contents (h : Heap) (a : Uint8Array) : list byte :=
  take (byteLength a) (drop (byteOffset a) (bufferOf h (buffer a))).

(** JavaScript's relative index clamping for [subarray] and [slice]. *)
Definition clampIndex (k : Z) (len : nat) : nat :=
  if k <? 0 then Z.to_nat (Z.max (Z.of_nat len + k) 0)
  else Z.to_nat (Z.min k (Z.of_nat len)).

(** [a.subarray(begin, end)]: a view on the same buffer, no copy. *)
Definition subarray (a : Uint8Array) (begin_ end_ : Z) : Uint8Array :=
  let b := clampIndex begin_ (byteLength a) in
  let e := clampIndex end_ (byteLength a) in
  {| buffer := buffer a;
     byteOffset := (byteOffset a + b)%nat;
     byteLength := (e - b)%nat |}.

(** What a callback can do to the view it is handed: store bytes from its
    start.  Bytes beyond the view's length are not stored, and nothing is
    ever stored beyond the end of the buffer. *)
Definition fill (h : Heap) (a : Uint8Array) (ws : list byte) : Heap :=
  alter (list_inserts (byteOffset a) (take (byteLength a) ws)) (buffer a) h.

(** ** Values *)

(** A JavaScript number as the decoder produces it.  Integers are kept
    exact; a float is kept as the IEEE bit pattern that [DataView.getFloat32]
    or [getFloat64] was applied to (its numeric reading is not modelled). *)
Inductive number :=
| Int (z : Z)
| Float32 (bits : Z)
| Float64 (bits : Z).

(** Decoded values, over the representation [B] of binary data: a view for
    the stream decoder, the bytes themselves for a snapshot. *)
Inductive value (B : Type) :=
| VUndefined                       (* an unset slot of [new Array(size)] *)
| VNull
| VBool (b : bool)
| VNumber (n : number)
| VString (s : string)
| VBinary (data : B)
| VArray (items : list (value B))
| VObject (props : list (string * value B))
| VExtData (type : Z) (data : B).

Arguments VUndefined {B}.
Arguments VNull {B}.
Arguments VBool {B} b.
Arguments VNumber {B} n.
Arguments VString {B} s.
Arguments VBinary {B} data.
Arguments VArray {B} items.
Arguments VObject {B} props.
Arguments VExtData {B} type data.

(** [typeof] *)
Inductive jstype := TUndefined | TObject | TBoolean | TNumber | TString.

Definition typeof {B} (v : value B) : jstype :=
  match v with
  | VUndefined => TUndefined
  | VBool _ => TBoolean
  | VNumber _ => TNumber
  | VString _ => TString
  | VNull | VBinary _ | VArray _ | VObject _ | VExtData _ _ => TObject
  end.

(** [v === s] for a string literal [s]. *)
Definition strictEqualsString {B} (v : value B) (s : string) : bool :=
  match v with
  | VString s' => String.eqb s' s
  | _ => false
  end.

(** [obj[key] = v] on a plain object: an existing property keeps its place,
    a new one is added at the end.  (The engine's reordering of integer-like
    property names is not modelled.) *)
Fixpoint setProperty {B} (key : string) (v : value B)
    (props : list (string * value B)) : list (string * value B) :=
  match props with
  | [] => [(key, v)]
  | (k, w) :: rest =>
      if String.eqb k key then (k, v) :: rest
      else (k, w) :: setProperty key v rest
  end.

(** Replace every view by the bytes it shows in heap [h]. *)
Fixpoint snapshot (h : Heap) (v : value Uint8Array) : value (list byte) :=
  match v with
  | VUndefined => VUndefined
  | VNull => VNull
  | VBool b => VBool b
  | VNumber n => VNumber n
  | VString s => VString s
  | VBinary a => VBinary (contents h a)
  | VArray items => VArray (map (snapshot h) items)
  | VObject props => VObject (map (fun kv => (fst kv, snapshot h (snd kv))) props)
  | VExtData t a => VExtData t (contents h a)
  end.

(** ** Errors and the decoder's monad *)

Inductive LengthKind := StrLength | BinLength | ArrayLength | MapLength | ExtLength.

(** The messages of the [DecodeError]s the decoder throws, as data. *)
Inductive DecodeFailure :=
| UnrecognizedTypeByte (headByte : Z)
| MaxLengthExceeded (kind : LengthKind) (size max : Z)
| KeyTypeMustBeStringOrNumber (found : jstype)
| KeyProtoNotAllowed
| ExtraBytesFound.                  (* the buffer-resident decoder only *)

(** The two error classes of the module: [DecodeError], and the class that
    [DataViewIndexOutOfBoundsError] resolves to, which is what an
    out-of-bounds [DataView] access throws ([RangeError]). *)
Inductive error :=
| DecodeError (why : DecodeFailure)
| RangeError (message : string)
| ExtensionError (message : string).   (* thrown by an extension decoder *)

(** [const MORE_DATA = new DataViewIndexOutOfBoundsError("Insufficient data")] *)
Definition MORE_DATA : error := RangeError "Insufficient data".

Definition isDecodeError (e : error) : bool :=
  match e with DecodeError _ => true | _ => false end.

(** A computation returns, throws, or exhausts the fuel that bounds the
    [while (true)] loop of [doDecodeSync]. *)
Inductive outcome (A : Type) :=
| Ok (a : A)
| Throw (e : error)
| OutOfFuel.

Arguments Ok {A} a.
Arguments Throw {A} e.
Arguments OutOfFuel {A}.

(** State and exceptions: the state reached is kept when a call throws. *)
Definition M (St A : Type) : Type := St -> outcome A * St.

Definition ret {St A} (a : A) : M St A := fun st => (Ok a, st).

Definition bind {St A B} (m : M St A) (k : A -> M St B) : M St B :=
  fun st =>
    match m st with
    | (Ok a, st') => k a st'
    | (Throw e, st') => (Throw e, st')
    | (OutOfFuel, st') => (OutOfFuel, st')
    end.

Definition throw {St A} (e : error) : M St A := fun st => (Throw e, st).
Definition get {St} : M St St := fun st => (Ok st, st).
Definition modify {St} (f : St -> St) : M St unit := fun st => (Ok tt, f st).

Notation "x <- m ;; k" := (bind m (fun x => k))
  (at level 100, m at next level, right associativity).
Notation "m ;; k" := (bind m (fun _ => k))
  (at level 100, right associativity).

(** ** What the decoder imports and is constructed with *)

(** [KeyDecoder] of [./CachedKeyDecoder]: the cache is a host primitive whose
    result is taken to depend on the bytes only. *)
Record KeyDecoder := {
  canBeCached : Z -> bool;
  keyDecode : list byte -> Z -> Z -> string
}.

(** The given primitives of [./utils/utf8] and [./utils/int], and the
    engine's conversion of a number used as a property name. *)
Record Host := {
  utf8DecodeJs : list byte -> Z -> Z -> string;
  utf8DecodeTD : list byte -> Z -> Z -> string;
  TEXT_DECODER_THRESHOLD : Z;
  getUint64 : list byte -> Z;
  getInt64 : list byte -> Z;
  numberToString : number -> string
}.

(** Modelled from the spec: [UINT32_MAX] of [./utils/int], the "maximum
    representable 32-bit unsigned value". *)
Definition UINT32_MAX : Z := 4294967295.

(** [extensionCodec.decode(data, extType, context)] sees the binary it is
    handed, the bytes that binary shows at the time of the call, and the
    type code. *)
Definition ExtensionCodecType (B : Type) := B -> list byte -> Z -> error + value B.

(** The constructor's parameters, the pull callback apart. *)
Record OptionsOf (B : Type) := {
  extensionCodec : ExtensionCodecType B;
  maxStrLength : Z;
  maxBinLength : Z;
  maxArrayLength : Z;
  maxMapLength : Z;
  maxExtLength : Z;
  keyDecoder : option KeyDecoder
}.

Arguments extensionCodec {B}.
Arguments maxStrLength {B}.
Arguments maxBinLength {B}.
Arguments maxArrayLength {B}.
Arguments maxMapLength {B}.
Arguments maxExtLength {B}.
Arguments keyDecoder {B}.

Abbreviation Options := (OptionsOf Uint8Array).

Definition DEFAULT_INITIAL_BUFFER_SIZE : Z := 2048.

(** ** The frame stack *)

Inductive MapKeyType := KeyString (s : string) | KeyNumber (n : number).

Inductive MapStateType := STATE_MAP_KEY | STATE_MAP_VALUE.

(** [StackArrayState | StackMapState]; the [type] tag [STATE_ARRAY] is the
    constructor. *)
Inductive StackState (B : Type) :=
| StackArrayState (size : Z) (array : list (value B)) (position : Z)
| StackMapState (type : MapStateType) (size : Z) (key : option MapKeyType)
    (readCount : Z) (map : list (string * value B)).

Arguments StackArrayState {B} size array position.
Arguments StackMapState {B} type size key readCount map.

Definition HEAD_BYTE_REQUIRED : Z := -1.

(** [const isValidMapKeyType = (key) => typeof key is "string" or "number"] *)
Definition isValidMapKeyType {B} (key : value B) : bool :=
  match typeof key with
  | TString | TNumber => true
  | _ => false
  end.

(** [array[i] = x]: in range it overwrites, beyond the end the array grows
    and the skipped slots are unset; a negative [i] names a property and
    leaves the elements alone. *)
Definition setIndex {B} (i : Z) (x : value B) (l : list (value B)) : list (value B) :=
  let n := Z.to_nat i in
  if i <? 0 then l
  else if (n <? length l)%nat then <[n := x]> l
  else l ++ repeat VUndefined (n - length l) ++ [x].

(** ** Completing a value: the walk up the frame stack *)

Section Frames.
Variable B : Type.
Variable host : Host.

(** [state.key = object] for an [object] that passed [isValidMapKeyType]. *)
Definition asMapKey (object : value B) : option MapKeyType :=
  match object with
  | VString s => Some (KeyString s)
  | VNumber n => Some (KeyNumber n)
  | _ => None
  end.

(** The property name of [state.map[state.key!]]: [!] asserts nothing at
    run time, so [null] would name the property ["null"]. *)
Definition propertyKey (key : option MapKeyType) : string :=
  match key with
  | Some (KeyString s) => s
  | Some (KeyNumber n) => numberToString host n
  | None => "null"
  end.

(** How a turn of the outer loop ends: [continue DECODE] or [return object]. *)
Inductive Next :=
| ContinueDecode
| Return (object : value B).

(** The loop [while (stack.length > 0)] of [doDecodeSync]: [object] has
    just been completed.  The stack's top is the head of the list; the
    recursive calls are the turns that follow a [stack.pop()]. *)
Fixpoint fillFrames (object : value B) (stack : list (StackState B))
  : outcome Next * list (StackState B) :=
  match stack with
  | [] => (Ok (Return object), [])
  | StackArrayState size array position :: rest =>
      let array := setIndex position object array in
      let position := position + 1 in
      if position =? size
      then fillFrames (VArray array) rest
      else (Ok ContinueDecode, StackArrayState size array position :: rest)
  | StackMapState STATE_MAP_KEY size key readCount map :: rest =>
      if negb (isValidMapKeyType object)
      then (Throw (DecodeError (KeyTypeMustBeStringOrNumber (typeof object))), stack)
      else if strictEqualsString object "__proto__"
      then (Throw (DecodeError KeyProtoNotAllowed), stack)
      else (Ok ContinueDecode,
            StackMapState STATE_MAP_VALUE size (asMapKey object) readCount map :: rest)
  | StackMapState STATE_MAP_VALUE size key readCount map :: rest =>
      let map := setProperty (propertyKey key) object map in
      let readCount := readCount + 1 in
      if readCount =? size
      then fillFrames (VObject map) rest
      else (Ok ContinueDecode, StackMapState STATE_MAP_KEY size None readCount map :: rest)
  end.

End Frames.

Arguments asMapKey {B} object.
Arguments ContinueDecode {B}.
Arguments Return {B} object.
Arguments fillFrames {B} host object stack.

(** ** The stream decoder *)

(** The pull callback [read: (data: Uint8Array) => number] closes over a
    state of type [S].  Called with the length of the view it is handed, it
    answers the bytes it stores from the start of that view, the number it
    returns, and its next state. *)
Definition PullSource (S : Type) := nat -> S -> list byte * Z * S.

(** The decoder instance with the heap its views live in and the state of
    its pull callback. *)
Record State (S : Type) := mkState {
  heap : Heap;
  source : S;
  headByte : Z;
  bytes : nat;      (* the [ArrayBuffer] behind [this.view] and [this.bytes] *)
  stack : list (StackState Uint8Array)
}.

Arguments mkState {S}.
Arguments heap {S}.
Arguments source {S}.
Arguments headByte {S}.
Arguments bytes {S}.
Arguments stack {S}.

Section StreamDecoder.
Context {S : Type}.
Variable read : PullSource S.
Variable host : Host.
Variable options : Options.

Abbreviation jsval := (value Uint8Array).
Abbreviation Dec := (M (State S)).

Definition setHeadByte (b : Z) : Dec unit :=
  modify (fun st => mkState (heap st) (source st) b (bytes st) (stack st)).

Definition setStack (s : list (StackState Uint8Array)) : Dec unit :=
  modify (fun st => mkState (heap st) (source st) (headByte st) (bytes st) s).

(** [this.view.byteLength] *)
Definition capacity (st : State S) : nat := length (bufferOf (heap st) (bytes st)).

(** [this.bytes]: the whole scratch buffer. *)
Definition bytesView (st : State S) : Uint8Array := mkView (bytes st) 0 (capacity st).

Definition reinitializeState : Dec unit :=
  setHeadByte HEAD_BYTE_REQUIRED ;; setStack [].

Definition resizeBuffer (newSize : Z) : Dec unit :=
  modify (fun st =>
    let '(newBuffer, h) := newArrayBuffer newSize (heap st) in
    mkState h (source st) (headByte st) newBuffer (stack st)).

Definition ensureBufferSizeToWrite (sizeToWrite : Z) : Dec unit :=
  st <- get ;;
  if Z.of_nat (capacity st) <? sizeToWrite
  then resizeBuffer (Z.of_nat (capacity st) * 2)
  else ret tt.

(** [this.read(data)] *)
Definition callRead (data : Uint8Array) : Dec Z :=
  fun st =>
    let '(ws, n, src) := read (byteLength data) (source st) in
    (Ok n, mkState (fill (heap st) data ws) src (headByte st) (bytes st) (stack st)).

(** The loop [while (pos < length)] of [readBytes].  Every turn that does
    not throw advances [pos] by at least one, so [length - pos] turns are
    enough: [fuel] is never exhausted when it starts from there
    ([readLoop_fuel]). *)
Fixpoint readLoop (fuel : nat) (length pos : Z) : Dec unit :=
  if pos <? length then
    match fuel with
    | O => fun st => (OutOfFuel, st)
    | Datatypes.S fuel' =>
        st <- get ;;
        n <- callRead (subarray (bytesView st) pos length) ;;
        if n <=? 0 then throw MORE_DATA
        else readLoop fuel' length (pos + n)
    end
  else ret tt.

Definition readBytes (length : Z) : Dec Uint8Array :=
  ensureBufferSizeToWrite length ;;
  readLoop (Z.to_nat length) length 0 ;;
  st <- get ;;
  ret (subarray (bytesView st) 0 length).

(** [this.view.getXxx(0)] needs [n] bytes of the scratch buffer. *)
Definition viewBytes (n : nat) : Dec (list byte) :=
  st <- get ;;
  let buf := bufferOf (heap st) (bytes st) in
  if (n <=? length buf)%nat then ret (take n buf)
  else throw (RangeError "Offset is outside the bounds of the DataView").

Definition readU8 : Dec Z :=
  readBytes 1 ;; bs <- viewBytes 1 ;; ret (be_uint bs).
Definition readI8 : Dec Z :=
  readBytes 1 ;; bs <- viewBytes 1 ;; ret (to_signed 8 (be_uint bs)).
Definition readU16 : Dec Z :=
  readBytes 2 ;; bs <- viewBytes 2 ;; ret (be_uint bs).
Definition readI16 : Dec Z :=
  readBytes 2 ;; bs <- viewBytes 2 ;; ret (to_signed 16 (be_uint bs)).
Definition readU32 : Dec Z :=
  readBytes 4 ;; bs <- viewBytes 4 ;; ret (be_uint bs).
Definition readI32 : Dec Z :=
  readBytes 4 ;; bs <- viewBytes 4 ;; ret (to_signed 32 (be_uint bs)).
Definition readU64 : Dec Z :=
  readBytes 8 ;; bs <- viewBytes 8 ;; ret (getUint64 host bs).
Definition readI64 : Dec Z :=
  readBytes 8 ;; bs <- viewBytes 8 ;; ret (getInt64 host bs).
Definition readF32 : Dec number :=
  readBytes 4 ;; bs <- viewBytes 4 ;; ret (Float32 (be_uint bs)).
Definition readF64 : Dec number :=
  readBytes 8 ;; bs <- viewBytes 8 ;; ret (Float64 (be_uint bs)).

Definition readHeadByte : Dec Z :=
  st <- get ;;
  if headByte st =? HEAD_BYTE_REQUIRED
  then b <- readU8 ;; setHeadByte b ;; ret b
  else ret (headByte st).

Definition complete : Dec unit := setHeadByte HEAD_BYTE_REQUIRED.

Definition pushMapState (size : Z) : Dec unit :=
  if size >? maxMapLength options
  then throw (DecodeError (MaxLengthExceeded MapLength size (maxMapLength options)))
  else
    st <- get ;;
    setStack (StackMapState STATE_MAP_KEY size None 0 [] :: stack st).

Definition pushArrayState (size : Z) : Dec unit :=
  if size >? maxArrayLength options
  then throw (DecodeError (MaxLengthExceeded ArrayLength size (maxArrayLength options)))
  else
    st <- get ;;
    setStack (StackArrayState size (repeat VUndefined (Z.to_nat size)) 0 :: stack st).

Definition stateIsMapKey : Dec bool :=
  st <- get ;;
  match stack st with
  | StackMapState STATE_MAP_KEY _ _ _ _ :: _ => ret true
  | _ => ret false
  end.

Definition decodeUtf8String (byteLength : Z) : Dec string :=
  if byteLength >? maxStrLength options
  then throw (DecodeError (MaxLengthExceeded StrLength byteLength (maxStrLength options)))
  else
    data <- readBytes byteLength ;;
    st <- get ;;
    let bs := contents (heap st) data in
    isKey <- stateIsMapKey ;;
    match keyDecoder options with
    | Some kd =>
        if isKey && canBeCached kd byteLength then ret (keyDecode kd bs 0 byteLength)
        else if byteLength >? TEXT_DECODER_THRESHOLD host
             then ret (utf8DecodeTD host bs 0 byteLength)
             else ret (utf8DecodeJs host bs 0 byteLength)
    | None =>
        if byteLength >? TEXT_DECODER_THRESHOLD host
        then ret (utf8DecodeTD host bs 0 byteLength)
        else ret (utf8DecodeJs host bs 0 byteLength)
    end.

Definition decodeBinary (byteLength : Z) : Dec Uint8Array :=
  if byteLength >? maxBinLength options
  then throw (DecodeError (MaxLengthExceeded BinLength byteLength (maxBinLength options)))
  else readBytes byteLength.

Definition decodeExtension (size : Z) : Dec jsval :=
  if size >? maxExtLength options
  then throw (DecodeError (MaxLengthExceeded ExtLength size (maxExtLength options)))
  else
    extType <- readI8 ;;
    data <- decodeBinary size ;;
    st <- get ;;
    match extensionCodec options data (contents (heap st) data) extType with
    | inl e => throw e
    | inr v => ret v
    end.

Definition fillStack (object : jsval) : Dec (Next Uint8Array) :=
  fun st =>
    let '(r, stk) := fillFrames host object (stack st) in
    (r, mkState (heap st) (source st) (headByte st) (bytes st) stk).

(** A container header: push the frame and [continue DECODE] when the size
    is not zero, else the empty container is the object. *)
Definition beginMap (size : Z) : Dec (option jsval) :=
  if negb (size =? 0)
  then pushMapState size ;; complete ;; ret None
  else ret (Some (VObject [])).

Definition beginArray (size : Z) : Dec (option jsval) :=
  if negb (size =? 0)
  then pushArrayState size ;; complete ;; ret None
  else ret (Some (VArray [])).

Definition some {A} (m : Dec A) (f : A -> jsval) : Dec (option jsval) :=
  a <- m ;; ret (Some (f a)).

Definition int (z : Z) : jsval := VNumber (Int z).

(** The chain of tests on [headByte] in [doDecodeSync].  [None] stands for
    the branches that end in [continue DECODE]; [Some object] for those that
    fall through to [this.complete()]. *)
Definition decodeHead (headByte : Z) : Dec (option jsval) :=
  if headByte >=? 0xe0 then ret (Some (int (headByte - 0x100)))
  else if headByte <? 0xc0 then
    if headByte <? 0x80 then ret (Some (int headByte))
    else if headByte <? 0x90 then beginMap (headByte - 0x80)
    else if headByte <? 0xa0 then beginArray (headByte - 0x90)
    else some (decodeUtf8String (headByte - 0xa0)) VString
  else if headByte =? 0xc0 then ret (Some VNull)
  else if headByte =? 0xc2 then ret (Some (VBool false))
  else if headByte =? 0xc3 then ret (Some (VBool true))
  else if headByte =? 0xca then some readF32 VNumber
  else if headByte =? 0xcb then some readF64 VNumber
  else if headByte =? 0xcc then some readU8 int
  else if headByte =? 0xcd then some readU16 int
  else if headByte =? 0xce then some readU32 int
  else if headByte =? 0xcf then some readU64 int
  else if headByte =? 0xd0 then some readI8 int
  else if headByte =? 0xd1 then some readI16 int
  else if headByte =? 0xd2 then some readI32 int
  else if headByte =? 0xd3 then some readI64 int
  else if headByte =? 0xd9 then some (n <- readU8 ;; decodeUtf8String n) VString
  else if headByte =? 0xda then some (n <- readU16 ;; decodeUtf8String n) VString
  else if headByte =? 0xdb then some (n <- readU32 ;; decodeUtf8String n) VString
  else if headByte =? 0xdc then size <- readU16 ;; beginArray size
  else if headByte =? 0xdd then size <- readU32 ;; beginArray size
  else if headByte =? 0xde then size <- readU16 ;; beginMap size
  else if headByte =? 0xdf then size <- readU32 ;; beginMap size
  else if headByte =? 0xc4 then some (n <- readU8 ;; decodeBinary n) VBinary
  else if headByte =? 0xc5 then some (n <- readU16 ;; decodeBinary n) VBinary
  else if headByte =? 0xc6 then some (n <- readU32 ;; decodeBinary n) VBinary
  else if headByte =? 0xd4 then some (decodeExtension 1) id
  else if headByte =? 0xd5 then some (decodeExtension 2) id
  else if headByte =? 0xd6 then some (decodeExtension 4) id
  else if headByte =? 0xd7 then some (decodeExtension 8) id
  else if headByte =? 0xd8 then some (decodeExtension 16) id
  else if headByte =? 0xc7 then some (n <- readU8 ;; decodeExtension n) id
  else if headByte =? 0xc8 then some (n <- readU16 ;; decodeExtension n) id
  else if headByte =? 0xc9 then some (n <- readU32 ;; decodeExtension n) id
  else throw (DecodeError (UnrecognizedTypeByte headByte)).

(** [doDecodeSync]: [fuel] bounds the turns of [DECODE: while (true)]. *)
Fixpoint doDecodeSync (fuel : nat) : Dec jsval :=
  match fuel with
  | O => fun st => (OutOfFuel, st)
  | Datatypes.S fuel' =>
      headByte <- readHeadByte ;;
      o <- decodeHead headByte ;;
      match o with
      | None => doDecodeSync fuel'
      | Some object =>
          complete ;;
          next <- fillStack object ;;
          match next with
          | ContinueDecode => doDecodeSync fuel'
          | Return object => ret object
          end
      end
  end.

(** [public decode()] *)
Definition decode (fuel : nat) : Dec jsval :=
  reinitializeState ;; doDecodeSync fuel.

End StreamDecoder.

(** The field initialisers of the class: a fresh scratch buffer of
    [DEFAULT_INITIAL_BUFFER_SIZE] bytes, no head byte, an empty stack. *)
Definition newStreamDecoder {S} (src : S) : State S :=
  let '(buf, h) := newArrayBuffer DEFAULT_INITIAL_BUFFER_SIZE [] in
  mkState h src HEAD_BYTE_REQUIRED buf [].

(** [decodeStream(read, options)] of [src/decode.ts]: construct a decoder
    over the pull callback and return [decoder.decode()]. *)
Definition decodeStream {S} (read : PullSource S) (host : Host) (options : Options)
    (fuel : nat) (src : S) : outcome (value Uint8Array) * State S :=
  decode read host options fuel (newStreamDecoder src).

(** ** Pull callbacks and a host to run the decoder on *)

(** The callback of the repository's stream benchmark: it closes over the
    encoded bytes and a cursor [pos], copies as much as fits in the view and
    returns the number of bytes copied. *)
Definition benchRead (encoded : list byte) : PullSource nat :=
  fun dataLength pos =>
    let end_ := Nat.min (dataLength + pos) (length encoded) in
    (take (end_ - pos) (drop pos encoded), Z.of_nat end_ - Z.of_nat pos, end_).

(** A callback over a transport that delivers the input in chunks: a pull
    is served from the first chunk only, and an empty chunk is a moment at
    which the transport has nothing to give. *)
Definition chunkRead : PullSource (list (list byte)) :=
  fun dataLength chunks =>
    match chunks with
    | [] => ([], 0, [])
    | c :: rest =>
        let ws := take dataLength c in
        (ws, Z.of_nat (length ws),
         match drop dataLength c with
         | [] => rest
         | c' => c' :: rest
         end)
    end.

Module Sample.

(** Stand-ins for the host primitives, for running the decoder on concrete
    inputs: strings are kept as their UTF-8 bytes, 64-bit integers are
    exact, and a float used as a property name is printed as its bit
    pattern. *)
Definition utf8 (bs : list byte) (inputOffset byteLength : Z) : string :=
  string_of_list_byte (take (Z.to_nat byteLength) (drop (Z.to_nat inputOffset) bs)).

Definition decimal (z : Z) : string := DecimalString.NilZero.string_of_int (Z.to_int z).

Definition showNumber (n : number) : string :=
  match n with
  | Int z => decimal z
  | Float32 bits => "float32:" ++ decimal bits
  | Float64 bits => "float64:" ++ decimal bits
  end.

Definition host : Host :=
  {| utf8DecodeJs := utf8;
     utf8DecodeTD := utf8;
     TEXT_DECODER_THRESHOLD := 200;
     getUint64 := be_uint;
     getInt64 := fun bs => to_signed 64 (be_uint bs);
     numberToString := showNumber |}.

Definition keys : KeyDecoder :=
  {| canBeCached := fun n => (0 <? n) && (n <=? 16);
     keyDecode := utf8 |}.

(** An extension codec that wraps every payload in an [ExtData]. *)
Definition extData {B} : ExtensionCodecType B := fun data _ extType => inr (VExtData extType data).

(** The defaults of the constructor. *)
Definition optionsOf (B : Type) : OptionsOf B :=
  {| extensionCodec := extData;
     maxStrLength := UINT32_MAX;
     maxBinLength := UINT32_MAX;
     maxArrayLength := UINT32_MAX;
     maxMapLength := UINT32_MAX;
     maxExtLength := UINT32_MAX;
     keyDecoder := Some keys |}.

Definition options : Options := optionsOf Uint8Array.

(** Run [decodeStream] and show the result with its views resolved in the
    final heap. *)
Definition run {S} (read : PullSource S) (opts : Options) (fuel : nat) (src : S)
  : outcome (value (list byte)) :=
  let '(r, st) := decodeStream read host opts fuel src in
  match r with
  | Ok v => Ok (snapshot (heap st) v)
  | Throw e => Throw e
  | OutOfFuel => OutOfFuel
  end.

End Sample.


(** ** The buffer-resident decoder *)

Module Decoder.

(** Modelled from the spec: the state of the buffer-resident decoder of
    [./Decoder], which [decode] of [src/decode.ts] constructs and which is
    not among the sources.  Spec 4.3 gives it the state machine of the stream
    decoder over "a complete buffer": the input with its cursor (kept as
    the part of the buffer from the cursor on), the head-byte sentinel and
    the frame stack.  A binary is the bytes it shows, since the input is
    never written to. *)
Record State := mkState {
  unread : list byte;
  headByte : Z;
  stack : list (StackState (list byte))
}.

Section Decoder.
Variable host : Host.
Variable options : OptionsOf (list byte).

Abbreviation bval := (value (list byte)).
Abbreviation Dec := (M State).

(** Modelled from the spec: "read N bytes" of [./Decoder], "a bounds check
    against the fixed buffer" that fails with the insufficient-data
    condition. *)
Definition readBytes (length : Z) : Dec (list byte) :=
  fun st =>
    let n := Z.to_nat length in
    if (n <=? List.length (unread st))%nat
    then (Ok (take n (unread st)), mkState (drop n (unread st)) (headByte st) (stack st))
    else (Throw MORE_DATA, st).

(** Modelled from the spec: the numeric reads of [./Decoder] through
    "read N bytes", big-endian as in the stream decoder. *)
Definition readUnsigned (n : Z) : Dec Z := bs <- readBytes n ;; ret (be_uint bs).

(** Modelled from the spec: the signed reads of [./Decoder]. *)
Definition readSigned (n : Z) : Dec Z :=
  bs <- readBytes n ;; ret (to_signed (8 * n) (be_uint bs)).

(** Modelled from the spec: the 64-bit reads of [./Decoder] through the
    given primitives. *)
Definition readU64 : Dec Z := bs <- readBytes 8 ;; ret (getUint64 host bs).

(** Modelled from the spec: see [readU64]. *)
Definition readI64 : Dec Z := bs <- readBytes 8 ;; ret (getInt64 host bs).

(** Modelled from the spec: the head-byte sentinel of [./Decoder]. *)
Definition setHeadByte (b : Z) : Dec unit :=
  modify (fun st => mkState (unread st) b (stack st)).

(** Modelled from the spec: the frame stack of [./Decoder]. *)
Definition setStack (s : list (StackState (list byte))) : Dec unit :=
  modify (fun st => mkState (unread st) (headByte st) s).

(** Modelled from the spec: "read one header byte if the sentinel indicates
    none pending" in [./Decoder]. *)
Definition readHeadByte : Dec Z :=
  st <- get ;;
  if headByte st =? HEAD_BYTE_REQUIRED
  then b <- readUnsigned 1 ;; setHeadByte b ;; ret b
  else ret (headByte st).

(** Modelled from the spec: clearing the sentinel in [./Decoder]. *)
Definition complete : Dec unit := setHeadByte HEAD_BYTE_REQUIRED.

(** Modelled from the spec: pushing a map frame in [./Decoder] "after
    validating its declared size against the configured maximum". *)
Definition pushMapState (size : Z) : Dec unit :=
  if size >? maxMapLength options
  then throw (DecodeError (MaxLengthExceeded MapLength size (maxMapLength options)))
  else
    st <- get ;;
    setStack (StackMapState STATE_MAP_KEY size None 0 [] :: stack st).

(** Modelled from the spec: pushing an array frame in [./Decoder]. *)
Definition pushArrayState (size : Z) : Dec unit :=
  if size >? maxArrayLength options
  then throw (DecodeError (MaxLengthExceeded ArrayLength size (maxArrayLength options)))
  else
    st <- get ;;
    setStack (StackArrayState size (repeat VUndefined (Z.to_nat size)) 0 :: stack st).

(** Modelled from the spec: "the string is being read as a map key" in
    [./Decoder]. *)
Definition stateIsMapKey : Dec bool :=
  st <- get ;;
  match stack st with
  | StackMapState STATE_MAP_KEY _ _ _ _ :: _ => ret true
  | _ => ret false
  end.

(** Modelled from the spec: string decoding of [./Decoder], which "chooses
    between a direct byte-to-text decode and the Map-Key Decode Cache". *)
Definition decodeUtf8String (byteLength : Z) : Dec string :=
  if byteLength >? maxStrLength options
  then throw (DecodeError (MaxLengthExceeded StrLength byteLength (maxStrLength options)))
  else
    bs <- readBytes byteLength ;;
    isKey <- stateIsMapKey ;;
    match keyDecoder options with
    | Some kd =>
        if isKey && canBeCached kd byteLength then ret (keyDecode kd bs 0 byteLength)
        else if byteLength >? TEXT_DECODER_THRESHOLD host
             then ret (utf8DecodeTD host bs 0 byteLength)
             else ret (utf8DecodeJs host bs 0 byteLength)
    | None =>
        if byteLength >? TEXT_DECODER_THRESHOLD host
        then ret (utf8DecodeTD host bs 0 byteLength)
        else ret (utf8DecodeJs host bs 0 byteLength)
    end.

(** Modelled from the spec: binary decoding of [./Decoder]. *)
Definition decodeBinary (byteLength : Z) : Dec (list byte) :=
  if byteLength >? maxBinLength options
  then throw (DecodeError (MaxLengthExceeded BinLength byteLength (maxBinLength options)))
  else readBytes byteLength.

(** Modelled from the spec: extension decoding of [./Decoder], which "reads
    the 8-bit signed type code, then reads the declared-length payload, then
    dispatches to the Extension Registry". *)
Definition decodeExtension (size : Z) : Dec bval :=
  if size >? maxExtLength options
  then throw (DecodeError (MaxLengthExceeded ExtLength size (maxExtLength options)))
  else
    extType <- readSigned 1 ;;
    data <- decodeBinary size ;;
    match extensionCodec options data data extType with
    | inl e => throw e
    | inr v => ret v
    end.

(** Modelled from the spec: completion in [./Decoder], the walk up the
    frame stack of spec 4.3 step 3, which is [fillFrames]. *)
Definition fillStack (object : bval) : Dec (Next (list byte)) :=
  fun st =>
    let '(r, stk) := fillFrames host object (stack st) in
    (r, mkState (unread st) (headByte st) stk).

(** Modelled from the spec: a map header in [./Decoder]. *)
Definition beginMap (size : Z) : Dec (option bval) :=
  if negb (size =? 0)
  then pushMapState size ;; complete ;; ret None
  else ret (Some (VObject [])).

(** Modelled from the spec: an array header in [./Decoder]. *)
Definition beginArray (size : Z) : Dec (option bval) :=
  if negb (size =? 0)
  then pushArrayState size ;; complete ;; ret None
  else ret (Some (VArray [])).

(** Modelled from the spec: a branch of the header table that yields an
    object. *)
Definition some {A} (m : Dec A) (f : A -> bval) : Dec (option bval) :=
  a <- m ;; ret (Some (f a)).

(** Modelled from the spec: the classification of the header byte in
    [./Decoder], "following the fixed MessagePack header-byte table" of
    spec 6. *)
Definition decodeHead (headByte : Z) : Dec (option bval) :=
  if headByte >=? 0xe0 then ret (Some (VNumber (Int (headByte - 0x100))))
  else if headByte <? 0xc0 then
    if headByte <? 0x80 then ret (Some (VNumber (Int headByte)))
    else if headByte <? 0x90 then beginMap (headByte - 0x80)
    else if headByte <? 0xa0 then beginArray (headByte - 0x90)
    else some (decodeUtf8String (headByte - 0xa0)) VString
  else if headByte =? 0xc0 then ret (Some VNull)
  else if headByte =? 0xc2 then ret (Some (VBool false))
  else if headByte =? 0xc3 then ret (Some (VBool true))
  else if headByte =? 0xc4 then some (n <- readUnsigned 1 ;; decodeBinary n) VBinary
  else if headByte =? 0xc5 then some (n <- readUnsigned 2 ;; decodeBinary n) VBinary
  else if headByte =? 0xc6 then some (n <- readUnsigned 4 ;; decodeBinary n) VBinary
  else if headByte =? 0xc7 then some (n <- readUnsigned 1 ;; decodeExtension n) id
  else if headByte =? 0xc8 then some (n <- readUnsigned 2 ;; decodeExtension n) id
  else if headByte =? 0xc9 then some (n <- readUnsigned 4 ;; decodeExtension n) id
  else if headByte =? 0xca then some (readBytes 4) (fun bs => VNumber (Float32 (be_uint bs)))
  else if headByte =? 0xcb then some (readBytes 8) (fun bs => VNumber (Float64 (be_uint bs)))
  else if headByte =? 0xcc then some (readUnsigned 1) (fun z => VNumber (Int z))
  else if headByte =? 0xcd then some (readUnsigned 2) (fun z => VNumber (Int z))
  else if headByte =? 0xce then some (readUnsigned 4) (fun z => VNumber (Int z))
  else if headByte =? 0xcf then some readU64 (fun z => VNumber (Int z))
  else if headByte =? 0xd0 then some (readSigned 1) (fun z => VNumber (Int z))
  else if headByte =? 0xd1 then some (readSigned 2) (fun z => VNumber (Int z))
  else if headByte =? 0xd2 then some (readSigned 4) (fun z => VNumber (Int z))
  else if headByte =? 0xd3 then some readI64 (fun z => VNumber (Int z))
  else if headByte =? 0xd4 then some (decodeExtension 1) id
  else if headByte =? 0xd5 then some (decodeExtension 2) id
  else if headByte =? 0xd6 then some (decodeExtension 4) id
  else if headByte =? 0xd7 then some (decodeExtension 8) id
  else if headByte =? 0xd8 then some (decodeExtension 16) id
  else if headByte =? 0xd9 then some (n <- readUnsigned 1 ;; decodeUtf8String n) VString
  else if headByte =? 0xda then some (n <- readUnsigned 2 ;; decodeUtf8String n) VString
  else if headByte =? 0xdb then some (n <- readUnsigned 4 ;; decodeUtf8String n) VString
  else if headByte =? 0xdc then size <- readUnsigned 2 ;; beginArray size
  else if headByte =? 0xdd then size <- readUnsigned 4 ;; beginArray size
  else if headByte =? 0xde then size <- readUnsigned 2 ;; beginMap size
  else if headByte =? 0xdf then size <- readUnsigned 4 ;; beginMap size
  else throw (DecodeError (UnrecognizedTypeByte headByte)).

(** Modelled from the spec: the loop of spec 4.3 steps 2 and 3 in
    [./Decoder]; [fuel] bounds its turns. *)
Fixpoint doDecodeSync (fuel : nat) : Dec bval :=
  match fuel with
  | O => fun st => (OutOfFuel, st)
  | Datatypes.S fuel' =>
      headByte <- readHeadByte ;;
      o <- decodeHead headByte ;;
      match o with
      | None => doDecodeSync fuel'
      | Some object =>
          complete ;;
          next <- fillStack object ;;
          match next with
          | ContinueDecode => doDecodeSync fuel'
          | Return object => ret object
          end
      end
  end.

(** Modelled from the spec: [decode(buffer)] of [./Decoder]: reset, decode
    one value, and fail on "trailing bytes after a complete value".  The
    loop is given one turn more than the buffer has bytes; a turn reads a
    head byte, and the encoding of a value has a byte for each of its
    headers ([nodes_le_length]). *)
Definition decode (buffer : list byte) : outcome bval :=
  match doDecodeSync (Datatypes.S (List.length buffer))
          (mkState buffer HEAD_BYTE_REQUIRED []) with
  | (Ok object, st) =>
      match unread st with
      | [] => Ok object
      | _ :: _ => Throw (DecodeError ExtraBytesFound)
      end
  | (Throw e, _) => Throw e
  | (OutOfFuel, _) => OutOfFuel
  end.

End Decoder.

End Decoder.

(** Modelled from the spec: [decode(buffer, options)] of [src/decode.ts]
    constructs the buffer-resident decoder, which is not among the sources,
    and returns [decoder.decode(buffer)]. *)
Definition decodeBuffer (host : Host) (options : OptionsOf (list byte))
    (buffer : list byte) : outcome (value (list byte)) :=
  Decoder.decode host options buffer.


(** ** The encoder *)

Module Encoder.

(** Modelled from the spec: the errors of [./Encoder] (spec 7), which is
    not among the sources: depth exceeded, unsupported value, and a length
    that no 32-bit length field can hold. *)
Inductive EncodeFailure :=
| DepthExceeded (depth : Z)
| UnsupportedValue
| TooLarge.

Section Encoder.
Variable utf8Encode : string -> list byte.
Variable float32ToFloat64 : Z -> Z.
Variable tryToEncode : value (list byte) -> option (Z * list byte).
Variable maxDepth : Z.

Abbreviation bval := (value (list byte)).
Abbreviation Enc := (EncodeFailure + list byte)%type.

(** Modelled from the spec: sequencing of appends to the Output Buffer of
    [./utils/WritableBuffer], kept as the bytes written so far. *)
Definition andThen (a : Enc) (k : list byte -> Enc) : Enc :=
  match a with
  | inl e => inl e
  | inr bs => k bs
  end.

(** Modelled from the spec: the big-endian bytes of an n-byte field, two's
    complement for a negative number. *)
Fixpoint be_bytes (n : nat) (z : Z) : list byte :=
  match n with
  | O => []
  | Datatypes.S n' => be_bytes n' (z / 256) ++ [byte_of_Z z]
  end.

(** Modelled from the spec: the integer formats of [./Encoder], "the
    smallest wire representation that round-trips the value exactly". *)
Definition encodeInteger (z : Z) : Enc :=
  if 0 <=? z then
    if z <? 0x80 then inr [byte_of_Z z]
    else if z <? 0x100 then inr (xcc :: be_bytes 1 z)
    else if z <? 0x10000 then inr (xcd :: be_bytes 2 z)
    else if z <? 0x100000000 then inr (xce :: be_bytes 4 z)
    else if z <? 0x10000000000000000 then inr (xcf :: be_bytes 8 z)
    else inl UnsupportedValue
  else
    if -0x20 <=? z then inr [byte_of_Z (z + 0x100)]
    else if -0x80 <=? z then inr (xd0 :: be_bytes 1 z)
    else if -0x8000 <=? z then inr (xd1 :: be_bytes 2 z)
    else if -0x80000000 <=? z then inr (xd2 :: be_bytes 4 z)
    else if -0x8000000000000000 <=? z then inr (xd3 :: be_bytes 8 z)
    else inl UnsupportedValue.

(** Modelled from the spec: a header with its length, inline for a small
    one ([fixLimit], [fixBase]), else in the narrowest of the three
    length-prefixed forms ([h8] is absent for arrays and maps). *)
Definition lengthHeader (fixLimit fixBase : Z) (h8 : option byte) (h16 h32 : byte)
    (len : nat) : Enc :=
  let n := Z.of_nat len in
  if n <? fixLimit then inr [byte_of_Z (fixBase + n)]
  else
    match h8 with
    | Some h =>
        if n <? 0x100 then inr (h :: be_bytes 1 n)
        else if n <? 0x10000 then inr (h16 :: be_bytes 2 n)
        else if n <? 0x100000000 then inr (h32 :: be_bytes 4 n)
        else inl TooLarge
    | None =>
        if n <? 0x10000 then inr (h16 :: be_bytes 2 n)
        else if n <? 0x100000000 then inr (h32 :: be_bytes 4 n)
        else inl TooLarge
    end.

(** Modelled from the spec: strings in [./Encoder], "UTF-8 byte length
    determines header". *)
Definition encodeString (s : string) : Enc :=
  let bs := utf8Encode s in
  andThen (lengthHeader 32 0xa0 (Some xd9) xda xdb (length bs)) (fun h => inr (h ++ bs)).

(** Modelled from the spec: binaries in [./Encoder]. *)
Definition encodeBinary (bs : list byte) : Enc :=
  andThen (lengthHeader 0 0 (Some xc4) xc5 xc6 (length bs)) (fun h => inr (h ++ bs)).

(** Modelled from the spec: extensions in [./Encoder], "fixed-size fixext
    forms for payload lengths 1/2/4/8/16, else 8/16/32-bit length-prefixed
    ext forms, followed by the type code and payload". *)
Definition encodeExtension (type : Z) (payload : list byte) : Enc :=
  let n := Z.of_nat (length payload) in
  let header :=
    if n =? 1 then inr [xd4]
    else if n =? 2 then inr [xd5]
    else if n =? 4 then inr [xd6]
    else if n =? 8 then inr [xd7]
    else if n =? 16 then inr [xd8]
    else lengthHeader 0 0 (Some xc7) xc8 xc9 (length payload) in
  andThen header (fun h => inr (h ++ byte_of_Z type :: payload)).

(** Modelled from the spec: [encode(buffer, value, depth)] of [./Encoder]
    (spec 4.2).  A number that came from a float32 is a double like any
    other and goes out in the 64-bit form, through the widening primitive. *)
Fixpoint doEncode (depth : Z) (v : bval) {struct v} : Enc :=
  if depth >? maxDepth then inl (DepthExceeded depth)
  else
    match v with
    | VNull => inr [xc0]
    | VBool false => inr [xc2]
    | VBool true => inr [xc3]
    | VNumber (Int z) => encodeInteger z
    | VNumber (Float64 bits) => inr (xcb :: be_bytes 8 bits)
    | VNumber (Float32 bits) => inr (xcb :: be_bytes 8 (float32ToFloat64 bits))
    | VString s => encodeString s
    | VBinary bs => encodeBinary bs
    | VArray items =>
        andThen (lengthHeader 16 0x90 None xdc xdd (length items)) (fun h =>
        andThen
          ((fix encodeItems (items : list bval) : Enc :=
              match items with
              | [] => inr []
              | x :: rest =>
                  andThen (doEncode (depth + 1) x) (fun a =>
                  andThen (encodeItems rest) (fun b => inr (a ++ b)))
              end) items)
          (fun body => inr (h ++ body)))
    | VObject props =>
        andThen (lengthHeader 16 0x80 None xde xdf (length props)) (fun h =>
        andThen
          ((fix encodePairs (props : list (string * bval)) : Enc :=
              match props with
              | [] => inr []
              | (k, x) :: rest =>
                  andThen (encodeString k) (fun kb =>
                  andThen (doEncode (depth + 1) x) (fun a =>
                  andThen (encodePairs rest) (fun b => inr (kb ++ a ++ b))))
              end) props)
          (fun body => inr (h ++ body)))
    | VUndefined | VExtData _ _ =>
        match tryToEncode v with
        | Some (type, payload) => encodeExtension type payload
        | None => inl UnsupportedValue
        end
    end.

(** Modelled from the spec: the elements of an array in [./Encoder], "each
    element encoded recursively at depth + 1"; the loop inside [doEncode],
    by name. *)
Fixpoint encodeItems (depth : Z) (items : list (value (list byte)))
  : Enc :=
  match items with
  | [] => inr []
  | x :: rest =>
      andThen (doEncode (depth + 1) x) (fun a =>
      andThen (encodeItems depth rest) (fun b => inr (a ++ b)))
  end.

(** Modelled from the spec: the pairs of a map in [./Encoder], key then
    value; the loop inside [doEncode], by name. *)
Fixpoint encodePairs (depth : Z) (props : list (string * value (list byte)))
  : Enc :=
  match props with
  | [] => inr []
  | (k, x) :: rest =>
      andThen (encodeString k) (fun kb =>
      andThen (doEncode (depth + 1) x) (fun a =>
      andThen (encodePairs depth rest) (fun b => inr (kb ++ a ++ b))))
  end.

End Encoder.

End Encoder.

Definition DEFAULT_MAX_DEPTH : Z := 100.

(** [encode(value, options)] of [src/encode.ts]: a fresh output buffer, an
    encoder with [options.maxDepth || DEFAULT_MAX_DEPTH], and
    [context.encode(output, value, 1)]. *)
Definition encode (utf8Encode : string -> list byte) (float32ToFloat64 : Z -> Z)
    (tryToEncode : value (list byte) -> option (Z * list byte))
    (maxDepth : option Z) (v : value (list byte)) : Encoder.EncodeFailure + list byte :=
  let depthLimit :=
    match maxDepth with
    | Some d => if d =? 0 then DEFAULT_MAX_DEPTH else d
    | None => DEFAULT_MAX_DEPTH
    end in
  Encoder.doEncode utf8Encode float32ToFloat64 tryToEncode depthLimit 1 v.

Module SampleEncoder.

(** Stand-ins to run the encoder with: strings are their UTF-8 bytes, no
    extension is registered, and the widening of a float32 is left as it
    is. *)
Definition encode (v : value (list byte)) : Encoder.EncodeFailure + list byte :=
  encode list_byte_of_string (fun bits => bits) (fun _ => None) None v.

End SampleEncoder.


(** * Vocabulary of the properties *)

Definition maxLength (options : Options) (kind : LengthKind) : Z :=
  match kind with
  | StrLength => maxStrLength options
  | BinLength => maxBinLength options
  | ArrayLength => maxArrayLength options
  | MapLength => maxMapLength options
  | ExtLength => maxExtLength options
  end.

(** [m] throws [e] from [st] and leaves the whole machine as it was: no
    byte pulled, no buffer or array created, no frame pushed. *)
Definition throwsUntouched {S A} (m : M (State S) A) (st : State S) (e : error) : Prop :=
  m st = (Throw e, st).

(** Options with every limit at ten. *)
Definition tightOptions : Options :=
  {| extensionCodec := Sample.extData;
     maxStrLength := 10; maxBinLength := 10; maxArrayLength := 10;
     maxMapLength := 10; maxExtLength := 10;
     keyDecoder := None |}.

(** How a computation ended, whatever it would have returned. *)
Inductive ending := Returned | Thrown (e : error) | Starved.

Definition endingOf {A} (r : outcome A) : ending :=
  match r with
  | Ok _ => Returned
  | Throw e => Thrown e
  | OutOfFuel => Starved
  end.

(** [m] relates the state it starts from, the way it ends and the state it
    ends in by [R]. *)
Definition obeys {St A} (R : St -> ending -> St -> Prop) (m : M St A) : Prop :=
  forall st, R st (endingOf (m st).1) (m st).2.

(** Relations that hold of a computation that does nothing, and of a
    sequence as soon as they hold of its parts. *)
Class Frame {St} (R : St -> ending -> St -> Prop) := {
  frame_stay : forall st x, R st x st;
  frame_comp : forall st st1 st2 x, R st Returned st1 -> R st1 x st2 -> R st x st2
}.

(** [m] can only return values that satisfy [Q]. *)
Definition returns {St A} (m : M St A) (Q : A -> Prop) : Prop :=
  forall st a st', m st = (Ok a, st') -> Q a.

(** A callback never claims more bytes than the view it was handed holds. *)
Definition honest {S} (read : PullSource S) : Prop :=
  forall n s, (read n s).1.2 <= Z.of_nat n.

(** A callback under observation: the flag records that some pull has
    answered with no bytes. *)
Definition observe {S} (read : PullSource S) : PullSource (S * bool) :=
  fun n s =>
    let '(ws, k, s') := read n s.1 in
    (ws, k, (s', s.2 || (k <=? 0))).

(** The flag of an observed callback tells the outcome: once a pull has
    answered with no bytes, the computation has thrown [MORE_DATA]. *)
Definition exhaustionThrows {S} : State (S * bool) -> ending -> State (S * bool) -> Prop :=
  fun st x st' =>
    (source st).2 = false -> (source st').2 = true -> x = Thrown MORE_DATA.

(** ** Frames *)

Definition frameSize {B} (f : StackState B) : Z :=
  match f with
  | StackArrayState size _ _ => size
  | StackMapState _ size _ _ _ => size
  end.

(** The running count of a frame: elements stored, or pairs read. *)
Definition frameCount {B} (f : StackState B) : Z :=
  match f with
  | StackArrayState _ _ position => position
  | StackMapState _ _ _ readCount _ => readCount
  end.

(** A frame still being filled: its count has not reached its size. *)
Definition framePending {B} (f : StackState B) : Prop :=
  0 <= frameCount f < frameSize f.

(** A frame as [pushArrayState] and [pushMapState] make it. *)
Definition freshFrame {B} (f : StackState B) : Prop :=
  match f with
  | StackArrayState size array position =>
      0 < size /\ position = 0 /\ array = repeat VUndefined (Z.to_nat size)
  | StackMapState type size key readCount map =>
      0 < size /\ type = STATE_MAP_KEY /\ key = None /\ readCount = 0 /\ map = []
  end.

(** The stack is the same at the end as at the start. *)
Definition sameStack {S} : State S -> ending -> State S -> Prop :=
  fun st _ st' => stack st' = stack st.

(** What the chain on the head byte can yield as a completed object: a
    scalar, a string, a binary view, an empty container, or whatever the
    extension codec answered. *)
Definition headValue (options : Options) (v : value Uint8Array) : Prop :=
  (exists data bs t, extensionCodec options data bs t = inr v) \/
  match v with
  | VNull | VBool _ | VNumber _ | VString _ | VBinary _ | VArray [] | VObject [] => True
  | _ => False
  end.

(** What [decodeHead] does to the stack: [continue DECODE] goes with one
    fresh frame pushed, everything else leaves the stack alone. *)
Definition headSpec {S} (options : Options)
    (st : State S) (r : outcome (option (value Uint8Array))) (st' : State S) : Prop :=
  match r with
  | Ok None => exists f, freshFrame f /\ stack st' = f :: stack st
  | Ok (Some v) => headValue options v /\ stack st' = stack st
  | _ => stack st' = stack st
  end.

(** No object inside [v] has a property named ["__proto__"]. *)
Fixpoint protoFree {B} (v : value B) : bool :=
  match v with
  | VArray items => forallb protoFree items
  | VObject props =>
      forallb (fun kv => negb (String.eqb (fst kv) "__proto__") && protoFree (snd kv)) props
  | _ => true
  end.

Definition frameProtoFree {B} (host : Host) (f : StackState B) : bool :=
  match f with
  | StackArrayState _ array _ => forallb protoFree array
  | StackMapState type _ key _ map =>
      protoFree (VObject map) &&
      match type with
      | STATE_MAP_KEY => true
      | STATE_MAP_VALUE => negb (String.eqb (propertyKey host key) "__proto__")
      end
  end.

(** The scratch buffer is at least as long at the end as at the start. *)
Definition neverShrinks {S} : State S -> ending -> State S -> Prop :=
  fun st _ st' => (capacity st <= capacity st')%nat.


(** ** The run of the decoder with its pushes and pops written down *)

(** [Popped count size]: a frame of declared size [size] left the stack
    when its running count was [count]. *)
Inductive FrameEvent :=
| Pushed (size : Z)
| Popped (count size : Z).

(** [fillFrames] with an event for each [stack.pop()]. *)
Fixpoint fillFramesTraced {B} (host : Host) (object : value B) (stack : list (StackState B))
  : outcome (Next B) * list (StackState B) * list FrameEvent :=
  match stack with
  | [] => (Ok (Return object), [], [])
  | StackArrayState size array position :: rest =>
      let array := setIndex position object array in
      let position := position + 1 in
      if position =? size
      then
        let '(r, stk, events) := fillFramesTraced host (VArray array) rest in
        (r, stk, Popped position size :: events)
      else (Ok ContinueDecode, StackArrayState size array position :: rest, [])
  | StackMapState STATE_MAP_KEY size key readCount map :: rest =>
      if negb (isValidMapKeyType object)
      then (Throw (DecodeError (KeyTypeMustBeStringOrNumber (typeof object))), stack, [])
      else if strictEqualsString object "__proto__"
      then (Throw (DecodeError KeyProtoNotAllowed), stack, [])
      else (Ok ContinueDecode,
            StackMapState STATE_MAP_VALUE size (asMapKey object) readCount map :: rest, [])
  | StackMapState STATE_MAP_VALUE size key readCount map :: rest =>
      let map := setProperty (propertyKey host key) object map in
      let readCount := readCount + 1 in
      if readCount =? size
      then
        let '(r, stk, events) := fillFramesTraced host (VObject map) rest in
        (r, stk, Popped readCount size :: events)
      else (Ok ContinueDecode, StackMapState STATE_MAP_KEY size None readCount map :: rest, [])
  end.

(** The frames on top of [after] that [before] did not have. *)
Definition pushedBetween {B} (before after : list (StackState B)) : list FrameEvent :=
  map (fun f => Pushed (frameSize f)) (take (length after - length before) after).

Section Traced.
Context {S : Type}.
Variable read : PullSource S.
Variable host : Host.
Variable options : Options.

(** [doDecodeSync], turn by turn as in [doDecodeSync_turn], with the frame
    events of each turn: the frames that the head byte pushed, then the
    pops of the completion. *)
Fixpoint doDecodeSyncTraced (fuel : nat) (st : State S)
  : outcome (value Uint8Array) * State S * list FrameEvent :=
  match fuel with
  | O => (OutOfFuel, st, [])
  | Datatypes.S fuel' =>
      match readHeadByte read st with
      | (Ok hb, st1) =>
          match decodeHead read host options hb st1 with
          | (Ok None, st2) =>
              let '(r, st', events) := doDecodeSyncTraced fuel' st2 in
              (r, st', pushedBetween (stack st1) (stack st2) ++ events)
          | (Ok (Some object), st2) =>
              let st3 stk :=
                mkState (heap st2) (source st2) HEAD_BYTE_REQUIRED (bytes st2) stk in
              let pushed := pushedBetween (stack st1) (stack st2) in
              match fillFramesTraced host object (stack st2) with
              | (Ok ContinueDecode, stk, pops) =>
                  let '(r, st', events) := doDecodeSyncTraced fuel' (st3 stk) in
                  (r, st', pushed ++ pops ++ events)
              | (Ok (Return v), stk, pops) => (Ok v, st3 stk, pushed ++ pops)
              | (Throw e, stk, pops) => (Throw e, st3 stk, pushed ++ pops)
              | (OutOfFuel, stk, pops) => (OutOfFuel, st3 stk, pushed ++ pops)
              end
          | (Throw e, st2) => (Throw e, st2, pushedBetween (stack st1) (stack st2))
          | (OutOfFuel, st2) => (OutOfFuel, st2, pushedBetween (stack st1) (stack st2))
          end
      | (Throw e, st1) => (Throw e, st1, [])
      | (OutOfFuel, st1) => (OutOfFuel, st1, [])
      end
  end.

Definition decodeTraced (fuel : nat) (st : State S)
  : outcome (value Uint8Array) * State S * list FrameEvent :=
  doDecodeSyncTraced fuel (reinitializeState st).2.

End Traced.

(** Replay frame events against the declared sizes of the frames that are
    open, innermost first.  A pop must close the innermost open frame and
    come when the count equals the declared size; the answer is the sizes
    of the frames left open. *)
Fixpoint replay (events : list FrameEvent) (open : list Z) : option (list Z) :=
  match events with
  | [] => Some open
  | Pushed size :: events => replay events (size :: open)
  | Popped count size :: events =>
      match open with
      | s :: open' =>
          if (s =? size) && (count =? size) then replay events open' else None
      | [] => None
      end
  end.

(** A transport that stalls after two bytes of [[1, 2, 3]]. *)
Definition stalledInput : list (list byte) := [[x93; x01]; []; [x02; x03]].

(** The two-element array of a one-byte binary [05] and the integer 7. *)
Definition binaryThenInt : list byte := [x92; xc4; x01; x05; x07].

(** A str 16 of 4097 bytes. *)
Definition longString : list byte := xda :: x10 :: x01 :: repeat x61 4097.

(** ** Round trip *)

(** No two of the names are equal. *)
Fixpoint distinct (names : list string) : bool :=
  match names with
  | [] => true
  | x :: rest => negb (existsb (String.eqb x) rest) && distinct rest
  end.

(** The values of the round trip: nil, booleans, integers, doubles (a
    64-bit pattern), strings, binaries, and arrays and objects of such
    values.  An object has each property once.  (A number that came from a
    float32 is left out: its widening is not modelled.) *)
Fixpoint plain (v : value (list byte)) : bool :=
  match v with
  | VNull | VBool _ | VString _ | VBinary _ => true
  | VNumber (Int _) => true
  | VNumber (Float64 bits) => (0 <=? bits) && (bits <? 2 ^ 64)
  | VNumber (Float32 _) => false
  | VArray items => forallb plain items
  | VObject props => forallb (fun kv => plain (snd kv)) props && distinct (map fst props)
  | VUndefined | VExtData _ _ => false
  end.

(** The number of headers in the encoding of [v]: one turn of the decoding
    loop each. *)
Fixpoint nodes (v : value (list byte)) : nat :=
  match v with
  | VArray items => Datatypes.S (list_sum (map nodes items))
  | VObject props =>
      Datatypes.S (list_sum (map (fun kv => Datatypes.S (nodes (snd kv))) props))
  | _ => 1
  end.

(** The primitives agree with each other: each UTF-8 decoder undoes the
    UTF-8 encoder, the 64-bit readers are exact, and the decoder's limits are
    the defaults. *)
Record Faithful (utf8Encode : string -> list byte) (host : Host)
    (options : OptionsOf (list byte)) : Prop := {
  faithful_js : forall s,
    utf8DecodeJs host (utf8Encode s) 0 (Z.of_nat (length (utf8Encode s))) = s;
  faithful_td : forall s,
    utf8DecodeTD host (utf8Encode s) 0 (Z.of_nat (length (utf8Encode s))) = s;
  faithful_key : forall kd s, keyDecoder options = Some kd ->
    keyDecode kd (utf8Encode s) 0 (Z.of_nat (length (utf8Encode s))) = s;
  faithful_u64 : forall bs, getUint64 host bs = be_uint bs;
  faithful_i64 : forall bs, getInt64 host bs = to_signed 64 (be_uint bs);
  faithful_str : maxStrLength options = UINT32_MAX;
  faithful_bin : maxBinLength options = UINT32_MAX;
  faithful_array : maxArrayLength options = UINT32_MAX;
  faithful_map : maxMapLength options = UINT32_MAX
}.

Section After.
Variable host : Host.
Variable options : OptionsOf (list byte).

(** What the buffer-resident decoder does once [v] is completed with
    [rest] unread and [stk] for a stack. *)
Definition after (fuel : nat) (v : value (list byte)) (rest : list byte)
    (stk : list (StackState (list byte))) : outcome (value (list byte)) * Decoder.State :=
  match fillFrames host v stk with
  | (Ok ContinueDecode, stk') =>
      Decoder.doDecodeSync host options fuel (Decoder.mkState rest HEAD_BYTE_REQUIRED stk')
  | (Ok (Return w), stk') => (Ok w, Decoder.mkState rest HEAD_BYTE_REQUIRED stk')
  | (Throw e, stk') => (Throw e, Decoder.mkState rest HEAD_BYTE_REQUIRED stk')
  | (OutOfFuel, stk') => (OutOfFuel, Decoder.mkState rest HEAD_BYTE_REQUIRED stk')
  end.

End After.

(** [bs] starts with a header from which the decoder's head-byte table
    reads [v] back and leaves what follows [bs] unread, whatever the
    stack. *)
Definition leafDecodes (host : Host) (options : OptionsOf (list byte))
    (v : value (list byte)) (bs : list byte) : Prop :=
  exists hb tail, bs = hb :: tail /\
    forall rest stk,
      Decoder.decodeHead host options (byte_to_Z hb)
        (Decoder.mkState (tail ++ rest) (byte_to_Z hb) stk)
      = (Ok (Some v), Decoder.mkState rest (byte_to_Z hb) stk).

(** Decoding the bytes of [v] takes [nodes v] turns and ends as the
    completion of [v]. *)
Definition decodesBack (utf8Encode : string -> list byte) (float32ToFloat64 : Z -> Z)
    (tryToEncode : value (list byte) -> option (Z * list byte)) (maxDepth : Z)
    (host : Host) (options : OptionsOf (list byte)) (v : value (list byte)) : Prop :=
  forall depth bs, plain v = true -> protoFree v = true ->
  Encoder.doEncode utf8Encode float32ToFloat64 tryToEncode maxDepth depth v = inr bs ->
  forall rest stk fuel,
    Decoder.doDecodeSync host options (nodes v + fuel)%nat
      (Decoder.mkState (bs ++ rest) HEAD_BYTE_REQUIRED stk)
    = after host options fuel v rest stk.

(** * The rest of the class, and the vocabulary of its properties *)

(** ** Callbacks that hand out a byte stream *)

(** [read] hands out a stream in order: whenever [holds s d] says that the
    callback in state [s] stands before the bytes [d], a pull stores some
    first bytes of [d], as many as it reports, no more than the view can
    take and at least one if the view has room and [d] is not empty, and
    leaves the callback before the rest of [d]. *)
Definition delivers {S} (read : PullSource S) (holds : S -> list byte -> Prop) : Prop :=
  forall n s d, holds s d ->
    exists c : nat,
      (read n s).1.2 = Z.of_nat c /\ (read n s).1.1 = take c d /\
      (c <= n)%nat /\ (c <= length d)%nat /\
      ((0 < n)%nat -> d <> [] -> (0 < c)%nat) /\
      holds (read n s).2 (drop c d).

(** The chunks of a transport, none of them empty, spell the stream [d]. *)
Definition chunked (chunks : list (list byte)) (d : list byte) : Prop :=
  concat chunks = d /\ Forall (fun c => c <> []) chunks.

(** The cursor of the benchmark's callback stands before the stream [d]. *)
Definition unread (encoded : list byte) (pos : nat) (d : list byte) : Prop :=
  (pos <= length encoded)%nat /\ d = drop pos encoded.

(** Two decoders in the same state, each before its own callback, the two
    callbacks before the same stream. *)
Definition sameStream {S1 S2} (holds1 : S1 -> list byte -> Prop)
    (holds2 : S2 -> list byte -> Prop) (st1 : State S1) (st2 : State S2) : Prop :=
  heap st1 = heap st2 /\ headByte st1 = headByte st2 /\ bytes st1 = bytes st2 /\
  stack st1 = stack st2 /\
  exists d, holds1 (source st1) d /\ holds2 (source st2) d.

(** [m1] and [m2] end the same way, in states that are again the same. *)
Definition alike {S1 S2 A} (same : State S1 -> State S2 -> Prop)
    (m1 : M (State S1) A) (m2 : M (State S2) A) : Prop :=
  forall st1 st2, same st1 st2 ->
    (m1 st1).1 = (m2 st2).1 /\ same (m1 st1).2 (m2 st2).2.

(** The source moves forward in its stream. *)
Definition consumes {S} (holds : S -> list byte -> Prop)
  : State S -> ending -> State S -> Prop :=
  fun st _ st' => forall d, holds (source st) d -> exists c, holds (source st') (drop c d).

(** ** [decodeMulti] *)

(** A generator object: not started, suspended at its [yield], or
    completed. *)
Inductive GeneratorState := SuspendedStart | SuspendedYield | Completed.

(** [{ value, done: false }] and [{ value: undefined, done: true }] *)
Inductive IteratorResult (A : Type) :=
| IterValue (value : A)
| IterDone.

Arguments IterValue {A} value.
Arguments IterDone {A}.

(** Why a consumer stopped taking values: it has as many as it asked for,
    the generator is done, a call threw, or the model ran out of turns. *)
Inductive Stop := Enough | Done | Failed (e : error) | NoFuel.

Section DecodeMulti.
Context {S : Type}.
Variable read : PullSource S.
Variable host : Host.
Variable options : Options.

(** Run the generator's body from where it is suspended up to its
    [yield]: a value suspends it there, an exception completes it. *)
Definition resume (g : GeneratorState) (body : M (State S) (value Uint8Array))
    (st : State S)
  : outcome (IteratorResult (value Uint8Array)) * (GeneratorState * State S) :=
  match body st with
  | (Ok v, st') => (Ok (IterValue v), (SuspendedYield, st'))
  | (Throw e, st') => (Throw e, (Completed, st'))
  | (OutOfFuel, st') => (OutOfFuel, (g, st'))
  end.

(** [next()] on the generator of [public *decodeMulti()], whose body is
    [this.reinitializeState(); while (true) { yield this.doDecodeSync(); }].
    [fuel] bounds the turns of each [doDecodeSync]. *)
Definition decodeMultiNext (fuel : nat) (g : GeneratorState) (st : State S)
  : outcome (IteratorResult (value Uint8Array)) * (GeneratorState * State S) :=
  match g with
  | SuspendedStart => resume g (reinitializeState ;; doDecodeSync read host options fuel) st
  | SuspendedYield => resume g (doDecodeSync read host options fuel) st
  | Completed => (Ok IterDone, (Completed, st))
  end.

(** A consumer that asks the generator for up to [n] values and stops at
    the first call that does not give one. *)
Fixpoint decodeMultiTake (fuel n : nat) (g : GeneratorState) (st : State S)
  : list (value Uint8Array) * Stop * State S :=
  match n with
  | O => ([], Enough, st)
  | Datatypes.S n' =>
      match decodeMultiNext fuel g st with
      | (Ok (IterValue v), (g', st')) =>
          let '(vs, stop, st'') := decodeMultiTake fuel n' g' st' in
          (v :: vs, stop, st'')
      | (Ok IterDone, (_, st')) => ([], Done, st')
      | (Throw e, (_, st')) => ([], Failed e, st')
      | (OutOfFuel, (_, st')) => ([], NoFuel, st')
      end
  end.

(** A caller that calls [decode()] up to [n] times and stops at the first
    call that does not return. *)
Fixpoint decodeTimes (fuel n : nat) (st : State S)
  : list (value Uint8Array) * Stop * State S :=
  match n with
  | O => ([], Enough, st)
  | Datatypes.S n' =>
      match decode read host options fuel st with
      | (Ok v, st') =>
          let '(vs, stop, st'') := decodeTimes fuel n' st' in
          (v :: vs, stop, st'')
      | (Throw e, st') => ([], Failed e, st')
      | (OutOfFuel, st') => ([], NoFuel, st')
      end
  end.

(** [private readArraySize()].  Nothing in the class calls it; its own
    throw, the [DecodeError] "Unrecognized array type byte", is the answer
    [None] here. *)
Definition readArraySize : M (State S) (option Z) :=
  headByte <- readHeadByte read ;;
  if headByte =? 0xdc then size <- readU16 read ;; ret (Some size)
  else if headByte =? 0xdd then size <- readU32 read ;; ret (Some size)
  else if headByte <? 0xa0 then ret (Some (headByte - 0x90))
  else ret None.

End DecodeMulti.

(** ** How computations end *)

(** [m] returns or throws: the turns it is given are enough. *)
Definition finishes {St A} (m : M St A) : Prop := forall st, (m st).1 <> OutOfFuel.

(** The error is one of the five "Max length exceeded" errors. *)
Definition lengthError (e : error) : bool :=
  match e with
  | DecodeError (MaxLengthExceeded _ _ _) => true
  | _ => false
  end.

(** The error is "Unrecognized type byte". *)
Definition unrecognized (e : error) : bool :=
  match e with
  | DecodeError (UnrecognizedTypeByte _) => true
  | _ => false
  end.

(** [m] throws no error of the kind [bad]. *)
Definition spares {St A} (bad : error -> bool) (m : M St A) : Prop :=
  forall st e st', m st = (Throw e, st') -> bad e = false.

(** ** The scratch buffer and the heap *)

(** The scratch buffer has been doubled some number of times. *)
Definition doubled {S} : State S -> ending -> State S -> Prop :=
  fun st _ st' => exists j : nat, capacity st' = (capacity st * 2 ^ j)%nat.

(** Array buffers that exist at the start, the scratch buffer apart, are
    the same at the end; array buffers are only ever added; and the scratch
    buffer is the one of the start or one that has been added. *)
Definition confined {S} : State S -> ending -> State S -> Prop :=
  fun st _ st' =>
    (length (heap st) <= length (heap st'))%nat /\
    (bytes st' = bytes st \/ (length (heap st) <= bytes st')%nat) /\
    forall id, (id < length (heap st))%nat -> id <> bytes st ->
      heap st' !! id = heap st !! id.

(** A decoder whose heap holds a buffer of someone else's before its own
    scratch buffer, with [[1, 2, 3]] to read. *)
Definition besideAnotherBuffer : State (list (list byte)) :=
  mkState [[x05; x06]; repeat x00 16] [[x93; x01]; [x02; x03]] HEAD_BYTE_REQUIRED 1 [].

(** Options that admit extensions of ten bytes and binaries of two. *)
Definition shortBinaries : Options :=
  {| extensionCodec := Sample.extData;
     maxStrLength := 10; maxBinLength := 2; maxArrayLength := 10;
     maxMapLength := 10; maxExtLength := 10;
     keyDecoder := None |}.

(** ** Frames *)

(** The frame of an array of [n] elements that is being filled. *)
Definition arrayInProgress {B} (n : Z) (f : StackState B) : Prop :=
  match f with
  | StackArrayState size array position =>
      size = n /\ Z.of_nat (length array) = n /\ 0 <= position < n
  | StackMapState _ _ _ _ _ => False
  end.

(** A decoder that has read the header of a two-element array, with the
    elements 1 and 2 to read. *)
Definition arrayAwaited : State (list (list byte)) :=
  mkState [repeat x00 16] [[x01; x02]] HEAD_BYTE_REQUIRED 0
    [StackArrayState 2 [VUndefined; VUndefined] 0].

(** [v] inside [depth] arrays of one element. *)
Fixpoint nest {B} (depth : nat) (v : value B) : value B :=
  match depth with
  | O => v
  | Datatypes.S k => VArray [nest k v]
  end.

(** A frame that awaits the value of a pair has the pair's key. *)
Definition keyPresent {B} (f : StackState B) : Prop :=
  match f with
  | StackMapState STATE_MAP_VALUE _ None _ _ => False
  | _ => True
  end.

(** ** The formats, as the comments of [doDecodeSync] name them *)

(** The formats of a fixed width: the number of bytes that follow the head
    byte, and the value they stand for. *)
Definition fixedFormat (host : Host) (headByte : Z)
  : option (nat * (list byte -> value Uint8Array)) :=
  if headByte >=? 0xe0 then Some (0%nat, fun _ => int (headByte - 0x100))   (* negative fixint *)
  else if headByte <? 0xc0 then
    if headByte <? 0x80 then Some (0%nat, fun _ => int headByte)            (* positive fixint *)
    else None
  else if headByte =? 0xc0 then Some (0%nat, fun _ => VNull)                (* nil *)
  else if headByte =? 0xc2 then Some (0%nat, fun _ => VBool false)          (* false *)
  else if headByte =? 0xc3 then Some (0%nat, fun _ => VBool true)           (* true *)
  else if headByte =? 0xca then Some (4%nat, fun bs => VNumber (Float32 (be_uint bs)))
  else if headByte =? 0xcb then Some (8%nat, fun bs => VNumber (Float64 (be_uint bs)))
  else if headByte =? 0xcc then Some (1%nat, fun bs => int (be_uint bs))    (* uint 8 *)
  else if headByte =? 0xcd then Some (2%nat, fun bs => int (be_uint bs))    (* uint 16 *)
  else if headByte =? 0xce then Some (4%nat, fun bs => int (be_uint bs))    (* uint 32 *)
  else if headByte =? 0xcf then Some (8%nat, fun bs => int (getUint64 host bs))
  else if headByte =? 0xd0 then Some (1%nat, fun bs => int (to_signed 8 (be_uint bs)))
  else if headByte =? 0xd1 then Some (2%nat, fun bs => int (to_signed 16 (be_uint bs)))
  else if headByte =? 0xd2 then Some (4%nat, fun bs => int (to_signed 32 (be_uint bs)))
  else if headByte =? 0xd3 then Some (8%nat, fun bs => int (getInt64 host bs))
  else None.

(** The choice between the two UTF-8 decoders in [decodeUtf8String], for a
    string that is not a key. *)
Definition textOf (host : Host) (bs : list byte) : string :=
  let n := Z.of_nat (length bs) in
  if n >? TEXT_DECODER_THRESHOLD host then utf8DecodeTD host bs 0 n
  else utf8DecodeJs host bs 0 n.

(** The formats of strings and binaries: the number of bytes of the length
    field, and whether the payload is text. *)
Definition sizedFormat (headByte : Z) : option (nat * bool) :=
  if (0xa0 <=? headByte) && (headByte <? 0xc0) then Some (0%nat, true)   (* fixstr *)
  else if headByte =? 0xd9 then Some (1%nat, true)                        (* str 8 *)
  else if headByte =? 0xda then Some (2%nat, true)                        (* str 16 *)
  else if headByte =? 0xdb then Some (4%nat, true)                        (* str 32 *)
  else if headByte =? 0xc4 then Some (1%nat, false)                       (* bin 8 *)
  else if headByte =? 0xc5 then Some (2%nat, false)                       (* bin 16 *)
  else if headByte =? 0xc6 then Some (4%nat, false)                       (* bin 32 *)
  else None.

(** The length a header declares: the low bits of a fixstr head byte, or
    the length field. *)
Definition declaredLength (headByte : Z) (size : list byte) : Z :=
  match size with
  | [] => headByte - 0xa0
  | _ => be_uint size
  end.

(** The formats of extensions: the number of bytes of the length field. *)
Definition extFormat (headByte : Z) : option nat :=
  if headByte =? 0xd4 then Some 0%nat        (* fixext 1 *)
  else if headByte =? 0xd5 then Some 0%nat   (* fixext 2 *)
  else if headByte =? 0xd6 then Some 0%nat   (* fixext 4 *)
  else if headByte =? 0xd7 then Some 0%nat   (* fixext 8 *)
  else if headByte =? 0xd8 then Some 0%nat   (* fixext 16 *)
  else if headByte =? 0xc7 then Some 1%nat   (* ext 8 *)
  else if headByte =? 0xc8 then Some 2%nat   (* ext 16 *)
  else if headByte =? 0xc9 then Some 4%nat   (* ext 32 *)
  else None.

(** The size of the payload of an extension: 1, 2, 4, 8 or 16 by the head
    byte of a fixext, or the length field. *)
Definition extLength (headByte : Z) (size : list byte) : Z :=
  match size with
  | [] => 2 ^ (headByte - 0xd4)
  | _ => be_uint size
  end.

(** ** Inputs as trees *)

(** The inputs that the chain of tests of [doDecodeSync] takes for a value
    made of scalars, strings, arrays and maps, as trees: a head byte, the
    bytes of the length field if the format has one, and the payload or the
    elements. *)
Inductive Item :=
| ItemScalar (headByte : byte) (payload : list byte)
| ItemText (headByte : byte) (size payload : list byte)
| ItemArray (headByte : byte) (size : list byte) (items : list Item)
| ItemMap (headByte : byte) (size : list byte) (pairs : list (Item * Item)).

(** The bytes of an input. *)
Fixpoint bytesOf (t : Item) : list byte :=
  match t with
  | ItemScalar hb payload => hb :: payload
  | ItemText hb size payload => hb :: size ++ payload
  | ItemArray hb size items => hb :: size ++ concat (map bytesOf items)
  | ItemMap hb size pairs =>
      hb :: size ++ concat (map (fun kv => bytesOf (fst kv) ++ bytesOf (snd kv)) pairs)
  end.

(** The formats of arrays and maps: the number of bytes of the length
    field, and whether the container is an array. *)
Definition containerFormat (headByte : Z) : option (nat * bool) :=
  if (0x80 <=? headByte) && (headByte <? 0x90) then Some (0%nat, false)  (* fixmap *)
  else if (0x90 <=? headByte) && (headByte <? 0xa0) then Some (0%nat, true) (* fixarray *)
  else if headByte =? 0xdc then Some (2%nat, true)                          (* array 16 *)
  else if headByte =? 0xdd then Some (4%nat, true)                          (* array 32 *)
  else if headByte =? 0xde then Some (2%nat, false)                         (* map 16 *)
  else if headByte =? 0xdf then Some (4%nat, false)                         (* map 32 *)
  else None.

(** The number of elements or pairs a header declares: the low bits of a
    fixarray or fixmap head byte, or the length field. *)
Definition declaredCount (headByte : Z) (size : list byte) : Z :=
  match size with
  | [] => if headByte <? 0x90 then headByte - 0x80 else headByte - 0x90
  | _ => be_uint size
  end.

(** [stateIsMapKey] as a function of the stack. *)
Definition isKeyTop {B} (stk : list (StackState B)) : bool :=
  match stk with
  | StackMapState STATE_MAP_KEY _ _ _ _ :: _ => true
  | _ => false
  end.

(** The choice of UTF-8 decoder in [decodeUtf8String]: the key decoder for
    a key that it can cache, else as [textOf]. *)
Definition stringOf (host : Host) (options : Options) (isKey : bool) (bs : list byte)
  : string :=
  let n := Z.of_nat (length bs) in
  match keyDecoder options with
  | Some kd => if isKey && canBeCached kd n then keyDecode kd bs 0 n else textOf host bs
  | None => textOf host bs
  end.

(** The value an input stands for, in key position or not. *)
Fixpoint valueOf (host : Host) (options : Options) (isKey : bool) (t : Item)
  : value Uint8Array :=
  match t with
  | ItemScalar hb payload =>
      match fixedFormat host (byte_to_Z hb) with
      | Some (_, f) => f payload
      | None => VUndefined
      end
  | ItemText _ _ payload => VString (stringOf host options isKey payload)
  | ItemArray _ _ items => VArray (map (valueOf host options false) items)
  | ItemMap _ _ pairs =>
      VObject (fold_left
        (fun props kv =>
           setProperty (propertyKey host (asMapKey (valueOf host options true (fst kv))))
                       (valueOf host options false (snd kv)) props)
        pairs [])
  end.

(** The key of a pair is a string or a number, and not ["__proto__"]. *)
Definition validKey (host : Host) (options : Options) (k : Item) : bool :=
  isValidMapKeyType (valueOf host options true k) &&
  negb (strictEqualsString (valueOf host options true k) "__proto__").

(** The input is one that the decoder accepts: every head byte is of the
    format of its node, every length field has the width of its format and
    declares what follows, strings are of at most 4096 bytes, lengths are
    within the limits, and keys are valid. *)
Fixpoint wellFormed (host : Host) (options : Options) (t : Item) : bool :=
  match t with
  | ItemScalar hb payload =>
      match fixedFormat host (byte_to_Z hb) with
      | Some (n, _) => Nat.eqb (length payload) n
      | None => false
      end
  | ItemText hb size payload =>
      match sizedFormat (byte_to_Z hb) with
      | Some (k, true) =>
          Nat.eqb (length size) k &&
          (Z.of_nat (length payload) =? declaredLength (byte_to_Z hb) size) &&
          (Z.of_nat (length payload) <=? 4096) &&
          (Z.of_nat (length payload) <=? maxStrLength options)
      | _ => false
      end
  | ItemArray hb size items =>
      match containerFormat (byte_to_Z hb) with
      | Some (k, true) =>
          Nat.eqb (length size) k &&
          (Z.of_nat (length items) =? declaredCount (byte_to_Z hb) size) &&
          (Z.of_nat (length items) <=? maxArrayLength options) &&
          forallb (wellFormed host options) items
      | _ => false
      end
  | ItemMap hb size pairs =>
      match containerFormat (byte_to_Z hb) with
      | Some (k, false) =>
          Nat.eqb (length size) k &&
          (Z.of_nat (length pairs) =? declaredCount (byte_to_Z hb) size) &&
          (Z.of_nat (length pairs) <=? maxMapLength options) &&
          forallb (fun kv => validKey host options (fst kv) &&
                             wellFormed host options (fst kv) &&
                             wellFormed host options (snd kv)) pairs
      | _ => false
      end
  end.

(** The turns of the loop that an input takes: one for each head byte. *)
Fixpoint turns (t : Item) : nat :=
  match t with
  | ItemArray _ _ items => Datatypes.S (list_sum (map turns items))
  | ItemMap _ _ pairs =>
      Datatypes.S (list_sum (map (fun kv => (turns (fst kv) + turns (snd kv))%nat) pairs))
  | _ => 1%nat
  end.

Section AfterValue.
Context {S : Type}.
Variable read : PullSource S.
Variable host : Host.
Variable options : Options.

(** What [doDecodeSync] does once the chain on the head byte has yielded
    [object] in state [st], with [stk] for a stack: [this.complete()], then
    the walk up the stack. *)
Definition completed (fuel : nat) (object : value Uint8Array) (st : State S)
    (stk : list (StackState Uint8Array)) : outcome (value Uint8Array) * State S :=
  let st3 stk' := mkState (heap st) (source st) HEAD_BYTE_REQUIRED (bytes st) stk' in
  match fillFrames host object stk with
  | (Ok ContinueDecode, stk') => doDecodeSync read host options fuel (st3 stk')
  | (Ok (Return v), stk') => (Ok v, st3 stk')
  | (Throw e, stk') => (Throw e, st3 stk')
  | (OutOfFuel, stk') => (OutOfFuel, st3 stk')
  end.

(** What is shown of each input: in a decoder that awaits a head byte, with
    the bytes of the input next in the stream, the loop takes [turns t]
    turns and goes on as after the value of the input, the bytes of the
    input consumed. *)
Definition decodes (holds : S -> list byte -> Prop) (t : Item) : Prop :=
  wellFormed host options t = true ->
  forall (st : State S) (rest : list byte) (fuel : nat),
    holds (source st) (bytesOf t ++ rest) ->
    headByte st = HEAD_BYTE_REQUIRED -> (2048 <= capacity st)%nat ->
    exists st1,
      doDecodeSync read host options (turns t + fuel) st
      = completed fuel
          (valueOf host options (isKeyTop (stack st)) t) st1 (stack st) /\
      holds (source st1) rest /\ (2048 <= capacity st1)%nat.

End AfterValue.

Section CutShort.
Context {S : Type}.
Variable read : PullSource S.
Variable host : Host.
Variable options : Options.

(** What is shown of each input that the stream cuts short: in a decoder
    that awaits a head byte, with only the bytes [p] of the input left in
    the stream, [p] not all of the input, the loop throws [MORE_DATA]. *)
Definition cutShort (holds : S -> list byte -> Prop) (t : Item) : Prop :=
  wellFormed host options t = true ->
  forall (st : State S) (p q : list byte) (fuel : nat),
    bytesOf t = p ++ q -> q <> [] -> holds (source st) p ->
    headByte st = HEAD_BYTE_REQUIRED -> (2048 <= capacity st)%nat ->
    exists st',
      doDecodeSync read host options (turns t + fuel) st = (Throw MORE_DATA, st').

End CutShort.

(** A decoder between two values: it awaits a head byte, its stack is
    empty, and its scratch buffer is no smaller than at the start. *)
Definition betweenValues {S} (st : State S) : Prop :=
  headByte st = HEAD_BYTE_REQUIRED /\ stack st = [] /\ (2048 <= capacity st)%nat.

(** The input of [{a: 1, 2: [null, "hi"]}]: a fixmap of two pairs, with a
    fixstr and a fixint for keys, and a fixarray that holds nil and a str 16. *)
Definition pairAndList : Item :=
  ItemMap x82 []
    [(ItemText xa1 [] [x61], ItemScalar x01 []);
     (ItemScalar x02 [],
      ItemArray x92 [] [ItemScalar xc0 []; ItemText xda [x00; x02] [x68; x69]])].

(** ** Length fields *)

(** The formats that declare a length: which limit the length is held to,
    and the number of bytes of the length field (none when the head byte
    itself tells the length). *)
Definition lengthField (headByte : Z) : option (LengthKind * nat) :=
  match sizedFormat headByte, containerFormat headByte, extFormat headByte with
  | Some (w, true), _, _ => Some (StrLength, w)
  | Some (w, false), _, _ => Some (BinLength, w)
  | None, Some (w, true), _ => Some (ArrayLength, w)
  | None, Some (w, false), _ => Some (MapLength, w)
  | None, None, Some w => Some (ExtLength, w)
  | None, None, None => None
  end.

(** The length that a header declares. *)
Definition lengthDeclared (kind : LengthKind) (headByte : Z) (size : list byte) : Z :=
  match kind with
  | StrLength | BinLength => declaredLength headByte size
  | ArrayLength | MapLength => declaredCount headByte size
  | ExtLength => extLength headByte size
  end.

(** Between [st] and [st'] no frame has been pushed and no array buffer
    made: the stack is the same, the scratch buffer is the same buffer, and
    the heap holds as many buffers as before. *)
Definition nothingAllocated {S} (st st' : State S) : Prop :=
  stack st' = stack st /\ bytes st' = bytes st /\ length (heap st') = length (heap st).

Section Arrives.
Context {S : Type}.
Variable read : PullSource S.
Variable host : Host.
Variable options : Options.

(** [arrives st k st']: the loop of [doDecodeSync], entered in state [st],
    is at the top of a turn in state [st'] after [k] turns that went on,
    each by pushing a frame ([continue DECODE] in the chain on the head
    byte) or by completing an object that left a frame in need of more
    ([continue DECODE] in the walk up the stack). *)
Inductive arrives : State S -> nat -> State S -> Prop :=
| arrives_here st : arrives st 0 st
| arrives_push st hb st1 st2 k st' :
    readHeadByte read st = (Ok hb, st1) ->
    decodeHead read host options hb st1 = (Ok None, st2) ->
    arrives st2 k st' ->
    arrives st (Datatypes.S k) st'
| arrives_fill st hb st1 object st2 stk k st' :
    readHeadByte read st = (Ok hb, st1) ->
    decodeHead read host options hb st1 = (Ok (Some object), st2) ->
    fillFrames host object (stack st2) = (Ok ContinueDecode, stk) ->
    arrives (mkState (heap st2) (source st2) HEAD_BYTE_REQUIRED (bytes st2) stk) k st' ->
    arrives st (Datatypes.S k) st'.

End Arrives.

(** The map [{a: ...}] whose value is an array 16 that declares eleven
    elements, in two chunks. *)
Definition overLimitInMap : list (list byte) := [[x81; xa1; x61]; [xdc; x00; x0b; x01]].

(** A decoder that has read the header of a one-pair map and, for its key,
    the header of a one-element array, with the element 1 next in the
    input. *)
Definition arrayKeyAwaited : State (list (list byte)) :=
  mkState [repeat x00 2048] [[x01; x02]] HEAD_BYTE_REQUIRED 0
    [StackArrayState 1 [VUndefined] 0; StackMapState STATE_MAP_KEY 1 None 0 []].


(** * Properties *)

(** ** Reasoning about sequences of effects *)

Section Effects.
Context {St : Type} (R : St -> ending -> St -> Prop) `{!Frame R}.

Lemma obeys_ret {A} (a : A) : obeys R (ret a).
Proof. intros st. apply frame_stay. Qed.

Lemma obeys_throw {A} (e : error) : obeys R (throw (A := A) e).
Proof. intros st. apply frame_stay. Qed.

Lemma obeys_get : obeys R get.
Proof. intros st. apply frame_stay. Qed.

Lemma obeys_starve {A} : obeys R (fun st : St => (OutOfFuel (A := A), st)).
Proof. intros st. apply frame_stay. Qed.

Lemma obeys_bind {A B} (m : M St A) (k : A -> M St B) :
  obeys R m -> (forall a, obeys R (k a)) -> obeys R (bind m k).
Proof.
  intros Hm Hk st. unfold bind. specialize (Hm st).
  destruct (m st) as [[a|e|] st1]; simpl in *; try exact Hm.
  eapply frame_comp; [exact Hm | apply Hk].
Qed.

(** A pull and the test on its answer, for a relation that the call of
    the callback obeys on its own. *)
Lemma obeys_pull {A B} (call : M St A) (test : A -> bool) (e : error) (k : A -> M St B) :
  obeys R call -> (forall n, obeys R (k n)) ->
  obeys R (n <- call ;; if test n then throw e else k n).
Proof.
  intros Hc Hk. apply obeys_bind; [exact Hc |].
  intros n. destruct (test n); [apply obeys_throw | apply Hk].
Qed.

End Effects.

(** Peel a goal [obeys R m] down to the primitives of [m]. *)
Ltac obeys_step :=
  match goal with
  | |- obeys _ (ret _) => apply obeys_ret; typeclasses eauto
  | |- obeys _ (throw _) => apply obeys_throw; typeclasses eauto
  | |- obeys _ get => apply obeys_get; typeclasses eauto
  | |- obeys _ (bind _ _) => apply obeys_bind; [typeclasses eauto | | intros ?]
  | |- obeys _ (if ?c then _ else _) => destruct c
  | |- obeys _ (match ?x with _ => _ end) => destruct x
  | |- obeys _ _ => solve [auto]
  end.

Ltac obeys_auto := repeat obeys_step.

Section Reading.
Context {S : Type}.
Variable read : PullSource S.
Variable host : Host.
Variable options : Options.
Context (R : State S -> ending -> State S -> Prop) `{!Frame R}.
Hypothesis R_setHeadByte : forall b, obeys R (setHeadByte b).
Hypothesis R_ensure : forall n, obeys R (ensureBufferSizeToWrite n).
Hypothesis R_pull : forall data A (k : Z -> M (State S) A),
  (forall n, obeys R (k n)) ->
  obeys R (n <- callRead read data ;; if n <=? 0 then throw MORE_DATA else k n).

Lemma obeys_readLoop fuel length pos : obeys R (readLoop read fuel length pos).
Proof.
  revert pos. induction fuel as [|fuel IH]; intros pos; simpl.
  - destruct (pos <? length); [apply obeys_starve | apply obeys_ret]; assumption.
  - destruct (pos <? length); [| apply obeys_ret; assumption].
    apply obeys_bind; [assumption | apply obeys_get; assumption | intros st].
    apply R_pull. intros n. apply IH.
Qed.

Lemma obeys_readBytes n : obeys R (readBytes read n).
Proof.
  unfold readBytes.
  pose proof obeys_readLoop.
  obeys_auto.
Qed.

Lemma obeys_viewBytes n : obeys R (viewBytes n).
Proof. unfold viewBytes. obeys_auto. Qed.

Lemma obeys_readU8 : obeys R (readU8 read).
Proof. pose proof obeys_readBytes. pose proof obeys_viewBytes. unfold readU8. obeys_auto. Qed.
Lemma obeys_readI8 : obeys R (readI8 read).
Proof. pose proof obeys_readBytes. pose proof obeys_viewBytes. unfold readI8. obeys_auto. Qed.
Lemma obeys_readU16 : obeys R (readU16 read).
Proof. pose proof obeys_readBytes. pose proof obeys_viewBytes. unfold readU16. obeys_auto. Qed.
Lemma obeys_readI16 : obeys R (readI16 read).
Proof. pose proof obeys_readBytes. pose proof obeys_viewBytes. unfold readI16. obeys_auto. Qed.
Lemma obeys_readU32 : obeys R (readU32 read).
Proof. pose proof obeys_readBytes. pose proof obeys_viewBytes. unfold readU32. obeys_auto. Qed.
Lemma obeys_readI32 : obeys R (readI32 read).
Proof. pose proof obeys_readBytes. pose proof obeys_viewBytes. unfold readI32. obeys_auto. Qed.
Lemma obeys_readU64 : obeys R (readU64 read host).
Proof. pose proof obeys_readBytes. pose proof obeys_viewBytes. unfold readU64. obeys_auto. Qed.
Lemma obeys_readI64 : obeys R (readI64 read host).
Proof. pose proof obeys_readBytes. pose proof obeys_viewBytes. unfold readI64. obeys_auto. Qed.
Lemma obeys_readF32 : obeys R (readF32 read).
Proof. pose proof obeys_readBytes. pose proof obeys_viewBytes. unfold readF32. obeys_auto. Qed.
Lemma obeys_readF64 : obeys R (readF64 read).
Proof. pose proof obeys_readBytes. pose proof obeys_viewBytes. unfold readF64. obeys_auto. Qed.

Lemma obeys_readHeadByte : obeys R (readHeadByte read).
Proof. pose proof obeys_readU8. unfold readHeadByte. obeys_auto. Qed.

Lemma obeys_complete : obeys R complete.
Proof. unfold complete. auto. Qed.

Lemma obeys_stateIsMapKey : obeys R stateIsMapKey.
Proof. unfold stateIsMapKey. obeys_auto. Qed.

Lemma obeys_decodeUtf8String n : obeys R (decodeUtf8String read host options n).
Proof.
  pose proof obeys_readBytes. pose proof obeys_stateIsMapKey.
  unfold decodeUtf8String. obeys_auto.
Qed.

Lemma obeys_decodeBinary n : obeys R (decodeBinary read options n).
Proof. pose proof obeys_readBytes. unfold decodeBinary. obeys_auto. Qed.

Lemma obeys_decodeExtension n : obeys R (decodeExtension read options n).
Proof.
  pose proof obeys_readI8. pose proof obeys_decodeBinary.
  unfold decodeExtension. obeys_auto.
Qed.

Hypothesis R_setStack : forall s, obeys R (setStack s).
Hypothesis R_fillStack : forall object, obeys R (fillStack host object).

Lemma obeys_pushMapState n : obeys R (pushMapState options n).
Proof. unfold pushMapState. obeys_auto. Qed.

Lemma obeys_pushArrayState n : obeys R (pushArrayState options n).
Proof. unfold pushArrayState. obeys_auto. Qed.

Lemma obeys_decodeHead hb : obeys R (decodeHead read host options hb).
Proof.
  pose proof obeys_readU8. pose proof obeys_readI8. pose proof obeys_readU16.
  pose proof obeys_readI16. pose proof obeys_readU32. pose proof obeys_readI32.
  pose proof obeys_readU64. pose proof obeys_readI64. pose proof obeys_readF32.
  pose proof obeys_readF64. pose proof obeys_decodeUtf8String.
  pose proof obeys_decodeBinary. pose proof obeys_decodeExtension.
  pose proof obeys_pushMapState. pose proof obeys_pushArrayState.
  pose proof obeys_complete.
  unfold decodeHead, some, beginMap, beginArray. obeys_auto.
Qed.

Lemma obeys_doDecodeSync fuel : obeys R (doDecodeSync read host options fuel).
Proof.
  pose proof obeys_readHeadByte. pose proof obeys_decodeHead. pose proof obeys_complete.
  induction fuel as [|fuel IH]; simpl; [apply obeys_starve; assumption |].
  obeys_auto.
Qed.

Lemma obeys_decode fuel : obeys R (decode read host options fuel).
Proof.
  pose proof obeys_doDecodeSync. unfold decode, reinitializeState. obeys_auto.
Qed.

End Reading.

(** ** Exhaustion of the pull source *)

Section Exhaustion.
Context {S : Type}.
Variable read : PullSource S.
Variable host : Host.
Variable options : Options.

#[local] Instance exhaustionThrows_frame : Frame (@exhaustionThrows S).
Proof.
  split.
  - intros st x H1 H2. congruence.
  - intros st st1 st2 x H1 H2 Hst Hst2.
    destruct (source st1).2 eqn:E1.
    + specialize (H1 Hst E1). discriminate.
    + apply H2; assumption.
Qed.

Lemma exhaustionThrows_same {A} (m : M (State (S * bool)) A) :
  (forall st, source (m st).2 = source st) -> obeys exhaustionThrows m.
Proof. intros H st H1 H2. rewrite H in H2. congruence. Qed.

Lemma exhaustionThrows_pull data A (k : Z -> M (State (S * bool)) A) :
  (forall n, obeys exhaustionThrows (k n)) ->
  obeys exhaustionThrows
    (n <- callRead (observe read) data ;; if n <=? 0 then throw MORE_DATA else k n).
Proof.
  intros Hk st Hst. unfold bind, callRead, observe.
  destruct (read (byteLength data) (source st).1) as [[ws n] s'] eqn:E.
  simpl. destruct (n <=? 0) eqn:En; simpl.
  - reflexivity.
  - intros H. apply (Hk n); [| exact H]. simpl. rewrite Hst. reflexivity.
Qed.

(** C9. Run the decoder over any callback under observation.  If some pull
    answered with no bytes (the flag is raised at the end), that pull came
    while a read still lacked bytes, and [decode] has thrown [MORE_DATA],
    a [RangeError] ("Insufficient data") and no [DecodeError]. *)
Theorem exhaustion_is_insufficient_data (fuel : nat) (st st' : State (S * bool))
    (r : outcome (value Uint8Array)) :
  decode (observe read) host options fuel st = (r, st') ->
  (source st).2 = false ->
  (source st').2 = true ->
  r = Throw MORE_DATA /\ isDecodeError MORE_DATA = false.
Proof.
  intros Hrun Hst Hst'. split; [| reflexivity].
  pose proof (obeys_decode (observe read) host options exhaustionThrows) as H.
  assert (Hd : obeys exhaustionThrows (decode (observe read) host options fuel)).
  { apply H.
    - intros b. apply exhaustionThrows_same. reflexivity.
    - intros n. apply exhaustionThrows_same. intros st0.
      unfold ensureBufferSizeToWrite, bind. simpl.
      destruct (Z.of_nat (capacity st0) <? n); reflexivity.
    - apply exhaustionThrows_pull.
    - intros s. apply exhaustionThrows_same. reflexivity.
    - intros o. apply exhaustionThrows_same. intros st0. unfold fillStack.
      destruct (fillFrames host o (stack st0)); reflexivity. }
  specialize (Hd st). rewrite Hrun in Hd. simpl in Hd.
  specialize (Hd Hst Hst'). destruct r; simpl in Hd; congruence.
Qed.

End Exhaustion.

Lemma exhaustion_is_insufficient_data_witness :
  (decodeStream (observe chunkRead) Sample.host Sample.options 10 ([[x93; x01]], false)).1
  = Throw MORE_DATA.
Proof.
  eapply (exhaustion_is_insufficient_data chunkRead Sample.host Sample.options 10).
  - apply surjective_pairing.
  - reflexivity.
  - vm_compute. reflexivity.
Defined.

(** ** The scratch buffer *)

Lemma length_bufferOf_fill (h : Heap) (a : Uint8Array) (ws : list byte) (id : nat) :
  length (bufferOf (fill h a ws) id) = length (bufferOf h id).
Proof.
  unfold bufferOf, fill.
  destruct (decide (buffer a = id)) as [->|Hne].
  - rewrite list_lookup_alter_eq. destruct (h !! id); simpl; [| reflexivity].
    apply length_inserts.
  - rewrite list_lookup_alter_ne by assumption. reflexivity.
Qed.

Lemma bufferOf_newArrayBuffer (h : Heap) (n : Z) :
  bufferOf (newArrayBuffer n h).2 (newArrayBuffer n h).1 = repeat x00 (Z.to_nat n).
Proof.
  unfold bufferOf, newArrayBuffer. simpl.
  rewrite lookup_app_r by lia. rewrite Nat.sub_diag. reflexivity.
Qed.

Lemma bufferOf_newArrayBuffer_old (h : Heap) (n : Z) (id : nat) :
  (id < length h)%nat -> bufferOf (newArrayBuffer n h).2 id = bufferOf h id.
Proof.
  intros Hid. unfold bufferOf, newArrayBuffer. simpl.
  rewrite lookup_app_l by assumption. reflexivity.
Qed.

Lemma clampIndex_nonneg (k : Z) (len : nat) :
  0 <= k -> clampIndex k len = Z.to_nat (Z.min k (Z.of_nat len)).
Proof. intros Hk. unfold clampIndex. destruct (k <? 0) eqn:E; [lia | reflexivity]. Qed.

Section Scratch.
Context {S : Type}.
Variable read : PullSource S.

Lemma capacity_callRead (data : Uint8Array) (st : State S) :
  capacity (callRead read data st).2 = capacity st.
Proof.
  unfold callRead, capacity.
  destruct (read (byteLength data) (source st)) as [[ws n] src]. simpl.
  apply length_bufferOf_fill.
Qed.

Lemma callRead_honest (data : Uint8Array) (st : State S) (n : Z) (st1 : State S) :
  honest read -> callRead read data st = (Ok n, st1) -> n <= Z.of_nat (byteLength data).
Proof.
  intros Hh. unfold callRead. specialize (Hh (byteLength data) (source st)).
  destruct (read (byteLength data) (source st)) as [[ws k] src]. simpl in *.
  intros [= <- _]. exact Hh.
Qed.

Lemma callRead_returns (data : Uint8Array) (st : State S) :
  exists n, (callRead read data st).1 = Ok n.
Proof.
  unfold callRead. destruct (read (byteLength data) (source st)) as [[ws k] src].
  eexists; reflexivity.
Qed.

(** The loop of [readBytes] cannot get past a scratch buffer shorter than
    the length asked for: an honest callback fills the buffer at most, is
    then handed an empty view and can only answer zero. *)
Lemma readLoop_short_buffer (fuel : nat) (length pos : Z) (st : State S) :
  honest read ->
  0 <= pos <= Z.of_nat (capacity st) ->
  Z.of_nat (capacity st) < length ->
  (Z.to_nat (length - pos) <= fuel)%nat ->
  exists st', readLoop read fuel length pos st = (Throw MORE_DATA, st')
              /\ capacity st' = capacity st.
Proof.
  intros Hh. revert pos st.
  induction fuel as [|fuel IH]; intros pos st Hpos Hcap Hfuel; [lia |].
  simpl. assert (Hlt : (pos <? length) = true) by lia. rewrite Hlt.
  unfold bind at 1. simpl. unfold bind.
  set (data := subarray (bytesView st) pos length).
  pose proof (capacity_callRead data st) as Hc.
  pose proof (callRead_honest data st) as Hn.
  destruct (callRead read data st) as [[n| |] st1] eqn:E;
    try (destruct (callRead_returns data st) as [n0 Hn0]; rewrite E in Hn0; discriminate).
  simpl in Hc. specialize (Hn n st1 Hh eq_refl).
  assert (Hlen : Z.of_nat (byteLength data) = Z.of_nat (capacity st) - pos).
  { unfold data, subarray, bytesView. simpl.
    rewrite !clampIndex_nonneg by lia. lia. }
  destruct (n <=? 0) eqn:En.
  - exists st1. split; [reflexivity | assumption].
  - destruct (IH (pos + n) st1) as [st' [H1 H2]]; try lia.
    exists st'. split; [exact H1 | congruence].
Qed.

(** The fuel of [readBytes] is enough, whatever the callback does: the
    loop returns or throws, it never stops for lack of turns. *)
Lemma readLoop_fuel (fuel : nat) (length pos : Z) (st : State S) :
  (Z.to_nat (length - pos) <= fuel)%nat ->
  (readLoop read fuel length pos st).1 <> OutOfFuel.
Proof.
  revert pos st. induction fuel as [|fuel IH]; intros pos st Hfuel; simpl.
  - replace (pos <? length) with false by lia. discriminate.
  - destruct (pos <? length) eqn:Hlt; [| discriminate].
    unfold bind at 1. simpl. unfold bind.
    destruct (callRead_returns (subarray (bytesView st) pos length) st) as [n Hn].
    destruct (callRead read _ st) as [r st1]. simpl in Hn. subst r.
    destruct (n <=? 0) eqn:En; [discriminate |].
    apply IH. lia.
Qed.

Lemma readBytes_total (length : Z) (st : State S) :
  (readBytes read length st).1 <> OutOfFuel.
Proof.
  unfold readBytes. unfold bind at 1.
  destruct (ensureBufferSizeToWrite length st) as [[u|e|] st1] eqn:E;
    [| discriminate |].
  - unfold bind at 1.
    pose proof (readLoop_fuel (Z.to_nat length) length 0 st1 ltac:(lia)) as H.
    destruct (readLoop read (Z.to_nat length) length 0 st1) as [[u'|e|] st2];
      simpl in *; [discriminate | discriminate | congruence].
  - unfold ensureBufferSizeToWrite, bind in E. simpl in E.
    destruct (Z.of_nat (capacity st) <? length); discriminate.
Qed.

(** C6. [ensureBufferSizeToWrite] doubles the scratch buffer once, whatever
    the length asked for.  So when [length] exceeds twice the capacity, the
    buffer stays too short and [readBytes] throws [MORE_DATA] with any
    honest callback, however many bytes that callback still holds. *)
Theorem readBytes_beyond_twice_capacity (length : Z) (st : State S) :
  honest read ->
  Z.of_nat (capacity st) * 2 < length ->
  exists st', readBytes read length st = (Throw MORE_DATA, st')
              /\ Z.of_nat (capacity st') = Z.of_nat (capacity st) * 2.
Proof.
  intros Hh Hlen. unfold readBytes, ensureBufferSizeToWrite.
  unfold bind at 1. unfold bind at 1. simpl.
  assert (Hlt : (Z.of_nat (capacity st) <? length) = true) by lia. rewrite Hlt.
  unfold resizeBuffer, modify. simpl.
  set (st1 := mkState _ _ _ _ _).
  assert (Hc1 : Z.of_nat (capacity st1) = Z.of_nat (capacity st) * 2).
  { unfold st1, capacity at 1. simpl.
    pose proof (bufferOf_newArrayBuffer (heap st) (Z.of_nat (capacity st) * 2)) as Hb.
    unfold newArrayBuffer in Hb. simpl in Hb. rewrite Hb, repeat_length. lia. }
  destruct (readLoop_short_buffer (Z.to_nat length) length 0 st1) as [st' [H1 H2]];
    try lia; try assumption.
  exists st'. unfold bind. rewrite H1. split; [reflexivity | lia].
Qed.

End Scratch.

Section Capacity.
Context {S : Type}.
Variable read : PullSource S.
Variable host : Host.
Variable options : Options.

#[local] Instance neverShrinks_frame : Frame (@neverShrinks S).
Proof. split; unfold neverShrinks; intros; lia. Qed.

Lemma neverShrinks_same {A} (m : M (State S) A) :
  (forall st, heap (m st).2 = heap st /\ bytes (m st).2 = bytes st) ->
  obeys neverShrinks m.
Proof.
  intros H st. destruct (H st) as [Hh Hb]. unfold neverShrinks, capacity.
  rewrite Hh, Hb. lia.
Qed.

Lemma neverShrinks_ensure n : obeys (@neverShrinks S) (ensureBufferSizeToWrite n).
Proof.
  intros st. unfold ensureBufferSizeToWrite, bind. simpl.
  destruct (Z.of_nat (capacity st) <? n); simpl; unfold neverShrinks; [| lia].
  unfold capacity at 2. simpl.
  pose proof (bufferOf_newArrayBuffer (heap st) (Z.of_nat (capacity st) * 2)) as Hb.
  unfold newArrayBuffer in Hb. simpl in Hb. rewrite Hb, repeat_length. lia.
Qed.

Lemma neverShrinks_pull data A (k : Z -> M (State S) A) :
  (forall n, obeys neverShrinks (k n)) ->
  obeys neverShrinks (n <- callRead read data ;; if n <=? 0 then throw MORE_DATA else k n).
Proof.
  intros Hk. apply (obeys_pull neverShrinks (callRead read data) (fun n => n <=? 0));
    [| exact Hk].
  intros st. unfold neverShrinks. rewrite capacity_callRead. lia.
Qed.

(** Over a call of [decode] the scratch buffer never gets shorter. *)
Lemma capacity_never_shrinks (fuel : nat) (st : State S) :
  (capacity st <= capacity (decode read host options fuel st).2)%nat.
Proof.
  apply (obeys_decode read host options neverShrinks).
  - intros b. apply neverShrinks_same. intros st0. split; reflexivity.
  - apply neverShrinks_ensure.
  - apply neverShrinks_pull.
  - intros s. apply neverShrinks_same. intros st0. split; reflexivity.
  - intros o. apply neverShrinks_same. intros st0. unfold fillStack.
    destruct (fillFrames host o (stack st0)); split; reflexivity.
Qed.

End Capacity.

Lemma benchRead_honest (encoded : list byte) : honest (benchRead encoded).
Proof. intros n pos. unfold benchRead. simpl. lia. Qed.

Lemma chunkRead_honest : honest chunkRead.
Proof.
  intros n [|c rest]; simpl; [lia |].
  rewrite length_take. lia.
Qed.

Lemma readBytes_beyond_twice_capacity_witness :
  exists st', readBytes (benchRead (repeat x01 5000)) 4097 (newStreamDecoder 0%nat)
              = (Throw MORE_DATA, st')
              /\ Z.of_nat (capacity st') = Z.of_nat (capacity (newStreamDecoder 0%nat)) * 2.
Proof.
  apply (readBytes_beyond_twice_capacity (benchRead (repeat x01 5000)) 4097
           (newStreamDecoder 0%nat)).
  - apply benchRead_honest.
  - vm_compute. reflexivity.
Defined.

(** ** The stack under the reading primitives *)

Lemma be_uint_nonneg (bs : list byte) : 0 <= be_uint bs.
Proof.
  unfold be_uint. enough (H : forall acc, 0 <= acc ->
    0 <= fold_left (fun acc b => acc * 256 + byte_to_Z b) bs acc) by (apply H; lia).
  induction bs as [|b bs IH]; intros acc Hacc; simpl; [assumption |].
  apply IH. unfold byte_to_Z. lia.
Qed.

Section Stack.
Context {S : Type}.
Variable read : PullSource S.
Variable host : Host.
Variable options : Options.

#[local] Instance sameStack_frame : Frame (@sameStack S).
Proof. split; unfold sameStack; intros; congruence. Qed.

Lemma sameStack_setHeadByte b : obeys (@sameStack S) (setHeadByte b).
Proof. intros st. reflexivity. Qed.

Lemma sameStack_ensure n : obeys (@sameStack S) (ensureBufferSizeToWrite n).
Proof.
  intros st. unfold ensureBufferSizeToWrite, bind. simpl.
  destruct (Z.of_nat (capacity st) <? n); reflexivity.
Qed.

Lemma sameStack_callRead data : obeys sameStack (callRead read data).
Proof.
  intros st. unfold callRead.
  destruct (read (byteLength data) (source st)) as [[ws n] src]. reflexivity.
Qed.

Lemma sameStack_pull data A (k : Z -> M (State S) A) :
  (forall n, obeys sameStack (k n)) ->
  obeys sameStack (n <- callRead read data ;; if n <=? 0 then throw MORE_DATA else k n).
Proof.
  intros Hk. apply (obeys_pull sameStack (callRead read data) (fun n => n <=? 0));
    [apply sameStack_callRead | exact Hk].
Qed.

Hint Resolve sameStack_setHeadByte sameStack_ensure sameStack_pull : core.

Tactic Notation "keeps_stack" uconstr(lem) :=
  apply lem; first [typeclasses eauto | auto].

Lemma returns_ret {St A} (a : A) (Q : A -> Prop) : Q a -> returns (ret (St := St) a) Q.
Proof. intros H st a' st' [= <- _]. exact H. Qed.

Lemma returns_bind {St A B} (m : M St A) (k : A -> M St B) (Q : B -> Prop) :
  (forall a, returns (k a) Q) -> returns (bind m k) Q.
Proof.
  intros Hk st b st'. unfold bind.
  destruct (m st) as [[a|e|] st1]; try discriminate. apply Hk.
Qed.

Lemma returns_readUnsigned (n : nat) (len : Z) :
  returns (readBytes read len ;; bs <- viewBytes n ;; ret (be_uint bs)) (fun z => 0 <= z).
Proof.
  apply returns_bind. intros _. apply returns_bind. intros bs.
  apply returns_ret. apply be_uint_nonneg.
Qed.

(** The extension codec's answer is what [decodeExtension] returns. *)
Lemma returns_decodeExtension n :
  returns (decodeExtension read options n) (headValue options).
Proof.
  unfold decodeExtension. destruct (n >? _); [intros st a st'; discriminate |].
  apply returns_bind. intros t. apply returns_bind. intros data.
  apply returns_bind. intros st.
  destruct (extensionCodec options data _ t) as [e|v] eqn:E.
  - intros st0 a st'. discriminate.
  - apply returns_ret. left. eauto.
Qed.

Lemma headSpec_some {A} (m : M (State S) A) (f : A -> value Uint8Array) :
  obeys sameStack m -> returns m (fun a => headValue options (f a)) ->
  forall st, headSpec options st (some m f st).1 (some m f st).2.
Proof.
  intros Hm Hr st. unfold some, bind. specialize (Hm st). specialize (Hr st).
  destruct (m st) as [[a|e|] st1]; simpl in *; try exact Hm.
  split; [eapply Hr; reflexivity | exact Hm].
Qed.

Lemma headSpec_beginMap size (st : State S) :
  0 <= size -> headSpec options st (beginMap options size st).1 (beginMap options size st).2.
Proof.
  intros Hsize. unfold beginMap. destruct (size =? 0) eqn:E; simpl.
  - split; [right; exact I | reflexivity].
  - unfold pushMapState. destruct (size >? maxMapLength options); [reflexivity |].
    simpl. eexists. split; [| reflexivity]. simpl. repeat split; lia.
Qed.

Lemma headSpec_beginArray size (st : State S) :
  0 <= size -> headSpec options st (beginArray options size st).1 (beginArray options size st).2.
Proof.
  intros Hsize. unfold beginArray. destruct (size =? 0) eqn:E; simpl.
  - split; [right; exact I | reflexivity].
  - unfold pushArrayState. destruct (size >? maxArrayLength options); [reflexivity |].
    simpl. eexists. split; [| reflexivity]. simpl. repeat split; lia.
Qed.

Lemma headSpec_sized (m : M (State S) Z) (begin : Z -> M (State S) (option (value Uint8Array))) :
  obeys sameStack m -> returns m (fun z => 0 <= z) ->
  (forall size st, 0 <= size -> headSpec options st (begin size st).1 (begin size st).2) ->
  forall st, headSpec options st ((size <- m ;; begin size) st).1 ((size <- m ;; begin size) st).2.
Proof.
  intros Hm Hr Hb st. unfold bind. specialize (Hm st). specialize (Hr st).
  destruct (m st) as [[a|e|] st1]; simpl in *; try exact Hm.
  specialize (Hb a st1 (Hr a st1 eq_refl)). unfold sameStack in Hm.
  unfold headSpec in *. rewrite <- Hm. exact Hb.
Qed.

Lemma headSpec_value (v : value Uint8Array) (st : State S) :
  headValue options v -> headSpec options st (ret (Some v) st).1 (ret (Some v) st).2.
Proof. intros H. split; [exact H | reflexivity]. Qed.

Lemma headValue_leaf {A} (f : A -> value Uint8Array) :
  (forall a, match f a with
             | VNull | VBool _ | VNumber _ | VString _ | VBinary _ => True
             | _ => False
             end) ->
  forall (m : M (State S) A), returns m (fun a => headValue options (f a)).
Proof.
  intros Hf m st a st' _. right. specialize (Hf a). destruct (f a); tauto.
Qed.

Lemma decodeHead_spec hb (st : State S) :
  headSpec options st (decodeHead read host options hb st).1
                      (decodeHead read host options hb st).2.
Proof.
  assert (Hu8 : obeys sameStack (readU8 read)) by keeps_stack obeys_readU8.
  assert (Hi8 : obeys sameStack (readI8 read)) by keeps_stack obeys_readI8.
  assert (Hu16 : obeys sameStack (readU16 read)) by keeps_stack obeys_readU16.
  assert (Hi16 : obeys sameStack (readI16 read)) by keeps_stack obeys_readI16.
  assert (Hu32 : obeys sameStack (readU32 read)) by keeps_stack obeys_readU32.
  assert (Hi32 : obeys sameStack (readI32 read)) by keeps_stack obeys_readI32.
  assert (Hu64 : obeys sameStack (readU64 read host)) by keeps_stack obeys_readU64.
  assert (Hi64 : obeys sameStack (readI64 read host)) by keeps_stack obeys_readI64.
  assert (Hf32 : obeys sameStack (readF32 read)) by keeps_stack obeys_readF32.
  assert (Hf64 : obeys sameStack (readF64 read)) by keeps_stack obeys_readF64.
  assert (Hstr : forall n, obeys sameStack (decodeUtf8String read host options n))
    by (intros n; keeps_stack obeys_decodeUtf8String).
  assert (Hbin : forall n, obeys sameStack (decodeBinary read options n))
    by (intros n; keeps_stack obeys_decodeBinary).
  assert (Hext : forall n, obeys sameStack (decodeExtension read options n))
    by (intros n; keeps_stack obeys_decodeExtension).
  unfold decodeHead.
  repeat match goal with
  | |- context [if ?c then _ else _] => destruct c eqn:?
  end;
  first
    [ apply headSpec_value; right; exact I
    | apply headSpec_beginMap; lia
    | apply headSpec_beginArray; lia
    | apply headSpec_sized;
        [ assumption
        | apply returns_readUnsigned
        | first [apply headSpec_beginMap | apply headSpec_beginArray] ]
    | apply headSpec_some;
        [ obeys_auto
        | first [ apply returns_decodeExtension
                | apply returns_bind; intros ?; apply returns_decodeExtension
                | apply headValue_leaf; intros ?; exact I ] ]
    | reflexivity ].
Qed.

End Stack.

(** ** One turn of the decoding loop *)

Section Turn.
Context {S : Type}.
Variable read : PullSource S.
Variable host : Host.
Variable options : Options.

(** A turn of [DECODE: while (true)], with the sequencing spelt out. *)
Lemma doDecodeSync_turn (fuel : nat) (st : State S) :
  doDecodeSync read host options (Datatypes.S fuel) st =
  match readHeadByte read st with
  | (Ok hb, st1) =>
      match decodeHead read host options hb st1 with
      | (Ok None, st2) => doDecodeSync read host options fuel st2
      | (Ok (Some object), st2) =>
          let st3 stk := mkState (heap st2) (source st2) HEAD_BYTE_REQUIRED (bytes st2) stk in
          match fillFrames host object (stack st2) with
          | (Ok ContinueDecode, stk) => doDecodeSync read host options fuel (st3 stk)
          | (Ok (Return v), stk) => (Ok v, st3 stk)
          | (Throw e, stk) => (Throw e, st3 stk)
          | (OutOfFuel, stk) => (OutOfFuel, st3 stk)
          end
      | (Throw e, st2) => (Throw e, st2)
      | (OutOfFuel, st2) => (OutOfFuel, st2)
      end
  | (Throw e, st1) => (Throw e, st1)
  | (OutOfFuel, st1) => (OutOfFuel, st1)
  end.
Proof.
  simpl. unfold bind at 1.
  destruct (readHeadByte read st) as [[hb|e|] st1]; try reflexivity.
  unfold bind at 1.
  destruct (decodeHead read host options hb st1) as [[[object|]|e|] st2]; try reflexivity.
  unfold bind at 1. simpl. unfold bind at 1. unfold fillStack. simpl.
  destruct (fillFrames host object (stack st2)) as [[[|v]|e|] stk]; reflexivity.
Qed.

Lemma readHeadByte_stack (st : State S) : stack (readHeadByte read st).2 = stack st.
Proof.
  assert (H : obeys sameStack (readHeadByte read)).
  { apply obeys_readHeadByte.
    - apply sameStack_frame.
    - apply sameStack_setHeadByte.
    - apply sameStack_ensure.
    - apply sameStack_pull. }
  apply H.
Qed.

End Turn.

(** ** Map keys *)

Lemma forallb_setIndex {B} (P : value B -> bool) (i : Z) (x : value B) (l : list (value B)) :
  forallb P l = true -> P x = true -> P VUndefined = true ->
  forallb P (setIndex i x l) = true.
Proof.
  intros Hl Hx Hu. unfold setIndex.
  destruct (i <? 0); [exact Hl |].
  destruct (Z.to_nat i <? length l)%nat.
  - generalize (Z.to_nat i). clear i. induction l as [|y l IH]; intros n; [reflexivity |].
    simpl in Hl. apply andb_prop in Hl as [Hy Hl].
    destruct n; simpl; rewrite ?Hx, ?Hy; simpl; auto.
  - rewrite !forallb_app, Hl. simpl. rewrite Hx. rewrite andb_true_r. simpl.
    induction (Z.to_nat i - length l)%nat; simpl; [reflexivity |].
    rewrite Hu. assumption.
Qed.

Lemma forallb_setProperty {B} (P : string * value B -> bool) (key : string) (v : value B)
    (props : list (string * value B)) :
  forallb P props = true -> (forall k, P (k, v) = true \/ k <> key) ->
  P (key, v) = true -> forallb P (setProperty key v props) = true.
Proof.
  intros Hp Hk Hv. induction props as [|[k w] rest IH]; simpl.
  - rewrite Hv. reflexivity.
  - simpl in Hp. apply andb_prop in Hp as [Hw Hrest].
    destruct (String.eqb k key) eqn:E; simpl.
    + apply String.eqb_eq in E. subst k. rewrite Hv, Hrest. reflexivity.
    + rewrite Hw. simpl. apply IH. assumption.
Qed.

Section Keys.
Context {B : Type}.
Variable host : Host.

(** The test of a completed object against a frame that awaits a key. *)
Lemma fillFrames_key (object : value B) size key readCount map rest :
  fillFrames host object (StackMapState STATE_MAP_KEY size key readCount map :: rest) =
  match typeof object with
  | TString | TNumber =>
      if strictEqualsString object "__proto__"
      then (Throw (DecodeError KeyProtoNotAllowed),
            StackMapState STATE_MAP_KEY size key readCount map :: rest)
      else (Ok ContinueDecode,
            StackMapState STATE_MAP_VALUE size (asMapKey object) readCount map :: rest)
  | t => (Throw (DecodeError (KeyTypeMustBeStringOrNumber t)),
          StackMapState STATE_MAP_KEY size key readCount map :: rest)
  end.
Proof. destruct object; reflexivity. Qed.

Hypothesis numberToString_proto : forall n, numberToString host n <> "__proto__"%string.

Lemma propertyKey_asMapKey (object : value B) :
  isValidMapKeyType object = true ->
  strictEqualsString object "__proto__" = false ->
  String.eqb (propertyKey host (asMapKey object)) "__proto__" = false.
Proof.
  intros Hv Hs. destruct object; try discriminate; simpl in *.
  - apply String.eqb_neq. apply numberToString_proto.
  - exact Hs.
Qed.

(** Completing a value keeps ["__proto__"] out of every object under
    construction and out of the object returned. *)
Lemma fillFrames_protoFree (stk : list (StackState B)) :
  forall object r stk',
  forallb (frameProtoFree host) stk = true ->
  protoFree object = true ->
  fillFrames host object stk = (r, stk') ->
  forallb (frameProtoFree host) stk' = true /\
  (forall v, r = Ok (Return v) -> protoFree v = true).
Proof.
  induction stk as [|f rest IH]; intros object r stk' Hstk Hobj Hrun.
  - simpl in Hrun. injection Hrun as <- <-. split; [reflexivity |].
    intros v [= <-]. exact Hobj.
  - simpl in Hstk. apply andb_prop in Hstk as [Hf Hrest].
    destruct f as [size array position | [|] size key readCount map].
    + simpl in Hrun. simpl in Hf.
      assert (Harr : forallb protoFree (setIndex position object array) = true)
        by (apply forallb_setIndex; auto).
      destruct (position + 1 =? size).
      * eapply IH; [exact Hrest | | exact Hrun]. exact Harr.
      * injection Hrun as <- <-. split; [| discriminate].
        simpl. rewrite Harr, Hrest. reflexivity.
    + rewrite fillFrames_key in Hrun.
      assert (Hkeep : forallb (frameProtoFree host)
                (StackMapState STATE_MAP_KEY size key readCount map :: rest) = true)
        by (simpl; simpl in Hf; rewrite Hf, Hrest; reflexivity).
      destruct (strictEqualsString object "__proto__") eqn:Es;
        destruct (typeof object) eqn:Et;
        injection Hrun as <- <-; (split; [| discriminate]); try exact Hkeep.
      * simpl. simpl in Hf. rewrite andb_true_r in Hf. rewrite Hf, Hrest. simpl.
        rewrite propertyKey_asMapKey; [reflexivity | | exact Es].
        unfold isValidMapKeyType. rewrite Et. reflexivity.
      * simpl. simpl in Hf. rewrite andb_true_r in Hf. rewrite Hf, Hrest. simpl.
        rewrite propertyKey_asMapKey; [reflexivity | | exact Es].
        unfold isValidMapKeyType. rewrite Et. reflexivity.
    + simpl in Hrun. simpl in Hf. apply andb_prop in Hf as [Hmap Hkey].
      assert (Hmap' : forallb
                (fun kv => negb (String.eqb (fst kv) "__proto__") && protoFree (snd kv))
                (setProperty (propertyKey host key) object map) = true).
      { apply forallb_setProperty; [exact Hmap | | ]; simpl.
        - intros k. destruct (String.eqb_spec k (propertyKey host key)) as [->|Hne].
          + left. rewrite Hkey, Hobj. reflexivity.
          + right. exact Hne.
        - rewrite Hkey, Hobj. reflexivity. }
      destruct (readCount + 1 =? size).
      * eapply IH; [exact Hrest | | exact Hrun]. exact Hmap'.
      * injection Hrun as <- <-. split; [| discriminate].
        simpl. rewrite Hmap', Hrest. reflexivity.
Qed.

End Keys.

Lemma forallb_repeat {A} (P : A -> bool) (x : A) (n : nat) :
  P x = true -> forallb P (repeat x n) = true.
Proof. intros H. induction n; simpl; [reflexivity | rewrite H; assumption]. Qed.

Section ProtoKey.
Context {S : Type}.
Variable read : PullSource S.
Variable host : Host.
Variable options : Options.

Lemma freshFrame_protoFree (f : StackState Uint8Array) :
  freshFrame f -> frameProtoFree host f = true.
Proof.
  destruct f as [size array position | type size key readCount map]; simpl.
  - intros (_ & _ & ->). apply forallb_repeat. reflexivity.
  - intros (_ & -> & _ & _ & ->). reflexivity.
Qed.

(** An error thrown while the completed object is handed to the frames
    ends [doDecodeSync] with that error. *)
Lemma doDecodeSync_fill_throws (fuel : nat) (st st1 st2 : State S) hb object e stk :
  readHeadByte read st = (Ok hb, st1) ->
  decodeHead read host options hb st1 = (Ok (Some object), st2) ->
  fillFrames host object (stack st2) = (Throw e, stk) ->
  (doDecodeSync read host options (Datatypes.S fuel) st).1 = Throw e.
Proof.
  intros H1 H2 H3. rewrite doDecodeSync_turn, H1, H2. simpl. rewrite H3. reflexivity.
Qed.

Hypothesis numberToString_proto : forall n, numberToString host n <> "__proto__"%string.
Hypothesis extension_proto : forall data bs t v,
  extensionCodec options data bs t = inr v -> protoFree v = true.

Lemma headValue_protoFree (v : value Uint8Array) : headValue options v -> protoFree v = true.
Proof.
  intros [(data & bs & t & H) | H]; [eapply extension_proto; exact H |].
  destruct v as [| | | | | | [|] | [|] |]; simpl in *; tauto.
Qed.

Lemma doDecodeSync_protoFree (fuel : nat) :
  forall (st st' : State S) r,
  forallb (frameProtoFree host) (stack st) = true ->
  doDecodeSync read host options fuel st = (r, st') ->
  forall v, r = Ok v -> protoFree v = true.
Proof.
  induction fuel as [|fuel IH]; intros st st' r Hstk Hrun v Hv.
  - simpl in Hrun. congruence.
  - rewrite doDecodeSync_turn in Hrun.
    pose proof (readHeadByte_stack read st) as Hs1.
    destruct (readHeadByte read st) as [[hb|e|] st1]; try congruence.
    simpl in Hs1.
    pose proof (decodeHead_spec read host options hb st1) as Hh.
    destruct (decodeHead read host options hb st1) as [[[object|]|e|] st2];
      try congruence; simpl in Hh.
    + destruct Hh as [Hobj Hs2].
      destruct (fillFrames host object (stack st2)) as [next stk] eqn:Ef.
      destruct (fillFrames_protoFree host numberToString_proto (stack st2)
                  object next stk) as [Hstk' Hret]; try assumption.
      { rewrite Hs2, Hs1. exact Hstk. }
      { apply headValue_protoFree. exact Hobj. }
      destruct next as [[|w]|e|]; try congruence.
      * eapply IH; [| exact Hrun | exact Hv]. exact Hstk'.
      * apply Hret. congruence.
    + destruct Hh as (f & Hf & Hs2).
      eapply IH; [| exact Hrun | exact Hv].
      rewrite Hs2. simpl. rewrite (freshFrame_protoFree f Hf), Hs1. exact Hstk.
Qed.

(** C4. The string ["__proto__"] completed while the frame on top awaits a
    key throws the [DecodeError] "The key __proto__ is not allowed" and
    leaves the stack as it is; the turn of [doDecodeSync] in which that
    happens ends the decode with that error; and whatever the input, no
    value that [decode] returns holds an object with a property of that
    name, given that the engine never prints a number as ["__proto__"] and
    that the extension codec does not hand in such an object itself. *)
Theorem proto_key_never_decoded :
  (forall size key readCount map rest,
     fillFrames host (VString "__proto__")
       (StackMapState STATE_MAP_KEY size key readCount map :: rest)
     = (Throw (DecodeError KeyProtoNotAllowed),
        StackMapState (B := Uint8Array) STATE_MAP_KEY size key readCount map :: rest)) /\
  (forall fuel (st st1 st2 : State S) hb size key readCount map rest,
     readHeadByte read st = (Ok hb, st1) ->
     decodeHead read host options hb st1 = (Ok (Some (VString "__proto__")), st2) ->
     stack st2 = StackMapState STATE_MAP_KEY size key readCount map :: rest ->
     (doDecodeSync read host options (Datatypes.S fuel) st).1
     = Throw (DecodeError KeyProtoNotAllowed)) /\
  (forall fuel (st st' : State S) v,
     decode read host options fuel st = (Ok v, st') -> protoFree v = true).
Proof.
  split; [| split].
  - intros. reflexivity.
  - intros fuel st st1 st2 hb size key readCount map rest H1 H2 H3.
    eapply doDecodeSync_fill_throws; [exact H1 | exact H2 |].
    rewrite H3. reflexivity.
  - intros fuel st st' v Hrun. unfold decode, reinitializeState in Hrun.
    unfold bind at 1 in Hrun. simpl in Hrun.
    eapply doDecodeSync_protoFree; [| exact Hrun | reflexivity]. reflexivity.
Qed.

End ProtoKey.

Lemma decimal_not_proto (z : Z) : Sample.decimal z <> "__proto__"%string.
Proof.
  unfold Sample.decimal.
  destruct (Z.to_int z) as [d|d]; simpl; [| discriminate].
  destruct d; simpl; discriminate.
Qed.

Lemma showNumber_not_proto (n : number) : numberToString Sample.host n <> "__proto__"%string.
Proof.
  destruct n; simpl; [apply decimal_not_proto | discriminate | discriminate].
Qed.

Lemma extData_protoFree data bs t v :
  extensionCodec Sample.options data bs t = inr v -> protoFree v = true.
Proof. simpl. unfold Sample.extData. intros [= <-]. reflexivity. Qed.

Lemma proto_key_never_decoded_witness :
  exists v,
    (decodeStream chunkRead Sample.host Sample.options 10 [[x81; xa1; x61; x01]]).1 = Ok v
    /\ protoFree v = true.
Proof.
  eexists. split.
  - vm_compute. reflexivity.
  - eapply (proj2 (proj2 (proto_key_never_decoded chunkRead Sample.host Sample.options
                            showNumber_not_proto extData_protoFree))
              10%nat (newStreamDecoder [[x81; xa1; x61; x01]])).
    vm_compute. reflexivity.
Defined.

(** ** The kinds of map keys *)

(** The claim as first stated fails on a map whose key is the float32
    [1.5]: the key is accepted and the map is returned. *)
Lemma float_key_accepted :
  fillFrames Sample.host (VNumber (Float32 0x3fc00000))
    [StackMapState (B := Uint8Array) STATE_MAP_KEY 1 None 0 []]
  = (Ok ContinueDecode,
     [StackMapState STATE_MAP_VALUE 1 (Some (KeyNumber (Float32 0x3fc00000))) 0 []])
  /\ Sample.run chunkRead Sample.options 10 [[x81; xca; x3f; xc0; x00; x00; x01]]
     = Ok (VObject [("float32:1069547520"%string, VNumber (Int 1))]).
Proof. split; vm_compute; reflexivity. Qed.

(** ** Views handed out by the decoder *)

Section Aliasing.
Context {S : Type}.
Variable read : PullSource S.
Variable host : Host.
Variable options : Options.








End Aliasing.

(** ** Suspension *)

(** C8, on a transport that has nothing to give for a moment in the middle
    of [[1, 2, 3]]: [decodeStream] does not wait, it throws [MORE_DATA];
    and calling [decode] again once the bytes are there starts from an empty
    stack, so that it returns [2]. *)
Theorem decodeStream_does_not_resume :
  let '(r1, st1) := decodeStream chunkRead Sample.host Sample.options 10 stalledInput in
  let '(r2, st2) := decode chunkRead Sample.host Sample.options 10 st1 in
  r1 = Throw MORE_DATA /\ source st1 = [[x02; x03]] /\
  r2 = Ok (VNumber (Int 2)) /\
  Sample.run chunkRead Sample.options 10 [[x93; x01]; [x02; x03]]
  = Ok (VArray [VNumber (Int 1); VNumber (Int 2); VNumber (Int 3)]).
Proof. vm_compute. repeat split; reflexivity. Qed.

(** ** The life of a frame *)

Lemma replay_app (t1 t2 : list FrameEvent) :
  forall open,
  replay (t1 ++ t2) open =
  match replay t1 open with
  | Some open1 => replay t2 open1
  | None => None
  end.
Proof.
  induction t1 as [|[size|count size] t1 IH]; intros open; simpl.
  - reflexivity.
  - apply IH.
  - destruct open as [|s open']; [reflexivity |].
    destruct ((s =? size) && (count =? size)); [apply IH | reflexivity].
Qed.

Lemma fillFramesTraced_run {B} (host : Host) (stk : list (StackState B)) :
  forall object, (fillFramesTraced host object stk).1 = fillFrames host object stk.
Proof.
  induction stk as [|f rest IH]; intros object; [reflexivity |].
  destruct f as [size array position | [|] size key readCount map]; simpl.
  - destruct (position + 1 =? size); [| reflexivity].
    rewrite <- IH. destruct (fillFramesTraced host _ rest) as [[r s] t]. reflexivity.
  - destruct (negb (isValidMapKeyType object)); [reflexivity |].
    destruct (strictEqualsString object "__proto__"); reflexivity.
  - destruct (readCount + 1 =? size); [| reflexivity].
    rewrite <- IH. destruct (fillFramesTraced host _ rest) as [[r s] t]. reflexivity.
Qed.

(** The pops of a completion, replayed: each closes the frame on top when
    its count has reached its size; the frames that stay are pending. *)
Lemma fillFramesTraced_replay {B} (host : Host) (stk : list (StackState B)) :
  forall object r stk' events,
  Forall framePending stk ->
  fillFramesTraced host object stk = (r, stk', events) ->
  replay events (map frameSize stk) = Some (map frameSize stk') /\
  Forall framePending stk' /\
  (forall v, r = Ok (Return v) -> stk' = []).
Proof.
  induction stk as [|f rest IH]; intros object r stk' events Hpend Hrun.
  - simpl in Hrun. injection Hrun as <- <- <-. auto.
  - apply Forall_cons in Hpend as [Hf Hrest]. unfold framePending in Hf.
    destruct f as [size array position | [|] size key readCount map];
      simpl in Hrun, Hf.
    + destruct (position + 1 =? size) eqn:E.
      * destruct (fillFramesTraced host _ rest) as [[r0 s0] t0] eqn:Er.
        injection Hrun as <- <- <-.
        destruct (IH _ _ _ _ Hrest Er) as (H1 & H2 & H3).
        simpl. rewrite Z.eqb_refl, E. simpl. auto.
      * injection Hrun as <- <- <-. simpl. repeat split; [| discriminate].
        constructor; [| exact Hrest]. unfold framePending. simpl. lia.
    + destruct (negb (isValidMapKeyType object));
        [| destruct (strictEqualsString object "__proto__")];
        injection Hrun as <- <- <-; simpl; (repeat split; [| discriminate]);
        constructor; auto.
    + destruct (readCount + 1 =? size) eqn:E.
      * destruct (fillFramesTraced host _ rest) as [[r0 s0] t0] eqn:Er.
        injection Hrun as <- <- <-.
        destruct (IH _ _ _ _ Hrest Er) as (H1 & H2 & H3).
        simpl. rewrite Z.eqb_refl, E. simpl. auto.
      * injection Hrun as <- <- <-. simpl. repeat split; [| discriminate].
        constructor; [| exact Hrest]. unfold framePending. simpl. lia.
Qed.

Lemma freshFrame_pending {B} (f : StackState B) : freshFrame f -> framePending f.
Proof.
  destruct f as [size array position | type size key readCount map]; unfold framePending; simpl.
  - intros (H & -> & _). lia.
  - intros (H & _ & _ & -> & _). lia.
Qed.

Section FrameLife.
Context {S : Type}.
Variable read : PullSource S.
Variable host : Host.
Variable options : Options.

(** The traced run is the run. *)
Lemma doDecodeSyncTraced_run (fuel : nat) :
  forall st : State S,
  (doDecodeSyncTraced read host options fuel st).1 = doDecodeSync read host options fuel st.
Proof.
  induction fuel as [|fuel IH]; intros st; [reflexivity |].
  rewrite doDecodeSync_turn. simpl.
  destruct (readHeadByte read st) as [[hb|e|] st1]; try reflexivity.
  destruct (decodeHead read host options hb st1) as [[[object|]|e|] st2]; try reflexivity.
  - rewrite <- fillFramesTraced_run.
    destruct (fillFramesTraced host object (stack st2)) as [[[[|v]|e|] stk] pops];
      try reflexivity.
    simpl. rewrite <- IH.
    destruct (doDecodeSyncTraced read host options fuel _) as [[r st'] t]. reflexivity.
  - rewrite <- IH.
    destruct (doDecodeSyncTraced read host options fuel st2) as [[r st'] t]. reflexivity.
Qed.

Lemma pushedBetween_same {B} (stk : list (StackState B)) : pushedBetween stk stk = [].
Proof. unfold pushedBetween. rewrite Nat.sub_diag. reflexivity. Qed.

Lemma pushedBetween_one {B} (f : StackState B) (stk : list (StackState B)) :
  pushedBetween stk (f :: stk) = [Pushed (frameSize f)].
Proof.
  unfold pushedBetween. simpl length.
  replace (Datatypes.S (length stk) - length stk)%nat with 1%nat by lia. reflexivity.
Qed.

Lemma doDecodeSyncTraced_replay (fuel : nat) :
  forall (st st' : State S) r events,
  Forall framePending (stack st) ->
  doDecodeSyncTraced read host options fuel st = (r, st', events) ->
  replay events (map frameSize (stack st)) = Some (map frameSize (stack st')) /\
  Forall framePending (stack st') /\
  (forall v, r = Ok v -> stack st' = []).
Proof.
  induction fuel as [|fuel IH]; intros st st' r events Hpend Hrun.
  - simpl in Hrun. injection Hrun as <- <- <-. repeat split; [assumption | discriminate].
  - simpl in Hrun.
    pose proof (readHeadByte_stack read st) as Hs1.
    destruct (readHeadByte read st) as [[hb|e|] st1]; simpl in Hs1;
      try (injection Hrun as <- <- <-; rewrite Hs1;
           repeat split; [assumption | discriminate]).
    pose proof (decodeHead_spec read host options hb st1) as Hh.
    destruct (decodeHead read host options hb st1) as [[[object|]|e|] st2]; simpl in Hh;
      try (injection Hrun as <- <- <-; rewrite Hh, pushedBetween_same, Hs1;
           repeat split; [assumption | discriminate]).
    + destruct Hh as [_ Hs2]. rewrite Hs2, pushedBetween_same in Hrun. simpl in Hrun.
      destruct (fillFramesTraced host object (stack st1)) as [[next stk] pops] eqn:Ef.
      rewrite Hs1 in Ef.
      destruct (fillFramesTraced_replay host (stack st) object next stk pops Hpend Ef)
        as (H1 & H2 & H3).
      destruct next as [[|v]|e|].
      * destruct (doDecodeSyncTraced read host options fuel _) as [[r0 st0] t0] eqn:Er.
        injection Hrun as <- <- <-.
        apply IH in Er as (H4 & H5 & H6); [| exact H2].
        rewrite replay_app, H1. simpl in H4. auto.
      * injection Hrun as <- <- <-. simpl. repeat split; auto.
        intros w _. apply (H3 v). reflexivity.
      * injection Hrun as <- <- <-. simpl. repeat split; [assumption.. | discriminate].
      * injection Hrun as <- <- <-. simpl. repeat split; [assumption.. | discriminate].
    + destruct Hh as (f & Hf & Hs2). rewrite Hs2, pushedBetween_one in Hrun.
      destruct (doDecodeSyncTraced read host options fuel st2) as [[r0 st0] t0] eqn:Er.
      injection Hrun as <- <- <-.
      assert (Hpend2 : Forall framePending (stack st2)).
      { rewrite Hs2. constructor; [apply freshFrame_pending; exact Hf |].
        rewrite Hs1. exact Hpend. }
      destruct (IH _ _ _ _ Hpend2 Er) as (H4 & H5 & H6).
      simpl. rewrite Hs2, Hs1 in H4. simpl in H4. auto.
Qed.

(** C7, as the code has it.  In every decode pass the pushes and pops are
    well nested: replayed from an empty stack, the events of the pass never
    pop without a push, each pop closes the innermost open frame and comes
    when that frame's count equals its declared size, so that no frame is
    popped twice; and the frames left open are the stack of the final state,
    all with a count below their size.  When the pass returns a value that
    stack is empty, so every frame pushed was popped, once.  A pass that
    throws leaves the frames that were open on the stack, not popped. *)
Theorem frames_popped_once_when_full (fuel : nat) (st : State S) :
  let '(r, st', events) := decodeTraced read host options fuel st in
  (r, st') = decode read host options fuel st /\
  replay events [] = Some (map frameSize (stack st')) /\
  Forall framePending (stack st') /\
  (forall v, r = Ok v -> stack st' = [] /\ replay events [] = Some []).
Proof.
  unfold decodeTraced.
  destruct (doDecodeSyncTraced read host options fuel (reinitializeState st).2)
    as [[r st'] events] eqn:Er.
  pose proof (doDecodeSyncTraced_run fuel (reinitializeState st).2) as Hrun.
  rewrite Er in Hrun. simpl in Hrun.
  apply doDecodeSyncTraced_replay in Er as (H1 & H2 & H3); [| constructor].
  simpl in H1. split; [exact Hrun |]. split; [exact H1 |]. split; [exact H2 |].
  intros v Hv. split; [apply (H3 v Hv) | rewrite H1, (H3 v Hv); reflexivity].
Qed.

End FrameLife.

(** The claim as first stated fails on a pass that throws.  On the array
    [[1, 2, 3]] cut after its first element the frame of the array is pushed
    and never popped: the pass throws [MORE_DATA] with the frame on the
    stack, count 1 of 3, and the next [decode()] drops it in
    [reinitializeState], without a pop. *)
Lemma thrown_pass_leaves_frame :
  let '(r, st', events) :=
    decodeTraced chunkRead Sample.host Sample.options 10 (newStreamDecoder [[x93; x01]]) in
  r = Throw MORE_DATA /\ events = [Pushed 3] /\
  stack st' = [StackArrayState 3 [VNumber (Int 1); VUndefined; VUndefined] 1] /\
  stack (reinitializeState st').2 = [].
Proof. vm_compute. repeat split; reflexivity. Qed.

(** The frames of [[1, [2]]]: the inner array is pushed second and popped
    first. *)
Example frames_of_nested_array :
  (decodeTraced chunkRead Sample.host Sample.options 10
     (newStreamDecoder [[x92; x01; x91; x02]])).2
  = [Pushed 2; Pushed 1; Popped 1 1; Popped 2 2].
Proof. vm_compute. reflexivity. Qed.

(** ** The two decoding paths *)

(** C2, on two valid buffers.  For an array of a binary and an integer the
    buffer-resident path returns the binary [05], while the stream path,
    fed the same bytes in one chunk or one byte per pull, returns a binary
    that shows [07]: the view it handed out is on the scratch buffer, which
    the read of the next head byte has overwritten.  For a string of 4097
    bytes the buffer-resident path returns the string, while the stream path
    throws [MORE_DATA], because the scratch buffer is doubled once only. *)
Theorem stream_path_differs_from_buffer_path :
  decodeBuffer Sample.host (Sample.optionsOf _) binaryThenInt
  = Ok (VArray [VBinary [x05]; VNumber (Int 7)]) /\
  Sample.run chunkRead Sample.options 10 [binaryThenInt]
  = Ok (VArray [VBinary [x07]; VNumber (Int 7)]) /\
  Sample.run chunkRead Sample.options 10 (map (fun b => [b]) binaryThenInt)
  = Ok (VArray [VBinary [x07]; VNumber (Int 7)]) /\
  decodeBuffer Sample.host (Sample.optionsOf _) longString
  = Ok (VString (string_of_list_byte (repeat x61 4097))) /\
  Sample.run (benchRead longString) Sample.options 10 0%nat = Throw MORE_DATA.
Proof. repeat split; vm_compute; reflexivity. Qed.

(** ** Bytes and numbers *)

Lemma byte_to_Z_range (b : byte) : 0 <= byte_to_Z b < 256.
Proof. unfold byte_to_Z. pose proof (Byte.to_N_bounded b). lia. Qed.

Lemma byte_to_of_Z (z : Z) : byte_to_Z (byte_of_Z z) = z mod 256.
Proof.
  unfold byte_to_Z, byte_of_Z.
  pose proof (Z.mod_pos_bound z 256 ltac:(lia)) as Hr.
  destruct (Byte.of_N (Z.to_N (z mod 256))) as [b|] eqn:E.
  - apply Byte.to_of_N in E. rewrite E. lia.
  - apply Byte.of_N_None_iff in E. lia.
Qed.

Lemma be_uint_snoc (bs : list byte) (b : byte) :
  be_uint (bs ++ [b]) = be_uint bs * 256 + byte_to_Z b.
Proof. unfold be_uint. rewrite fold_left_app. reflexivity. Qed.

Lemma length_be_bytes (n : nat) : forall z, length (Encoder.be_bytes n z) = n.
Proof.
  induction n as [|n IH]; intros z; simpl; [reflexivity |].
  rewrite length_app, IH. simpl. lia.
Qed.

Lemma be_uint_be_bytes (n : nat) :
  forall z, be_uint (Encoder.be_bytes n z) = z mod 256 ^ Z.of_nat n.
Proof.
  induction n as [|n IH]; intros z.
  - simpl. rewrite Z.mod_1_r. reflexivity.
  - simpl Encoder.be_bytes. rewrite be_uint_snoc, IH, byte_to_of_Z.
    rewrite Nat2Z.inj_succ, Z.pow_succ_r by lia.
    rewrite Z.rem_mul_r by lia. lia.
Qed.

Lemma be_uint_be_bytes_small (n : nat) (z : Z) :
  0 <= z < 256 ^ Z.of_nat n -> be_uint (Encoder.be_bytes n z) = z.
Proof. intros H. rewrite be_uint_be_bytes. apply Z.mod_small. exact H. Qed.

Lemma to_signed_be_bytes (n : nat) (z : Z) :
  (0 < n)%nat ->
  - 2 ^ (8 * Z.of_nat n - 1) <= z < 0 ->
  to_signed (8 * Z.of_nat n) (be_uint (Encoder.be_bytes n z)) = z.
Proof.
  intros Hn Hz. rewrite be_uint_be_bytes.
  assert (Hpow : 256 ^ Z.of_nat n = 2 ^ (8 * Z.of_nat n)).
  { change 256 with (2 ^ 8). rewrite <- Z.pow_mul_r by lia. reflexivity. }
  rewrite Hpow.
  assert (Hhalf : 2 ^ (8 * Z.of_nat n) = 2 * 2 ^ (8 * Z.of_nat n - 1)).
  { rewrite <- Z.pow_succ_r by lia. f_equal. lia. }
  assert (Hmod : z mod 2 ^ (8 * Z.of_nat n) = z + 2 ^ (8 * Z.of_nat n)).
  { symmetry. apply Z.mod_unique with (q := -1); lia. }
  rewrite Hmod. unfold to_signed.
  destruct (z + 2 ^ (8 * Z.of_nat n) <? 2 ^ (8 * Z.of_nat n - 1)) eqn:E; lia.
Qed.

(** ** The buffer-resident decoder on encoded bytes *)

Section Reads.
Variable host : Host.
Variable options : OptionsOf (list byte).

Abbreviation mk := Decoder.mkState.

Lemma readBytes_app (bs rest : list byte) h stk :
  Decoder.readBytes (Z.of_nat (length bs)) (mk (bs ++ rest) h stk)
  = (Ok bs, mk rest h stk).
Proof.
  unfold Decoder.readBytes. simpl. rewrite Nat2Z.id.
  assert (Hle : (length bs <=? length (bs ++ rest))%nat = true).
  { apply Nat.leb_le. rewrite length_app. lia. }
  rewrite Hle, take_app_length, drop_app_length. reflexivity.
Qed.

Lemma readUnsigned_be (k : Z) (n : nat) (z : Z) (rest : list byte) h stk :
  k = Z.of_nat n -> 0 <= z < 256 ^ Z.of_nat n ->
  Decoder.readUnsigned k (mk (Encoder.be_bytes n z ++ rest) h stk) = (Ok z, mk rest h stk).
Proof.
  intros -> Hz. unfold Decoder.readUnsigned, bind.
  rewrite <- (length_be_bytes n z) at 1. rewrite readBytes_app.
  simpl. rewrite be_uint_be_bytes_small by exact Hz. reflexivity.
Qed.

Lemma readSigned_be (k : Z) (n : nat) (z : Z) (rest : list byte) h stk :
  k = Z.of_nat n -> (0 < n)%nat -> - 2 ^ (8 * Z.of_nat n - 1) <= z < 0 ->
  Decoder.readSigned k (mk (Encoder.be_bytes n z ++ rest) h stk) = (Ok z, mk rest h stk).
Proof.
  intros -> Hn Hz. unfold Decoder.readSigned, bind.
  rewrite <- (length_be_bytes n z) at 1. rewrite readBytes_app.
  simpl. rewrite to_signed_be_bytes by assumption. reflexivity.
Qed.

Lemma readHeadByte_cons (hb : byte) (tail : list byte) stk :
  Decoder.readHeadByte (mk (hb :: tail) HEAD_BYTE_REQUIRED stk)
  = (Ok (byte_to_Z hb), mk tail (byte_to_Z hb) stk).
Proof. reflexivity. Qed.

(** A turn on a header that yields an object. *)
Lemma turn_leaf (fuel : nat) (hb : byte) (tail rest : list byte) stk v :
  Decoder.decodeHead host options (byte_to_Z hb) (mk tail (byte_to_Z hb) stk)
  = (Ok (Some v), mk rest (byte_to_Z hb) stk) ->
  Decoder.doDecodeSync host options (Datatypes.S fuel) (mk (hb :: tail) HEAD_BYTE_REQUIRED stk)
  = after host options fuel v rest stk.
Proof.
  intros H. simpl. unfold bind at 1. rewrite readHeadByte_cons.
  unfold bind at 1. rewrite H. unfold bind at 1. simpl.
  unfold bind, Decoder.fillStack, after. simpl.
  destruct (fillFrames host v stk) as [[[|w]|e|] stk']; reflexivity.
Qed.

(** A turn on a header that pushes a frame. *)
Lemma turn_push (fuel : nat) (hb : byte) (tail rest : list byte) stk stk' :
  Decoder.decodeHead host options (byte_to_Z hb) (mk tail (byte_to_Z hb) stk)
  = (Ok None, mk rest HEAD_BYTE_REQUIRED stk') ->
  Decoder.doDecodeSync host options (Datatypes.S fuel) (mk (hb :: tail) HEAD_BYTE_REQUIRED stk)
  = Decoder.doDecodeSync host options fuel (mk rest HEAD_BYTE_REQUIRED stk').
Proof.
  intros H. simpl. unfold bind at 1. rewrite readHeadByte_cons.
  unfold bind at 1. rewrite H. reflexivity.
Qed.

End Reads.

(** Choose the branch of a chain of tests whose conditions are decided by
    computation or by linear arithmetic. *)
Ltac pick_branch :=
  repeat match goal with
  | |- context [if ?c then _ else _] =>
      first [ replace c with true by (vm_compute; reflexivity)
            | replace c with false by (vm_compute; reflexivity)
            | replace c with true by lia
            | replace c with false by lia ]
  end.

(** Evaluate the powers of closed numbers in the goal. *)
Ltac norm_pow :=
  repeat match goal with
  | |- context [Z.pow ?b ?e] =>
      let v := eval vm_compute in (Z.pow b e) in
      progress change (Z.pow b e) with v
  end.

Ltac side := first [reflexivity | lia | (norm_pow; lia)].

(** Read back a length or number field: the unread input starts with the
    big-endian bytes of [z], whatever form it is displayed in. *)
Ltac read_field z payload :=
  match goal with
  | |- context [Decoder.readUnsigned ?k (Decoder.mkState ?l ?h ?stk)] =>
      change l with (Encoder.be_bytes (Z.to_nat k) z ++ payload);
      rewrite (readUnsigned_be k (Z.to_nat k)) by side
  | |- context [Decoder.readSigned ?k (Decoder.mkState ?l ?h ?stk)] =>
      change l with (Encoder.be_bytes (Z.to_nat k) z ++ payload);
      rewrite (readSigned_be k (Z.to_nat k)) by side
  end.

Section Leaves.
Variable utf8Encode : string -> list byte.
Variable host : Host.
Variable options : OptionsOf (list byte).
Hypothesis faithful : Faithful utf8Encode host options.

Abbreviation mk := Decoder.mkState.

Lemma byte_fix (base n : Z) :
  0 <= base + n < 256 -> byte_to_Z (byte_of_Z (base + n)) = base + n.
Proof. intros H. rewrite byte_to_of_Z. apply Z.mod_small. exact H. Qed.

Lemma leaf_null : leafDecodes host options VNull [xc0].
Proof. exists xc0, []. split; reflexivity. Qed.

Lemma leaf_bool (b : bool) :
  leafDecodes host options (VBool b) [if b then xc3 else xc2].
Proof. destruct b; eexists _, []; split; reflexivity. Qed.

Lemma leaf_empty_array : leafDecodes host options (VArray []) [x90].
Proof. exists x90, []. split; reflexivity. Qed.

Lemma leaf_empty_map : leafDecodes host options (VObject []) [x80].
Proof. exists x80, []. split; reflexivity. Qed.


Lemma leaf_integer (z : Z) (bs : list byte) :
  Encoder.encodeInteger z = inr bs -> leafDecodes host options (VNumber (Int z)) bs.
Proof.
  unfold Encoder.encodeInteger.
  repeat match goal with
  | |- context [if ?c then _ else _] => destruct c eqn:?
  end; intros [= <-]; eexists _, _; (split; [reflexivity |]); intros rest stk;
  unfold Decoder.decodeHead;
  try (rewrite byte_to_of_Z, Z.mod_small by lia);
  pick_branch;
  unfold Decoder.some, Decoder.readU64, Decoder.readI64, bind;
  try match goal with
  | |- context [Decoder.readUnsigned ?k (mk (?t ++ rest) _ _)] =>
      change t with (Encoder.be_bytes (Z.to_nat k) z);
      rewrite (readUnsigned_be k (Z.to_nat k)) by side
  | |- context [Decoder.readSigned ?k (mk (?t ++ rest) _ _)] =>
      change t with (Encoder.be_bytes (Z.to_nat k) z);
      rewrite (readSigned_be k (Z.to_nat k)) by side
  | |- context [Decoder.readBytes 8 (mk (?t ++ rest) ?h stk)] =>
      change (Decoder.readBytes 8 (mk (t ++ rest) h stk))
        with (Decoder.readBytes (Z.of_nat (length (Encoder.be_bytes 8 z)))
                (mk (Encoder.be_bytes 8 z ++ rest) h stk));
      rewrite readBytes_app;
      rewrite ?(faithful_u64 _ _ _ faithful), ?(faithful_i64 _ _ _ faithful);
      first [ rewrite be_uint_be_bytes_small by side
            | rewrite (to_signed_be_bytes 8 z) by side ]
  end;
  try reflexivity.
  - unfold ret. simpl. repeat f_equal. lia.
  - change (Decoder.readBytes 8 (mk (?t ++ rest) ?h stk))
      with (Decoder.readBytes (Z.of_nat (length (Encoder.be_bytes 8 z)))
              (mk (Encoder.be_bytes 8 z ++ rest) h stk)).
    rewrite readBytes_app, (faithful_i64 _ _ _ faithful).
    change 64 with (8 * Z.of_nat 8).
    rewrite (to_signed_be_bytes 8 z) by side. reflexivity.
Qed.

Lemma leaf_float64 (bits : Z) :
  0 <= bits < 2 ^ 64 ->
  leafDecodes host options (VNumber (Float64 bits)) (xcb :: Encoder.be_bytes 8 bits).
Proof.
  intros Hb. eexists _, _. split; [reflexivity |]. intros rest stk.
  unfold Decoder.decodeHead. pick_branch. unfold Decoder.some, bind.
  change (Decoder.readBytes 8) with
    (Decoder.readBytes (Z.of_nat (length (Encoder.be_bytes 8 bits)))).
  rewrite readBytes_app, be_uint_be_bytes_small by side. reflexivity.
Qed.

Lemma decodeUtf8String_encoded (s : string) (rest : list byte) h stk :
  Z.of_nat (length (utf8Encode s)) <= UINT32_MAX ->
  Decoder.decodeUtf8String host options (Z.of_nat (length (utf8Encode s)))
    (mk (utf8Encode s ++ rest) h stk)
  = (Ok s, mk rest h stk).
Proof.
  intros Hlen. unfold Decoder.decodeUtf8String.
  rewrite (faithful_str _ _ _ faithful).
  replace (_ >? UINT32_MAX) with false by lia.
  unfold bind at 1. rewrite readBytes_app.
  unfold bind at 1. unfold Decoder.stateIsMapKey, bind. simpl.
  pose proof (faithful_js _ _ _ faithful s) as Hjs.
  pose proof (faithful_td _ _ _ faithful s) as Htd.
  pose proof (fun kd => faithful_key _ _ _ faithful kd s) as Hkey.
  destruct (keyDecoder options) as [kd|];
    [specialize (Hkey kd eq_refl) |];
    destruct stk as [|[? ? ?|[|] ? ? ? ?] ?]; simpl;
    repeat match goal with
    | |- context [if ?c then _ else _] => destruct c
    end; unfold ret; congruence.
Qed.

Lemma decodeBinary_app (bs rest : list byte) h stk :
  Z.of_nat (length bs) <= UINT32_MAX ->
  Decoder.decodeBinary options (Z.of_nat (length bs)) (mk (bs ++ rest) h stk)
  = (Ok bs, mk rest h stk).
Proof.
  intros Hlen. unfold Decoder.decodeBinary.
  rewrite (faithful_bin _ _ _ faithful).
  replace (_ >? UINT32_MAX) with false by lia.
  apply readBytes_app.
Qed.

Lemma leaf_string (s : string) (bs : list byte) :
  Encoder.encodeString utf8Encode s = inr bs -> leafDecodes host options (VString s) bs.
Proof.
  unfold Encoder.encodeString, Encoder.andThen, Encoder.lengthHeader.
  set (n := Z.of_nat (length (utf8Encode s))).
  repeat match goal with
  | |- context [if ?c then _ else _] => destruct c eqn:?
  end; intros [= <-]; eexists _, _; (split; [reflexivity |]); intros rest stk;
  unfold Decoder.decodeHead;
  try (rewrite byte_to_of_Z, Z.mod_small by lia);
  pick_branch; unfold Decoder.some, bind; rewrite <- ?app_assoc.
  - replace (160 + n - 160) with n by lia. unfold n.
    rewrite decodeUtf8String_encoded by (unfold UINT32_MAX; lia). reflexivity.
  - read_field n (utf8Encode s ++ rest). unfold n.
    rewrite decodeUtf8String_encoded by (unfold UINT32_MAX; lia). reflexivity.
  - read_field n (utf8Encode s ++ rest). unfold n.
    rewrite decodeUtf8String_encoded by (unfold UINT32_MAX; lia). reflexivity.
  - read_field n (utf8Encode s ++ rest). unfold n.
    rewrite decodeUtf8String_encoded by (unfold UINT32_MAX; lia). reflexivity.
Qed.

Lemma leaf_binary (data bs : list byte) :
  Encoder.encodeBinary data = inr bs -> leafDecodes host options (VBinary data) bs.
Proof.
  unfold Encoder.encodeBinary, Encoder.andThen, Encoder.lengthHeader.
  set (n := Z.of_nat (length data)).
  repeat match goal with
  | |- context [if ?c then _ else _] => destruct c eqn:?
  end; intros [= <-]; try lia; eexists _, _; (split; [reflexivity |]); intros rest stk;
  unfold Decoder.decodeHead;
  pick_branch; unfold Decoder.some, bind; rewrite <- ?app_assoc.
  - read_field n (data ++ rest). unfold n.
    rewrite decodeBinary_app by (unfold UINT32_MAX; lia). reflexivity.
  - read_field n (data ++ rest). unfold n.
    rewrite decodeBinary_app by (unfold UINT32_MAX; lia). reflexivity.
  - read_field n (data ++ rest). unfold n.
    rewrite decodeBinary_app by (unfold UINT32_MAX; lia). reflexivity.
Qed.

End Leaves.


(** ** Round trip *)

Section Lists.
Variable utf8Encode : string -> list byte.
Variable float32ToFloat64 : Z -> Z.
Variable tryToEncode : value (list byte) -> option (Z * list byte).
Variable maxDepth : Z.

Abbreviation doEncode := (Encoder.doEncode utf8Encode float32ToFloat64 tryToEncode maxDepth).
Abbreviation encodeItems := (Encoder.encodeItems utf8Encode float32ToFloat64 tryToEncode maxDepth).
Abbreviation encodePairs := (Encoder.encodePairs utf8Encode float32ToFloat64 tryToEncode maxDepth).

Lemma doEncode_array depth items :
  doEncode depth (VArray items) =
  if depth >? maxDepth then inl (Encoder.DepthExceeded depth)
  else
    Encoder.andThen (Encoder.lengthHeader 16 0x90 None xdc xdd (length items)) (fun h =>
    Encoder.andThen (encodeItems depth items) (fun body => inr (h ++ body))).
Proof.
  simpl. destruct (depth >? maxDepth); [reflexivity |].
  destruct (Encoder.lengthHeader 16 144 None xdc xdd (length items)); [reflexivity |].
  simpl. f_equal. induction items as [|x r IH]; [reflexivity |].
  simpl. rewrite IH. reflexivity.
Qed.

Lemma doEncode_object depth props :
  doEncode depth (VObject props) =
  if depth >? maxDepth then inl (Encoder.DepthExceeded depth)
  else
    Encoder.andThen (Encoder.lengthHeader 16 0x80 None xde xdf (length props)) (fun h =>
    Encoder.andThen (encodePairs depth props) (fun body => inr (h ++ body))).
Proof.
  simpl. destruct (depth >? maxDepth); [reflexivity |].
  destruct (Encoder.lengthHeader 16 128 None xde xdf (length props)); [reflexivity |].
  simpl. f_equal. induction props as [|[k x] r IH]; [reflexivity |].
  simpl. rewrite IH. reflexivity.
Qed.

End Lists.

Lemma value_nested_ind {B} (P : value B -> Prop) :
  P VUndefined -> P VNull -> (forall b, P (VBool b)) -> (forall n, P (VNumber n)) ->
  (forall s, P (VString s)) -> (forall d, P (VBinary d)) ->
  (forall items, Forall P items -> P (VArray items)) ->
  (forall props, Forall (fun kv => P (snd kv)) props -> P (VObject props)) ->
  (forall t d, P (VExtData t d)) ->
  forall v, P v.
Proof.
  intros Hu Hn Hb Hnum Hs Hbin Harr Hobj Hext.
  fix IH 1. intros v.
  destruct v as [| | b | n | s | d | items | props | t d];
    [apply Hu | apply Hn | apply Hb | apply Hnum | apply Hs | apply Hbin | | | apply Hext].
  - apply Harr. induction items as [|x r IHr]; constructor; [apply IH | exact IHr].
  - apply Hobj. induction props as [|[k x] r IHr]; constructor; [apply IH | exact IHr].
Qed.

Lemma setIndex_next {B} (done : list (value B)) (x : value B) (k : nat) :
  setIndex (Z.of_nat (length done)) x (done ++ VUndefined :: repeat VUndefined k)
  = (done ++ [x]) ++ repeat VUndefined k.
Proof.
  unfold setIndex. rewrite Nat2Z.id.
  replace (Z.of_nat (length done) <? 0) with false by (symmetry; apply Z.ltb_ge; lia).
  assert (H : (length done <? length (done ++ VUndefined :: repeat VUndefined k))%nat = true).
  { apply Nat.ltb_lt. rewrite length_app. simpl. lia. }
  rewrite H. rewrite insert_app_r_alt by lia. rewrite Nat.sub_diag. simpl.
  rewrite <- app_assoc. reflexivity.
Qed.

Lemma setProperty_fresh {B} (k : string) (x : value B) (done : list (string * value B)) :
  existsb (String.eqb k) (map fst done) = false ->
  setProperty k x done = done ++ [(k, x)].
Proof.
  induction done as [|[k' w] r IH]; simpl; [reflexivity |].
  intros H. apply orb_false_elim in H as [H1 H2].
  rewrite String.eqb_sym, H1. rewrite IH by exact H2. reflexivity.
Qed.

Lemma distinct_middle (l1 : list string) (k : string) (l2 : list string) :
  distinct (l1 ++ k :: l2) = true -> existsb (String.eqb k) l1 = false.
Proof.
  induction l1 as [|a l1 IH]; simpl; [reflexivity |].
  intros H. apply andb_prop in H as [Ha Hd].
  rewrite existsb_app in Ha. simpl in Ha.
  apply negb_true_iff in Ha. apply orb_false_elim in Ha as [_ Ha].
  apply orb_false_elim in Ha as [Ha _].
  rewrite String.eqb_sym, Ha. simpl. apply IH. exact Hd.
Qed.

Section Containers.
Variable utf8Encode : string -> list byte.
Variable float32ToFloat64 : Z -> Z.
Variable tryToEncode : value (list byte) -> option (Z * list byte).
Variable maxDepth : Z.
Variable host : Host.
Variable options : OptionsOf (list byte).
Hypothesis faithful : Faithful utf8Encode host options.

Abbreviation mk := Decoder.mkState.
Abbreviation D := (Decoder.doDecodeSync host options).
Abbreviation enc := (Encoder.doEncode utf8Encode float32ToFloat64 tryToEncode maxDepth).

Abbreviation back :=
  (decodesBack utf8Encode float32ToFloat64 tryToEncode maxDepth host options).

Lemma decodesBack_leaf (v : value (list byte)) (bs : list byte) :
  leafDecodes host options v bs -> nodes v = 1%nat ->
  forall rest stk fuel,
    D (nodes v + fuel)%nat (mk (bs ++ rest) HEAD_BYTE_REQUIRED stk)
    = after host options fuel v rest stk.
Proof.
  intros (hb & tail & -> & H) Hn rest stk fuel. rewrite Hn.
  apply turn_leaf. apply H.
Qed.

Lemma beginArray_push (n : Z) (rest : list byte) h stk :
  0 < n <= UINT32_MAX ->
  Decoder.beginArray options n (mk rest h stk)
  = (Ok None, mk rest HEAD_BYTE_REQUIRED
               (StackArrayState n (repeat VUndefined (Z.to_nat n)) 0 :: stk)).
Proof.
  intros Hn. unfold Decoder.beginArray, Decoder.pushArrayState.
  rewrite (faithful_array _ _ _ faithful).
  replace (n =? 0) with false by lia. replace (n >? UINT32_MAX) with false by lia.
  reflexivity.
Qed.

Lemma beginMap_push (n : Z) (rest : list byte) h stk :
  0 < n <= UINT32_MAX ->
  Decoder.beginMap options n (mk rest h stk)
  = (Ok None, mk rest HEAD_BYTE_REQUIRED (StackMapState STATE_MAP_KEY n None 0 [] :: stk)).
Proof.
  intros Hn. unfold Decoder.beginMap, Decoder.pushMapState.
  rewrite (faithful_map _ _ _ faithful).
  replace (n =? 0) with false by lia. replace (n >? UINT32_MAX) with false by lia.
  reflexivity.
Qed.

(** The header of a non-empty array pushes its frame in one turn. *)
Lemma array_header (len : nat) (h body rest : list byte) stk fuel :
  (0 < len)%nat ->
  Encoder.lengthHeader 16 0x90 None xdc xdd len = inr h ->
  D (Datatypes.S fuel) (mk ((h ++ body) ++ rest) HEAD_BYTE_REQUIRED stk)
  = D fuel (mk (body ++ rest) HEAD_BYTE_REQUIRED
              (StackArrayState (Z.of_nat len) (repeat VUndefined len) 0 :: stk)).
Proof.
  intros Hlen. unfold Encoder.lengthHeader.
  set (n := Z.of_nat len).
  repeat match goal with
  | |- context [if ?c then _ else _] => destruct c eqn:?
  end; intros [= <-]; rewrite <- app_assoc;
  (eapply turn_push; unfold Decoder.decodeHead;
   try (rewrite byte_to_of_Z, Z.mod_small by lia);
   pick_branch; unfold bind).
  - replace (144 + n - 144) with n by lia.
    rewrite beginArray_push by (unfold UINT32_MAX; lia).
    unfold n. rewrite Nat2Z.id. reflexivity.
  - read_field n (body ++ rest).
    rewrite beginArray_push by (unfold UINT32_MAX; lia).
    unfold n. rewrite Nat2Z.id. reflexivity.
  - read_field n (body ++ rest).
    rewrite beginArray_push by (unfold UINT32_MAX; lia).
    unfold n. rewrite Nat2Z.id. reflexivity.
Qed.

Lemma map_header (len : nat) (h body rest : list byte) stk fuel :
  (0 < len)%nat ->
  Encoder.lengthHeader 16 0x80 None xde xdf len = inr h ->
  D (Datatypes.S fuel) (mk ((h ++ body) ++ rest) HEAD_BYTE_REQUIRED stk)
  = D fuel (mk (body ++ rest) HEAD_BYTE_REQUIRED
              (StackMapState STATE_MAP_KEY (Z.of_nat len) None 0 [] :: stk)).
Proof.
  intros Hlen. unfold Encoder.lengthHeader.
  set (n := Z.of_nat len).
  repeat match goal with
  | |- context [if ?c then _ else _] => destruct c eqn:?
  end; intros [= <-]; rewrite <- app_assoc;
  (eapply turn_push; unfold Decoder.decodeHead;
   try (rewrite byte_to_of_Z, Z.mod_small by lia);
   pick_branch; unfold bind).
  - replace (128 + n - 128) with n by lia.
    rewrite beginMap_push by (unfold UINT32_MAX; lia). reflexivity.
  - read_field n (body ++ rest).
    rewrite beginMap_push by (unfold UINT32_MAX; lia). reflexivity.
  - read_field n (body ++ rest).
    rewrite beginMap_push by (unfold UINT32_MAX; lia). reflexivity.
Qed.

Abbreviation encItems := (Encoder.encodeItems utf8Encode float32ToFloat64 tryToEncode maxDepth).
Abbreviation encPairs := (Encoder.encodePairs utf8Encode float32ToFloat64 tryToEncode maxDepth).

(** The elements still to come fill the array frame on top, and the last
    one completes the array. *)
Lemma decode_items (todo : list (value (list byte))) :
  Forall back todo ->
  forall depth body done rest stk fuel,
  forallb plain todo = true -> forallb protoFree todo = true ->
  encItems depth todo = inr body ->
  todo <> [] ->
  D (list_sum (map nodes todo) + fuel)%nat
    (mk (body ++ rest) HEAD_BYTE_REQUIRED
       (StackArrayState (Z.of_nat (length done + length todo))
          (done ++ repeat VUndefined (length todo)) (Z.of_nat (length done)) :: stk))
  = after host options fuel (VArray (done ++ todo)) rest stk.
Proof.
  induction 1 as [|x r Hx Hr IH]; intros depth body done rest stk fuel Hplain Hproto Henc Hne;
    [congruence |].
  simpl in Hplain, Hproto, Henc.
  apply andb_prop in Hplain as [Hpx Hpr]. apply andb_prop in Hproto as [Hqx Hqr].
  unfold Encoder.andThen in Henc.
  destruct (Encoder.doEncode _ _ _ _ (depth + 1) x) as [e|a] eqn:Ea; [discriminate |].
  destruct (encItems depth r) as [e|b] eqn:Eb; [discriminate |].
  injection Henc as <-.
  simpl map. simpl list_sum. rewrite <- Nat.add_assoc, <- app_assoc.
  rewrite (Hx _ _ Hpx Hqx Ea). unfold after at 1. simpl fillFrames.
  rewrite setIndex_next.
  destruct r as [|y r'].
  - simpl in Eb. injection Eb as <-. simpl length.
    match goal with
    | |- context [?p =? ?q] =>
        replace (p =? q) with true by (symmetry; apply Z.eqb_eq; lia)
    end.
    simpl. rewrite !app_nil_r. reflexivity.
  - simpl length.
    match goal with
    | |- context [?p =? ?q] =>
        replace (p =? q) with false by (symmetry; apply Z.eqb_neq; lia)
    end.
    specialize (IH depth b (done ++ [x]) rest stk fuel Hpr Hqr Eb ltac:(discriminate)).
    rewrite length_app in IH. simpl length in IH.
    replace (length done + 1 + Datatypes.S (length r'))%nat
      with (length done + Datatypes.S (Datatypes.S (length r')))%nat in IH by lia.
    replace (Z.of_nat (length done + 1)) with (Z.of_nat (length done) + 1) in IH by lia.
    rewrite <- ?app_assoc in IH. rewrite <- ?app_assoc.
    simpl in IH |- *. exact IH.
Qed.

(** The pairs still to come fill the map frame on top, key then value, and
    the last one completes the map. *)
Lemma decode_pairs (todo : list (string * value (list byte))) :
  Forall (fun kv => back (snd kv)) todo ->
  forall depth body done rest stk fuel,
  forallb (fun kv => plain (snd kv)) todo = true ->
  forallb (fun kv => negb (String.eqb (fst kv) "__proto__") && protoFree (snd kv)) todo = true ->
  distinct (map fst (done ++ todo)) = true ->
  encPairs depth todo = inr body ->
  todo <> [] ->
  D (list_sum (map (fun kv => Datatypes.S (nodes (snd kv))) todo) + fuel)%nat
    (mk (body ++ rest) HEAD_BYTE_REQUIRED
       (StackMapState STATE_MAP_KEY (Z.of_nat (length done + length todo)) None
          (Z.of_nat (length done)) done :: stk))
  = after host options fuel (VObject (done ++ todo)) rest stk.
Proof.
  induction 1 as [|[k x] r Hx Hr IH];
    intros depth body done rest stk fuel Hplain Hproto Hdist Henc Hne; [congruence |].
  simpl in Hplain, Hproto, Henc, Hx.
  apply andb_prop in Hplain as [Hpx Hpr]. apply andb_prop in Hproto as [Hqx Hqr].
  apply andb_prop in Hqx as [Hk Hqx]. apply negb_true_iff in Hk.
  unfold Encoder.andThen in Henc.
  destruct (Encoder.encodeString utf8Encode k) as [e|kb] eqn:Ek; [discriminate |].
  destruct (Encoder.doEncode _ _ _ _ (depth + 1) x) as [e|a] eqn:Ea; [discriminate |].
  destruct (encPairs depth r) as [e|b] eqn:Eb; [discriminate |].
  injection Henc as <-.
  destruct (leaf_string utf8Encode host options faithful k kb Ek) as (hb & tail & -> & Hkey).
  simpl map. simpl list_sum. rewrite <- !app_assoc. simpl app.
  match goal with
  | |- D ?f _ = _ =>
      replace f with (Datatypes.S (nodes x +
        (list_sum (map (fun kv => Datatypes.S (nodes (snd kv))) r) + fuel)))%nat by lia
  end.
  rewrite (turn_leaf host options _ hb (tail ++ a ++ b ++ rest) (a ++ b ++ rest) _ (VString k))
    by apply Hkey.
  unfold after at 1. rewrite fillFrames_key. simpl typeof. simpl strictEqualsString.
  rewrite Hk.
  rewrite (Hx _ _ Hpx Hqx Ea). unfold after at 1. simpl fillFrames.
  rewrite map_app in Hdist. simpl in Hdist.
  rewrite (setProperty_fresh k x done) by (eapply distinct_middle; exact Hdist).
  destruct r as [|y r'].
  - simpl in Eb. injection Eb as <-. simpl length.
    match goal with
    | |- context [?p =? ?q] =>
        replace (p =? q) with true by (symmetry; apply Z.eqb_eq; lia)
    end.
    simpl. rewrite ?app_nil_r. reflexivity.
  - simpl length.
    match goal with
    | |- context [?p =? ?q] =>
        replace (p =? q) with false by (symmetry; apply Z.eqb_neq; lia)
    end.
    specialize (IH depth b (done ++ [(k, x)]) rest stk fuel Hpr Hqr).
    rewrite <- app_assoc in IH. simpl app in IH.
    rewrite map_app in IH. simpl map in IH.
    specialize (IH Hdist Eb ltac:(discriminate)).
    rewrite length_app in IH. simpl length in IH.
    replace (length done + 1 + Datatypes.S (length r'))%nat
      with (length done + Datatypes.S (Datatypes.S (length r')))%nat in IH by lia.
    replace (Z.of_nat (length done + 1)) with (Z.of_nat (length done) + 1) in IH by lia.
    simpl in IH |- *. exact IH.
Qed.

Lemma lengthHeader_nonempty fixLimit fixBase h8 h16 h32 len h :
  Encoder.lengthHeader fixLimit fixBase h8 h16 h32 len = inr h -> (1 <= length h)%nat.
Proof.
  unfold Encoder.lengthHeader.
  repeat match goal with
  | |- context [if ?c then _ else _] => destruct c
  | |- context [match ?o with Some _ => _ | None => _ end] => destruct o
  end; intros [= <-]; simpl; lia.
Qed.

(** Every value of the round trip decodes back from its bytes. *)
Lemma decodesBack_all (v : value (list byte)) : back v.
Proof.
  induction v as [| | b | n | s | d | items IH | props IH | t d] using value_nested_ind;
    intros depth bs Hplain Hproto Henc; try discriminate.
  - simpl in Henc. destruct (depth >? maxDepth); [discriminate |].
    injection Henc as <-. apply decodesBack_leaf; [apply leaf_null | reflexivity].
  - simpl in Henc. destruct (depth >? maxDepth); [discriminate |].
    apply decodesBack_leaf; [| reflexivity].
    destruct b; injection Henc as <-; [apply (leaf_bool host options true)
                                      | apply (leaf_bool host options false)].
  - simpl in Henc. destruct (depth >? maxDepth); [discriminate |].
    apply decodesBack_leaf; [| reflexivity].
    destruct n as [z | bits | bits]; [| discriminate |].
    + eapply leaf_integer; eassumption.
    + injection Henc as <-. simpl in Hplain. apply leaf_float64. lia.
  - simpl in Henc. destruct (depth >? maxDepth); [discriminate |].
    apply decodesBack_leaf; [| reflexivity]. eapply leaf_string; eassumption.
  - simpl in Henc. destruct (depth >? maxDepth); [discriminate |].
    apply decodesBack_leaf; [| reflexivity]. eapply leaf_binary; eassumption.
  - rewrite doEncode_array in Henc. destruct (depth >? maxDepth); [discriminate |].
    unfold Encoder.andThen in Henc.
    destruct (Encoder.lengthHeader 16 144 None xdc xdd (length items)) as [e|h] eqn:Eh;
      [discriminate |].
    destruct (encItems depth items) as [e|body] eqn:Eb; [discriminate |].
    injection Henc as <-. intros rest stk fuel.
    destruct items as [|x r].
    + simpl in Eb. injection Eb as <-. vm_compute in Eh. injection Eh as <-.
      apply (decodesBack_leaf (VArray []) [x90]); [apply leaf_empty_array | reflexivity].
    + simpl nodes. simpl Nat.add. rewrite (array_header (length (x :: r)) h body rest stk)
        by (simpl; lia || exact Eh).
      simpl in Hplain, Hproto.
      apply (decode_items (x :: r) IH depth body [] rest stk fuel Hplain Hproto Eb).
      discriminate.
  - rewrite doEncode_object in Henc. destruct (depth >? maxDepth); [discriminate |].
    unfold Encoder.andThen in Henc.
    destruct (Encoder.lengthHeader 16 128 None xde xdf (length props)) as [e|h] eqn:Eh;
      [discriminate |].
    destruct (encPairs depth props) as [e|body] eqn:Eb; [discriminate |].
    injection Henc as <-. intros rest stk fuel.
    destruct props as [|kx r].
    + simpl in Eb. injection Eb as <-. vm_compute in Eh. injection Eh as <-.
      apply (decodesBack_leaf (VObject []) [x80]); [apply leaf_empty_map | reflexivity].
    + simpl nodes. simpl Nat.add. rewrite (map_header (length (kx :: r)) h body rest stk)
        by (simpl; lia || exact Eh).
      simpl plain in Hplain. apply andb_prop in Hplain as [Hplain Hdist].
      simpl protoFree in Hproto.
      apply (decode_pairs (kx :: r) IH depth body [] rest stk fuel Hplain Hproto Hdist Eb).
      discriminate.
Qed.

Lemma leafDecodes_nonempty (v : value (list byte)) (bs : list byte) :
  leafDecodes host options v bs -> (1 <= length bs)%nat.
Proof. intros (hb & tail & -> & _). simpl. lia. Qed.

(** An encoding has a byte at least for each of its headers. *)
Lemma nodes_le_length (v : value (list byte)) :
  forall depth bs, plain v = true -> enc depth v = inr bs -> (nodes v <= length bs)%nat.
Proof.
  induction v as [| | b | n | s | d | items IH | props IH | t d] using value_nested_ind;
    intros depth bs Hplain Henc; try discriminate.
  - simpl in Henc. destruct (depth >? maxDepth); [discriminate |].
    injection Henc as <-. simpl. lia.
  - simpl in Henc. destruct (depth >? maxDepth); [discriminate |].
    destruct b; injection Henc as <-; simpl; lia.
  - simpl in Henc. destruct (depth >? maxDepth); [discriminate |].
    destruct n as [z | bits | bits]; [| discriminate |].
    + eapply (leafDecodes_nonempty (VNumber (Int z))), leaf_integer; eassumption.
    + injection Henc as <-. simpl. lia.
  - simpl in Henc. destruct (depth >? maxDepth); [discriminate |].
    eapply (leafDecodes_nonempty (VString s)), leaf_string; eassumption.
  - simpl in Henc. destruct (depth >? maxDepth); [discriminate |].
    eapply (leafDecodes_nonempty (VBinary d)), leaf_binary; eassumption.
  - rewrite doEncode_array in Henc. destruct (depth >? maxDepth); [discriminate |].
    unfold Encoder.andThen in Henc.
    destruct (Encoder.lengthHeader 16 144 None xdc xdd (length items)) as [e|h] eqn:Eh;
      [discriminate |].
    destruct (encItems depth items) as [e|body] eqn:Eb; [discriminate |].
    injection Henc as <-. apply lengthHeader_nonempty in Eh.
    rewrite length_app. simpl nodes. simpl in Hplain.
    enough (list_sum (map nodes items) <= length body)%nat by lia.
    clear Eh. revert body Eb Hplain.
    induction IH as [|x r Hx Hr IHr]; intros body Eb Hplain; simpl; [lia |].
    simpl in Eb, Hplain. apply andb_prop in Hplain as [Hpx Hpr].
    unfold Encoder.andThen in Eb.
    destruct (Encoder.doEncode _ _ _ _ (depth + 1) x) as [e|a] eqn:Ea; [discriminate |].
    destruct (encItems depth r) as [e|b] eqn:Er; [discriminate |].
    injection Eb as <-. rewrite length_app.
    specialize (Hx _ _ Hpx Ea). specialize (IHr _ eq_refl Hpr). lia.
  - rewrite doEncode_object in Henc. destruct (depth >? maxDepth); [discriminate |].
    unfold Encoder.andThen in Henc.
    destruct (Encoder.lengthHeader 16 128 None xde xdf (length props)) as [e|h] eqn:Eh;
      [discriminate |].
    destruct (encPairs depth props) as [e|body] eqn:Eb; [discriminate |].
    injection Henc as <-. apply lengthHeader_nonempty in Eh.
    rewrite length_app. simpl nodes. simpl in Hplain.
    apply andb_prop in Hplain as [Hplain _].
    enough (list_sum (map (fun kv => Datatypes.S (nodes (snd kv))) props)
            <= length body)%nat by lia.
    clear Eh. revert body Eb Hplain.
    induction IH as [|[k x] r Hx Hr IHr]; intros body Eb Hplain; simpl; [lia |].
    simpl in Eb, Hplain, Hx. apply andb_prop in Hplain as [Hpx Hpr].
    unfold Encoder.andThen in Eb.
    destruct (Encoder.encodeString utf8Encode k) as [e|kb] eqn:Ek; [discriminate |].
    destruct (Encoder.doEncode _ _ _ _ (depth + 1) x) as [e|a] eqn:Ea; [discriminate |].
    destruct (encPairs depth r) as [e|b] eqn:Er; [discriminate |].
    injection Eb as <-. rewrite !length_app.
    pose proof (leafDecodes_nonempty _ _
      (leaf_string utf8Encode host options faithful k kb Ek)) as Hkb.
    specialize (Hx _ _ Hpx Ea). specialize (IHr _ eq_refl Hpr). lia.
Qed.

(** Decoding a whole buffer that holds the bytes of one value. *)
Lemma decode_encoded (depth : Z) (v : value (list byte)) (bs : list byte) :
  plain v = true -> protoFree v = true ->
  enc depth v = inr bs ->
  Decoder.decode host options bs = Ok v.
Proof.
  intros Hplain Hproto Henc. unfold Decoder.decode.
  pose proof (nodes_le_length v depth bs Hplain Henc) as Hle.
  replace (Datatypes.S (length bs)) with (nodes v + (Datatypes.S (length bs) - nodes v))%nat
    by lia.
  rewrite <- (app_nil_r bs) at 2.
  rewrite (decodesBack_all v depth bs Hplain Hproto Henc). reflexivity.
Qed.

End Containers.

(** C1, as the encoder and the buffer-resident decoder of the spec have
    it.  For a value made of nil, booleans, integers, doubles, strings,
    binaries, arrays and maps, with no map key ["__proto__"], that [encode]
    accepts: decoding the bytes that [encode] produced gives the value
    back. *)
Theorem encode_decode_round_trip (utf8Encode : string -> list byte)
    (float32ToFloat64 : Z -> Z)
    (tryToEncode : value (list byte) -> option (Z * list byte))
    (host : Host) (options : OptionsOf (list byte))
    (depthOption : option Z) (v : value (list byte)) (bs : list byte) :
  Faithful utf8Encode host options ->
  plain v = true -> protoFree v = true ->
  encode utf8Encode float32ToFloat64 tryToEncode depthOption v = inr bs ->
  decodeBuffer host options bs = Ok v.
Proof.
  intros Hf Hplain Hproto Henc. unfold encode in Henc. unfold decodeBuffer.
  eapply decode_encoded; eassumption.
Qed.

Lemma sample_faithful : Faithful list_byte_of_string Sample.host (Sample.optionsOf (list byte)).
Proof.
  assert (H : forall s, Sample.utf8 (list_byte_of_string s) 0
                (Z.of_nat (length (list_byte_of_string s))) = s).
  { intros s. unfold Sample.utf8. rewrite Nat2Z.id. simpl drop.
    rewrite take_ge by apply le_n. apply string_of_list_byte_of_string. }
  split; try reflexivity; try exact H.
  intros kd s [= <-]. apply H.
Qed.

Lemma encode_decode_round_trip_witness :
  decodeBuffer Sample.host (Sample.optionsOf (list byte)) [x81; xa1; x61; x01]
  = Ok (VObject [("a"%string, VNumber (Int 1))]).
Proof.
  apply (encode_decode_round_trip list_byte_of_string (fun bits => bits) (fun _ => None)
           Sample.host (Sample.optionsOf (list byte)) None
           (VObject [("a"%string, VNumber (Int 1))]) [x81; xa1; x61; x01]
           sample_faithful); reflexivity.
Defined.

(** The claim as first stated fails on a map with the key ["__proto__"]:
    the encoder writes it, the decoder refuses it. *)
Lemma proto_key_breaks_round_trip :
  plain (VObject [("__proto__"%string, VNull)]) = true /\
  SampleEncoder.encode (VObject [("__proto__"%string, VNull)])
  = inr [x81; xa9; x5f; x5f; x70; x72; x6f; x74; x6f; x5f; x5f; xc0] /\
  decodeBuffer Sample.host (Sample.optionsOf (list byte))
    [x81; xa9; x5f; x5f; x70; x72; x6f; x74; x6f; x5f; x5f; xc0]
  = Throw (DecodeError KeyProtoNotAllowed).
Proof. repeat split; vm_compute; reflexivity. Qed.

(** * More of the class *)

(** ** Callbacks that hand out a stream, and [readBytes] over them *)

Lemma fill_nil (h : Heap) (a : Uint8Array) : fill h a [] = h.
Proof.
  unfold fill. rewrite take_nil. apply list_alter_id. reflexivity.
Qed.

Lemma fill_fill (h : Heap) (id off k c : nat) (ws1 ws2 : list byte) :
  length ws1 = c -> (c <= k)%nat ->
  fill (fill h (mkView id off k) ws1) (mkView id (off + c) (k - c)) ws2
  = fill h (mkView id off k) (ws1 ++ ws2).
Proof.
  intros Hc Hk. unfold fill. simpl.
  rewrite list_alter_alter_eq. apply list_alter_ext; [| reflexivity].
  intros buf _. simpl.
  rewrite take_app, (take_ge ws1) by lia. rewrite Hc.
  rewrite list_inserts_app_l. rewrite Hc. f_equal. lia.
Qed.

Lemma chunkRead_delivers : delivers chunkRead chunked.
Proof.
  intros n chunks d [Hcat Hne]. destruct chunks as [|c rest]; simpl in *.
  - subst d. exists 0%nat. repeat split; auto; try lia; try congruence.
  - inversion Hne as [|c' rest' Hc Hrest]; subst.
    exists (length (take n c)). rewrite length_take.
    split; [reflexivity |]. split.
    { rewrite take_app. replace (Nat.min n (length c) - length c)%nat with 0%nat by lia.
      rewrite take_0, app_nil_r.
      destruct (Nat.le_gt_cases n (length c)).
      - replace (Nat.min n (length c)) with n by lia. reflexivity.
      - rewrite !take_ge by lia. reflexivity. }
    split; [lia |]. split; [rewrite length_app; lia |].
    split; [destruct c; [congruence | simpl; lia] |].
    destruct (drop n c) as [|b c'] eqn:E.
    + assert (length c <= n)%nat.
      { apply (f_equal length) in E. rewrite length_drop in E. simpl in E. lia. }
      split; [| assumption].
      rewrite drop_app. replace (Nat.min n (length c)) with (length c) by lia.
      rewrite drop_all, Nat.sub_diag. reflexivity.
    + assert (n < length c)%nat.
      { apply (f_equal length) in E. rewrite length_drop in E. simpl in E. lia. }
      split; [| constructor; [discriminate | assumption]].
      change (concat ((b :: c') :: rest)) with ((b :: c') ++ concat rest).
      rewrite <- E. rewrite drop_app.
      replace (Nat.min n (length c)) with n by lia.
      replace (n - length c)%nat with 0%nat by lia. reflexivity.
Qed.

Section Delivery.
Context {S : Type}.
Variable read : PullSource S.
Variable holds : S -> list byte -> Prop.
Hypothesis Hread : delivers read holds.

Lemma readLoop_delivers (fuel : nat) (len pos : Z) (st : State S) (d : list byte) :
  holds (source st) d -> 0 <= pos <= Z.of_nat (capacity st) ->
  (Z.to_nat (len - pos) <= fuel)%nat ->
  let k := Z.to_nat (Z.min len (Z.of_nat (capacity st)) - pos) in
  exists src,
    readLoop read fuel len pos st =
      (if (len <=? Z.of_nat (capacity st)) && (k <=? length d)%nat
       then Ok tt else Throw MORE_DATA,
       mkState (fill (heap st) (mkView (bytes st) (Z.to_nat pos) k) (take k d))
               src (headByte st) (bytes st) (stack st))
    /\ holds src (drop k d).
Proof.
  revert pos st d. induction fuel as [|fuel IH]; intros pos st d Hd Hpos Hfuel k.
  - simpl. replace (pos <? len) with false by lia.
    assert (Hk : k = 0%nat) by (unfold k; lia). rewrite Hk.
    replace (len <=? Z.of_nat (capacity st)) with true by lia. simpl.
    exists (source st). rewrite fill_nil. destruct st; simpl. split; [reflexivity | exact Hd].
  - simpl. destruct (pos <? len) eqn:Hlt.
    2:{ assert (Hk : k = 0%nat) by (unfold k; lia). rewrite Hk.
        replace (len <=? Z.of_nat (capacity st)) with true by lia. simpl.
        exists (source st). rewrite fill_nil. destruct st; simpl.
        split; [reflexivity | exact Hd]. }
    unfold bind at 1. simpl. unfold bind at 1.
    assert (Hdata : subarray (bytesView st) pos len = mkView (bytes st) (Z.to_nat pos) k).
    { unfold subarray, bytesView. simpl.
      rewrite !clampIndex_nonneg by lia. f_equal; unfold k; lia. }
    rewrite Hdata. unfold callRead. simpl.
    destruct (Hread k (source st) d Hd) as (c & Hn & Hws & Hck & Hcd & Hprog & Hs').
    destruct (read k (source st)) as [[ws n] src1]. simpl in *.
    subst n ws.
    destruct (Z.of_nat c <=? 0) eqn:Hc0.
    + assert (c = 0%nat) by lia. subst c. simpl. rewrite fill_nil.
      exists src1. simpl in Hs'.
      assert (Hcase : k = 0%nat \/ (k <> 0%nat /\ d = [])).
      { destruct (Nat.eq_dec k 0%nat) as [|Hk0]; [left; assumption | right].
        split; [assumption |].
        destruct d as [|b d']; [reflexivity |].
        exfalso. assert (Habs : (0 < 0)%nat); [apply Hprog; [lia | discriminate] | lia]. }
      destruct Hcase as [Hk0 | [Hk0 ->]].
      * rewrite Hk0. simpl. rewrite fill_nil.
        replace (len <=? Z.of_nat (capacity st)) with false by (unfold k in Hk0; lia).
        simpl. split; [reflexivity | exact Hs'].
      * rewrite take_nil, drop_nil, fill_nil.
        replace (k <=? length (@nil byte))%nat with false.
        2:{ symmetry. apply Nat.leb_gt. simpl. lia. }
        rewrite andb_false_r. split; [reflexivity | exact Hs'].
    + set (st1 := mkState _ src1 _ _ _).
      assert (Hcap : capacity st1 = capacity st).
      { unfold st1, capacity. simpl. apply length_bufferOf_fill. }
      destruct (IH (pos + Z.of_nat c) st1 (drop c d)) as (src & Hrun & Hsrc);
        [exact Hs' | rewrite Hcap; unfold k in Hck; lia | lia |].
      rewrite Hcap in Hrun, Hsrc.
      replace (Z.to_nat (Z.min len (Z.of_nat (capacity st)) - (pos + Z.of_nat c)))
        with (k - c)%nat in Hrun, Hsrc by (unfold k; lia).
      exists src. rewrite Hrun. unfold st1. simpl.
      rewrite length_drop.
      replace (k - c <=? length d - c)%nat with (k <=? length d)%nat.
      2:{ destruct (Nat.leb_spec k (length d)); symmetry;
            [apply Nat.leb_le | apply Nat.leb_gt]; lia. }
      replace (Z.to_nat (pos + Z.of_nat c)) with (Z.to_nat pos + c)%nat by lia.
      rewrite fill_fill by (rewrite ?length_take; lia).
      rewrite take_take_drop, drop_drop in *.
      replace (c + (k - c))%nat with k in * by lia.
      split; [reflexivity | exact Hsrc].
Qed.

Lemma ensure_fields (len : Z) (st : State S) :
  let st1 := (ensureBufferSizeToWrite len st).2 in
  (ensureBufferSizeToWrite len st).1 = Ok tt /\ source st1 = source st /\
  headByte st1 = headByte st /\ stack st1 = stack st.
Proof.
  unfold ensureBufferSizeToWrite, bind. simpl.
  destruct (Z.of_nat (capacity st) <? len); simpl; auto.
Qed.

Lemma readBytes_delivers (len : Z) (st : State S) (d : list byte) :
  holds (source st) d ->
  let st1 := (ensureBufferSizeToWrite len st).2 in
  let k := Z.to_nat (Z.min len (Z.of_nat (capacity st1))) in
  exists src,
    readBytes read len st =
      (if (len <=? Z.of_nat (capacity st1)) && (k <=? length d)%nat
       then Ok (subarray (bytesView st1) 0 len) else Throw MORE_DATA,
       mkState (fill (heap st1) (mkView (bytes st1) 0 k) (take k d))
               src (headByte st) (bytes st1) (stack st))
    /\ holds src (drop k d).
Proof.
  intros Hd st1 k. unfold readBytes. unfold bind at 1.
  destruct (ensure_fields len st) as (Hok & Hsrc & Hhb & Hstk).
  fold st1 in Hsrc, Hhb, Hstk.
  pose proof (surjective_pairing (ensureBufferSizeToWrite len st)) as E.
  rewrite Hok in E. fold st1 in E. rewrite E.
  destruct (readLoop_delivers (Z.to_nat len) len 0 st1 d) as (src & Hrun & Hs);
    [rewrite Hsrc; exact Hd | lia | lia |].
  rewrite Z.sub_0_r in Hrun, Hs. fold k in Hrun, Hs.
  exists src. unfold bind at 1. rewrite Hrun. rewrite Hhb, Hstk. split; [| exact Hs].
  destruct ((len <=? Z.of_nat (capacity st1)) && (k <=? length d)%nat); [| reflexivity].
  unfold bind, get, ret. simpl. f_equal. f_equal.
  unfold subarray, bytesView, capacity. simpl. rewrite length_bufferOf_fill. reflexivity.
Qed.

Lemma contents_fill (h : Heap) (id k : nat) (ws : list byte) :
  length ws = k -> (k <= length (bufferOf h id))%nat ->
  contents (fill h (mkView id 0 k) ws) (mkView id 0 k) = ws.
Proof.
  intros Hws Hk. unfold contents, fill, bufferOf in *. simpl.
  rewrite list_lookup_alter_eq. rewrite (take_ge ws) by lia.
  destruct (h !! id) as [buf|]; simpl in *.
  - rewrite <- (take_drop k buf) at 1.
    rewrite list_inserts_0_r by (rewrite length_take; lia).
    rewrite drop_0. apply take_app_length'. symmetry. assumption.
  - assert (k = 0)%nat by lia. subst k. destruct ws; [reflexivity | discriminate].
Qed.

End Delivery.

Lemma capacity_ensure {S} (len : Z) (st : State S) :
  Z.of_nat (capacity (ensureBufferSizeToWrite len st).2)
  = if Z.of_nat (capacity st) <? len then Z.of_nat (capacity st) * 2
    else Z.of_nat (capacity st).
Proof.
  unfold ensureBufferSizeToWrite, bind. simpl.
  destruct (Z.of_nat (capacity st) <? len); simpl; [| reflexivity].
  unfold capacity at 1. simpl.
  pose proof (bufferOf_newArrayBuffer (heap st) (Z.of_nat (capacity st) * 2)) as Hb.
  unfold newArrayBuffer in Hb. simpl in Hb. rewrite Hb, repeat_length. lia.
Qed.

(** X1. Over a callback that hands out a stream in order, whatever the
    number of bytes each pull gives, [readBytes(len)] returns a view that
    shows the next [len] bytes of the stream and leaves the callback before
    the bytes that follow, as long as the stream has [len] bytes left and
    [len] is at most twice the capacity of the scratch buffer.  The head
    byte and the stack are as before. *)
Theorem readBytes_next_bytes {S} (read : PullSource S) (holds : S -> list byte -> Prop)
    (len : Z) (st : State S) (d : list byte) :
  delivers read holds -> holds (source st) d ->
  0 <= len <= Z.of_nat (length d) ->
  len <= Z.of_nat (capacity st) * 2 ->
  exists a st',
    readBytes read len st = (Ok a, st') /\
    contents (heap st') a = take (Z.to_nat len) d /\
    holds (source st') (drop (Z.to_nat len) d) /\
    headByte st' = headByte st /\ stack st' = stack st.
Proof.
  intros Hread Hd Hlen Hcap.
  destruct (readBytes_delivers read holds Hread len st d Hd) as (src & Hrun & Hs).
  pose proof (capacity_ensure len st) as Hc.
  set (st1 := (ensureBufferSizeToWrite len st).2) in *.
  assert (Hfit : len <= Z.of_nat (capacity st1)).
  { rewrite Hc. destruct (Z.of_nat (capacity st) <? len) eqn:E; lia. }
  replace (Z.to_nat (Z.min len (Z.of_nat (capacity st1)))) with (Z.to_nat len) in * by lia.
  replace (len <=? Z.of_nat (capacity st1)) with true in Hrun by lia.
  replace (Z.to_nat len <=? length d)%nat with true in Hrun
    by (symmetry; apply Nat.leb_le; lia).
  simpl in Hrun. eexists _, _. split; [exact Hrun |]. simpl.
  split; [| auto].
  assert (Hview : subarray (bytesView st1) 0 len = mkView (bytes st1) 0 (Z.to_nat len)).
  { unfold subarray, bytesView. simpl. rewrite !clampIndex_nonneg by lia.
    f_equal; lia. }
  rewrite Hview. apply contents_fill; [rewrite length_take; lia |].
  unfold capacity in Hfit. lia.
Qed.

Lemma readBytes_next_bytes_witness :
  exists a st',
    readBytes chunkRead 3 (newStreamDecoder [[x01; x02]; [x03; x04]]) = (Ok a, st') /\
    contents (heap st') a = take (Z.to_nat 3) [x01; x02; x03; x04] /\
    chunked (source st') (drop (Z.to_nat 3) [x01; x02; x03; x04]) /\
    headByte st' = headByte (newStreamDecoder [[x01; x02]; [x03; x04]]) /\
    stack st' = stack (newStreamDecoder [[x01; x02]; [x03; x04]]).
Proof.
  apply (readBytes_next_bytes chunkRead chunked 3
           (newStreamDecoder [[x01; x02]; [x03; x04]]) [x01; x02; x03; x04]).
  - apply chunkRead_delivers.
  - split; [reflexivity | repeat constructor; discriminate].
  - simpl. lia.
  - vm_compute. discriminate.
Defined.

(** X3. The callback of the stream benchmark hands out the encoded bytes in
    order: with its cursor at most at the end of the bytes, a call stores
    the bytes at the cursor, as many as the view takes or as are left,
    returns their number and moves the cursor past them; it returns zero
    only for an empty view or at the end of the bytes. *)
Theorem benchmark_callback_in_order (encoded : list byte) :
  delivers (benchRead encoded) (unread encoded).
Proof.
  intros n pos d [Hpos ->]. unfold benchRead. simpl.
  set (end_ := Nat.min (n + pos) (length encoded)).
  exists (end_ - pos)%nat. rewrite length_drop.
  split; [lia |]. split; [reflexivity |]. split; [lia |]. split; [lia |].
  split.
  { intros Hn Hd. destruct (Nat.eq_dec pos (length encoded)) as [->|];
      [rewrite drop_all in Hd; congruence | lia]. }
  split; [lia |]. rewrite drop_drop. f_equal. lia.
Qed.


(** ** Two callbacks before the same stream *)

Section Alike.
Context {S1 S2 : Type} (rel : State S1 -> State S2 -> Prop).

Lemma alike_ret {A} (a : A) : alike rel (ret a) (ret a).
Proof. intros st1 st2 H. split; [reflexivity | exact H]. Qed.

Lemma alike_throw {A} (e : error) : alike rel (throw (A := A) e) (throw e).
Proof. intros st1 st2 H. split; [reflexivity | exact H]. Qed.

Lemma alike_starve {A} :
  alike rel (fun st => (OutOfFuel (A := A), st)) (fun st => (OutOfFuel, st)).
Proof. intros st1 st2 H. split; [reflexivity | exact H]. Qed.

Lemma alike_bind {A B} (m1 : M (State S1) A) (m2 : M (State S2) A)
    (k1 : A -> M (State S1) B) (k2 : A -> M (State S2) B) :
  alike rel m1 m2 -> (forall a, alike rel (k1 a) (k2 a)) ->
  alike rel (bind m1 k1) (bind m2 k2).
Proof.
  intros Hm Hk st1 st2 H. unfold bind. destruct (Hm st1 st2 H) as [Hr Hs].
  destruct (m1 st1) as [r1 st1'], (m2 st2) as [r2 st2']. simpl in *. subst r2.
  destruct r1 as [a|e|]; [apply Hk; exact Hs | split; [reflexivity | exact Hs] ..].
Qed.

Lemma alike_get {B} (k1 : State S1 -> M (State S1) B) (k2 : State S2 -> M (State S2) B) :
  (forall st1 st2, rel st1 st2 -> alike rel (k1 st1) (k2 st2)) ->
  alike rel (bind get k1) (bind get k2).
Proof. intros Hk st1 st2 H. unfold bind, get. apply Hk; exact H. Qed.

End Alike.

Ltac alike_step :=
  match goal with
  | |- alike _ (ret _) (ret _) => apply alike_ret
  | |- alike _ (throw _) (throw _) => apply alike_throw
  | |- alike _ (bind get _) (bind get _) =>
      let H1 := fresh in let H2 := fresh in let H3 := fresh in let H4 := fresh in
      apply alike_get; intros ? ? (H1 & H2 & H3 & H4 & _);
      rewrite ?H1, ?H2, ?H3, ?H4
  | |- alike _ (bind _ _) (bind _ _) => apply alike_bind; [| intros ?]
  | |- alike _ (if ?c then _ else _) _ => destruct c
  | |- alike _ (match ?x with _ => _ end) _ => destruct x
  | |- alike _ _ _ => solve [auto]
  end.

Ltac alike_auto := repeat alike_step.

Section Streams.
Context {S1 S2 : Type}.
Variable read1 : PullSource S1.
Variable read2 : PullSource S2.
Variable holds1 : S1 -> list byte -> Prop.
Variable holds2 : S2 -> list byte -> Prop.
Hypothesis Hread1 : delivers read1 holds1.
Hypothesis Hread2 : delivers read2 holds2.
Variable host : Host.
Variable options : Options.

Lemma ensure_same (len : Z) (st1 : State S1) (st2 : State S2) :
  heap st1 = heap st2 -> bytes st1 = bytes st2 ->
  heap (ensureBufferSizeToWrite len st1).2 = heap (ensureBufferSizeToWrite len st2).2 /\
  bytes (ensureBufferSizeToWrite len st1).2 = bytes (ensureBufferSizeToWrite len st2).2.
Proof.
  intros Hh Hb. unfold ensureBufferSizeToWrite, bind, capacity. simpl.
  rewrite Hh, Hb. destruct (_ <? len); simpl; rewrite ?Hh; auto.
Qed.

Lemma alike_readBytes len : alike (sameStream holds1 holds2) (readBytes read1 len) (readBytes read2 len).
Proof.
  intros st1 st2 (Hh & Hhb & Hb & Hs & d & Hd1 & Hd2).
  destruct (readBytes_delivers read1 holds1 Hread1 len st1 d Hd1) as (src1 & Hrun1 & Hsrc1).
  destruct (readBytes_delivers read2 holds2 Hread2 len st2 d Hd2) as (src2 & Hrun2 & Hsrc2).
  destruct (ensure_same len st1 st2 Hh Hb) as [Hh' Hb'].
  assert (Hc : capacity (ensureBufferSizeToWrite len st1).2
               = capacity (ensureBufferSizeToWrite len st2).2).
  { unfold capacity. rewrite Hh', Hb'. reflexivity. }
  rewrite Hrun1, Hrun2. simpl. unfold bytesView. rewrite Hc, Hh', Hb', Hhb, Hs.
  split; [reflexivity |]. repeat split; simpl; auto.
  rewrite Hc in Hsrc1. eauto.
Qed.

Lemma alike_setHeadByte b : alike (sameStream holds1 holds2) (setHeadByte b) (setHeadByte b).
Proof. intros st1 st2 (Hh & Hhb & Hb & Hs & Hd). repeat split; auto. Qed.

Lemma alike_setStack s : alike (sameStream holds1 holds2) (setStack s) (setStack s).
Proof. intros st1 st2 (Hh & Hhb & Hb & Hs & Hd). repeat split; auto. Qed.

Lemma alike_fillStack object : alike (sameStream holds1 holds2) (fillStack host object) (fillStack host object).
Proof.
  intros st1 st2 (Hh & Hhb & Hb & Hs & Hd). unfold fillStack. rewrite Hs.
  destruct (fillFrames host object (stack st2)) as [r stk]. repeat split; auto.
Qed.

Hint Resolve alike_readBytes alike_setHeadByte alike_setStack alike_fillStack : core.

Lemma alike_viewBytes n : alike (sameStream holds1 holds2) (viewBytes n) (viewBytes n).
Proof. unfold viewBytes. alike_auto. Qed.
Hint Resolve alike_viewBytes : core.

Lemma alike_readU8 : alike (sameStream holds1 holds2) (readU8 read1) (readU8 read2).
Proof. unfold readU8. alike_auto. Qed.
Lemma alike_readI8 : alike (sameStream holds1 holds2) (readI8 read1) (readI8 read2).
Proof. unfold readI8. alike_auto. Qed.
Lemma alike_readU16 : alike (sameStream holds1 holds2) (readU16 read1) (readU16 read2).
Proof. unfold readU16. alike_auto. Qed.
Lemma alike_readI16 : alike (sameStream holds1 holds2) (readI16 read1) (readI16 read2).
Proof. unfold readI16. alike_auto. Qed.
Lemma alike_readU32 : alike (sameStream holds1 holds2) (readU32 read1) (readU32 read2).
Proof. unfold readU32. alike_auto. Qed.
Lemma alike_readI32 : alike (sameStream holds1 holds2) (readI32 read1) (readI32 read2).
Proof. unfold readI32. alike_auto. Qed.
Lemma alike_readU64 : alike (sameStream holds1 holds2) (readU64 read1 host) (readU64 read2 host).
Proof. unfold readU64. alike_auto. Qed.
Lemma alike_readI64 : alike (sameStream holds1 holds2) (readI64 read1 host) (readI64 read2 host).
Proof. unfold readI64. alike_auto. Qed.
Lemma alike_readF32 : alike (sameStream holds1 holds2) (readF32 read1) (readF32 read2).
Proof. unfold readF32. alike_auto. Qed.
Lemma alike_readF64 : alike (sameStream holds1 holds2) (readF64 read1) (readF64 read2).
Proof. unfold readF64. alike_auto. Qed.
Hint Resolve alike_readU8 alike_readI8 alike_readU16 alike_readI16 alike_readU32
  alike_readI32 alike_readU64 alike_readI64 alike_readF32 alike_readF64 : core.

Lemma alike_readHeadByte : alike (sameStream holds1 holds2) (readHeadByte read1) (readHeadByte read2).
Proof. unfold readHeadByte. alike_auto. Qed.

Lemma alike_complete : alike (sameStream holds1 holds2) complete complete.
Proof. unfold complete. auto. Qed.

Lemma alike_stateIsMapKey : alike (sameStream holds1 holds2) stateIsMapKey stateIsMapKey.
Proof. unfold stateIsMapKey. alike_auto. Qed.
Hint Resolve alike_readHeadByte alike_complete alike_stateIsMapKey : core.

Lemma alike_decodeUtf8String n :
  alike (sameStream holds1 holds2) (decodeUtf8String read1 host options n) (decodeUtf8String read2 host options n).
Proof. unfold decodeUtf8String. alike_auto. Qed.

Lemma alike_decodeBinary n :
  alike (sameStream holds1 holds2) (decodeBinary read1 options n) (decodeBinary read2 options n).
Proof. unfold decodeBinary. alike_auto. Qed.
Hint Resolve alike_decodeUtf8String alike_decodeBinary : core.

Lemma alike_decodeExtension n :
  alike (sameStream holds1 holds2) (decodeExtension read1 options n) (decodeExtension read2 options n).
Proof. unfold decodeExtension. alike_auto. Qed.

Lemma alike_pushMapState n : alike (sameStream holds1 holds2) (pushMapState options n) (pushMapState options n).
Proof. unfold pushMapState. alike_auto. Qed.

Lemma alike_pushArrayState n : alike (sameStream holds1 holds2) (pushArrayState options n) (pushArrayState options n).
Proof. unfold pushArrayState. alike_auto. Qed.
Hint Resolve alike_decodeExtension alike_pushMapState alike_pushArrayState : core.

Lemma alike_decodeHead hb :
  alike (sameStream holds1 holds2) (decodeHead read1 host options hb) (decodeHead read2 host options hb).
Proof. unfold decodeHead, some, beginMap, beginArray. alike_auto. Qed.
Hint Resolve alike_decodeHead : core.

Lemma alike_doDecodeSync fuel :
  alike (sameStream holds1 holds2) (doDecodeSync read1 host options fuel) (doDecodeSync read2 host options fuel).
Proof.
  induction fuel as [|fuel IH]; simpl; [apply alike_starve |]. alike_auto.
Qed.
Hint Resolve alike_doDecodeSync : core.

Lemma alike_decode fuel :
  alike (sameStream holds1 holds2) (decode read1 host options fuel) (decode read2 host options fuel).
Proof. unfold decode, reinitializeState. alike_auto. Qed.

End Streams.

(** X2. The decoder's result depends on the bytes of the stream, not on
    how many of them each pull gives: over two callbacks that hand out the
    same stream in order (say the same bytes cut into chunks at different
    places, or the benchmark's callback over those bytes), [decodeStream]
    ends the same way, with the same value or the same error, and leaves the
    same heap, scratch buffer, head byte and stack, the two callbacks again
    before the same rest of the stream. *)
Theorem decodeStream_same_stream {S1 S2} (read1 : PullSource S1) (read2 : PullSource S2)
    (holds1 : S1 -> list byte -> Prop) (holds2 : S2 -> list byte -> Prop)
    (host : Host) (options : Options) (fuel : nat) (src1 : S1) (src2 : S2) (d : list byte) :
  delivers read1 holds1 -> delivers read2 holds2 ->
  holds1 src1 d -> holds2 src2 d ->
  (decodeStream read1 host options fuel src1).1 = (decodeStream read2 host options fuel src2).1 /\
  sameStream holds1 holds2 (decodeStream read1 host options fuel src1).2
                           (decodeStream read2 host options fuel src2).2.
Proof.
  intros H1 H2 Hd1 Hd2. unfold decodeStream.
  apply (alike_decode read1 read2 holds1 holds2 H1 H2 host options fuel).
  unfold newStreamDecoder. simpl. repeat split; eauto.
Qed.


Lemma decodeStream_same_stream_witness :
  (decodeStream chunkRead Sample.host Sample.options 5 [[x92; x01]; [x02]]).1
  = (decodeStream chunkRead Sample.host Sample.options 5 [[x92]; [x01; x02]]).1 /\
  sameStream chunked chunked
    (decodeStream chunkRead Sample.host Sample.options 5 [[x92; x01]; [x02]]).2
    (decodeStream chunkRead Sample.host Sample.options 5 [[x92]; [x01; x02]]).2.
Proof.
  apply (decodeStream_same_stream chunkRead chunkRead chunked chunked
           Sample.host Sample.options 5
           [[x92; x01]; [x02]] [[x92]; [x01; x02]] [x92; x01; x02]).
  - apply chunkRead_delivers.
  - apply chunkRead_delivers.
  - split; [reflexivity | repeat constructor; discriminate].
  - split; [reflexivity | repeat constructor; discriminate].
Defined.

(** ** [decodeMulti], and the end of a decode *)

Lemma fillFrames_return {B} (host : Host) (stk : list (StackState B)) :
  forall object v stk', fillFrames host object stk = (Ok (Return v), stk') -> stk' = [].
Proof.
  induction stk as [|f rest IH]; intros object v stk' H; simpl in H.
  - congruence.
  - destruct f as [size array position | [|] size key readCount map].
    + destruct (position + 1 =? size); [eapply IH; exact H | discriminate].
    + destruct (negb (isValidMapKeyType object)); [discriminate |].
      destruct (strictEqualsString object "__proto__"); discriminate.
    + destruct (readCount + 1 =? size); [eapply IH; exact H | discriminate].
Qed.

Lemma fillFrames_finishes {B} (host : Host) (stk : list (StackState B)) :
  forall object, (fillFrames host object stk).1 <> OutOfFuel.
Proof.
  induction stk as [|f rest IH]; intros object; simpl.
  - discriminate.
  - destruct f as [size array position | [|] size key readCount map].
    + destruct (position + 1 =? size); [apply IH | discriminate].
    + destruct (negb (isValidMapKeyType object)); [discriminate |].
      destruct (strictEqualsString object "__proto__"); discriminate.
    + destruct (readCount + 1 =? size); [apply IH | discriminate].
Qed.

Section Finishes.
Context {St : Type}.

Lemma finishes_ret {A} (a : A) : finishes (ret (St := St) a).
Proof. intros st. discriminate. Qed.

Lemma finishes_throw {A} (e : error) : finishes (throw (St := St) (A := A) e).
Proof. intros st. discriminate. Qed.

Lemma finishes_get : finishes (get (St := St)).
Proof. intros st. discriminate. Qed.

Lemma finishes_modify (f : St -> St) : finishes (modify f).
Proof. intros st. discriminate. Qed.

Lemma finishes_bind {A B} (m : M St A) (k : A -> M St B) :
  finishes m -> (forall a, finishes (k a)) -> finishes (bind m k).
Proof.
  intros Hm Hk st. unfold bind. specialize (Hm st).
  destruct (m st) as [[a|e|] st1]; simpl in *; [apply Hk | discriminate | congruence].
Qed.

End Finishes.

Ltac finishes_step :=
  match goal with
  | |- finishes (ret _) => apply finishes_ret
  | |- finishes (throw _) => apply finishes_throw
  | |- finishes get => apply finishes_get
  | |- finishes (modify _) => apply finishes_modify
  | |- finishes (bind _ _) => apply finishes_bind; [| intros ?]
  | |- finishes (if ?c then _ else _) => destruct c
  | |- finishes (match ?x with _ => _ end) => destruct x
  | |- finishes _ => solve [auto]
  end.

Ltac finishes_auto := repeat finishes_step.

Section Termination.
Context {S : Type}.
Variable read : PullSource S.
Variable host : Host.
Variable options : Options.

Lemma finishes_readBytes n : finishes (readBytes read n).
Proof. intros st. apply readBytes_total. Qed.
Hint Resolve finishes_readBytes : core.

Lemma finishes_readHeadByte : finishes (readHeadByte read).
Proof. unfold readHeadByte, readU8, viewBytes, setHeadByte. finishes_auto. Qed.

Lemma finishes_decodeHead hb : finishes (decodeHead read host options hb).
Proof.
  unfold decodeHead, some, beginMap, beginArray, decodeUtf8String, decodeBinary,
    decodeExtension, readU8, readI8, readU16, readI16, readU32, readI32, readU64,
    readI64, readF32, readF64, viewBytes, pushMapState, pushArrayState, complete,
    stateIsMapKey, setHeadByte, setStack, decodeBinary.
  finishes_auto.
Qed.

(** A value is returned with the decoder ready for the next one. *)
Lemma doDecodeSync_clean (fuel : nat) :
  forall (st st' : State S) v,
    doDecodeSync read host options fuel st = (Ok v, st') ->
    headByte st' = HEAD_BYTE_REQUIRED /\ stack st' = [].
Proof.
  induction fuel as [|fuel IH]; intros st st' v H; [discriminate |].
  rewrite doDecodeSync_turn in H.
  destruct (readHeadByte read st) as [[hb|e|] st1]; try discriminate.
  destruct (decodeHead read host options hb st1) as [[[object|]|e|] st2]; try discriminate.
  - destruct (fillFrames host object (stack st2)) as [[[|w]|e|] stk] eqn:E; try discriminate.
    + eapply IH; exact H.
    + injection H as <- <-. simpl. split; [reflexivity |].
      eapply fillFrames_return; exact E.
  - eapply IH; exact H.
Qed.

End Termination.

Section Multi.
Context {S : Type}.
Variable read : PullSource S.
Variable host : Host.
Variable options : Options.

Lemma reinitializeState_clean (st : State S) :
  headByte st = HEAD_BYTE_REQUIRED -> stack st = [] ->
  reinitializeState st = (Ok tt, st).
Proof. destruct st; simpl. intros -> ->. reflexivity. Qed.

Lemma decodeMultiTake_suspended (fuel n : nat) :
  forall st : State S,
    headByte st = HEAD_BYTE_REQUIRED -> stack st = [] ->
    decodeMultiTake read host options fuel n SuspendedYield st
    = decodeTimes read host options fuel n st.
Proof.
  induction n as [|n IH]; intros st Hhb Hstk; [reflexivity |].
  simpl. unfold resume, decode, bind at 1.
  rewrite (reinitializeState_clean st Hhb Hstk).
  destruct (doDecodeSync read host options fuel st) as [[v|e|] st'] eqn:E; try reflexivity.
  destruct (doDecodeSync_clean read host options fuel st st' v E) as [Hhb' Hstk'].
  rewrite (IH st' Hhb' Hstk'). reflexivity.
Qed.

(** X4. Taking up to [n] values from the generator of [decodeMulti()] gives
    what [n] calls of [decode()] on the same decoder give: the same values
    in the same order, the same exception at the same place, the same final
    state.  The generator resets the decoder once, at its start; that the
    later values need no reset is because a returned value leaves the stack
    empty and no head byte pending. *)
Theorem decodeMulti_is_repeated_decode (fuel n : nat) (st : State S) :
  decodeMultiTake read host options fuel n SuspendedStart st
  = decodeTimes read host options fuel n st.
Proof.
  destruct n as [|n]; [reflexivity |].
  simpl. unfold resume. fold (decode read host options fuel).
  destruct (decode read host options fuel st) as [[v|e|] st'] eqn:E; try reflexivity.
  unfold decode, bind at 1 in E. simpl in E.
  destruct (doDecodeSync_clean read host options fuel _ st' v E) as [Hhb' Hstk'].
  rewrite (decodeMultiTake_suspended fuel n st' Hhb' Hstk'). reflexivity.
Qed.

End Multi.

Section Consumption.
Context {S : Type}.
Variable read : PullSource S.
Variable holds : S -> list byte -> Prop.
Hypothesis Hread : delivers read holds.
Variable host : Host.
Variable options : Options.

#[local] Instance consumes_frame : Frame (consumes holds).
Proof.
  split.
  - intros st x d Hd. exists 0%nat. exact Hd.
  - intros st st1 st2 x H1 H2 d Hd.
    destruct (H1 d Hd) as [c1 Hc1]. destruct (H2 _ Hc1) as [c2 Hc2].
    exists (c1 + c2)%nat. rewrite drop_drop in Hc2. exact Hc2.
Qed.

Lemma consumes_same {A} (m : M (State S) A) :
  (forall st, source (m st).2 = source st) -> obeys (consumes holds) m.
Proof. intros H st d Hd. exists 0%nat. rewrite H. exact Hd. Qed.

Lemma consumes_pull data A (k : Z -> M (State S) A) :
  (forall n, obeys (consumes holds) (k n)) ->
  obeys (consumes holds) (n <- callRead read data ;; if n <=? 0 then throw MORE_DATA else k n).
Proof.
  intros Hk. apply (obeys_pull (consumes holds) (callRead read data) (fun n => n <=? 0));
    [| exact Hk].
  intros st d Hd. unfold callRead.
  destruct (Hread (byteLength data) (source st) d Hd) as (c & _ & _ & _ & _ & _ & Hs).
  destruct (read (byteLength data) (source st)) as [[ws n] src]. simpl in *. eauto.
Qed.

Lemma consumes_decodeHead hb : obeys (consumes holds) (decodeHead read host options hb).
Proof.
  apply obeys_decodeHead.
  - typeclasses eauto.
  - intros b. apply consumes_same. reflexivity.
  - intros n. apply consumes_same. intros st.
    unfold ensureBufferSizeToWrite, bind. simpl.
    destruct (Z.of_nat (capacity st) <? n); reflexivity.
  - apply consumes_pull.
  - intros s. apply consumes_same. reflexivity.
Qed.

Lemma readBytes_ok (len : Z) (st st' : State S) (a : Uint8Array) (d : list byte) :
  holds (source st) d -> 0 <= len ->
  readBytes read len st = (Ok a, st') ->
  (Z.to_nat len <= length d)%nat /\ holds (source st') (drop (Z.to_nat len) d).
Proof.
  intros Hd Hlen Hrun.
  destruct (readBytes_delivers read holds Hread len st d Hd) as (src & Hspec & Hs).
  rewrite Hrun in Hspec.
  set (st1 := (ensureBufferSizeToWrite len st).2) in *.
  destruct (len <=? Z.of_nat (capacity st1)) eqn:E1; [| discriminate].
  replace (Z.to_nat (Z.min len (Z.of_nat (capacity st1)))) with (Z.to_nat len) in * by lia.
  destruct (Z.to_nat len <=? length d)%nat eqn:E2; [| discriminate].
  simpl in Hspec. injection Hspec as _ ->. simpl.
  split; [apply Nat.leb_le; exact E2 | exact Hs].
Qed.

Lemma viewBytes_state (n : nat) (st : State S) : (viewBytes n st).2 = st.
Proof.
  unfold viewBytes, bind, get. simpl.
  destruct (n <=? length (bufferOf (heap st) (bytes st)))%nat; reflexivity.
Qed.

Lemma readHeadByte_consumes (st st1 : State S) (hb : Z) (d : list byte) :
  holds (source st) d -> headByte st = HEAD_BYTE_REQUIRED ->
  readHeadByte read st = (Ok hb, st1) ->
  (1 <= length d)%nat /\ holds (source st1) (drop 1 d).
Proof.
  intros Hd Hhb Hrun. unfold readHeadByte, bind at 1 in Hrun. simpl in Hrun.
  rewrite Hhb in Hrun. simpl in Hrun.
  unfold readU8 in Hrun. unfold bind at 1 in Hrun. unfold bind at 1 in Hrun.
  destruct (readBytes read 1 st) as [[a|e|] st0] eqn:E; try discriminate.
  destruct (readBytes_ok 1 st st0 a d Hd ltac:(lia) E) as [H1 H2].
  unfold bind at 1 in Hrun. pose proof (viewBytes_state 1 st0) as Hv.
  destruct (viewBytes 1 st0) as [[bs|e|] st0']; simpl in Hv; subst st0';
    try discriminate.
  injection Hrun as _ <-. simpl. split; [exact H1 | exact H2].
Qed.

(** A [continue DECODE] out of the chain on the head byte comes after
    [this.complete()]. *)
Lemma decodeHead_continue hb (st st' : State S) :
  decodeHead read host options hb st = (Ok None, st') ->
  headByte st' = HEAD_BYTE_REQUIRED.
Proof.
  assert (Hsome : forall A (m : M (State S) A) f (st st' : State S),
            some m f st = (Ok None, st') -> headByte st' = HEAD_BYTE_REQUIRED).
  { intros A m f st0 st0' H. unfold some, bind in H.
    destruct (m st0) as [[a|e|] st1]; discriminate. }
  assert (Hmap : forall size (st st' : State S),
            beginMap options size st = (Ok None, st') -> headByte st' = HEAD_BYTE_REQUIRED).
  { intros size st0 st0' H. unfold beginMap, pushMapState in H.
    destruct (negb (size =? 0)); [| discriminate].
    destruct (size >? maxMapLength options); [discriminate |].
    injection H as <-. reflexivity. }
  assert (Harr : forall size (st st' : State S),
            beginArray options size st = (Ok None, st') -> headByte st' = HEAD_BYTE_REQUIRED).
  { intros size st0 st0' H. unfold beginArray, pushArrayState in H.
    destruct (negb (size =? 0)); [| discriminate].
    destruct (size >? maxArrayLength options); [discriminate |].
    injection H as <-. reflexivity. }
  assert (Hbind : forall (m : M (State S) Z) (k : Z -> M (State S) (option (value Uint8Array)))
            (st st' : State S),
            (forall size (st st' : State S), k size st = (Ok None, st') ->
                                 headByte st' = HEAD_BYTE_REQUIRED) ->
            (size <- m ;; k size) st = (Ok None, st') -> headByte st' = HEAD_BYTE_REQUIRED).
  { intros m k st0 st0' Hk H. unfold bind in H.
    destruct (m st0) as [[a|e|] st1]; try discriminate. eapply Hk; exact H. }
  unfold decodeHead.
  repeat match goal with
  | |- context [if ?c then _ else _] => destruct c
  end; intros H;
  first
    [ discriminate
    | eapply Hsome; exact H
    | eapply Hmap; exact H
    | eapply Harr; exact H
    | eapply Hbind; [| exact H]; first [exact Hmap | exact Harr] ].
Qed.

Lemma consumes_doDecodeSync fuel : obeys (consumes holds) (doDecodeSync read host options fuel).
Proof.
  apply obeys_doDecodeSync.
  - typeclasses eauto.
  - intros b. apply consumes_same. reflexivity.
  - intros n. apply consumes_same. intros st.
    unfold ensureBufferSizeToWrite, bind. simpl.
    destruct (Z.of_nat (capacity st) <? n); reflexivity.
  - apply consumes_pull.
  - intros s. apply consumes_same. reflexivity.
  - intros o. apply consumes_same. intros st. unfold fillStack.
    destruct (fillFrames host o (stack st)); reflexivity.
Qed.

(** A value costs at least the byte of its header. *)
Lemma doDecodeSync_consumes (fuel : nat) (st st' : State S) (d : list byte) v :
  holds (source st) d -> headByte st = HEAD_BYTE_REQUIRED ->
  doDecodeSync read host options fuel st = (Ok v, st') ->
  exists d', holds (source st') d' /\ (length d' < length d)%nat.
Proof.
  intros Hd Hhb Hrun. destruct fuel as [|fuel]; [discriminate |].
  rewrite doDecodeSync_turn in Hrun.
  destruct (readHeadByte read st) as [[hb|e|] st1] eqn:E1; try discriminate.
  destruct (readHeadByte_consumes st st1 hb d Hd Hhb E1) as [Hlen Hd1].
  pose proof (consumes_decodeHead hb st1 _ Hd1) as [c Hd2].
  rewrite drop_drop in Hd2.
  assert (Hlen2 : (length (drop (1 + c) d) < length d)%nat)
    by (rewrite length_drop; lia).
  set (d2 := drop (1 + c) d) in *. clearbody d2. clear Hd1.
  destruct (decodeHead read host options hb st1) as [[[object|]|e|] st2] eqn:E2;
    try discriminate; simpl in Hd2.
  - cbv zeta in Hrun.
    destruct (fillFrames host object (stack st2)) as [[[|w]|e|] stk]; try discriminate.
    + pose proof (consumes_doDecodeSync fuel
                    (mkState (heap st2) (source st2) HEAD_BYTE_REQUIRED (bytes st2) stk)
                    d2 Hd2) as [c' Hd3].
      rewrite Hrun in Hd3. simpl in Hd3. eexists. split; [exact Hd3 |].
      rewrite length_drop. lia.
    + injection Hrun as _ <-. simpl. eauto.
  - pose proof (consumes_doDecodeSync fuel st2 d2 Hd2) as [c' Hd3].
    rewrite Hrun in Hd3. simpl in Hd3. eexists. split; [exact Hd3 |].
    rewrite length_drop. lia.
Qed.

(** Every turn of the loop reads a head byte, so a stream of [n] bytes is
    done with in [n + 1] turns. *)
Lemma doDecodeSync_terminates (fuel : nat) :
  forall (st : State S) (d : list byte),
    holds (source st) d -> headByte st = HEAD_BYTE_REQUIRED ->
    (length d < fuel)%nat ->
    (doDecodeSync read host options fuel st).1 <> OutOfFuel.
Proof.
  induction fuel as [|fuel IH]; intros st d Hd Hhb Hfuel; [lia |].
  rewrite doDecodeSync_turn.
  pose proof (finishes_readHeadByte read st) as Hf1.
  destruct (readHeadByte read st) as [[hb|e|] st1] eqn:E1; simpl in Hf1 |- *;
    [| discriminate | congruence].
  destruct (readHeadByte_consumes st st1 hb d Hd Hhb E1) as [Hlen Hd1].
  pose proof (finishes_decodeHead read host options hb st1) as Hf2.
  pose proof (consumes_decodeHead hb st1 _ Hd1) as [c Hd2].
  rewrite drop_drop in Hd2.
  assert (Hlen2 : (length (drop (1 + c) d) < length d)%nat)
    by (rewrite length_drop; lia).
  set (d2 := drop (1 + c) d) in *. clearbody d2. clear Hd1.
  destruct (decodeHead read host options hb st1) as [[[object|]|e|] st2] eqn:E2;
    simpl in Hf2, Hd2 |- *; [| | discriminate | congruence].
  - pose proof (fillFrames_finishes host (stack st2) object) as Hf3. cbv zeta.
    destruct (fillFrames host object (stack st2)) as [[[|w]|e|] stk]; simpl in Hf3 |- *;
      [| discriminate | discriminate | congruence].
    apply (IH _ d2); [exact Hd2 | reflexivity | lia].
  - apply (IH st2 d2); [exact Hd2 | eapply decodeHead_continue; exact E2 | lia].
Qed.

Lemma decodeMultiTake_bounded (fuel n : nat) :
  forall (g : GeneratorState) (st : State S) (d : list byte),
    holds (source st) d ->
    g = SuspendedStart \/ (g = SuspendedYield /\ headByte st = HEAD_BYTE_REQUIRED) ->
    let '(vs, stop, _) := decodeMultiTake read host options fuel n g st in
    (length vs <= length d)%nat /\ stop <> Done /\
    ((length d < fuel)%nat -> (length d < n)%nat -> exists e, stop = Failed e).
Proof.
  induction n as [|n IH]; intros g st d Hd Hg; simpl.
  - split; [lia |]. split; [discriminate | lia].
  - assert (Hrun : exists st0, holds (source st0) d /\ headByte st0 = HEAD_BYTE_REQUIRED /\
             decodeMultiNext read host options fuel g st
             = resume g (doDecodeSync read host options fuel) st0).
    { destruct Hg as [-> | [-> Hhb]].
      - exists (reinitializeState st).2. split; [exact Hd |]. split; reflexivity.
      - exists st. split; [exact Hd |]. split; [exact Hhb | reflexivity]. }
    destruct Hrun as (st0 & Hd0 & Hhb0 & ->). unfold resume.
    pose proof (doDecodeSync_terminates fuel st0 d Hd0 Hhb0) as Hterm.
    destruct (doDecodeSync read host options fuel st0) as [[v|e|] st1] eqn:E.
    + destruct (doDecodeSync_consumes fuel st0 st1 d v Hd0 Hhb0 E) as (d1 & Hd1 & Hlt).
      destruct (doDecodeSync_clean read host options fuel st0 st1 v E) as [Hhb1 _].
      specialize (IH SuspendedYield st1 d1 Hd1 (or_intror (conj eq_refl Hhb1))).
      destruct (decodeMultiTake read host options fuel n SuspendedYield st1)
        as [[vs stop] st2].
      destruct IH as (H1 & H2 & H3). simpl.
      split; [lia |]. split; [exact H2 |]. intros Hf Hn. apply H3; lia.
    + simpl. split; [lia |]. split; [discriminate | eauto].
    + simpl. split; [lia |]. split; [discriminate |].
      intros Hf _. exfalso. apply (Hterm Hf). reflexivity.
Qed.

End Consumption.

(** X5. [decode] terminates on every finite input.  Over a callback that
    hands out a stream of [n] bytes in order, [n + 1] turns of the loop
    [DECODE: while (true)] are enough for [decode] to return or throw: every
    turn starts by reading a head byte, since every [continue DECODE] comes
    after [this.complete()]. *)
Theorem decode_terminates {S} (read : PullSource S) (holds : S -> list byte -> Prop)
    (host : Host) (options : Options) (fuel : nat) (st : State S) (d : list byte) :
  delivers read holds -> holds (source st) d -> (length d < fuel)%nat ->
  (decode read host options fuel st).1 <> OutOfFuel.
Proof.
  intros Hread Hd Hfuel. unfold decode, bind at 1. simpl.
  apply (doDecodeSync_terminates read holds Hread host options fuel _ d);
    [exact Hd | reflexivity | exact Hfuel].
Qed.

Lemma decode_terminates_witness :
  (decode chunkRead Sample.host Sample.options 4 (newStreamDecoder [[x92; x01]; [x02]])).1
  <> OutOfFuel.
Proof.
  apply (decode_terminates chunkRead chunked Sample.host Sample.options 4
           (newStreamDecoder [[x92; x01]; [x02]]) [x92; x01; x02]).
  - apply chunkRead_delivers.
  - split; [reflexivity | repeat constructor; discriminate].
  - simpl. lia.
Defined.

(** X6. The generator of [decodeMulti()] never reports [done] on its own
    account: over a stream of [n] bytes it yields at most [n] values, one
    byte at least for each, and a consumer that asks for more is stopped by
    an exception (the [RangeError] of the exhausted input, or a
    [DecodeError]), never by the end of the iteration. *)
Theorem decodeMulti_ends_in_exception {S} (read : PullSource S)
    (holds : S -> list byte -> Prop) (host : Host) (options : Options)
    (fuel n : nat) (st : State S) (d : list byte) :
  delivers read holds -> holds (source st) d ->
  let '(vs, stop, _) := decodeMultiTake read host options fuel n SuspendedStart st in
  (length vs <= length d)%nat /\ stop <> Done /\
  ((length d < fuel)%nat -> (length d < n)%nat -> exists e, stop = Failed e).
Proof.
  intros Hread Hd.
  apply (decodeMultiTake_bounded read holds Hread host options fuel n SuspendedStart st d Hd).
  left. reflexivity.
Qed.


Lemma decodeMulti_ends_in_exception_witness :
  let '(vs, stop, _) :=
    decodeMultiTake chunkRead Sample.host Sample.options 5 5 SuspendedStart
      (newStreamDecoder [[x01]; [x02]]) in
  (length vs <= length [x01; x02])%nat /\ stop <> Done /\
  ((length [x01; x02] < 5)%nat -> (length [x01; x02] < 5)%nat -> exists e, stop = Failed e).
Proof.
  apply (decodeMulti_ends_in_exception chunkRead chunked Sample.host Sample.options 5 5
           (newStreamDecoder [[x01]; [x02]]) [x01; x02]).
  - apply chunkRead_delivers.
  - split; [reflexivity | repeat constructor; discriminate].
Defined.

(** ** Errors that are not thrown *)

Lemma be_uint_bound (bs : list byte) : be_uint bs < 256 ^ Z.of_nat (length bs).
Proof.
  induction bs as [|b bs IH] using rev_ind; [vm_compute; reflexivity |].
  rewrite be_uint_snoc, length_app. simpl length.
  replace (Z.of_nat (length bs + 1)) with (Z.of_nat (length bs) + 1) by lia.
  rewrite Z.pow_add_r by lia. pose proof (byte_to_Z_range b). lia.
Qed.

Section Spares.
Context {St : Type} (bad : error -> bool).

Lemma spares_ret {A} (a : A) : spares bad (ret (St := St) a).
Proof. intros st e st'. discriminate. Qed.

Lemma spares_throw {A} (e : error) :
  bad e = false -> spares bad (throw (St := St) (A := A) e).
Proof. intros H st e' st' [= <- _]. exact H. Qed.

Lemma spares_get : spares bad (get (St := St)).
Proof. intros st e st'. discriminate. Qed.

Lemma spares_modify (f : St -> St) : spares bad (modify f).
Proof. intros st e st'. discriminate. Qed.

Lemma spares_bind_returns {A B} (Q : A -> Prop) (m : M St A) (k : A -> M St B) :
  returns m Q -> spares bad m -> (forall a, Q a -> spares bad (k a)) ->
  spares bad (bind m k).
Proof.
  intros Hq Hm Hk st e st'. unfold bind. specialize (Hq st). specialize (Hm st).
  destruct (m st) as [[a|e0|] st1]; [| | discriminate].
  - intros H. eapply Hk; [eapply Hq; reflexivity | exact H].
  - intros [= <- _]. eapply Hm. reflexivity.
Qed.

Lemma spares_bind {A B} (m : M St A) (k : A -> M St B) :
  spares bad m -> (forall a, spares bad (k a)) -> spares bad (bind m k).
Proof.
  intros Hm Hk. apply (spares_bind_returns (fun _ => True));
    [intros st a st' _; exact I | exact Hm | intros a _; apply Hk].
Qed.

End Spares.

Ltac spares_step :=
  match goal with
  | |- spares _ (ret _) => apply spares_ret
  | |- spares _ (throw _) => apply spares_throw; first [reflexivity | eassumption | eauto]
  | |- spares _ get => apply spares_get
  | |- spares _ (modify _) => apply spares_modify
  | |- spares _ (bind _ _) => apply spares_bind; [| intros ?]
  | |- spares _ (if ?c then _ else _) => destruct c eqn:?
  | |- spares _ (match ?x with _ => _ end) => destruct x eqn:?
  | |- spares _ _ => solve [auto]
  end.

Ltac spares_auto := repeat spares_step.

(** The reading primitives throw [MORE_DATA] and the [RangeError] of an
    out-of-bounds [DataView] access, nothing else. *)
Section SparesReading.
Context {S : Type}.
Variable read : PullSource S.
Variable bad : error -> bool.
Hypothesis bad_more_data : bad MORE_DATA = false.
Hypothesis bad_range : forall message, bad (RangeError message) = false.

Lemma spares_readLoop fuel len pos : spares bad (readLoop read fuel len pos).
Proof.
  revert pos. induction fuel as [|fuel IH]; intros pos; simpl.
  - destruct (pos <? len); [intros st e st'; discriminate | apply spares_ret].
  - destruct (pos <? len); [| apply spares_ret].
    apply spares_bind; [apply spares_get | intros st].
    apply spares_bind.
    + intros st0 e st'. unfold callRead.
      destruct (read _ _) as [[ws n] src]. discriminate.
    + intros n. destruct (n <=? 0); [apply spares_throw; exact bad_more_data | apply IH].
Qed.

Lemma spares_readBytes n : spares bad (readBytes read n).
Proof.
  pose proof spares_readLoop.
  unfold readBytes, ensureBufferSizeToWrite, resizeBuffer. spares_auto.
Qed.

Lemma spares_viewBytes n : spares (St := State S) bad (viewBytes n).
Proof. unfold viewBytes. spares_auto. Qed.

End SparesReading.

Lemma returns_viewBytes {S} n :
  returns (St := State S) (viewBytes n) (fun bs => length bs = n).
Proof.
  intros st bs st'. unfold viewBytes, bind, get. simpl.
  destruct (n <=? length (bufferOf (heap st) (bytes st)))%nat eqn:E; [| discriminate].
  intros [= <- _]. apply Nat.leb_le in E. rewrite length_take. lia.
Qed.

(** What a field of [n] bytes can hold. *)
Lemma returns_unsigned {S} (read : PullSource S) (n : nat) (len : Z) :
  returns (readBytes read len ;; bs <- viewBytes n ;; ret (be_uint bs))
          (fun z => 0 <= z < 256 ^ Z.of_nat n).
Proof.
  intros st z st'. unfold bind at 1.
  destruct (readBytes read len st) as [[a|e|] st1]; try discriminate.
  unfold bind. pose proof (returns_viewBytes n st1) as Hv.
  destruct (viewBytes n st1) as [[bs|e|] st2]; try discriminate.
  intros [= <- _]. specialize (Hv bs st2 eq_refl).
  pose proof (be_uint_bound bs) as Hb. rewrite Hv in Hb.
  pose proof (be_uint_nonneg bs). lia.
Qed.

Section Limits32.
Context {S : Type}.
Variable read : PullSource S.
Variable host : Host.
Variable options : Options.
Hypothesis Hstr : 2 ^ 32 - 1 <= maxStrLength options.
Hypothesis Hbin : 2 ^ 32 - 1 <= maxBinLength options.
Hypothesis Harray : 2 ^ 32 - 1 <= maxArrayLength options.
Hypothesis Hmap : 2 ^ 32 - 1 <= maxMapLength options.
Hypothesis Hext : 2 ^ 32 - 1 <= maxExtLength options.
Hypothesis Hcodec : forall data bs t e,
  extensionCodec options data bs t = inl e -> lengthError e = false.

Lemma spares32_readBytes n : spares lengthError (readBytes read n).
Proof. apply spares_readBytes; reflexivity. Qed.
Hint Resolve spares32_readBytes : core.

Lemma spares32_viewBytes n : spares (St := State S) lengthError (viewBytes n).
Proof. apply spares_viewBytes. reflexivity. Qed.
Hint Resolve spares32_viewBytes : core.

Lemma returns_uint32 (n : nat) (len : Z) :
  (n <= 4)%nat ->
  returns (readBytes read len ;; bs <- viewBytes n ;; ret (be_uint bs))
          (fun z => z <= 2 ^ 32 - 1).
Proof.
  intros Hn st z st' Hrun. pose proof (returns_unsigned read n len st z st' Hrun) as Hz.
  cbv beta in Hz.
  assert (256 ^ Z.of_nat n <= 256 ^ 4) by (apply Z.pow_le_mono_r; lia).
  change (256 ^ 4) with (2 ^ 32) in *. lia.
Qed.

Lemma spares_readUnsigned (n : nat) (len : Z) :
  spares lengthError (readBytes read len ;; bs <- viewBytes n ;; ret (be_uint bs)).
Proof. spares_auto. Qed.

Lemma spares_decodeUtf8String n :
  n <= 2 ^ 32 - 1 -> spares lengthError (decodeUtf8String read host options n).
Proof.
  intros Hn. unfold decodeUtf8String, stateIsMapKey.
  replace (n >? maxStrLength options) with false by lia. spares_auto.
Qed.

Lemma spares_decodeBinary n :
  n <= 2 ^ 32 - 1 -> spares lengthError (decodeBinary read options n).
Proof.
  intros Hn. unfold decodeBinary.
  replace (n >? maxBinLength options) with false by lia. spares_auto.
Qed.

Lemma spares_decodeExtension n :
  n <= 2 ^ 32 - 1 -> spares lengthError (decodeExtension read options n).
Proof.
  intros Hn. pose proof (spares_decodeBinary n Hn).
  unfold decodeExtension, readI8.
  replace (n >? maxExtLength options) with false by lia.
  apply spares_bind; [spares_auto | intros t].
  apply spares_bind; [assumption | intros data].
  apply spares_bind; [apply spares_get | intros st].
  destruct (extensionCodec options data _ t) as [e|v] eqn:E; [| apply spares_ret].
  apply spares_throw. eapply Hcodec. exact E.
Qed.

Lemma spares_beginMap n : n <= 2 ^ 32 - 1 -> spares (St := State S) lengthError (beginMap options n).
Proof.
  intros Hn. unfold beginMap, pushMapState, complete, setHeadByte, setStack.
  replace (n >? maxMapLength options) with false by lia. spares_auto.
Qed.

Lemma spares_beginArray n : n <= 2 ^ 32 - 1 -> spares (St := State S) lengthError (beginArray options n).
Proof.
  intros Hn. unfold beginArray, pushArrayState, complete, setHeadByte, setStack.
  replace (n >? maxArrayLength options) with false by lia. spares_auto.
Qed.

Lemma spares_sized {A} (n : nat) (len : Z) (k : Z -> M (State S) A) :
  (n <= 4)%nat -> (forall z, z <= 2 ^ 32 - 1 -> spares lengthError (k z)) ->
  spares lengthError (z <- (readBytes read len ;; bs <- viewBytes n ;; ret (be_uint bs)) ;; k z).
Proof.
  intros Hn Hk. apply (spares_bind_returns lengthError (fun z => z <= 2 ^ 32 - 1));
    [apply returns_uint32; exact Hn | apply spares_readUnsigned | exact Hk].
Qed.

Lemma spares_some {A} (m : M (State S) A) (f : A -> value Uint8Array) :
  spares lengthError m -> spares lengthError (some m f).
Proof. intros Hm. unfold some. spares_auto. Qed.

Lemma spares_decodeHead hb : spares lengthError (decodeHead read host options hb).
Proof.
  unfold decodeHead.
  repeat match goal with
  | |- spares _ (if ?c then _ else _) => destruct c eqn:?
  end;
  first
    [ apply spares_ret
    | apply spares_throw; reflexivity
    | apply spares_beginMap; lia
    | apply spares_beginArray; lia
    | apply spares_some;
        first [ apply spares_decodeUtf8String; lia
              | apply spares_decodeExtension; lia
              | apply spares_sized;
                 [lia | first [apply spares_decodeUtf8String | apply spares_decodeBinary
                              | apply spares_decodeExtension]]
              | unfold readU8, readI8, readU16, readI16, readU32, readI32, readU64,
                  readI64, readF32, readF64; spares_auto ]
    | apply spares_sized; [lia | first [apply spares_beginMap | apply spares_beginArray]] ].
Qed.

Lemma spares_fillStack object : spares (St := State S) lengthError (fillStack host object).
Proof.
  intros st e st'. unfold fillStack.
  destruct (fillFrames host object (stack st)) as [r stk] eqn:E.
  intros [= -> _]. revert object E. generalize (stack st) as s.
  induction s as [|f rest IH]; intros object E; simpl in E; [discriminate |].
  destruct f as [size array position | [|] size key readCount map].
  - destruct (position + 1 =? size); [eapply IH; exact E | discriminate].
  - destruct (negb (isValidMapKeyType object)); [injection E as <- _; reflexivity |].
    destruct (strictEqualsString object "__proto__");
      [injection E as <- _; reflexivity | discriminate].
  - destruct (readCount + 1 =? size); [eapply IH; exact E | discriminate].
Qed.

Lemma spares_doDecodeSync fuel : spares lengthError (doDecodeSync read host options fuel).
Proof.
  pose proof spares_decodeHead. pose proof spares_fillStack.
  induction fuel as [|fuel IH]; simpl; [intros st e st'; discriminate |].
  unfold readHeadByte, readU8, complete, setHeadByte. spares_auto.
Qed.

End Limits32.

(** X7. With every limit at the default, 4_294_967_295, or above, and an
    extension codec that throws no such error itself, [decode] never throws
    a "Max length exceeded" error: no length field, at most 32 bits wide,
    can hold a number above the limit. *)
Theorem default_limits_never_reject {S} (read : PullSource S) (host : Host)
    (options : Options) (fuel : nat) (st : State S) :
  (forall kind, 2 ^ 32 - 1 <= maxLength options kind) ->
  (forall data bs t e, extensionCodec options data bs t = inl e -> lengthError e = false) ->
  forall kind size max,
    (decode read host options fuel st).1 <> Throw (DecodeError (MaxLengthExceeded kind size max)).
Proof.
  intros Hmax Hcodec kind size max Hrun.
  pose proof (spares_doDecodeSync read host options (Hmax StrLength) (Hmax BinLength)
                (Hmax ArrayLength) (Hmax MapLength) (Hmax ExtLength) Hcodec fuel) as Hs.
  unfold decode, bind at 1 in Hrun. simpl in Hrun.
  destruct (doDecodeSync read host options fuel _) as [r st'] eqn:E. simpl in Hrun. subst r.
  specialize (Hs _ _ _ E). discriminate.
Qed.

Lemma default_limits_never_reject_witness :
  (decode chunkRead Sample.host Sample.options 5 (newStreamDecoder [[x93; x01]])).1
  <> Throw (DecodeError (MaxLengthExceeded ArrayLength 3 2)).
Proof.
  apply (default_limits_never_reject chunkRead Sample.host Sample.options 5
           (newStreamDecoder [[x93; x01]])).
  - intros []; vm_compute; discriminate.
  - intros data bs t e. discriminate.
Defined.

(** X8. The payload of an extension is held to [maxBinLength] as well as
    to [maxExtLength], because [decodeExtension] reads it with
    [decodeBinary]: a size that [maxExtLength] admits and [maxBinLength]
    does not is rejected, once the type byte has been read, with the error
    "Max length exceeded: bin length". *)
Theorem extension_held_to_bin_limit {S} (read : PullSource S) (options : Options)
    (size : Z) (st st1 : State S) (extType : Z) :
  size <= maxExtLength options -> maxBinLength options < size ->
  readI8 read st = (Ok extType, st1) ->
  decodeExtension read options size st
  = (Throw (DecodeError (MaxLengthExceeded BinLength size (maxBinLength options))), st1).
Proof.
  intros Hext Hbin Hread. unfold decodeExtension.
  replace (size >? maxExtLength options) with false by lia.
  unfold bind at 1. rewrite Hread. unfold bind at 1, decodeBinary.
  replace (size >? maxBinLength options) with true by lia. reflexivity.
Qed.

Lemma extension_held_to_bin_limit_witness :
  decodeExtension chunkRead shortBinaries 4 (newStreamDecoder [[x01; xaa; xbb; xcc; xdd]])
  = (Throw (DecodeError (MaxLengthExceeded BinLength 4 (maxBinLength shortBinaries))),
     (readI8 chunkRead (newStreamDecoder [[x01; xaa; xbb; xcc; xdd]])).2).
Proof.
  apply (extension_held_to_bin_limit chunkRead shortBinaries 4
           (newStreamDecoder [[x01; xaa; xbb; xcc; xdd]]) _ 1).
  - vm_compute. discriminate.
  - vm_compute. reflexivity.
  - vm_compute. reflexivity.
Defined.

Section Doubling.
Context {S : Type}.
Variable read : PullSource S.
Variable host : Host.
Variable options : Options.

#[local] Instance doubled_frame : Frame (@doubled S).
Proof.
  split.
  - intros st x. exists 0%nat. simpl. lia.
  - intros st st1 st2 x [j1 H1] [j2 H2]. exists (j1 + j2)%nat.
    rewrite H2, H1, Nat.pow_add_r. lia.
Qed.

Lemma doubled_same {A} (m : M (State S) A) :
  (forall st, capacity (m st).2 = capacity st) -> obeys doubled m.
Proof. intros H st. exists 0%nat. rewrite H. simpl. lia. Qed.

(** X9. Over a call of [decode], whatever the input, the capacity of the
    scratch buffer is multiplied by a power of two: the buffer is never
    shortened and never grows by anything but doubling. *)
Theorem scratch_buffer_only_doubles (fuel : nat) (st : State S) :
  exists j : nat, capacity (decode read host options fuel st).2 = (capacity st * 2 ^ j)%nat.
Proof.
  apply (obeys_decode read host options doubled).
  - intros b. apply doubled_same. reflexivity.
  - intros n st0. unfold doubled.
    pose proof (capacity_ensure n st0) as Hc.
    destruct (Z.of_nat (capacity st0) <? n); [exists 1%nat | exists 0%nat];
      simpl; lia.
  - intros data A k Hk.
    apply (obeys_pull doubled (callRead read data) (fun n => n <=? 0)); [| exact Hk].
    apply doubled_same. intros st0. apply capacity_callRead.
  - intros s. apply doubled_same. reflexivity.
  - intros o. apply doubled_same. intros st0. unfold fillStack.
    destruct (fillFrames host o (stack st0)); reflexivity.
Qed.

End Doubling.


(** ** The heap, the frames of arrays, and [readArraySize] *)

(** The reading primitives use the callback through [readBytes] only. *)
Section ReadingBytes.
Context {S : Type}.
Variable read : PullSource S.
Variable host : Host.
Variable options : Options.
Context (R : State S -> ending -> State S -> Prop) `{!Frame R}.
Hypothesis R_setHeadByte : forall b, obeys R (setHeadByte b).
Hypothesis R_readBytes : forall n, obeys R (readBytes read n).
Hypothesis R_setStack : forall s, obeys R (setStack s).
Hypothesis R_fillStack : forall object, obeys R (fillStack host object).

Lemma through_decodeHead hb : obeys R (decodeHead read host options hb).
Proof.
  unfold decodeHead, some, beginMap, beginArray, decodeUtf8String, decodeBinary,
    decodeExtension, readU8, readI8, readU16, readI16, readU32, readI32, readU64,
    readI64, readF32, readF64, viewBytes, pushMapState, pushArrayState, complete,
    stateIsMapKey, decodeBinary.
  obeys_auto.
Qed.

Lemma through_doDecodeSync fuel : obeys R (doDecodeSync read host options fuel).
Proof.
  pose proof through_decodeHead.
  induction fuel as [|fuel IH]; simpl; [apply obeys_starve; assumption |].
  unfold readHeadByte, readU8, viewBytes, complete. obeys_auto.
Qed.

Lemma through_decode fuel : obeys R (decode read host options fuel).
Proof.
  pose proof through_doDecodeSync. unfold decode, reinitializeState. obeys_auto.
Qed.

End ReadingBytes.

Section Confined.
Context {S : Type}.
Variable read : PullSource S.
Variable host : Host.
Variable options : Options.

#[local] Instance confined_frame : Frame (@confined S).
Proof.
  split.
  - intros st x. split; [lia |]. split; [left; reflexivity | reflexivity].
  - intros st st1 st2 x (Hl1 & Hb1 & Hk1) (Hl2 & Hb2 & Hk2).
    split; [lia |]. split.
    + destruct Hb2 as [-> | Hb2]; [exact Hb1 | right; lia].
    + intros id Hid Hne. rewrite Hk2; [apply Hk1; assumption | lia |].
      destruct Hb1 as [-> | Hb1]; [exact Hne | lia].
Qed.

Lemma confined_same {A} (m : M (State S) A) :
  (forall st, heap (m st).2 = heap st /\ bytes (m st).2 = bytes st) ->
  obeys confined m.
Proof.
  intros H st. destruct (H st) as [Hh Hb]. unfold confined. rewrite Hh, Hb.
  split; [lia |]. split; [left; reflexivity | reflexivity].
Qed.

Lemma confined_ensure n : obeys (@confined S) (ensureBufferSizeToWrite n).
Proof.
  intros st. unfold ensureBufferSizeToWrite, bind. simpl.
  destruct (Z.of_nat (capacity st) <? n); simpl.
  - unfold confined. simpl. rewrite length_app. simpl.
    split; [lia |]. split; [right; lia |].
    intros id Hid _. apply lookup_app_l. exact Hid.
  - apply frame_stay.
Qed.

Lemma confined_readLoop fuel len :
  forall pos (st st' : State S) r,
    readLoop read fuel len pos st = (r, st') -> confined st (endingOf r) st'.
Proof.
  induction fuel as [|fuel IH]; intros pos st st' r; simpl.
  - destruct (pos <? len); intros [= <- <-]; apply frame_stay.
  - destruct (pos <? len); [| intros [= <- <-]; apply frame_stay].
    unfold bind at 1. simpl. unfold bind at 1. unfold callRead.
    set (data := subarray (bytesView st) pos len).
    destruct (read (byteLength data) (source st)) as [[ws n] src].
    set (st1 := mkState _ src _ _ _).
    assert (H1 : forall x, confined st x st1).
    { intros x. unfold confined, st1, fill. simpl.
      rewrite length_alter. split; [lia |]. split; [left; reflexivity |].
      intros id _ Hne. apply list_lookup_alter_ne. congruence. }
    destruct (n <=? 0); [intros [= <- <-]; apply H1 |].
    intros Hrun. eapply frame_comp; [apply (H1 Returned) | eapply IH; exact Hrun].
Qed.

Lemma confined_readBytes n : obeys confined (readBytes read n).
Proof.
  unfold readBytes.
  apply obeys_bind; [typeclasses eauto | apply confined_ensure | intros _].
  apply obeys_bind; [typeclasses eauto | | intros _].
  - intros st. eapply confined_readLoop. apply surjective_pairing.
  - obeys_auto.
Qed.

Lemma confined_decode fuel : obeys confined (decode read host options fuel).
Proof.
  apply through_decode.
  - typeclasses eauto.
  - intros b. apply confined_same. intros st. split; reflexivity.
  - apply confined_readBytes.
  - intros s. apply confined_same. intros st. split; reflexivity.
  - intros o. apply confined_same. intros st. unfold fillStack.
    destruct (fillFrames host o (stack st)); split; reflexivity.
Qed.

End Confined.

(** X10. A call of [decode] changes no array buffer that exists when it
    starts, the decoder's scratch buffer apart: the callback is only ever
    handed views of the current scratch buffer, and growing allocates a new
    buffer.  So a binary value that an earlier, since replaced, scratch
    buffer backs keeps its bytes. *)
Theorem decode_writes_scratch_only {S} (read : PullSource S) (host : Host)
    (options : Options) (fuel : nat) (st : State S) (id : nat) :
  (id < length (heap st))%nat -> id <> bytes st ->
  bufferOf (heap (decode read host options fuel st).2) id = bufferOf (heap st) id.
Proof.
  intros Hid Hne. destruct (confined_decode read host options fuel st) as (_ & _ & H).
  unfold bufferOf. rewrite H by assumption. reflexivity.
Qed.

Lemma decode_writes_scratch_only_witness :
  bufferOf (heap (decode chunkRead Sample.host Sample.options 5 besideAnotherBuffer).2) 0
  = bufferOf (heap besideAnotherBuffer) 0.
Proof.
  apply (decode_writes_scratch_only chunkRead Sample.host Sample.options 5
           besideAnotherBuffer 0).
  - simpl. lia.
  - simpl. lia.
Defined.

Lemma fillFrames_app {B} (host : Host) (upper lower : list (StackState B)) :
  forall object,
    fillFrames host object (upper ++ lower)
    = match fillFrames host object upper with
      | (Ok (Return v), _) => fillFrames host v lower
      | (r, upper') => (r, upper' ++ lower)
      end.
Proof.
  induction upper as [|f upper IH]; intros object; simpl; [reflexivity |].
  destruct f as [size array position | [|] size key readCount map].
  - destruct (position + 1 =? size); [apply IH | reflexivity].
  - destruct (negb (isValidMapKeyType object)); [reflexivity |].
    destruct (strictEqualsString object "__proto__"); reflexivity.
  - destruct (readCount + 1 =? size); [apply IH | reflexivity].
Qed.

Lemma length_setIndex {B} (i : Z) (x : value B) (l : list (value B)) :
  0 <= i < Z.of_nat (length l) -> length (setIndex i x l) = length l.
Proof.
  intros Hi. unfold setIndex.
  replace (i <? 0) with false by lia.
  replace (Z.to_nat i <? length l)%nat with true by (symmetry; apply Nat.ltb_lt; lia).
  apply length_insert.
Qed.

Lemma fillFrames_bottom {B} (host : Host) (n : Z) (upper : list (StackState B))
    (bottom : StackState B) (object : value B) :
  arrayInProgress n bottom ->
  match fillFrames host object (upper ++ [bottom]) with
  | (Ok ContinueDecode, stk) =>
      exists upper' bottom', stk = upper' ++ [bottom'] /\ arrayInProgress n bottom'
  | (Ok (Return v), _) => exists items, v = VArray items /\ Z.of_nat (length items) = n
  | _ => True
  end.
Proof.
  intros Hb. rewrite fillFrames_app.
  destruct (fillFrames host object upper) as [[[|v]|e|] upper']; try exact I.
  - exists upper', bottom. split; [reflexivity | exact Hb].
  - destruct bottom as [size array position | ]; [| destruct Hb].
    destruct Hb as (-> & Hlen & Hpos). simpl.
    destruct (position + 1 =? n) eqn:E.
    + eexists. split; [reflexivity |]. rewrite length_setIndex by lia. exact Hlen.
    + exists [], (StackArrayState n (setIndex position v array) (position + 1)).
      split; [reflexivity |]. simpl. rewrite length_setIndex by lia.
      repeat split; lia.
Qed.

Section Arrays.
Context {S : Type}.
Variable read : PullSource S.
Variable host : Host.
Variable options : Options.

(** X11. An array is returned with exactly the number of elements that its
    header declared.  When the frame at the bottom of the stack is that of
    an array of [n] elements being filled, as [pushArrayState(n)] leaves it
    for a top-level array, the value that [doDecodeSync] returns, if it
    returns, is an array of [n] elements. *)
Theorem array_has_declared_length (fuel : nat) (n : Z) (st st' : State S)
    (upper : list (StackState Uint8Array)) (bottom : StackState Uint8Array)
    (v : value Uint8Array) :
  stack st = upper ++ [bottom] -> arrayInProgress n bottom ->
  doDecodeSync read host options fuel st = (Ok v, st') ->
  exists items, v = VArray items /\ Z.of_nat (length items) = n.
Proof.
  revert st upper bottom.
  induction fuel as [|fuel IH]; intros st upper bottom Hstk Hb Hrun;
    [discriminate |].
  rewrite doDecodeSync_turn in Hrun.
  pose proof (readHeadByte_stack read st) as Hs1.
  destruct (readHeadByte read st) as [[hb|e|] st1]; try discriminate. simpl in Hs1.
  pose proof (decodeHead_spec read host options hb st1) as Hs2.
  destruct (decodeHead read host options hb st1) as [[[object|]|e|] st2];
    try discriminate; simpl in Hs2.
  - destruct Hs2 as [_ Hs2]. cbv zeta in Hrun. rewrite Hs2, Hs1, Hstk in Hrun.
    pose proof (fillFrames_bottom host n upper bottom object Hb) as Hfill.
    destruct (fillFrames host object (upper ++ [bottom])) as [[[|w]|e|] stk];
      try discriminate.
    + destruct Hfill as (upper' & bottom' & -> & Hb').
      eapply (IH _ upper' bottom'); [| exact Hb' | exact Hrun]. reflexivity.
    + injection Hrun as <- _. exact Hfill.
  - destruct Hs2 as (f & _ & Hs2).
    eapply (IH st2 (f :: upper) bottom); [| exact Hb | exact Hrun].
    rewrite Hs2, Hs1, Hstk. reflexivity.
Qed.

End Arrays.

Lemma array_has_declared_length_witness :
  exists items,
    VArray [VNumber (Int 1); VNumber (Int 2)] = VArray (B := Uint8Array) items /\
    Z.of_nat (length items) = 2.
Proof.
  apply (array_has_declared_length chunkRead Sample.host Sample.options 5 2 arrayAwaited
           (doDecodeSync chunkRead Sample.host Sample.options 5 arrayAwaited).2
           [] (StackArrayState 2 [VUndefined; VUndefined] 0)).
  - reflexivity.
  - simpl. lia.
  - vm_compute. reflexivity.
Defined.

Lemma nest_array {B} (k : nat) (v : value B) : nest k (VArray [v]) = VArray [nest k v].
Proof. induction k as [|k IH]; simpl; [reflexivity | rewrite IH; reflexivity]. Qed.

Lemma fillFrames_nest {B} (host : Host) (j : nat) :
  forall v : value B,
    fillFrames host v (repeat (StackArrayState 1 [VUndefined] 0) j)
    = (Ok (Return (nest j v)), []).
Proof.
  induction j as [|j IH]; intros v; simpl; [reflexivity |].
  unfold setIndex. simpl. rewrite IH, nest_array. reflexivity.
Qed.

Section Nesting.
Context {S : Type}.
Variable read : PullSource S.
Variable holds : S -> list byte -> Prop.
Hypothesis Hread : delivers read holds.
Variable host : Host.
Variable options : Options.
Hypothesis Harray : 1 <= maxArrayLength options.

Lemma ensure_fits (len : Z) (st : State S) :
  len <= Z.of_nat (capacity st) -> ensureBufferSizeToWrite len st = (Ok tt, st).
Proof.
  intros H. unfold ensureBufferSizeToWrite, bind. simpl.
  replace (Z.of_nat (capacity st) <? len) with false by lia. reflexivity.
Qed.

Lemma readHeadByte_next (st : State S) (b : byte) (rest : list byte) :
  holds (source st) (b :: rest) -> headByte st = HEAD_BYTE_REQUIRED ->
  (1 <= capacity st)%nat ->
  exists st1,
    readHeadByte read st = (Ok (byte_to_Z b), st1) /\
    holds (source st1) rest /\ stack st1 = stack st /\ capacity st1 = capacity st.
Proof.
  intros Hd Hhb Hcap.
  destruct (readBytes_delivers read holds Hread 1 st (b :: rest) Hd) as (src & Hrun & Hs).
  rewrite ensure_fits in Hrun, Hs by lia. simpl snd in Hrun, Hs.
  replace (Z.to_nat (Z.min 1 (Z.of_nat (capacity st)))) with 1%nat in Hrun, Hs by lia.
  replace (1 <=? Z.of_nat (capacity st)) with true in Hrun by lia.
  simpl in Hrun, Hs.
  set (st0 := mkState _ src _ _ _) in Hrun.
  assert (Hbuf : take 1 (bufferOf (heap st0) (bytes st0)) = [b]).
  { pose proof (contents_fill (heap st) (bytes st) 1 [b] eq_refl) as Hc.
    unfold contents in Hc. simpl in Hc. unfold st0. simpl. apply Hc.
    unfold capacity in Hcap. exact Hcap. }
  assert (Hcap0 : capacity st0 = capacity st).
  { unfold st0, capacity. simpl. apply length_bufferOf_fill. }
  assert (Hsrc0 : source st0 = src) by reflexivity.
  assert (Hstk0 : stack st0 = stack st) by reflexivity.
  clearbody st0.
  exists (mkState (heap st0) (source st0) (byte_to_Z b) (bytes st0) (stack st0)).
  split; [| rewrite Hsrc0; repeat split; [exact Hs | exact Hstk0 | exact Hcap0]].
  unfold readHeadByte, bind at 1. unfold get at 1. cbv beta iota.
  rewrite Hhb. change (HEAD_BYTE_REQUIRED =? HEAD_BYTE_REQUIRED) with true. cbv iota.
  unfold readU8. unfold bind at 1. unfold bind at 1. unfold bind at 1. rewrite Hrun.
  unfold viewBytes, bind at 1. unfold get at 1. cbv beta iota.
  replace (1 <=? length (bufferOf (heap st0) (bytes st0)))%nat with true.
  2:{ symmetry. apply Nat.leb_le. fold (capacity st0). lia. }
  rewrite Hbuf. unfold ret at 1. cbv beta iota. unfold ret at 1.
  unfold bind, setHeadByte, modify, ret. cbv beta iota.
  replace (be_uint [b]) with (byte_to_Z b) by (unfold be_uint; simpl; lia).
  reflexivity.
Qed.

Lemma doDecodeSync_nested (k : nat) :
  forall (j : nat) (st : State S) (rest : list byte),
    holds (source st) (repeat x91 k ++ xc0 :: rest) ->
    headByte st = HEAD_BYTE_REQUIRED -> (1 <= capacity st)%nat ->
    stack st = repeat (StackArrayState 1 [VUndefined] 0) j ->
    exists st',
      doDecodeSync read host options (Datatypes.S k) st = (Ok (nest (k + j) VNull), st') /\
      holds (source st') rest /\ stack st' = [].
Proof.
  induction k as [|k IH]; intros j st rest Hd Hhb Hcap Hstk.
  - simpl in Hd. destruct (readHeadByte_next st xc0 rest Hd Hhb Hcap)
      as (st1 & Hrun & Hd1 & Hs1 & Hc1).
    rewrite doDecodeSync_turn, Hrun.
    change (decodeHead read host options (byte_to_Z xc0) st1) with (Ok (Some (@VNull Uint8Array)), st1).
    cbv beta iota zeta. rewrite Hs1, Hstk, fillFrames_nest.
    eexists. split; [reflexivity |]. simpl. split; [exact Hd1 | reflexivity].
  - simpl in Hd. destruct (readHeadByte_next st x91 _ Hd Hhb Hcap)
      as (st1 & Hrun & Hd1 & Hs1 & Hc1).
    rewrite doDecodeSync_turn, Hrun.
    set (st2 := mkState (heap st1) (source st1) HEAD_BYTE_REQUIRED (bytes st1)
                  (StackArrayState 1 [VUndefined] 0 :: stack st1)).
    assert (Hhead : decodeHead read host options (byte_to_Z x91) st1 = (Ok None, st2)).
    { change (byte_to_Z x91) with 145. unfold decodeHead. simpl.
      unfold beginArray. simpl. unfold pushArrayState.
      change (145 - 144) with 1.
      replace (1 >? maxArrayLength options) with false by lia. reflexivity. }
    rewrite Hhead.
    destruct (IH (Datatypes.S j) st2 rest) as (st' & Hrun' & Hd' & Hs');
      [exact Hd1 | reflexivity | change (capacity st2) with (capacity st1); lia
      | unfold st2; simpl; rewrite Hs1, Hstk; reflexivity |].
    exists st'. split; [| split; assumption].
    rewrite Hrun'. f_equal. f_equal. f_equal. lia.
Qed.

End Nesting.

(** X12. The decoder puts no limit on nesting.  For every [depth], the
    stream of [depth] headers of a one-element array followed by [nil]
    decodes to [nil] inside [depth] arrays. *)
Theorem nesting_has_no_limit {S} (read : PullSource S) (holds : S -> list byte -> Prop)
    (host : Host) (options : Options) (depth : nat) (src : S) :
  delivers read holds -> holds src (repeat x91 depth ++ [xc0]) ->
  1 <= maxArrayLength options ->
  (decodeStream read host options (Datatypes.S depth) src).1 = Ok (nest depth VNull).
Proof.
  intros Hread Hd Hmax. unfold decodeStream, decode, bind at 1. simpl.
  destruct (doDecodeSync_nested read holds Hread host options Hmax depth 0
              (mkState [repeat x00 2048] src HEAD_BYTE_REQUIRED 0%nat []) [])
    as (st' & Hrun & _); [exact Hd | reflexivity | | reflexivity |].
  - unfold capacity, bufferOf. simpl. rewrite ?repeat_length. lia.
  - unfold newArrayBuffer in *. simpl in *.
    change (Z.to_nat DEFAULT_INITIAL_BUFFER_SIZE) with 2048%nat.
    rewrite Hrun. simpl. rewrite Nat.add_0_r. reflexivity.
Qed.

Lemma nesting_has_no_limit_witness :
  (decodeStream chunkRead Sample.host Sample.options 4 [[x91; x91]; [x91; xc0]]).1
  = Ok (nest 3 VNull).
Proof.
  apply (nesting_has_no_limit chunkRead chunked Sample.host Sample.options 3
           [[x91; x91]; [x91; xc0]]).
  - apply chunkRead_delivers.
  - split; [reflexivity | repeat constructor; discriminate].
  - vm_compute. discriminate.
Defined.

(** X13. [readArraySize] takes any head byte below 0xa0 for the header of
    a fixarray: for a head byte below 0x90 (a positive fixint or a fixmap)
    it does not throw but answers the negative size [headByte - 0x90]. *)
Theorem readArraySize_negative_size {S} (read : PullSource S) (st st1 : State S) (hb : Z) :
  readHeadByte read st = (Ok hb, st1) -> hb < 0x90 ->
  readArraySize read st = (Ok (Some (hb - 0x90)), st1) /\ hb - 0x90 < 0.
Proof.
  intros Hrun Hhb. split; [| lia].
  unfold readArraySize, bind at 1. rewrite Hrun.
  replace (hb =? 0xdc) with false by lia. replace (hb =? 0xdd) with false by lia.
  replace (hb <? 0xa0) with true by lia. reflexivity.
Qed.


Lemma readArraySize_negative_size_witness :
  readArraySize chunkRead (newStreamDecoder [[x05]])
  = (Ok (Some (5 - 0x90)), (readHeadByte chunkRead (newStreamDecoder [[x05]])).2)
  /\ 5 - 0x90 < 0.
Proof.
  apply (readArraySize_negative_size chunkRead (newStreamDecoder [[x05]])).
  - vm_compute. reflexivity.
  - lia.
Defined.

(** ** Keys of pairs, and the formats of a fixed width *)

Lemma fillFrames_keyPresent {B} (host : Host) (stk : list (StackState B)) :
  forall object, Forall keyPresent stk -> Forall keyPresent (fillFrames host object stk).2.
Proof.
  induction stk as [|f rest IH]; intros object Hall; simpl; [constructor |].
  inversion Hall as [|f' rest' Hf Hrest]; subst.
  destruct f as [size array position | [|] size key readCount map].
  - destruct (position + 1 =? size); [apply IH; exact Hrest |].
    simpl. constructor; [exact I | exact Hrest].
  - destruct (negb (isValidMapKeyType object)) eqn:Ev; [exact Hall |].
    destruct (strictEqualsString object "__proto__"); [exact Hall |].
    simpl. constructor; [| exact Hrest].
    destruct object; simpl in *; try discriminate; exact I.
  - destruct (readCount + 1 =? size); [apply IH; exact Hrest |].
    simpl. constructor; [exact I | exact Hrest].
Qed.

Section KeyPresent.
Context {S : Type}.
Variable read : PullSource S.
Variable host : Host.
Variable options : Options.

Lemma doDecodeSync_keyPresent (fuel : nat) :
  forall st : State S,
    Forall keyPresent (stack st) ->
    Forall keyPresent (stack (doDecodeSync read host options fuel st).2).
Proof.
  induction fuel as [|fuel IH]; intros st Hall; [exact Hall |].
  rewrite doDecodeSync_turn.
  pose proof (readHeadByte_stack read st) as Hs1.
  destruct (readHeadByte read st) as [[hb|e|] st1]; simpl in Hs1;
    try (simpl; rewrite Hs1; exact Hall).
  pose proof (decodeHead_spec read host options hb st1) as Hs2.
  destruct (decodeHead read host options hb st1) as [[[object|]|e|] st2]; simpl in Hs2;
    try (simpl; rewrite Hs2, Hs1; exact Hall).
  - destruct Hs2 as [_ Hs2]. cbv zeta.
    pose proof (fillFrames_keyPresent host (stack st2) object) as Hfill.
    rewrite Hs2, Hs1 in Hfill. specialize (Hfill Hall). rewrite Hs2, Hs1.
    destruct (fillFrames host object (stack st)) as [[[|w]|e|] stk]; simpl in *;
      try exact Hfill.
    apply IH. exact Hfill.
  - destruct Hs2 as (f & Hfresh & Hs2). apply IH. rewrite Hs2, Hs1.
    constructor; [| exact Hall].
    destruct f as [? ? ? | type ? ? ? ?]; [exact I |].
    destruct Hfresh as (_ & -> & _). exact I.
Qed.

End KeyPresent.

(** X14. Whenever a frame of the stack awaits the value of a pair
    ([STATE_MAP_VALUE]), its [key] is the string or number read before and
    not [null]: the non-null assertion in [state.map[state.key!] = object]
    never meets a [null].  This holds of the stack in which a call of
    [decode] ends and, the bound on the turns being arbitrary, of the stack
    at every turn. *)
Theorem map_value_frame_has_key {S} (read : PullSource S) (host : Host)
    (options : Options) (fuel : nat) (st : State S) :
  Forall keyPresent (stack (decode read host options fuel st).2).
Proof.
  unfold decode, bind at 1. simpl.
  apply doDecodeSync_keyPresent. constructor.
Qed.

Section Fixed.
Context {S : Type}.
Variable read : PullSource S.
Variable holds : S -> list byte -> Prop.
Hypothesis Hread : delivers read holds.
Variable host : Host.
Variable options : Options.

Lemma readField_next {A} (n : nat) (f : list byte -> A) (st : State S)
    (bs rest : list byte) :
  holds (source st) (bs ++ rest) -> length bs = n -> (n <= capacity st)%nat ->
  exists st1,
    (readBytes read (Z.of_nat n) ;; b <- viewBytes n ;; ret (f b)) st = (Ok (f bs), st1) /\
    holds (source st1) rest /\ stack st1 = stack st /\ headByte st1 = headByte st /\
    capacity st1 = capacity st.
Proof.
  intros Hd Hlen Hcap.
  destruct (readBytes_delivers read holds Hread (Z.of_nat n) st (bs ++ rest) Hd)
    as (src & Hrun & Hs).
  rewrite ensure_fits in Hrun, Hs by lia. simpl snd in Hrun, Hs.
  replace (Z.to_nat (Z.min (Z.of_nat n) (Z.of_nat (capacity st)))) with n in Hrun, Hs by lia.
  replace (Z.of_nat n <=? Z.of_nat (capacity st)) with true in Hrun by lia.
  replace (n <=? length (bs ++ rest))%nat with true in Hrun
    by (symmetry; apply Nat.leb_le; rewrite length_app; lia).
  rewrite take_app_length' in Hrun by congruence.
  rewrite drop_app_length' in Hs by congruence.
  simpl in Hrun.
  set (st0 := mkState _ src _ _ _) in Hrun.
  assert (Hbuf : take n (bufferOf (heap st0) (bytes st0)) = bs).
  { pose proof (contents_fill (heap st) (bytes st) n bs Hlen) as Hc.
    unfold contents in Hc. simpl in Hc. unfold st0. simpl. apply Hc.
    unfold capacity in Hcap. exact Hcap. }
  assert (Hcap0 : capacity st0 = capacity st).
  { unfold st0, capacity. simpl. apply length_bufferOf_fill. }
  assert (Hsrc0 : source st0 = src) by reflexivity.
  assert (Hstk0 : stack st0 = stack st) by reflexivity.
  assert (Hhb0 : headByte st0 = headByte st) by reflexivity.
  clearbody st0. exists st0.
  split; [| rewrite Hsrc0; repeat split; assumption].
  unfold bind at 1. rewrite Hrun.
  unfold viewBytes, bind at 1. unfold bind at 1. unfold get at 1. cbv beta iota.
  replace (n <=? length (bufferOf (heap st0) (bytes st0)))%nat with true.
  2:{ symmetry. apply Nat.leb_le. fold (capacity st0). lia. }
  rewrite Hbuf. reflexivity.
Qed.

Lemma decodeHead_fixed (hb : Z) (n : nat) (f : list byte -> value Uint8Array)
    (st : State S) (payload rest : list byte) :
  fixedFormat host hb = Some (n, f) ->
  holds (source st) (payload ++ rest) -> length payload = n -> (8 <= capacity st)%nat ->
  exists st1,
    decodeHead read host options hb st = (Ok (Some (f payload)), st1) /\
    holds (source st1) rest /\ stack st1 = stack st.
Proof.
  intros Hfmt Hd Hlen Hcap. unfold fixedFormat in Hfmt. unfold decodeHead.
  assert (Hfield : forall (k : nat) (g : list byte -> Z) (h : Z -> value Uint8Array),
            n = k -> (k <= 8)%nat ->
            exists st1,
              some (readBytes read (Z.of_nat k) ;; b <- viewBytes k ;; ret (g b)) h st
              = (Ok (Some (h (g payload))), st1) /\
              holds (source st1) rest /\ stack st1 = stack st).
  { intros k g h Hk Hk8.
    destruct (readField_next k g st payload rest Hd ltac:(lia) ltac:(lia))
      as (st1 & Hrun & Hs & Hstk & _).
    exists st1. unfold some, bind at 1. rewrite Hrun. auto. }
  assert (Hnum : forall (k : nat) (g : list byte -> number),
            n = k -> (k <= 8)%nat ->
            exists st1,
              some (readBytes read (Z.of_nat k) ;; b <- viewBytes k ;; ret (g b)) VNumber st
              = (Ok (Some (VNumber (g payload))), st1) /\
              holds (source st1) rest /\ stack st1 = stack st).
  { intros k g Hk Hk8.
    destruct (readField_next k g st payload rest Hd ltac:(lia) ltac:(lia))
      as (st1 & Hrun & Hs & Hstk & _).
    exists st1. unfold some, bind at 1. rewrite Hrun. auto. }
  assert (Hnone : n = 0%nat -> forall v : value Uint8Array, exists st1 : State S,
            ret (Some v) st = (Ok (Some v), st1) /\
            holds (source st1) rest /\ stack st1 = stack st).
  { intros Hn v. exists st. subst n. destruct payload; [| discriminate].
    simpl in Hd. auto. }
  repeat match type of Hfmt with
  | (if ?c then _ else _) = _ => destruct c
  end; try discriminate; injection Hfmt as <- <-;
  first
    [ apply Hnone; reflexivity
    | apply (Hfield 1%nat be_uint int); [reflexivity | lia]
    | apply (Hfield 2%nat be_uint int); [reflexivity | lia]
    | apply (Hfield 4%nat be_uint int); [reflexivity | lia]
    | apply (Hfield 8%nat (getUint64 host) int); [reflexivity | lia]
    | apply (Hfield 1%nat (fun bs => to_signed 8 (be_uint bs)) int); [reflexivity | lia]
    | apply (Hfield 2%nat (fun bs => to_signed 16 (be_uint bs)) int); [reflexivity | lia]
    | apply (Hfield 4%nat (fun bs => to_signed 32 (be_uint bs)) int); [reflexivity | lia]
    | apply (Hfield 8%nat (getInt64 host) int); [reflexivity | lia]
    | apply (Hnum 4%nat (fun bs => Float32 (be_uint bs))); [reflexivity | lia]
    | apply (Hnum 8%nat (fun bs => Float64 (be_uint bs))); [reflexivity | lia] ].
Qed.

End Fixed.


(** ** Binaries, extensions, and the unknown byte *)

Section Sized.
Context {S : Type}.
Variable read : PullSource S.
Variable holds : S -> list byte -> Prop.
Hypothesis Hread : delivers read holds.
Variable host : Host.
Variable options : Options.

Lemma payload_next (n : Z) (st : State S) (payload rest : list byte) :
  holds (source st) (payload ++ rest) -> Z.of_nat (length payload) = n ->
  n <= Z.of_nat (capacity st) * 2 ->
  exists a st',
    readBytes read n st = (Ok a, st') /\ contents (heap st') a = payload /\
    holds (source st') rest /\ stack st' = stack st.
Proof.
  intros Hd Hlen Hcap.
  destruct (readBytes_delivers read holds Hread n st (payload ++ rest) Hd)
    as (src & Hrun & Hs).
  pose proof (capacity_ensure n st) as Hc.
  set (st1 := (ensureBufferSizeToWrite n st).2) in *.
  assert (Hfit : n <= Z.of_nat (capacity st1)).
  { rewrite Hc. destruct (Z.of_nat (capacity st) <? n) eqn:E; lia. }
  replace (Z.to_nat (Z.min n (Z.of_nat (capacity st1)))) with (length payload) in * by lia.
  replace (n <=? Z.of_nat (capacity st1)) with true in Hrun by lia.
  replace (length payload <=? length (payload ++ rest))%nat with true in Hrun
    by (symmetry; apply Nat.leb_le; rewrite length_app; lia).
  rewrite take_app_length in Hrun. rewrite drop_app_length in Hs.
  simpl in Hrun. eexists _, _. split; [exact Hrun |]. simpl.
  split; [| auto].
  assert (Hview : subarray (bytesView st1) 0 n = mkView (bytes st1) 0 (length payload)).
  { unfold subarray, bytesView. simpl. rewrite !clampIndex_nonneg by lia.
    f_equal; lia. }
  rewrite Hview. apply contents_fill; [reflexivity |].
  unfold capacity in Hfit. lia.
Qed.

Lemma decodeBinary_next (n : Z) (st : State S) (payload rest : list byte) :
  holds (source st) (payload ++ rest) -> Z.of_nat (length payload) = n ->
  n <= Z.of_nat (capacity st) * 2 -> n <= maxBinLength options ->
  exists a st',
    decodeBinary read options n st = (Ok a, st') /\ contents (heap st') a = payload /\
    holds (source st') rest /\ stack st' = stack st.
Proof.
  intros Hd Hlen Hcap Hmax. unfold decodeBinary.
  replace (n >? maxBinLength options) with false by lia.
  apply payload_next; assumption.
Qed.

(** The length field of a string, a binary or an extension. *)
Lemma sizeField_next (n : nat) (st : State S) (size rest : list byte) :
  holds (source st) (size ++ rest) -> length size = n -> (n <= 8)%nat ->
  (8 <= capacity st)%nat ->
  exists st1,
    (readBytes read (Z.of_nat n) ;; b <- viewBytes n ;; ret (be_uint b)) st
    = (Ok (be_uint size), st1) /\
    holds (source st1) rest /\ stack st1 = stack st /\ capacity st1 = capacity st.
Proof.
  intros Hd Hn Hn8 Hcap.
  destruct (readField_next read holds Hread n be_uint st size rest Hd Hn ltac:(lia))
    as (st1 & Hrun & Hd1 & Hs1 & _ & Hc1).
  exists st1. auto.
Qed.

(** A binary after its head byte. *)
Lemma decodeHead_binary (hb : Z) (k : nat) (st : State S)
    (size payload rest : list byte) :
  sizedFormat hb = Some (k, false) ->
  holds (source st) (size ++ payload ++ rest) -> length size = k ->
  Z.of_nat (length payload) = declaredLength hb size ->
  (8 <= capacity st)%nat ->
  declaredLength hb size <= Z.of_nat (capacity st) * 2 ->
  declaredLength hb size <= maxBinLength options ->
  exists a st',
    decodeHead read host options hb st = (Ok (Some (VBinary a)), st') /\
    contents (heap st') a = payload /\
    holds (source st') rest /\ stack st' = stack st.
Proof.
  intros Hfmt Hd Hsize Hlen Hcap8 Hcap Hbin.
  assert (Hb : forall n : nat, k = n -> (n <= 8)%nat -> n <> 0%nat ->
            exists a st',
              some (z <- (readBytes read (Z.of_nat n) ;; b <- viewBytes n ;; ret (be_uint b)) ;;
                    decodeBinary read options z) VBinary st
              = (Ok (Some (VBinary a)), st') /\
              contents (heap st') a = payload /\
              holds (source st') rest /\ stack st' = stack st).
  { intros n Hk Hn8 Hn0.
    destruct (sizeField_next n st size (payload ++ rest) Hd ltac:(lia) Hn8 Hcap8)
      as (st1 & Hm & Hd1 & Hs1 & Hc1).
    assert (Hdecl : declaredLength hb size = be_uint size).
    { unfold declaredLength. destruct size; [simpl in *; lia | reflexivity]. }
    rewrite Hdecl in *.
    destruct (decodeBinary_next (be_uint size) st1 payload rest Hd1 Hlen)
      as (a & st' & Hrun & Hc & Hd' & Hs'); [rewrite Hc1; lia | lia |].
    exists a, st'.
    unfold some, bind at 1. unfold bind at 1. rewrite Hm, Hrun.
    repeat split; [exact Hc | exact Hd' | congruence]. }
  unfold sizedFormat in Hfmt.
  destruct ((0xa0 <=? hb) && (hb <? 0xc0)); [discriminate |].
  repeat match type of Hfmt with
  | (if ?c =? ?x then _ else _) = _ =>
      let E := fresh "E" in destruct (c =? x) eqn:E; [apply Z.eqb_eq in E; subst c |]
  end; try discriminate; injection Hfmt as <-.
  - apply (Hb 1%nat); [reflexivity | lia | lia].
  - apply (Hb 2%nat); [reflexivity | lia | lia].
  - apply (Hb 4%nat); [reflexivity | lia | lia].
Qed.

(** [decodeExtension] before the type byte and the payload: it hands the
    view on the payload, and the type as a signed byte, to the codec. *)
Lemma decodeExtension_next (n : Z) (st : State S) (t : byte) (payload rest : list byte) :
  holds (source st) (t :: payload ++ rest) -> Z.of_nat (length payload) = n ->
  (8 <= capacity st)%nat -> n <= Z.of_nat (capacity st) * 2 ->
  n <= maxExtLength options -> n <= maxBinLength options ->
  exists a st',
    contents (heap st') a = payload /\
    decodeExtension read options n st
    = (match extensionCodec options a payload (to_signed 8 (byte_to_Z t)) with
       | inl e => Throw e
       | inr v => Ok v
       end, st') /\
    holds (source st') rest /\ stack st' = stack st.
Proof.
  intros Hd Hlen Hcap8 Hcap Hext Hbin.
  destruct (readField_next read holds Hread 1 (fun bs => to_signed 8 (be_uint bs)) st
              [t] (payload ++ rest) Hd eq_refl ltac:(lia))
    as (st1 & Hrun1 & Hd1 & Hs1 & _ & Hc1).
  destruct (decodeBinary_next n st1 payload rest Hd1 Hlen)
    as (a & st' & Hrun & Hc & Hd' & Hs'); [rewrite Hc1; lia | lia |].
  exists a, st'. split; [exact Hc |]. split; [| split; [exact Hd' | congruence]].
  unfold decodeExtension. replace (n >? maxExtLength options) with false by lia.
  change (Z.of_nat 1) with 1 in Hrun1.
  unfold readI8. unfold bind at 1. rewrite Hrun1.
  unfold bind at 1. rewrite Hrun. unfold bind at 1, get at 1. cbv beta iota.
  rewrite Hc. change (be_uint [t]) with (byte_to_Z t).
  destruct (extensionCodec options a payload (to_signed 8 (byte_to_Z t))); reflexivity.
Qed.

(** An extension after its head byte. *)
Lemma decodeHead_extension (hb : Z) (k : nat) (st : State S) (t : byte)
    (size payload rest : list byte) :
  extFormat hb = Some k ->
  holds (source st) (size ++ t :: payload ++ rest) -> length size = k ->
  Z.of_nat (length payload) = extLength hb size ->
  (8 <= capacity st)%nat ->
  extLength hb size <= Z.of_nat (capacity st) * 2 ->
  extLength hb size <= maxExtLength options ->
  extLength hb size <= maxBinLength options ->
  exists a st',
    contents (heap st') a = payload /\
    decodeHead read host options hb st
    = (match extensionCodec options a payload (to_signed 8 (byte_to_Z t)) with
       | inl e => Throw e
       | inr v => Ok (Some v)
       end, st') /\
    holds (source st') rest /\ stack st' = stack st.
Proof.
  intros Hfmt Hd Hsize Hlen Hcap8 Hcap Hext Hbin.
  assert (Hsome : forall (m : M (State S) (value Uint8Array)) a st',
            m st = (match extensionCodec options a payload (to_signed 8 (byte_to_Z t)) with
                    | inl e => Throw e
                    | inr v => Ok v
                    end, st') ->
            some m id st
            = (match extensionCodec options a payload (to_signed 8 (byte_to_Z t)) with
               | inl e => Throw e
               | inr v => Ok (Some v)
               end, st')).
  { intros m a st' Hm. unfold some, bind at 1. rewrite Hm.
    destruct (extensionCodec options a payload (to_signed 8 (byte_to_Z t))); reflexivity. }
  assert (Hfix : forall n : Z, size = [] -> extLength hb [] = n ->
            exists a st',
              contents (heap st') a = payload /\
              some (decodeExtension read options n) id st
              = (match extensionCodec options a payload (to_signed 8 (byte_to_Z t)) with
                 | inl e => Throw e
                 | inr v => Ok (Some v)
                 end, st') /\
              holds (source st') rest /\ stack st' = stack st).
  { intros n -> Hn. rewrite Hn in *. simpl in Hd.
    destruct (decodeExtension_next n st t payload rest Hd Hlen Hcap8 Hcap Hext Hbin)
      as (a & st' & Hc & Hrun & Hd' & Hs').
    exists a, st'. split; [exact Hc |]. split; [apply Hsome; exact Hrun | auto]. }
  assert (Hvar : forall n : nat, k = n -> (n <= 8)%nat -> n <> 0%nat ->
            exists a st',
              contents (heap st') a = payload /\
              some (z <- (readBytes read (Z.of_nat n) ;; b <- viewBytes n ;; ret (be_uint b)) ;;
                    decodeExtension read options z) id st
              = (match extensionCodec options a payload (to_signed 8 (byte_to_Z t)) with
                 | inl e => Throw e
                 | inr v => Ok (Some v)
                 end, st') /\
              holds (source st') rest /\ stack st' = stack st).
  { intros n Hk Hn8 Hn0.
    destruct (sizeField_next n st size (t :: payload ++ rest) Hd ltac:(lia) Hn8 Hcap8)
      as (st1 & Hm & Hd1 & Hs1 & Hc1).
    assert (Hdecl : extLength hb size = be_uint size).
    { unfold extLength. destruct size; [simpl in *; lia | reflexivity]. }
    rewrite Hdecl in *.
    destruct (decodeExtension_next (be_uint size) st1 t payload rest Hd1 Hlen)
      as (a & st' & Hc & Hrun & Hd' & Hs'); try (rewrite ?Hc1; lia).
    exists a, st'. split; [exact Hc |]. split; [| split; [exact Hd' | congruence]].
    apply Hsome. unfold bind at 1. rewrite Hm. exact Hrun. }
  unfold extFormat in Hfmt.
  repeat match type of Hfmt with
  | (if ?c =? ?x then _ else _) = _ =>
      let E := fresh "E" in destruct (c =? x) eqn:E; [apply Z.eqb_eq in E; subst c |]
  end; try discriminate; injection Hfmt as <-.
  - apply (Hfix 1); [destruct size; [reflexivity | discriminate] | reflexivity].
  - apply (Hfix 2); [destruct size; [reflexivity | discriminate] | reflexivity].
  - apply (Hfix 4); [destruct size; [reflexivity | discriminate] | reflexivity].
  - apply (Hfix 8); [destruct size; [reflexivity | discriminate] | reflexivity].
  - apply (Hfix 16); [destruct size; [reflexivity | discriminate] | reflexivity].
  - apply (Hvar 1%nat); [reflexivity | lia | lia].
  - apply (Hvar 2%nat); [reflexivity | lia | lia].
  - apply (Hvar 4%nat); [reflexivity | lia | lia].
Qed.

End Sized.

(** X15. A binary of up to 4096 bytes, twice the initial capacity of the
    scratch buffer, decodes from the stream, however the callback cuts it:
    the result is a view that shows exactly the payload bytes, and the bytes
    after the payload are left unread. *)
Theorem stream_decodes_binaries {S} (read : PullSource S)
    (holds : S -> list byte -> Prop) (host : Host) (options : Options) (fuel : nat)
    (src : S) (hb : byte) (size payload rest : list byte) (k : nat) :
  delivers read holds ->
  holds src (hb :: size ++ payload ++ rest) ->
  sizedFormat (byte_to_Z hb) = Some (k, false) -> length size = k ->
  Z.of_nat (length payload) = declaredLength (byte_to_Z hb) size ->
  Z.of_nat (length payload) <= 4096 ->
  Z.of_nat (length payload) <= maxBinLength options ->
  exists a st',
    decodeStream read host options (Datatypes.S fuel) src = (Ok (VBinary a), st') /\
    contents (heap st') a = payload /\
    holds (source st') rest.
Proof.
  intros Hread Hd Hfmt Hsize Hlen H4096 Hbin. unfold decodeStream, decode, bind at 1.
  set (st := (reinitializeState (newStreamDecoder src)).2).
  assert (Hcap : capacity st = 2048%nat).
  { unfold st, capacity, bufferOf. simpl. rewrite ?repeat_length. reflexivity. }
  change (reinitializeState (newStreamDecoder src)) with (Ok tt, st). cbv iota.
  destruct (readHeadByte_next read holds Hread st hb _ Hd eq_refl ltac:(lia))
    as (st1 & Hrun1 & Hd1 & Hs1 & Hc1).
  destruct (decodeHead_binary read holds Hread host options (byte_to_Z hb) k st1
              size payload rest Hfmt Hd1 Hsize Hlen)
    as (a & st2 & Hrun2 & Hv & Hd2 & Hs2); try lia.
  rewrite doDecodeSync_turn, Hrun1, Hrun2. cbv zeta.
  rewrite Hs2, Hs1. change (stack st) with (@nil (StackState Uint8Array)). simpl.
  eexists _, _. split; [reflexivity |]. simpl. split; [exact Hv | exact Hd2].
Qed.

Lemma stream_decodes_binaries_witness :
  exists a st',
    decodeStream chunkRead Sample.host Sample.options 1 [[xc4; x02; x07]; [x08; xc0]]
    = (Ok (VBinary a), st') /\
    contents (heap st') a = [x07; x08] /\
    chunked (source st') [xc0].
Proof.
  apply (stream_decodes_binaries chunkRead chunked Sample.host Sample.options 0
           [[xc4; x02; x07]; [x08; xc0]] xc4 [x02] [x07; x08] [xc0] 1).
  - apply chunkRead_delivers.
  - split; [reflexivity | repeat constructor; discriminate].
  - reflexivity.
  - reflexivity.
  - reflexivity.
  - simpl. lia.
  - vm_compute. discriminate.
Defined.

(** X16. An extension of up to 4096 bytes is handed to the extension codec
    as it stands in the stream: [decodeStream] returns what
    [extensionCodec.decode] returns, or throws what it throws, on a view
    that shows exactly the payload bytes and on the type byte read as a
    signed number; the bytes after the payload are left unread.  The size is
    held to [maxBinLength] as well as to [maxExtLength]. *)
Theorem stream_decodes_extensions {S} (read : PullSource S)
    (holds : S -> list byte -> Prop) (host : Host) (options : Options) (fuel : nat)
    (src : S) (hb t : byte) (size payload rest : list byte) (k : nat) :
  delivers read holds ->
  holds src (hb :: size ++ t :: payload ++ rest) ->
  extFormat (byte_to_Z hb) = Some k -> length size = k ->
  Z.of_nat (length payload) = extLength (byte_to_Z hb) size ->
  Z.of_nat (length payload) <= 4096 ->
  Z.of_nat (length payload) <= maxExtLength options ->
  Z.of_nat (length payload) <= maxBinLength options ->
  exists a st',
    contents (heap st') a = payload /\
    decodeStream read host options (Datatypes.S fuel) src
    = (match extensionCodec options a payload (to_signed 8 (byte_to_Z t)) with
       | inl e => Throw e
       | inr v => Ok v
       end, st') /\
    holds (source st') rest.
Proof.
  intros Hread Hd Hfmt Hsize Hlen H4096 Hext Hbin. unfold decodeStream, decode, bind at 1.
  set (st := (reinitializeState (newStreamDecoder src)).2).
  assert (Hcap : capacity st = 2048%nat).
  { unfold st, capacity, bufferOf. simpl. rewrite ?repeat_length. reflexivity. }
  change (reinitializeState (newStreamDecoder src)) with (Ok tt, st). cbv iota.
  destruct (readHeadByte_next read holds Hread st hb _ Hd eq_refl ltac:(lia))
    as (st1 & Hrun1 & Hd1 & Hs1 & Hc1).
  destruct (decodeHead_extension read holds Hread host options (byte_to_Z hb) k st1 t
              size payload rest Hfmt Hd1 Hsize Hlen)
    as (a & st2 & Hv & Hrun2 & Hd2 & Hs2); try lia.
  rewrite doDecodeSync_turn, Hrun1, Hrun2.
  destruct (extensionCodec options a payload (to_signed 8 (byte_to_Z t))) as [e|v] eqn:Ec.
  - exists a, st2. rewrite Ec. split; [exact Hv |]. split; [reflexivity | exact Hd2].
  - cbv zeta. rewrite Hs2, Hs1. change (stack st) with (@nil (StackState Uint8Array)).
    simpl. eexists a, _. rewrite Ec.
    split; [| split; [reflexivity |]]; simpl; assumption.
Qed.

Lemma stream_decodes_extensions_witness :
  exists a st',
    contents (heap st') a = [x07; x08] /\
    decodeStream chunkRead Sample.host Sample.options 1 [[xd5; xff]; [x07]; [x08; xc0]]
    = (Ok (VExtData (-1) a), st') /\
    chunked (source st') [xc0].
Proof.
  apply (stream_decodes_extensions chunkRead chunked Sample.host Sample.options 0
           [[xd5; xff]; [x07]; [x08; xc0]] xd5 xff [] [x07; x08] [xc0] 0).
  - apply chunkRead_delivers.
  - split; [reflexivity | repeat constructor; discriminate].
  - reflexivity.
  - reflexivity.
  - reflexivity.
  - simpl. lia.
  - vm_compute. discriminate.
  - vm_compute. discriminate.
Defined.

Section Unrecognized.
Context {S : Type}.
Variable read : PullSource S.
Variable host : Host.
Variable options : Options.
Hypothesis Hcodec : forall data bs t e,
  extensionCodec options data bs t = inl e -> unrecognized e = false.

Lemma decodeHead_recognized (hb : Z) :
  0 <= hb < 256 -> hb <> 0xc1 -> spares unrecognized (decodeHead read host options hb).
Proof.
  intros Hrange Hne.
  assert (Hb : forall n, spares unrecognized (readBytes read n))
    by (intros n; apply spares_readBytes; reflexivity).
  unfold decodeHead, some, beginMap, beginArray, decodeUtf8String, decodeBinary,
    decodeExtension, readU8, readI8, readU16, readI16, readU32, readI32, readU64,
    readI64, readF32, readF64, viewBytes, pushMapState, pushArrayState, complete,
    stateIsMapKey, setHeadByte, setStack, decodeBinary.
  spares_auto. exfalso. lia.
Qed.

Lemma decodeHead_c1 (st : State S) :
  decodeHead read host options 0xc1 st = (Throw (DecodeError (UnrecognizedTypeByte 0xc1)), st).
Proof. reflexivity. Qed.

Lemma fillStack_recognized object : spares (St := State S) unrecognized (fillStack host object).
Proof.
  intros st e st'. unfold fillStack.
  destruct (fillFrames host object (stack st)) as [r stk] eqn:E.
  intros [= -> _]. revert object E. generalize (stack st) as s.
  induction s as [|f rest IH]; intros object E; simpl in E; [discriminate |].
  destruct f as [size array position | [|] size key readCount map].
  - destruct (position + 1 =? size); [eapply IH; exact E | discriminate].
  - destruct (negb (isValidMapKeyType object)); [injection E as <- _; reflexivity |].
    destruct (strictEqualsString object "__proto__");
      [injection E as <- _; reflexivity | discriminate].
  - destruct (readCount + 1 =? size); [eapply IH; exact E | discriminate].
Qed.

Lemma readHeadByte_fresh (st st1 : State S) (hb : Z) :
  headByte st = HEAD_BYTE_REQUIRED -> readHeadByte read st = (Ok hb, st1) ->
  0 <= hb < 256.
Proof.
  intros Hhb Hrun. unfold readHeadByte, bind at 1 in Hrun. unfold get at 1 in Hrun.
  cbv beta iota in Hrun. rewrite Hhb in Hrun.
  change (HEAD_BYTE_REQUIRED =? HEAD_BYTE_REQUIRED) with true in Hrun. cbv iota in Hrun.
  unfold bind at 1 in Hrun.
  pose proof (returns_unsigned read 1 1 st) as Hr. fold (readU8 read) in Hr.
  destruct (readU8 read st) as [[b|e|] st0]; try discriminate.
  specialize (Hr b st0 eq_refl). injection Hrun as <- _. simpl in Hr. lia.
Qed.

Lemma readHeadByte_recognized : spares unrecognized (readHeadByte read).
Proof.
  assert (Hb : forall n, spares unrecognized (readBytes read n))
    by (intros n; apply spares_readBytes; reflexivity).
  unfold readHeadByte, readU8, viewBytes, setHeadByte. spares_auto.
Qed.

Lemma doDecodeSync_unrecognized (fuel : nat) :
  forall (st st' : State S) (b : Z),
    headByte st = HEAD_BYTE_REQUIRED ->
    doDecodeSync read host options fuel st = (Throw (DecodeError (UnrecognizedTypeByte b)), st') ->
    b = 0xc1.
Proof.
  induction fuel as [|fuel IH]; intros st st' b Hhb Hrun; [discriminate |].
  rewrite doDecodeSync_turn in Hrun.
  pose proof (readHeadByte_fresh st) as Hrange.
  pose proof (readHeadByte_recognized st) as Hr1.
  destruct (readHeadByte read st) as [[hb|e|] st1]; [| | discriminate].
  2:{ injection Hrun as -> _. specialize (Hr1 _ _ eq_refl). discriminate. }
  specialize (Hrange st1 hb Hhb eq_refl). clear Hr1.
  destruct (Z.eq_dec hb 0xc1) as [->|Hne].
  { rewrite decodeHead_c1 in Hrun. injection Hrun as <- _. reflexivity. }
  pose proof (decodeHead_recognized hb Hrange Hne st1) as Hr2.
  pose proof (decodeHead_continue read host options hb st1) as Hcont.
  destruct (decodeHead read host options hb st1) as [[[object|]|e|] st2]; [| | | discriminate].
  - cbv zeta in Hrun. pose proof (fillStack_recognized object st2) as Hr3.
    unfold fillStack in Hr3.
    destruct (fillFrames host object (stack st2)) as [[[|w]|e|] stk]; try discriminate.
    + eapply IH; [| exact Hrun]. reflexivity.
    + injection Hrun as -> _. specialize (Hr3 _ _ eq_refl). discriminate.
  - eapply IH; [| exact Hrun]. eapply Hcont. reflexivity.
  - injection Hrun as -> _. specialize (Hr2 _ _ eq_refl). discriminate.
Qed.

End Unrecognized.

(** X17. 0xc1 is the one head byte that the decoder does not know: when
    [decode] throws "Unrecognized type byte", with an extension codec that
    throws no such error itself, the byte it names is 0xc1. *)
Theorem unrecognized_byte_is_c1 {S} (read : PullSource S) (host : Host)
    (options : Options) (fuel : nat) (st st' : State S) (b : Z) :
  (forall data bs t e, extensionCodec options data bs t = inl e -> unrecognized e = false) ->
  decode read host options fuel st = (Throw (DecodeError (UnrecognizedTypeByte b)), st') ->
  b = 0xc1.
Proof.
  intros Hcodec Hrun. unfold decode, bind at 1 in Hrun. simpl in Hrun.
  eapply (doDecodeSync_unrecognized read host options Hcodec fuel); [| exact Hrun].
  reflexivity.
Qed.


Lemma unrecognized_byte_is_c1_witness : 193 = 0xc1.
Proof.
  apply (unrecognized_byte_is_c1 chunkRead Sample.host Sample.options 3
           (newStreamDecoder [[x92; x01]; [xc1]])
           (decode chunkRead Sample.host Sample.options 3
              (newStreamDecoder [[x92; x01]; [xc1]])).2 193).
  - intros data bs t e. discriminate.
  - vm_compute. reflexivity.
Defined.

(** ** Well-formed input *)

Lemma Item_nested_ind (P : Item -> Prop) :
  (forall hb payload, P (ItemScalar hb payload)) ->
  (forall hb size payload, P (ItemText hb size payload)) ->
  (forall hb size items, Forall P items -> P (ItemArray hb size items)) ->
  (forall hb size pairs, Forall (fun kv => P (fst kv) /\ P (snd kv)) pairs ->
                         P (ItemMap hb size pairs)) ->
  forall t, P t.
Proof.
  intros Hs Ht Ha Hm. fix IH 1. intros t.
  destruct t as [hb payload | hb size payload | hb size items | hb size pairs].
  - apply Hs.
  - apply Ht.
  - apply Ha. induction items as [|x r IHr]; constructor; [apply IH | exact IHr].
  - apply Hm. induction pairs as [|[k x] r IHr]; constructor;
      [split; apply IH | exact IHr].
Qed.

Lemma stringOf_plain (host : Host) (options : Options) (bs : list byte) :
  stringOf host options false bs = textOf host bs.
Proof. unfold stringOf. destruct (keyDecoder options); reflexivity. Qed.

Lemma fillFrames_valid_key {B} (host : Host) (object : value B) size key count map rest :
  isValidMapKeyType object = true -> strictEqualsString object "__proto__" = false ->
  fillFrames host object (StackMapState STATE_MAP_KEY size key count map :: rest)
  = (Ok ContinueDecode, StackMapState STATE_MAP_VALUE size (asMapKey object) count map :: rest).
Proof. intros H1 H2. simpl. rewrite H1, H2. reflexivity. Qed.

Lemma fillFrames_value {B} (host : Host) (object : value B) size key count map rest :
  fillFrames host object (StackMapState STATE_MAP_VALUE size key count map :: rest)
  = if count + 1 =? size
    then fillFrames host (VObject (setProperty (propertyKey host key) object map)) rest
    else (Ok ContinueDecode,
          StackMapState STATE_MAP_KEY size None (count + 1)
            (setProperty (propertyKey host key) object map) :: rest).
Proof. reflexivity. Qed.

Section Turns.
Context {S : Type}.
Variable read : PullSource S.
Variable host : Host.
Variable options : Options.

Lemma turn_completed (fuel : nat) (st st1 st2 : State S) (hb : Z) (v : value Uint8Array) :
  readHeadByte read st = (Ok hb, st1) ->
  decodeHead read host options hb st1 = (Ok (Some v), st2) ->
  doDecodeSync read host options (Datatypes.S fuel) st
  = completed read host options fuel v st2 (stack st2).
Proof. intros H1 H2. rewrite doDecodeSync_turn, H1, H2. reflexivity. Qed.

Lemma turn_continue (fuel : nat) (st st1 st2 : State S) (hb : Z) :
  readHeadByte read st = (Ok hb, st1) ->
  decodeHead read host options hb st1 = (Ok None, st2) ->
  doDecodeSync read host options (Datatypes.S fuel) st
  = doDecodeSync read host options fuel st2.
Proof. intros H1 H2. rewrite doDecodeSync_turn, H1, H2. reflexivity. Qed.

Lemma decodeHead_capacity (hb : Z) (st : State S) :
  (capacity st <= capacity (decodeHead read host options hb st).2)%nat.
Proof.
  apply (@obeys_decodeHead S read host options neverShrinks neverShrinks_frame).
  - intros b. apply neverShrinks_same. intros st0. split; reflexivity.
  - apply neverShrinks_ensure.
  - apply neverShrinks_pull.
  - intros s. apply neverShrinks_same. intros st0. split; reflexivity.
Qed.

End Turns.

Section WellFormed.
Context {S : Type}.
Variable read : PullSource S.
Variable holds : S -> list byte -> Prop.
Hypothesis Hread : delivers read holds.
Variable host : Host.
Variable options : Options.

Lemma decodes_scalar hb payload : decodes read host options holds (ItemScalar hb payload).
Proof.
  intros Hwf st rest fuel Hd Hhb Hcap. simpl in Hwf, Hd.
  change (turns (ItemScalar hb payload) + fuel)%nat with (Datatypes.S fuel).
  simpl valueOf.
  destruct (fixedFormat host (byte_to_Z hb)) as [[n f]|] eqn:Efmt; [| discriminate].
  apply Nat.eqb_eq in Hwf.
  destruct (readHeadByte_next read holds Hread st hb (payload ++ rest) Hd Hhb ltac:(lia))
    as (st1 & Hrun1 & Hd1 & Hs1 & Hc1).
  destruct (decodeHead_fixed read holds Hread host options (byte_to_Z hb) n f st1
              payload rest Efmt Hd1 Hwf ltac:(lia)) as (st2 & Hrun2 & Hd2 & Hs2).
  pose proof (decodeHead_capacity read host options (byte_to_Z hb) st1) as Hc2.
  rewrite Hrun2 in Hc2. simpl in Hc2.
  exists st2. rewrite (turn_completed read host options fuel st st1 st2 _ _ Hrun1 Hrun2).
  rewrite Hs2, Hs1. split; [reflexivity |]. split; [exact Hd2 | lia].
Qed.

Lemma isKeyTop_stateIsMapKey (st : State S) :
  stateIsMapKey st = (Ok (isKeyTop (stack st)), st).
Proof.
  unfold stateIsMapKey, bind, get. simpl.
  destruct (stack st) as [|[? ? ?|[|] ? ? ? ?] ?]; reflexivity.
Qed.

Lemma decodeUtf8String_at (n : Z) (st : State S) (payload rest : list byte) :
  holds (source st) (payload ++ rest) -> Z.of_nat (length payload) = n ->
  n <= Z.of_nat (capacity st) * 2 -> n <= maxStrLength options ->
  exists st',
    decodeUtf8String read host options n st
    = (Ok (stringOf host options (isKeyTop (stack st)) payload), st') /\
    holds (source st') rest /\ stack st' = stack st.
Proof.
  intros Hd Hlen Hcap Hmax.
  destruct (payload_next read holds Hread n st payload rest Hd Hlen Hcap)
    as (a & st' & Hrun & Hc & Hs & Hstk').
  exists st'. split; [| split; [exact Hs | exact Hstk']].
  unfold decodeUtf8String. replace (n >? maxStrLength options) with false by lia.
  unfold bind at 1. rewrite Hrun. unfold bind at 1, get at 1. cbv beta iota.
  rewrite Hc. unfold bind at 1. rewrite isKeyTop_stateIsMapKey. rewrite Hstk'.
  unfold stringOf, textOf. rewrite Hlen.
  destruct (keyDecoder options) as [kd|];
    [destruct (isKeyTop (stack st) && canBeCached kd n) |];
    destruct (n >? TEXT_DECODER_THRESHOLD host); reflexivity.
Qed.

Lemma decodes_text hb size payload : decodes read host options holds (ItemText hb size payload).
Proof.
  intros Hwf st rest fuel Hd Hhb Hcap. simpl in Hwf, Hd.
  change (turns (ItemText hb size payload) + fuel)%nat with (Datatypes.S fuel).
  simpl valueOf.
  destruct (sizedFormat (byte_to_Z hb)) as [[k [|]]|] eqn:Efmt; try discriminate.
  apply andb_prop in Hwf as [Hwf Hmax]. apply andb_prop in Hwf as [Hwf H4096].
  apply andb_prop in Hwf as [Hk Hlen].
  apply Nat.eqb_eq in Hk. apply Z.eqb_eq in Hlen.
  apply Z.leb_le in H4096. apply Z.leb_le in Hmax.
  rewrite <- app_assoc in Hd.
  destruct (readHeadByte_next read holds Hread st hb _ Hd Hhb ltac:(lia))
    as (st1 & Hrun1 & Hd1 & Hs1 & Hc1).
  set (h := byte_to_Z hb) in *.
  assert (Hhead : exists st2,
            decodeHead read host options h st1
            = (Ok (Some (VString (stringOf host options (isKeyTop (stack st)) payload))), st2)
            /\ holds (source st2) rest /\ stack st2 = stack st).
  { assert (Hs : forall m : M (State S) Z,
              (exists st', m st1 = (Ok (declaredLength h size), st') /\
                           holds (source st') (payload ++ rest) /\ stack st' = stack st1 /\
                           capacity st' = capacity st1) ->
              exists st2,
                some (n <- m ;; decodeUtf8String read host options n) VString st1
                = (Ok (Some (VString (stringOf host options (isKeyTop (stack st)) payload))),
                   st2) /\
                holds (source st2) rest /\ stack st2 = stack st).
    { intros m (st' & Hm & Hd' & Hs' & Hc').
      destruct (decodeUtf8String_at (declaredLength h size) st' payload rest Hd' Hlen)
        as (st2 & Hrun & Hd2 & Hs2); [rewrite Hc'; lia | lia |].
      exists st2. unfold some, bind at 1. unfold bind at 1. rewrite Hm, Hrun.
      rewrite Hs', Hs1. split; [reflexivity |]. split; [exact Hd2 | congruence]. }
    assert (Hfield : forall n : nat, k = n -> (n <= 8)%nat -> n <> 0%nat ->
              exists st',
                (readBytes read (Z.of_nat n) ;; b <- viewBytes n ;; ret (be_uint b)) st1
                = (Ok (declaredLength h size), st') /\
                holds (source st') (payload ++ rest) /\ stack st' = stack st1 /\
                capacity st' = capacity st1).
    { intros n Hkn Hn8 Hn0.
      destruct (sizeField_next read holds Hread n st1 size (payload ++ rest) Hd1 ltac:(lia) Hn8 ltac:(lia))
        as (st' & Hrun & Hd' & Hs' & Hc').
      exists st'. split; [| auto]. rewrite Hrun. f_equal. f_equal.
      unfold declaredLength. destruct size; [simpl in *; lia | reflexivity]. }
    unfold sizedFormat in Efmt.
    destruct ((0xa0 <=? h) && (h <? 0xc0)) eqn:Efix.
    { injection Efmt as <-. destruct size; [| discriminate]. simpl in *.
      apply andb_prop in Efix as [E1 E2].
      destruct (decodeUtf8String_at (h - 0xa0) st1 payload rest Hd1 Hlen)
        as (st2 & Hrun & Hd2 & Hs2); [lia | lia |].
      exists st2. unfold decodeHead.
      replace (h >=? 0xe0) with false by lia. replace (h <? 0xc0) with true by lia.
      replace (h <? 0x80) with false by lia. replace (h <? 0x90) with false by lia.
      replace (h <? 0xa0) with false by lia.
      unfold some, bind at 1. rewrite Hrun. rewrite Hs1.
      split; [reflexivity |]. split; [exact Hd2 | congruence]. }
    repeat match type of Efmt with
    | (if ?c =? ?x then _ else _) = _ =>
        let E := fresh "E" in destruct (c =? x) eqn:E; [apply Z.eqb_eq in E; rewrite E in * |]
    end; try discriminate; injection Efmt as <-.
    - apply (Hs (readU8 read)). apply (Hfield 1%nat); [reflexivity | lia | lia].
    - apply (Hs (readU16 read)). apply (Hfield 2%nat); [reflexivity | lia | lia].
    - apply (Hs (readU32 read)). apply (Hfield 4%nat); [reflexivity | lia | lia]. }
  destruct Hhead as (st2 & Hrun2 & Hd2 & Hs2).
  pose proof (decodeHead_capacity read host options h st1) as Hc2.
  rewrite Hrun2 in Hc2. simpl in Hc2.
  exists st2. rewrite (turn_completed read host options fuel st st1 st2 _ _ Hrun1 Hrun2).
  rewrite Hs2. split; [reflexivity |]. split; [exact Hd2 | lia].
Qed.

(** A header of an array or a map, after its head byte: the length field
    is read and [beginArray] or [beginMap] is entered with the count. *)
Lemma decodeHead_container (h : Z) (k : nat) (isArray : bool) (st : State S)
    (size rest : list byte) :
  containerFormat h = Some (k, isArray) ->
  holds (source st) (size ++ rest) -> length size = k -> (8 <= capacity st)%nat ->
  exists st',
    decodeHead read host options h st
    = (if isArray then beginArray options (declaredCount h size) st'
       else beginMap options (declaredCount h size) st') /\
    holds (source st') rest /\ stack st' = stack st /\ capacity st' = capacity st.
Proof.
  intros Hfmt Hd Hk Hcap. unfold containerFormat in Hfmt.
  assert (Hfield : forall (n : nat) (begin : Z -> M (State S) (option (value Uint8Array))),
            k = n -> (n <= 8)%nat -> n <> 0%nat ->
            exists st',
              (z <- (readBytes read (Z.of_nat n) ;; b <- viewBytes n ;; ret (be_uint b)) ;;
               begin z) st
              = begin (declaredCount h size) st' /\
              holds (source st') rest /\ stack st' = stack st /\ capacity st' = capacity st).
  { intros n begin Hkn Hn8 Hn0.
    destruct (sizeField_next read holds Hread n st size rest Hd ltac:(lia) Hn8 Hcap)
      as (st' & Hrun & Hd' & Hs' & Hc').
    exists st'. split; [| auto]. unfold bind at 1. rewrite Hrun.
    unfold declaredCount. destruct size; [simpl in *; lia | reflexivity]. }
  destruct ((0x80 <=? h) && (h <? 0x90)) eqn:Emap.
  { injection Hfmt as <- <-. destruct size; [| discriminate]. simpl in *.
    apply andb_prop in Emap as [E1 E2]. exists st. unfold decodeHead.
    replace (h >=? 0xe0) with false by lia. replace (h <? 0xc0) with true by lia.
    replace (h <? 0x80) with false by lia. replace (h <? 0x90) with true by lia.
    auto. }
  destruct ((0x90 <=? h) && (h <? 0xa0)) eqn:Earr.
  { injection Hfmt as <- <-. destruct size; [| discriminate]. simpl in *.
    apply andb_prop in Earr as [E1 E2]. exists st. unfold decodeHead.
    replace (h >=? 0xe0) with false by lia. replace (h <? 0xc0) with true by lia.
    replace (h <? 0x80) with false by lia. replace (h <? 0x90) with false by lia.
    replace (h <? 0xa0) with true by lia. auto. }
  repeat match type of Hfmt with
  | (if ?c =? ?x then _ else _) = _ =>
      let E := fresh "E" in destruct (c =? x) eqn:E; [apply Z.eqb_eq in E; rewrite E in * |]
  end; try discriminate; injection Hfmt as <- <-.
  - apply (Hfield 2%nat (beginArray options)); [reflexivity | lia | lia].
  - apply (Hfield 4%nat (beginArray options)); [reflexivity | lia | lia].
  - apply (Hfield 2%nat (beginMap options)); [reflexivity | lia | lia].
  - apply (Hfield 4%nat (beginMap options)); [reflexivity | lia | lia].
Qed.

(** The elements still to come fill the array frame on top, and the last
    one completes the array. *)
Lemma decodes_items (todo : list Item) :
  Forall (decodes read host options holds) todo -> forallb (wellFormed host options) todo = true -> todo <> [] ->
  forall (done : list (value Uint8Array)) (st : State S) (rest : list byte)
         (stk : list (StackState Uint8Array)) (fuel : nat),
    holds (source st) (concat (map bytesOf todo) ++ rest) ->
    headByte st = HEAD_BYTE_REQUIRED -> (2048 <= capacity st)%nat ->
    stack st = StackArrayState (Z.of_nat (length done + length todo))
                 (done ++ repeat VUndefined (length todo)) (Z.of_nat (length done)) :: stk ->
    exists st1,
      doDecodeSync read host options (list_sum (map turns todo) + fuel) st
      = completed read host options fuel
          (VArray (done ++ map (valueOf host options false) todo)) st1 stk /\
      holds (source st1) rest /\ (2048 <= capacity st1)%nat.
Proof.
  induction 1 as [|x r Hx Hr IH]; intros Hwf Hne done st rest stk fuel Hd Hhb Hcap Hstk;
    [congruence |].
  simpl in Hwf. apply andb_prop in Hwf as [Hwx Hwr].
  simpl map in Hd |- *. simpl concat in Hd. simpl list_sum.
  rewrite <- app_assoc in Hd. rewrite <- Nat.add_assoc.
  destruct (Hx Hwx st _ (list_sum (map turns r) + fuel)%nat Hd Hhb Hcap)
    as (st1 & Hrun & Hd1 & Hc1).
  rewrite Hrun, Hstk. simpl isKeyTop.
  set (v := valueOf host options false x).
  unfold completed at 1. simpl fillFrames. rewrite setIndex_next.
  destruct r as [|y r'].
  - simpl length.
    replace (Z.of_nat (length done) + 1 =? Z.of_nat (length done + 1)) with true
      by (symmetry; apply Z.eqb_eq; lia).
    simpl repeat. rewrite app_nil_r. simpl map.
    exists st1. split; [reflexivity | split; assumption].
  - simpl length.
    replace (Z.of_nat (length done) + 1 =? Z.of_nat (length done + Datatypes.S (Datatypes.S (length r'))))
      with false by (symmetry; apply Z.eqb_neq; lia).
    destruct (IH Hwr ltac:(discriminate) (done ++ [v])
                (mkState (heap st1) (source st1) HEAD_BYTE_REQUIRED (bytes st1)
                   (StackArrayState
                      (Z.of_nat (length done + Datatypes.S (Datatypes.S (length r'))))
                      ((done ++ [v]) ++ repeat VUndefined (Datatypes.S (length r')))
                      (Z.of_nat (length done) + 1) :: stk))
                rest stk fuel) as (st2 & Hrun2 & Hd2 & Hc2).
    + exact Hd1.
    + reflexivity.
    + exact Hc1.
    + simpl stack. rewrite length_app. simpl length. f_equal. f_equal; [f_equal; lia | lia].
    + exists st2. rewrite Hrun2. rewrite <- app_assoc. simpl app.
      split; [reflexivity | split; assumption].
Qed.

Lemma decodes_array hb size items :
  Forall (decodes read host options holds) items -> decodes read host options holds (ItemArray hb size items).
Proof.
  intros Hitems Hwf st rest fuel Hd Hhb Hcap. simpl in Hwf, Hd.
  destruct (containerFormat (byte_to_Z hb)) as [[k [|]]|] eqn:Efmt; try discriminate.
  apply andb_prop in Hwf as [Hwf Hall]. apply andb_prop in Hwf as [Hwf Hmax].
  apply andb_prop in Hwf as [Hk Hlen].
  apply Nat.eqb_eq in Hk. apply Z.eqb_eq in Hlen. apply Z.leb_le in Hmax.
  rewrite <- app_assoc in Hd.
  destruct (readHeadByte_next read holds Hread st hb _ Hd Hhb ltac:(lia))
    as (st1 & Hrun1 & Hd1 & Hs1 & Hc1).
  destruct (decodeHead_container (byte_to_Z hb) k true st1 size _ Efmt Hd1 Hk ltac:(lia))
    as (st2 & Hrun2 & Hd2 & Hs2 & Hc2).
  rewrite <- Hlen in Hrun2. simpl valueOf.
  change (turns (ItemArray hb size items) + fuel)%nat
    with (Datatypes.S (list_sum (map turns items) + fuel)).
  destruct items as [|x r].
  - simpl in Hd2. exists st2.
    rewrite (turn_completed read host options _ st st1 st2 _ (VArray [])  Hrun1);
      [| rewrite Hrun2; reflexivity].
    rewrite Hs2, Hs1. split; [reflexivity |]. split; [exact Hd2 | lia].
  - set (items := x :: r) in *.
    set (st3 := mkState (heap st2) (source st2) HEAD_BYTE_REQUIRED (bytes st2)
                  (StackArrayState (Z.of_nat (length items))
                     (repeat VUndefined (Z.to_nat (Z.of_nat (length items)))) 0 :: stack st2)).
    assert (Hbegin : decodeHead read host options (byte_to_Z hb) st1 = (Ok None, st3)).
    { rewrite Hrun2. unfold beginArray, pushArrayState.
      replace (Z.of_nat (length items) =? 0) with false by (unfold items; simpl; lia).
      replace (Z.of_nat (length items) >? maxArrayLength options) with false by lia.
      reflexivity. }
    rewrite (turn_continue read host options _ st st1 st3 _ Hrun1 Hbegin).
    destruct (decodes_items items Hitems Hall ltac:(discriminate) [] st3 rest (stack st) fuel)
      as (st4 & Hrun4 & Hd4 & Hc4).
    + exact Hd2.
    + reflexivity.
    + change (capacity st3) with (capacity st2). lia.
    + unfold st3. simpl stack. rewrite Nat2Z.id, Hs2, Hs1. reflexivity.
    + exists st4. rewrite Hrun4. split; [reflexivity | split; assumption].
Qed.

(** The pairs still to come fill the map frame on top, key then value,
    and the last one completes the map. *)
Lemma decodes_pairs (todo : list (Item * Item)) :
  Forall (fun kv => decodes read host options holds (fst kv) /\ decodes read host options holds (snd kv)) todo ->
  forallb (fun kv => validKey host options (fst kv) && wellFormed host options (fst kv) &&
                     wellFormed host options (snd kv)) todo = true ->
  todo <> [] ->
  forall (done : list (string * value Uint8Array)) (count : Z) (st : State S)
         (rest : list byte) (stk : list (StackState Uint8Array)) (fuel : nat),
    holds (source st)
      (concat (map (fun kv => bytesOf (fst kv) ++ bytesOf (snd kv)) todo) ++ rest) ->
    headByte st = HEAD_BYTE_REQUIRED -> (2048 <= capacity st)%nat ->
    stack st = StackMapState STATE_MAP_KEY (count + Z.of_nat (length todo)) None count done
               :: stk ->
    exists st1,
      doDecodeSync read host options
        (list_sum (map (fun kv => (turns (fst kv) + turns (snd kv))%nat) todo) + fuel) st
      = completed read host options fuel
          (VObject (fold_left
             (fun props kv =>
                setProperty (propertyKey host (asMapKey (valueOf host options true (fst kv))))
                            (valueOf host options false (snd kv)) props)
             todo done)) st1 stk /\
      holds (source st1) rest /\ (2048 <= capacity st1)%nat.
Proof.
  induction 1 as [|[k x] r [Hk Hx] Hr IH];
    intros Hwf Hne done count st rest stk fuel Hd Hhb Hcap Hstk; [congruence |].
  simpl in Hwf, Hk, Hx. apply andb_prop in Hwf as [Hwf Hwr].
  apply andb_prop in Hwf as [Hwf Hwx]. apply andb_prop in Hwf as [Hvalid Hwk].
  unfold validKey in Hvalid. apply andb_prop in Hvalid as [Hv1 Hv2].
  apply negb_true_iff in Hv2.
  simpl map in Hd |- *. simpl concat in Hd. simpl list_sum. simpl fold_left.
  rewrite <- !app_assoc in Hd. rewrite <- !Nat.add_assoc.
  set (N := count + Z.of_nat (length ((k, x) :: r))) in *.
  (* the key *)
  destruct (Hk Hwk st _ (turns x +
              (list_sum (map (fun kv => (turns (fst kv) + turns (snd kv))%nat) r) + fuel))%nat
              Hd Hhb Hcap) as (st1 & Hrun1 & Hd1 & Hc1).
  rewrite Hrun1, Hstk. simpl isKeyTop.
  set (key := valueOf host options true k) in *.
  unfold completed at 1. rewrite (fillFrames_valid_key host key) by assumption.
  cbv beta iota zeta.
  (* the value *)
  set (st2 := mkState (heap st1) (source st1) HEAD_BYTE_REQUIRED (bytes st1)
                (StackMapState STATE_MAP_VALUE N (asMapKey key) count done :: stk)).
  destruct (Hx Hwx st2 _
              (list_sum (map (fun kv => (turns (fst kv) + turns (snd kv))%nat) r) + fuel)%nat
              Hd1 eq_refl Hc1) as (st3 & Hrun3 & Hd3 & Hc3).
  rewrite Hrun3. unfold st2 at 1 2. simpl stack. simpl isKeyTop.
  set (v := valueOf host options false x).
  unfold completed at 1. rewrite fillFrames_value.
  destruct r as [|y r'].
  - replace (count + 1 =? N) with true
      by (symmetry; apply Z.eqb_eq; unfold N; simpl length; lia).
    exists st3. split; [reflexivity | split; assumption].
  - replace (count + 1 =? N) with false
      by (symmetry; apply Z.eqb_neq; unfold N; simpl length; lia).
    cbv beta iota zeta.
    destruct (IH Hwr ltac:(discriminate)
                (setProperty (propertyKey host (asMapKey key)) v done) (count + 1)
                (mkState (heap st3) (source st3) HEAD_BYTE_REQUIRED (bytes st3)
                   (StackMapState STATE_MAP_KEY N None (count + 1)
                      (setProperty (propertyKey host (asMapKey key)) v done) :: stk))
                rest stk fuel) as (st4 & Hrun4 & Hd4 & Hc4).
    + exact Hd3.
    + reflexivity.
    + exact Hc3.
    + simpl stack. f_equal. f_equal. unfold N. simpl length. lia.
    + exists st4. rewrite Hrun4. split; [reflexivity | split; assumption].
Qed.

Lemma decodes_map hb size pairs :
  Forall (fun kv => decodes read host options holds (fst kv) /\ decodes read host options holds (snd kv)) pairs ->
  decodes read host options holds (ItemMap hb size pairs).
Proof.
  intros Hpairs Hwf st rest fuel Hd Hhb Hcap. simpl in Hwf, Hd.
  destruct (containerFormat (byte_to_Z hb)) as [[k [|]]|] eqn:Efmt; try discriminate.
  apply andb_prop in Hwf as [Hwf Hall]. apply andb_prop in Hwf as [Hwf Hmax].
  apply andb_prop in Hwf as [Hk Hlen].
  apply Nat.eqb_eq in Hk. apply Z.eqb_eq in Hlen. apply Z.leb_le in Hmax.
  rewrite <- app_assoc in Hd.
  destruct (readHeadByte_next read holds Hread st hb _ Hd Hhb ltac:(lia))
    as (st1 & Hrun1 & Hd1 & Hs1 & Hc1).
  destruct (decodeHead_container (byte_to_Z hb) k false st1 size _ Efmt Hd1 Hk ltac:(lia))
    as (st2 & Hrun2 & Hd2 & Hs2 & Hc2).
  rewrite <- Hlen in Hrun2. simpl valueOf.
  change (turns (ItemMap hb size pairs) + fuel)%nat
    with (Datatypes.S
            (list_sum (map (fun kv => (turns (fst kv) + turns (snd kv))%nat) pairs) + fuel)).
  destruct pairs as [|p r].
  - simpl in Hd2. exists st2.
    rewrite (turn_completed read host options _ st st1 st2 _ (VObject []) Hrun1);
      [| rewrite Hrun2; reflexivity].
    rewrite Hs2, Hs1. split; [reflexivity |]. split; [exact Hd2 | lia].
  - set (pairs := p :: r) in *.
    set (st3 := mkState (heap st2) (source st2) HEAD_BYTE_REQUIRED (bytes st2)
                  (StackMapState STATE_MAP_KEY (Z.of_nat (length pairs)) None 0 []
                   :: stack st2)).
    assert (Hbegin : decodeHead read host options (byte_to_Z hb) st1 = (Ok None, st3)).
    { rewrite Hrun2. unfold beginMap, pushMapState.
      replace (Z.of_nat (length pairs) =? 0) with false by (unfold pairs; simpl; lia).
      replace (Z.of_nat (length pairs) >? maxMapLength options) with false by lia.
      reflexivity. }
    rewrite (turn_continue read host options _ st st1 st3 _ Hrun1 Hbegin).
    destruct (decodes_pairs pairs Hpairs Hall ltac:(discriminate) [] 0 st3 rest (stack st) fuel)
      as (st4 & Hrun4 & Hd4 & Hc4).
    + exact Hd2.
    + reflexivity.
    + change (capacity st3) with (capacity st2). lia.
    + unfold st3. simpl stack. rewrite Hs2, Hs1. reflexivity.
    + exists st4. rewrite Hrun4. split; [reflexivity | split; assumption].
Qed.

Lemma decodes_all (t : Item) : decodes read host options holds t.
Proof.
  induction t using Item_nested_ind.
  - apply decodes_scalar.
  - apply decodes_text.
  - apply decodes_array. assumption.
  - apply decodes_map. assumption.
Qed.

End WellFormed.

(** X18. The stream decoder decodes what the format says.  Take an input
    made of scalars, strings, arrays and maps, nested to any depth, in which
    each head byte is of the format of its node, each length field has the
    width of its format and declares the length or the count of what
    follows, strings have at most 4096 bytes, lengths and counts are within
    the limits of the options, and every key is a string or a number and
    not ["__proto__"].  Over any callback that hands out the bytes of the
    input in order, however it cuts them, [decodeStream] returns the value
    of the input: arrays with their elements in order, maps with their
    properties set in the order of the pairs (a later pair of the same key
    replaces the earlier one), strings decoded as [decodeUtf8String] chooses,
    keys by the key decoder when it can cache them.  One turn of the loop
    for each head byte is enough, and the callback is left before the bytes
    that follow the input. *)
Theorem stream_decodes_well_formed_input {S} (read : PullSource S)
    (holds : S -> list byte -> Prop) (host : Host) (options : Options)
    (t : Item) (src : S) (rest : list byte) (fuel : nat) :
  delivers read holds -> wellFormed host options t = true ->
  holds src (bytesOf t ++ rest) ->
  exists st',
    decodeStream read host options (turns t + fuel) src
    = (Ok (valueOf host options false t), st') /\
    holds (source st') rest.
Proof.
  intros Hread Hwf Hd. unfold decodeStream, decode, bind at 1.
  set (st := (reinitializeState (newStreamDecoder src)).2).
  assert (Hcap : capacity st = 2048%nat).
  { unfold st, capacity, bufferOf. simpl. rewrite ?repeat_length. reflexivity. }
  change (reinitializeState (newStreamDecoder src)) with (Ok tt, st). cbv iota.
  destruct (decodes_all read holds Hread host options t Hwf st rest fuel Hd eq_refl ltac:(lia))
    as (st1 & Hrun & Hd1 & _).
  rewrite Hrun. change (stack st) with (@nil (StackState Uint8Array)).
  unfold completed. simpl. eexists. split; [reflexivity | exact Hd1].
Qed.


Lemma stream_decodes_well_formed_input_witness :
  exists st',
    decodeStream chunkRead Sample.host Sample.options 7
      [[x82; xa1]; [x61; x01; x02]; [x92; xc0; xda; x00]; [x02; x68]; [x69; xc0]]
    = (Ok (VObject [("a"%string, VNumber (Int 1));
                    ("2"%string, VArray [VNull; VString "hi"])]), st') /\
    chunked (source st') [xc0].
Proof.
  apply (stream_decodes_well_formed_input chunkRead chunked Sample.host Sample.options
           pairAndList
           [[x82; xa1]; [x61; x01; x02]; [x92; xc0; xda; x00]; [x02; x68]; [x69; xc0]]
           [xc0] 0).
  - apply chunkRead_delivers.
  - vm_compute. reflexivity.
  - split; [reflexivity | repeat constructor; discriminate].
Defined.

(** ** Input that ends too early *)

Lemma app_cut {A} (a b p q : list A) :
  a ++ b = p ++ q ->
  (exists l, l <> [] /\ a = p ++ l) \/ (exists l, p = a ++ l /\ b = l ++ q).
Proof.
  revert p. induction a as [|x a IH]; intros p H.
  - right. exists p. auto.
  - destruct p as [|y p].
    + left. exists (x :: a). split; [discriminate | reflexivity].
    + simpl in H. injection H as -> H.
      destruct (IH p H) as [(l & Hl & ->)|(l & -> & ->)].
      * left. exists l. auto.
      * right. exists l. auto.
Qed.

Lemma length_cut {A} (a p q : list A) :
  a = p ++ q -> q <> [] -> (length p < length a)%nat.
Proof.
  intros -> Hq. rewrite length_app. destruct q; [congruence | simpl; lia].
Qed.

Section Throws.
Context {S : Type}.
Variable read : PullSource S.
Variable host : Host.
Variable options : Options.

Lemma turn_head_throws (fuel : nat) (st st1 : State S) (e : error) :
  readHeadByte read st = (Throw e, st1) ->
  doDecodeSync read host options (Datatypes.S fuel) st = (Throw e, st1).
Proof. intros H1. rewrite doDecodeSync_turn, H1. reflexivity. Qed.

Lemma turn_throws (fuel : nat) (st st1 st2 : State S) (hb : Z) (e : error) :
  readHeadByte read st = (Ok hb, st1) ->
  decodeHead read host options hb st1 = (Throw e, st2) ->
  doDecodeSync read host options (Datatypes.S fuel) st = (Throw e, st2).
Proof. intros H1 H2. rewrite doDecodeSync_turn, H1, H2. reflexivity. Qed.

End Throws.

Section Truncated.
Context {S : Type}.
Variable read : PullSource S.
Variable holds : S -> list byte -> Prop.
Hypothesis Hread : delivers read holds.
Variable host : Host.
Variable options : Options.

Lemma readBytes_short (len : Z) (st : State S) (d : list byte) :
  holds (source st) d -> Z.of_nat (length d) < len ->
  exists st', readBytes read len st = (Throw MORE_DATA, st').
Proof.
  intros Hd Hlt.
  destruct (readBytes_delivers read holds Hread len st d Hd) as (src & Hrun & _).
  cbv zeta in Hrun. eexists. rewrite Hrun.
  match goal with
  | |- (if ?c1 && ?c2 then _ else _, _) = _ =>
      destruct c1 eqn:E1;
      [replace c2 with false by (symmetry; apply Nat.leb_gt; lia) |]
  end; reflexivity.
Qed.

Lemma readField_short {A} (n : nat) (f : list byte -> A) (st : State S) (d : list byte) :
  holds (source st) d -> (length d < n)%nat ->
  exists st',
    (readBytes read (Z.of_nat n) ;; b <- viewBytes n ;; ret (f b)) st = (Throw MORE_DATA, st').
Proof.
  intros Hd Hlt.
  destruct (readBytes_short (Z.of_nat n) st d Hd ltac:(lia)) as (st' & Hrun).
  exists st'. unfold bind at 1. rewrite Hrun. reflexivity.
Qed.

Lemma readHeadByte_short (st : State S) :
  holds (source st) [] -> headByte st = HEAD_BYTE_REQUIRED ->
  exists st', readHeadByte read st = (Throw MORE_DATA, st').
Proof.
  intros Hd Hhb.
  destruct (readField_short 1 be_uint st [] Hd ltac:(simpl; lia)) as (st' & Hrun).
  change (Z.of_nat 1) with 1 in Hrun. fold (readU8 read) in Hrun.
  exists st'. unfold readHeadByte, bind at 1. unfold get at 1. cbv beta iota.
  rewrite Hhb. change (HEAD_BYTE_REQUIRED =? HEAD_BYTE_REQUIRED) with true. cbv iota.
  unfold bind at 1. rewrite Hrun. reflexivity.
Qed.

Lemma decodeHead_fixed_short (hb : Z) (n : nat) (f : list byte -> value Uint8Array)
    (st : State S) (d : list byte) :
  fixedFormat host hb = Some (n, f) -> holds (source st) d -> (length d < n)%nat ->
  exists st', decodeHead read host options hb st = (Throw MORE_DATA, st').
Proof.
  intros Hfmt Hd Hlt. unfold fixedFormat in Hfmt. unfold decodeHead.
  assert (Hfield : forall (A : Type) (k : nat) (g : list byte -> A)
                          (h : A -> value Uint8Array),
            n = k ->
            exists st',
              some (readBytes read (Z.of_nat k) ;; b <- viewBytes k ;; ret (g b)) h st
              = (Throw MORE_DATA, st')).
  { intros A k g h Hk.
    destruct (readField_short k g st d Hd ltac:(lia)) as (st' & Hrun).
    exists st'. unfold some, bind at 1. rewrite Hrun. reflexivity. }
  repeat match type of Hfmt with
  | (if ?c then _ else _) = _ => destruct c
  end; try discriminate; injection Hfmt as <- <-;
  first
    [ exfalso; lia
    | apply (Hfield Z 1%nat be_uint int); reflexivity
    | apply (Hfield Z 2%nat be_uint int); reflexivity
    | apply (Hfield Z 4%nat be_uint int); reflexivity
    | apply (Hfield Z 8%nat (getUint64 host) int); reflexivity
    | apply (Hfield Z 1%nat (fun bs => to_signed 8 (be_uint bs)) int); reflexivity
    | apply (Hfield Z 2%nat (fun bs => to_signed 16 (be_uint bs)) int); reflexivity
    | apply (Hfield Z 4%nat (fun bs => to_signed 32 (be_uint bs)) int); reflexivity
    | apply (Hfield Z 8%nat (getInt64 host) int); reflexivity
    | apply (Hfield number 4%nat (fun bs => Float32 (be_uint bs)) VNumber); reflexivity
    | apply (Hfield number 8%nat (fun bs => Float64 (be_uint bs)) VNumber); reflexivity ].
Qed.

Lemma decodeUtf8String_short (n : Z) (st : State S) (d : list byte) :
  holds (source st) d -> Z.of_nat (length d) < n -> n <= maxStrLength options ->
  exists st', decodeUtf8String read host options n st = (Throw MORE_DATA, st').
Proof.
  intros Hd Hlt Hmax.
  destruct (readBytes_short n st d Hd Hlt) as (st' & Hrun).
  exists st'. unfold decodeUtf8String.
  replace (n >? maxStrLength options) with false by lia.
  unfold bind at 1. rewrite Hrun. reflexivity.
Qed.

(** A string whose length field is cut short. *)
Lemma decodeHead_text_field_short (hb : Z) (k : nat) (st : State S) (d : list byte) :
  sizedFormat hb = Some (k, true) -> holds (source st) d -> (length d < k)%nat ->
  exists st', decodeHead read host options hb st = (Throw MORE_DATA, st').
Proof.
  intros Hfmt Hd Hlt.
  assert (Hfield : forall n : nat, k = n ->
            exists st',
              some (z <- (readBytes read (Z.of_nat n) ;; b <- viewBytes n ;; ret (be_uint b)) ;;
                    decodeUtf8String read host options z) VString st
              = (Throw MORE_DATA, st')).
  { intros n Hk.
    destruct (readField_short n be_uint st d Hd ltac:(lia)) as (st' & Hrun).
    exists st'. unfold some, bind at 1. unfold bind at 1. rewrite Hrun. reflexivity. }
  unfold sizedFormat in Hfmt.
  destruct ((0xa0 <=? hb) && (hb <? 0xc0)); [injection Hfmt as <-; lia |].
  repeat match type of Hfmt with
  | (if ?c =? ?x then _ else _) = _ =>
      let E := fresh "E" in destruct (c =? x) eqn:E; [apply Z.eqb_eq in E; subst c |]
  end; try discriminate; injection Hfmt as <-.
  - apply (Hfield 1%nat); reflexivity.
  - apply (Hfield 2%nat); reflexivity.
  - apply (Hfield 4%nat); reflexivity.
Qed.

(** A string whose payload is cut short. *)
Lemma decodeHead_text_short (hb : Z) (k : nat) (st : State S) (size d : list byte) :
  sizedFormat hb = Some (k, true) -> holds (source st) (size ++ d) -> length size = k ->
  Z.of_nat (length d) < declaredLength hb size ->
  declaredLength hb size <= maxStrLength options -> (8 <= capacity st)%nat ->
  exists st', decodeHead read host options hb st = (Throw MORE_DATA, st').
Proof.
  intros Hfmt Hd Hsize Hlt Hmax Hcap.
  assert (Hfield : forall n : nat, k = n -> (n <= 8)%nat -> n <> 0%nat ->
            exists st',
              some (z <- (readBytes read (Z.of_nat n) ;; b <- viewBytes n ;; ret (be_uint b)) ;;
                    decodeUtf8String read host options z) VString st
              = (Throw MORE_DATA, st')).
  { intros n Hk Hn8 Hn0.
    destruct (sizeField_next read holds Hread n st size d Hd ltac:(lia) Hn8 Hcap)
      as (st1 & Hm & Hd1 & _).
    assert (Hdecl : declaredLength hb size = be_uint size).
    { unfold declaredLength. destruct size; [simpl in *; lia | reflexivity]. }
    rewrite Hdecl in *.
    destruct (decodeUtf8String_short (be_uint size) st1 d Hd1 Hlt Hmax) as (st' & Hrun).
    exists st'. unfold some, bind at 1. unfold bind at 1. rewrite Hm, Hrun. reflexivity. }
  unfold sizedFormat in Hfmt.
  destruct ((0xa0 <=? hb) && (hb <? 0xc0)) eqn:Efix.
  { injection Hfmt as <-. destruct size; [| discriminate]. simpl in *.
    apply andb_prop in Efix as [E1 E2].
    destruct (decodeUtf8String_short (hb - 0xa0) st d Hd Hlt Hmax) as (st' & Hrun).
    exists st'. unfold decodeHead.
    replace (hb >=? 0xe0) with false by lia. replace (hb <? 0xc0) with true by lia.
    replace (hb <? 0x80) with false by lia. replace (hb <? 0x90) with false by lia.
    replace (hb <? 0xa0) with false by lia.
    unfold some, bind at 1. rewrite Hrun. reflexivity. }
  repeat match type of Hfmt with
  | (if ?c =? ?x then _ else _) = _ =>
      let E := fresh "E" in destruct (c =? x) eqn:E; [apply Z.eqb_eq in E; subst c |]
  end; try discriminate; injection Hfmt as <-.
  - apply (Hfield 1%nat); [reflexivity | lia | lia].
  - apply (Hfield 2%nat); [reflexivity | lia | lia].
  - apply (Hfield 4%nat); [reflexivity | lia | lia].
Qed.

(** An array or a map whose length field is cut short. *)
Lemma decodeHead_container_short (hb : Z) (k : nat) (isArray : bool) (st : State S)
    (d : list byte) :
  containerFormat hb = Some (k, isArray) -> holds (source st) d -> (length d < k)%nat ->
  exists st', decodeHead read host options hb st = (Throw MORE_DATA, st').
Proof.
  intros Hfmt Hd Hlt.
  assert (Hfield : forall (n : nat) (begin : Z -> M (State S) (option (value Uint8Array))),
            k = n ->
            exists st',
              (z <- (readBytes read (Z.of_nat n) ;; b <- viewBytes n ;; ret (be_uint b)) ;;
               begin z) st
              = (Throw MORE_DATA, st')).
  { intros n begin Hk.
    destruct (readField_short n be_uint st d Hd ltac:(lia)) as (st' & Hrun).
    exists st'. unfold bind at 1. rewrite Hrun. reflexivity. }
  unfold containerFormat in Hfmt.
  destruct ((0x80 <=? hb) && (hb <? 0x90)); [injection Hfmt as <- <-; lia |].
  destruct ((0x90 <=? hb) && (hb <? 0xa0)); [injection Hfmt as <- <-; lia |].
  repeat match type of Hfmt with
  | (if ?c =? ?x then _ else _) = _ =>
      let E := fresh "E" in destruct (c =? x) eqn:E; [apply Z.eqb_eq in E; subst c |]
  end; try discriminate; injection Hfmt as <- <-.
  - apply (Hfield 2%nat (beginArray options)); reflexivity.
  - apply (Hfield 4%nat (beginArray options)); reflexivity.
  - apply (Hfield 2%nat (beginMap options)); reflexivity.
  - apply (Hfield 4%nat (beginMap options)); reflexivity.
Qed.

Lemma cutShort_scalar hb payload : cutShort read host options holds (ItemScalar hb payload).
Proof.
  intros Hwf st p q fuel Hb Hq Hd Hhb Hcap. simpl in Hwf, Hb.
  change (turns (ItemScalar hb payload) + fuel)%nat with (Datatypes.S fuel).
  destruct (fixedFormat host (byte_to_Z hb)) as [[n f]|] eqn:Efmt; [| discriminate].
  apply Nat.eqb_eq in Hwf.
  destruct p as [|b p'].
  { destruct (readHeadByte_short st Hd Hhb) as (st1 & Hrun1).
    exists st1. apply turn_head_throws. exact Hrun1. }
  simpl in Hb. injection Hb as <- Hpay.
  destruct (readHeadByte_next read holds Hread st hb p' Hd Hhb ltac:(lia))
    as (st1 & Hrun1 & Hd1 & Hs1 & Hc1).
  pose proof (length_cut _ _ _ Hpay Hq) as Hlt.
  destruct (decodeHead_fixed_short (byte_to_Z hb) n f st1 p' Efmt Hd1 ltac:(lia))
    as (st2 & Hrun2).
  exists st2. apply (turn_throws read host options fuel st st1 st2 _ _ Hrun1 Hrun2).
Qed.

Lemma cutShort_text hb size payload :
  cutShort read host options holds (ItemText hb size payload).
Proof.
  intros Hwf st p q fuel Hb Hq Hd Hhb Hcap. simpl in Hwf, Hb.
  change (turns (ItemText hb size payload) + fuel)%nat with (Datatypes.S fuel).
  destruct (sizedFormat (byte_to_Z hb)) as [[k [|]]|] eqn:Efmt; try discriminate.
  apply andb_prop in Hwf as [Hwf Hmax]. apply andb_prop in Hwf as [Hwf H4096].
  apply andb_prop in Hwf as [Hk Hlen].
  apply Nat.eqb_eq in Hk. apply Z.eqb_eq in Hlen.
  apply Z.leb_le in H4096. apply Z.leb_le in Hmax.
  destruct p as [|b p'].
  { destruct (readHeadByte_short st Hd Hhb) as (st1 & Hrun1).
    exists st1. apply turn_head_throws. exact Hrun1. }
  simpl in Hb. injection Hb as <- Hb.
  destruct (readHeadByte_next read holds Hread st hb p' Hd Hhb ltac:(lia))
    as (st1 & Hrun1 & Hd1 & Hs1 & Hc1).
  assert (Hhead : exists st2,
            decodeHead read host options (byte_to_Z hb) st1 = (Throw MORE_DATA, st2)).
  { destruct (app_cut _ _ _ _ Hb) as [(l & Hl & Hsz)|(l & -> & Hpay)].
    - pose proof (length_cut _ _ _ Hsz Hl) as Hlt.
      apply (decodeHead_text_field_short (byte_to_Z hb) k st1 p' Efmt Hd1). lia.
    - pose proof (length_cut _ _ _ Hpay Hq) as Hlt.
      apply (decodeHead_text_short (byte_to_Z hb) k st1 size l Efmt Hd1 Hk); lia. }
  destruct Hhead as (st2 & Hrun2).
  exists st2. apply (turn_throws read host options fuel st st1 st2 _ _ Hrun1 Hrun2).
Qed.

(** The elements still to come, the stream ending within them. *)
Lemma cutShort_items (todo : list Item) :
  Forall (cutShort read host options holds) todo ->
  forallb (wellFormed host options) todo = true ->
  forall (done : list (value Uint8Array)) (st : State S) (p q : list byte)
         (stk : list (StackState Uint8Array)) (fuel : nat),
    concat (map bytesOf todo) = p ++ q -> q <> [] -> holds (source st) p ->
    headByte st = HEAD_BYTE_REQUIRED -> (2048 <= capacity st)%nat ->
    stack st = StackArrayState (Z.of_nat (length done + length todo))
                 (done ++ repeat VUndefined (length todo)) (Z.of_nat (length done)) :: stk ->
    exists st',
      doDecodeSync read host options (list_sum (map turns todo) + fuel) st
      = (Throw MORE_DATA, st').
Proof.
  induction 1 as [|x r Hx Hr IH]; intros Hwf done st p q stk fuel Hb Hq Hd Hhb Hcap Hstk.
  { simpl in Hb. destruct p; [simpl in Hb; congruence | discriminate]. }
  simpl in Hwf. apply andb_prop in Hwf as [Hwx Hwr].
  simpl map in Hb |- *. simpl concat in Hb. simpl list_sum. rewrite <- Nat.add_assoc.
  destruct (app_cut _ _ _ _ Hb) as [(l & Hl & Hbx)|(l & -> & Hbr)].
  { apply (Hx Hwx st p l _ Hbx Hl Hd Hhb Hcap). }
  destruct (decodes_all read holds Hread host options x Hwx st l
              (list_sum (map turns r) + fuel)%nat Hd Hhb Hcap) as (st1 & Hrun & Hd1 & Hc1).
  rewrite Hrun, Hstk. simpl isKeyTop.
  set (v := valueOf host options false x).
  unfold completed at 1. simpl fillFrames. rewrite setIndex_next.
  destruct r as [|y r'].
  { simpl in Hbr. destruct l; [simpl in Hbr; congruence | discriminate]. }
  simpl length.
  replace (Z.of_nat (length done) + 1 =? Z.of_nat (length done + Datatypes.S (Datatypes.S (length r'))))
    with false by (symmetry; apply Z.eqb_neq; lia).
  destruct (IH Hwr (done ++ [v])
              (mkState (heap st1) (source st1) HEAD_BYTE_REQUIRED (bytes st1)
                 (StackArrayState
                    (Z.of_nat (length done + Datatypes.S (Datatypes.S (length r'))))
                    ((done ++ [v]) ++ repeat VUndefined (Datatypes.S (length r')))
                    (Z.of_nat (length done) + 1) :: stk))
              l q stk fuel Hbr Hq) as (st2 & Hrun2).
  - exact Hd1.
  - reflexivity.
  - exact Hc1.
  - simpl stack. rewrite length_app. simpl length. f_equal. f_equal; [f_equal; lia | lia].
  - exists st2. rewrite Hrun2. reflexivity.
Qed.

Lemma cutShort_array hb size items :
  Forall (cutShort read host options holds) items ->
  cutShort read host options holds (ItemArray hb size items).
Proof.
  intros Hitems Hwf st p q fuel Hb Hq Hd Hhb Hcap. simpl in Hwf, Hb.
  destruct (containerFormat (byte_to_Z hb)) as [[k [|]]|] eqn:Efmt; try discriminate.
  apply andb_prop in Hwf as [Hwf Hall]. apply andb_prop in Hwf as [Hwf Hmax].
  apply andb_prop in Hwf as [Hk Hlen].
  apply Nat.eqb_eq in Hk. apply Z.eqb_eq in Hlen. apply Z.leb_le in Hmax.
  change (turns (ItemArray hb size items) + fuel)%nat
    with (Datatypes.S (list_sum (map turns items) + fuel)).
  destruct p as [|b p'].
  { destruct (readHeadByte_short st Hd Hhb) as (st1 & Hrun1).
    exists st1. apply turn_head_throws. exact Hrun1. }
  simpl in Hb. injection Hb as <- Hb.
  destruct (readHeadByte_next read holds Hread st hb p' Hd Hhb ltac:(lia))
    as (st1 & Hrun1 & Hd1 & Hs1 & Hc1).
  destruct (app_cut _ _ _ _ Hb) as [(l & Hl & Hsz)|(l & -> & Hbr)].
  { pose proof (length_cut _ _ _ Hsz Hl) as Hlt.
    destruct (decodeHead_container_short (byte_to_Z hb) k true st1 p' Efmt Hd1 ltac:(lia))
      as (st2 & Hrun2).
    exists st2. apply (turn_throws read host options _ st st1 st2 _ _ Hrun1 Hrun2). }
  destruct (decodeHead_container read holds Hread host options (byte_to_Z hb) k true st1
              size l Efmt Hd1 Hk ltac:(lia)) as (st2 & Hrun2 & Hd2 & Hs2 & Hc2).
  rewrite <- Hlen in Hrun2.
  destruct items as [|x r].
  { simpl in Hbr. destruct l; [simpl in Hbr; congruence | discriminate]. }
  set (items := x :: r) in *.
  set (st3 := mkState (heap st2) (source st2) HEAD_BYTE_REQUIRED (bytes st2)
                (StackArrayState (Z.of_nat (length items))
                   (repeat VUndefined (Z.to_nat (Z.of_nat (length items)))) 0 :: stack st2)).
  assert (Hbegin : decodeHead read host options (byte_to_Z hb) st1 = (Ok None, st3)).
  { rewrite Hrun2. unfold beginArray, pushArrayState.
    replace (Z.of_nat (length items) =? 0) with false by (unfold items; simpl; lia).
    replace (Z.of_nat (length items) >? maxArrayLength options) with false by lia.
    reflexivity. }
  rewrite (turn_continue read host options _ st st1 st3 _ Hrun1 Hbegin).
  apply (cutShort_items items Hitems Hall [] st3 l q (stack st) fuel Hbr Hq).
  - exact Hd2.
  - reflexivity.
  - change (capacity st3) with (capacity st2). lia.
  - unfold st3. simpl stack. rewrite Nat2Z.id, Hs2, Hs1. reflexivity.
Qed.

(** The pairs still to come, the stream ending within them. *)
Lemma cutShort_pairs (todo : list (Item * Item)) :
  Forall (fun kv => cutShort read host options holds (fst kv) /\
                    cutShort read host options holds (snd kv)) todo ->
  forallb (fun kv => validKey host options (fst kv) && wellFormed host options (fst kv) &&
                     wellFormed host options (snd kv)) todo = true ->
  forall (done : list (string * value Uint8Array)) (count : Z) (st : State S)
         (p q : list byte) (stk : list (StackState Uint8Array)) (fuel : nat),
    concat (map (fun kv => bytesOf (fst kv) ++ bytesOf (snd kv)) todo) = p ++ q ->
    q <> [] -> holds (source st) p ->
    headByte st = HEAD_BYTE_REQUIRED -> (2048 <= capacity st)%nat ->
    stack st = StackMapState STATE_MAP_KEY (count + Z.of_nat (length todo)) None count done
               :: stk ->
    exists st',
      doDecodeSync read host options
        (list_sum (map (fun kv => (turns (fst kv) + turns (snd kv))%nat) todo) + fuel) st
      = (Throw MORE_DATA, st').
Proof.
  induction 1 as [|[k x] r [Hk Hx] Hr IH];
    intros Hwf done count st p q stk fuel Hb Hq Hd Hhb Hcap Hstk.
  { simpl in Hb. destruct p; [simpl in Hb; congruence | discriminate]. }
  simpl in Hwf, Hk, Hx. apply andb_prop in Hwf as [Hwf Hwr].
  apply andb_prop in Hwf as [Hwf Hwx]. apply andb_prop in Hwf as [Hvalid Hwk].
  unfold validKey in Hvalid. apply andb_prop in Hvalid as [Hv1 Hv2].
  apply negb_true_iff in Hv2.
  simpl map in Hb |- *. simpl concat in Hb. simpl list_sum.
  rewrite <- !app_assoc in Hb. rewrite <- !Nat.add_assoc.
  set (N := count + Z.of_nat (length ((k, x) :: r))) in *.
  (* the key *)
  destruct (app_cut _ _ _ _ Hb) as [(l & Hl & Hbk)|(l & -> & Hb1)].
  { apply (Hk Hwk st p l _ Hbk Hl Hd Hhb Hcap). }
  destruct (decodes_all read holds Hread host options k Hwk st l
              (turns x +
               (list_sum (map (fun kv => (turns (fst kv) + turns (snd kv))%nat) r) + fuel))%nat
              Hd Hhb Hcap) as (st1 & Hrun1 & Hd1 & Hc1).
  rewrite Hrun1, Hstk. simpl isKeyTop.
  set (key := valueOf host options true k) in *.
  unfold completed at 1. rewrite (fillFrames_valid_key host key) by assumption.
  cbv beta iota zeta.
  (* the value *)
  set (st2 := mkState (heap st1) (source st1) HEAD_BYTE_REQUIRED (bytes st1)
                (StackMapState STATE_MAP_VALUE N (asMapKey key) count done :: stk)).
  destruct (app_cut _ _ _ _ Hb1) as [(l' & Hl' & Hbx)|(l' & -> & Hb2)].
  { apply (Hx Hwx st2 l l' _ Hbx Hl' Hd1 eq_refl Hc1). }
  destruct (decodes_all read holds Hread host options x Hwx st2 l'
              (list_sum (map (fun kv => (turns (fst kv) + turns (snd kv))%nat) r) + fuel)%nat
              Hd1 eq_refl Hc1) as (st3 & Hrun3 & Hd3 & Hc3).
  rewrite Hrun3. unfold st2 at 1 2. simpl stack. simpl isKeyTop.
  set (v := valueOf host options false x).
  unfold completed at 1. rewrite fillFrames_value.
  destruct r as [|y r'].
  { simpl in Hb2. destruct l'; [simpl in Hb2; congruence | discriminate]. }
  replace (count + 1 =? N) with false
    by (symmetry; apply Z.eqb_neq; unfold N; simpl length; lia).
  cbv beta iota zeta.
  apply (IH Hwr (setProperty (propertyKey host (asMapKey key)) v done) (count + 1)
            (mkState (heap st3) (source st3) HEAD_BYTE_REQUIRED (bytes st3)
               (StackMapState STATE_MAP_KEY N None (count + 1)
                  (setProperty (propertyKey host (asMapKey key)) v done) :: stk))
            l' q stk fuel Hb2 Hq).
  - exact Hd3.
  - reflexivity.
  - exact Hc3.
  - simpl stack. f_equal. f_equal. unfold N. simpl length. lia.
Qed.

Lemma cutShort_map hb size pairs :
  Forall (fun kv => cutShort read host options holds (fst kv) /\
                    cutShort read host options holds (snd kv)) pairs ->
  cutShort read host options holds (ItemMap hb size pairs).
Proof.
  intros Hpairs Hwf st p q fuel Hb Hq Hd Hhb Hcap. simpl in Hwf, Hb.
  destruct (containerFormat (byte_to_Z hb)) as [[k [|]]|] eqn:Efmt; try discriminate.
  apply andb_prop in Hwf as [Hwf Hall]. apply andb_prop in Hwf as [Hwf Hmax].
  apply andb_prop in Hwf as [Hk Hlen].
  apply Nat.eqb_eq in Hk. apply Z.eqb_eq in Hlen. apply Z.leb_le in Hmax.
  change (turns (ItemMap hb size pairs) + fuel)%nat
    with (Datatypes.S
            (list_sum (map (fun kv => (turns (fst kv) + turns (snd kv))%nat) pairs) + fuel)).
  destruct p as [|b p'].
  { destruct (readHeadByte_short st Hd Hhb) as (st1 & Hrun1).
    exists st1. apply turn_head_throws. exact Hrun1. }
  simpl in Hb. injection Hb as <- Hb.
  destruct (readHeadByte_next read holds Hread st hb p' Hd Hhb ltac:(lia))
    as (st1 & Hrun1 & Hd1 & Hs1 & Hc1).
  destruct (app_cut _ _ _ _ Hb) as [(l & Hl & Hsz)|(l & -> & Hbr)].
  { pose proof (length_cut _ _ _ Hsz Hl) as Hlt.
    destruct (decodeHead_container_short (byte_to_Z hb) k false st1 p' Efmt Hd1 ltac:(lia))
      as (st2 & Hrun2).
    exists st2. apply (turn_throws read host options _ st st1 st2 _ _ Hrun1 Hrun2). }
  destruct (decodeHead_container read holds Hread host options (byte_to_Z hb) k false st1
              size l Efmt Hd1 Hk ltac:(lia)) as (st2 & Hrun2 & Hd2 & Hs2 & Hc2).
  rewrite <- Hlen in Hrun2.
  destruct pairs as [|kv r].
  { simpl in Hbr. destruct l; [simpl in Hbr; congruence | discriminate]. }
  set (pairs := kv :: r) in *.
  set (st3 := mkState (heap st2) (source st2) HEAD_BYTE_REQUIRED (bytes st2)
                (StackMapState STATE_MAP_KEY (Z.of_nat (length pairs)) None 0 []
                 :: stack st2)).
  assert (Hbegin : decodeHead read host options (byte_to_Z hb) st1 = (Ok None, st3)).
  { rewrite Hrun2. unfold beginMap, pushMapState.
    replace (Z.of_nat (length pairs) =? 0) with false by (unfold pairs; simpl; lia).
    replace (Z.of_nat (length pairs) >? maxMapLength options) with false by lia.
    reflexivity. }
  rewrite (turn_continue read host options _ st st1 st3 _ Hrun1 Hbegin).
  apply (cutShort_pairs pairs Hpairs Hall [] 0 st3 l q (stack st) fuel Hbr Hq).
  - exact Hd2.
  - reflexivity.
  - change (capacity st3) with (capacity st2). lia.
  - unfold st3. simpl stack. rewrite Hs2, Hs1. reflexivity.
Qed.

Lemma cutShort_all (t : Item) : cutShort read host options holds t.
Proof.
  induction t using Item_nested_ind.
  - apply cutShort_scalar.
  - apply cutShort_text.
  - apply cutShort_array. assumption.
  - apply cutShort_map. assumption.
Qed.

End Truncated.

(** X19. An input that ends too early is told apart from a corrupt one:
    when the stream ends within a value (of scalars, strings, arrays and
    maps) that would decode if it were complete, [decodeStream] throws
    [MORE_DATA] wherever the cut falls, in the head byte, a length field, a
    payload, or between the elements of an array or the key and the value
    of a pair; it returns no partial value and throws no [DecodeError]. *)
Theorem truncated_input_needs_more_data {S} (read : PullSource S)
    (holds : S -> list byte -> Prop) (host : Host) (options : Options)
    (t : Item) (src : S) (p q : list byte) (fuel : nat) :
  delivers read holds -> wellFormed host options t = true ->
  bytesOf t = p ++ q -> q <> [] -> holds src p ->
  exists st',
    decodeStream read host options (turns t + fuel) src = (Throw MORE_DATA, st').
Proof.
  intros Hread Hwf Hb Hq Hd. unfold decodeStream, decode, bind at 1.
  set (st := (reinitializeState (newStreamDecoder src)).2).
  assert (Hcap : capacity st = 2048%nat).
  { unfold st, capacity, bufferOf. simpl. rewrite ?repeat_length. reflexivity. }
  change (reinitializeState (newStreamDecoder src)) with (Ok tt, st). cbv iota.
  apply (cutShort_all read holds Hread host options t Hwf st p q fuel Hb Hq Hd eq_refl).
  lia.
Qed.


Lemma truncated_input_needs_more_data_witness :
  exists st',
    decodeStream chunkRead Sample.host Sample.options 7 [[x82; xa1]; [x61; x01; x02]]
    = (Throw MORE_DATA, st').
Proof.
  apply (truncated_input_needs_more_data chunkRead chunked Sample.host Sample.options
           pairAndList [[x82; xa1]; [x61; x01; x02]]
           [x82; xa1; x61; x01; x02] [x92; xc0; xda; x00; x02; x68; x69] 0).
  - apply chunkRead_delivers.
  - vm_compute. reflexivity.
  - reflexivity.
  - discriminate.
  - split; [reflexivity | repeat constructor; discriminate].
Defined.

(** ** A stream of several values *)

Section Values.
Context {S : Type}.
Variable read : PullSource S.
Variable holds : S -> list byte -> Prop.
Hypothesis Hread : delivers read holds.
Variable host : Host.
Variable options : Options.

Lemma doDecodeSync_value (t : Item) (st : State S) (rest : list byte) (fuel : nat) :
  wellFormed host options t = true -> (turns t <= fuel)%nat ->
  holds (source st) (bytesOf t ++ rest) -> betweenValues st ->
  exists st',
    doDecodeSync read host options fuel st = (Ok (valueOf host options false t), st') /\
    holds (source st') rest /\ betweenValues st'.
Proof.
  intros Hwf Hfuel Hd (Hhb & Hstk & Hcap).
  replace fuel with (turns t + (fuel - turns t))%nat by lia.
  destruct (decodes_all read holds Hread host options t Hwf st rest (fuel - turns t)%nat
              Hd Hhb Hcap) as (st1 & Hrun & Hd1 & Hc1).
  rewrite Hrun, Hstk. unfold completed. simpl.
  eexists. split; [reflexivity |]. split; [exact Hd1 |].
  split; [reflexivity |]. split; [reflexivity | exact Hc1].
Qed.

Lemma doDecodeSync_end (st : State S) (fuel : nat) :
  holds (source st) [] -> betweenValues st ->
  exists st', doDecodeSync read host options (Datatypes.S fuel) st = (Throw MORE_DATA, st').
Proof.
  intros Hd (Hhb & _).
  destruct (readHeadByte_short read holds Hread st Hd Hhb) as (st1 & Hrun1).
  exists st1. apply turn_head_throws. exact Hrun1.
Qed.

(** After the values of [ts], the generator goes on as before the rest of
    the stream. *)
Lemma decodeMultiTake_values (fuel more : nat) (ts : list Item) :
  forallb (wellFormed host options) ts = true ->
  Forall (fun t => (turns t <= fuel)%nat) ts ->
  forall (st : State S) (rest : list byte),
    holds (source st) (concat (map bytesOf ts) ++ rest) -> betweenValues st ->
    exists st',
      holds (source st') rest /\ betweenValues st' /\
      decodeMultiTake read host options fuel (length ts + more) SuspendedYield st
      = (let '(vs, stop, st'') :=
           decodeMultiTake read host options fuel more SuspendedYield st' in
         (map (valueOf host options false) ts ++ vs, stop, st'')).
Proof.
  intros Hwf Hfuel. induction Hfuel as [|t r Ht Hr IH]; intros st rest Hd Hst.
  - exists st. split; [exact Hd |]. split; [exact Hst |]. simpl.
    destruct (decodeMultiTake read host options fuel more SuspendedYield st) as [[vs stop] st''].
    reflexivity.
  - simpl in Hwf. apply andb_prop in Hwf as [Hwt Hwr].
    simpl map in Hd. simpl concat in Hd. rewrite <- app_assoc in Hd.
    destruct (doDecodeSync_value t st _ fuel Hwt Ht Hd Hst) as (st1 & Hrun & Hd1 & Hst1).
    destruct (IH Hwr st1 rest Hd1 Hst1) as (st' & Hd' & Hst' & Htake).
    exists st'. split; [exact Hd' |]. split; [exact Hst' |].
    change (length (t :: r) + more)%nat with (Datatypes.S (length r + more)).
    simpl decodeMultiTake. unfold resume. rewrite Hrun, Htake.
    destruct (decodeMultiTake read host options fuel more SuspendedYield st') as [[vs stop] st''].
    reflexivity.
Qed.

Lemma decodeMultiTake_start (fuel n : nat) (st : State S) :
  headByte st = HEAD_BYTE_REQUIRED -> stack st = [] ->
  decodeMultiTake read host options fuel n SuspendedStart st
  = decodeMultiTake read host options fuel n SuspendedYield st.
Proof.
  intros Hhb Hstk. destruct n as [|n]; [reflexivity |]. simpl. unfold resume, bind at 1.
  rewrite (reinitializeState_clean st Hhb Hstk).
  destruct (doDecodeSync read host options fuel st) as [[v|e|] st']; reflexivity.
Qed.

End Values.

(** X20. Over a stream that is the inputs of several values one after the
    other (each of scalars, strings, arrays and maps), the generator of
    [decodeMulti()] yields the value of each input, in order, and leaves the
    callback before what follows them; and when nothing follows, the next
    call does not end the iteration but throws [MORE_DATA]. *)
Theorem decodeMulti_yields_each_value {S} (read : PullSource S)
    (holds : S -> list byte -> Prop) (host : Host) (options : Options)
    (ts : list Item) (src : S) (rest : list byte) (fuel : nat) :
  delivers read holds ->
  forallb (wellFormed host options) ts = true ->
  Forall (fun t => (turns t <= fuel)%nat) ts ->
  holds src (concat (map bytesOf ts) ++ rest) ->
  (exists st',
     decodeMultiTake read host options fuel (length ts) SuspendedStart (newStreamDecoder src)
     = (map (valueOf host options false) ts, Enough, st') /\
     holds (source st') rest) /\
  (rest = [] -> (0 < fuel)%nat ->
   exists st',
     decodeMultiTake read host options fuel (Datatypes.S (length ts)) SuspendedStart
       (newStreamDecoder src)
     = (map (valueOf host options false) ts, Failed MORE_DATA, st')).
Proof.
  intros Hread Hwf Hfuel Hd.
  rewrite !(decodeMultiTake_start read host options) by reflexivity.
  set (st := newStreamDecoder src) in *.
  assert (Hst : betweenValues st).
  { split; [reflexivity |]. split; [reflexivity |].
    unfold st, capacity, bufferOf. simpl. rewrite ?repeat_length. lia. }
  split.
  - destruct (decodeMultiTake_values read holds Hread host options fuel 0 ts Hwf Hfuel
                st rest Hd Hst) as (st' & Hd' & _ & Htake).
    exists st'. rewrite Nat.add_0_r in Htake. rewrite Htake. simpl.
    rewrite app_nil_r. split; [reflexivity | exact Hd'].
  - intros -> Hpos.
    destruct (decodeMultiTake_values read holds Hread host options fuel 1 ts Hwf Hfuel
                st [] Hd Hst) as (st' & Hd' & Hst' & Htake).
    destruct fuel as [|fuel]; [lia |].
    destruct (doDecodeSync_end read holds Hread host options st' fuel Hd' Hst')
      as (st'' & Hrun).
    assert (Hone : decodeMultiTake read host options (Datatypes.S fuel) 1 SuspendedYield st'
                   = ([], Failed MORE_DATA, st'')).
    { unfold decodeMultiTake, decodeMultiNext, resume. rewrite Hrun. reflexivity. }
    exists st''. rewrite Nat.add_1_r in Htake. rewrite Htake, Hone.
    rewrite app_nil_r. reflexivity.
Qed.


Lemma decodeMulti_yields_each_value_witness :
  (exists st',
     decodeMultiTake chunkRead Sample.host Sample.options 2 2 SuspendedStart
       (newStreamDecoder [[x01; x91]; [xc3]])
     = ([VNumber (Int 1); VArray [VBool true]], Enough, st') /\
     chunked (source st') []) /\
  (exists st',
     decodeMultiTake chunkRead Sample.host Sample.options 2 3 SuspendedStart
       (newStreamDecoder [[x01; x91]; [xc3]])
     = ([VNumber (Int 1); VArray [VBool true]], Failed MORE_DATA, st')).
Proof.
  destruct (decodeMulti_yields_each_value chunkRead chunked Sample.host Sample.options
              [ItemScalar x01 []; ItemArray x91 [] [ItemScalar xc3 []]]
              [[x01; x91]; [xc3]] [] 2) as [Hvalues Hend].
  - apply chunkRead_delivers.
  - vm_compute. reflexivity.
  - repeat constructor.
  - split; [reflexivity | repeat constructor; discriminate].
  - split; [exact Hvalues | apply Hend; [reflexivity | lia]].
Defined.


(** * Claims on whole inputs *)

(** ** Arriving at a turn *)

Section Arrival.
Context {S : Type}.
Variable read : PullSource S.
Variable host : Host.
Variable options : Options.

(** The turns that went on are turns of the loop: the run from [st] is the
    run from [st'], [k] turns later. *)
Lemma arrives_run (st st' : State S) (k : nat) :
  arrives read host options st k st' ->
  forall fuel,
    doDecodeSync read host options (k + fuel) st = doDecodeSync read host options fuel st'.
Proof.
  induction 1 as [st | st hb st1 st2 k st' H1 H2 _ IH
                 | st hb st1 object st2 stk k st' H1 H2 H3 _ IH]; intros fuel.
  - reflexivity.
  - change (Datatypes.S k + fuel)%nat with (Datatypes.S (k + fuel)).
    rewrite (turn_continue read host options _ st st1 st2 hb H1 H2). apply IH.
  - change (Datatypes.S k + fuel)%nat with (Datatypes.S (k + fuel)).
    rewrite doDecodeSync_turn, H1, H2. cbv zeta. rewrite H3. apply IH.
Qed.

Lemma readHeadByte_capacity (st : State S) :
  (capacity st <= capacity (readHeadByte read st).2)%nat.
Proof.
  apply (@obeys_readHeadByte S read neverShrinks neverShrinks_frame).
  - intros b. apply neverShrinks_same. intros st0. split; reflexivity.
  - apply neverShrinks_ensure.
  - apply neverShrinks_pull.
Qed.

Lemma arrives_capacity (st st' : State S) (k : nat) :
  arrives read host options st k st' -> (capacity st <= capacity st')%nat.
Proof.
  induction 1 as [st | st hb st1 st2 k st' H1 H2 _ IH
                 | st hb st1 object st2 stk k st' H1 H2 H3 _ IH].
  - lia.
  - pose proof (readHeadByte_capacity st) as Hc1. rewrite H1 in Hc1.
    pose proof (decodeHead_capacity read host options hb st1) as Hc2. rewrite H2 in Hc2.
    simpl in Hc1, Hc2. lia.
  - pose proof (readHeadByte_capacity st) as Hc1. rewrite H1 in Hc1.
    pose proof (decodeHead_capacity read host options hb st1) as Hc2. rewrite H2 in Hc2.
    simpl in Hc1, Hc2. unfold capacity in *. simpl in IH. lia.
Qed.

Lemma arrives_headByte (st st' : State S) (k : nat) :
  arrives read host options st k st' ->
  headByte st = HEAD_BYTE_REQUIRED -> headByte st' = HEAD_BYTE_REQUIRED.
Proof.
  induction 1 as [st | st hb st1 st2 k st' H1 H2 _ IH
                 | st hb st1 object st2 stk k st' H1 H2 H3 _ IH]; intros Hhb.
  - exact Hhb.
  - apply IH. eapply decodeHead_continue. exact H2.
  - apply IH. reflexivity.
Qed.

End Arrival.

(** ** A length above its limit *)

Section OverLimit.
Context {S : Type}.
Variable read : PullSource S.
Variable holds : S -> list byte -> Prop.
Hypothesis Hread : delivers read holds.
Variable host : Host.
Variable options : Options.

(** A field of [n] bytes that fits the scratch buffer is read without a
    frame pushed or a buffer made. *)
Lemma readField_quiet {A} (n : nat) (f : list byte -> A) (st : State S)
    (bs rest : list byte) :
  holds (source st) (bs ++ rest) -> length bs = n -> (n <= capacity st)%nat ->
  exists st1,
    (readBytes read (Z.of_nat n) ;; b <- viewBytes n ;; ret (f b)) st = (Ok (f bs), st1) /\
    holds (source st1) rest /\ nothingAllocated st st1 /\ headByte st1 = headByte st /\
    capacity st1 = capacity st.
Proof.
  intros Hd Hlen Hcap.
  destruct (readBytes_delivers read holds Hread (Z.of_nat n) st (bs ++ rest) Hd)
    as (src & Hrun & Hs).
  rewrite ensure_fits in Hrun, Hs by lia. simpl snd in Hrun, Hs.
  replace (Z.to_nat (Z.min (Z.of_nat n) (Z.of_nat (capacity st)))) with n in Hrun, Hs by lia.
  replace (Z.of_nat n <=? Z.of_nat (capacity st)) with true in Hrun by lia.
  replace (n <=? length (bs ++ rest))%nat with true in Hrun
    by (symmetry; apply Nat.leb_le; rewrite length_app; lia).
  rewrite take_app_length' in Hrun by congruence.
  rewrite drop_app_length' in Hs by congruence.
  simpl in Hrun.
  set (st0 := mkState _ src _ _ _) in Hrun.
  assert (Hbuf : take n (bufferOf (heap st0) (bytes st0)) = bs).
  { pose proof (contents_fill (heap st) (bytes st) n bs Hlen) as Hc.
    unfold contents in Hc. simpl in Hc. unfold st0. simpl. apply Hc.
    unfold capacity in Hcap. exact Hcap. }
  assert (Hcap0 : capacity st0 = capacity st).
  { unfold st0, capacity. simpl. apply length_bufferOf_fill. }
  assert (Hsrc0 : source st0 = src) by reflexivity.
  assert (Hquiet : nothingAllocated st st0).
  { unfold nothingAllocated, st0, fill. simpl. rewrite length_alter. auto. }
  assert (Hhb0 : headByte st0 = headByte st) by reflexivity.
  clearbody st0. exists st0.
  split; [| rewrite Hsrc0; repeat split; try assumption; apply Hquiet].
  unfold bind at 1. rewrite Hrun.
  unfold viewBytes, bind at 1. unfold bind at 1. unfold get at 1. cbv beta iota.
  replace (n <=? length (bufferOf (heap st0) (bytes st0)))%nat with true.
  2:{ symmetry. apply Nat.leb_le. fold (capacity st0). lia. }
  rewrite Hbuf. reflexivity.
Qed.

Lemma readHeadByte_quiet (st : State S) (b : byte) (rest : list byte) :
  holds (source st) (b :: rest) -> headByte st = HEAD_BYTE_REQUIRED ->
  (1 <= capacity st)%nat ->
  exists st1,
    readHeadByte read st = (Ok (byte_to_Z b), st1) /\
    holds (source st1) rest /\ nothingAllocated st st1 /\ capacity st1 = capacity st.
Proof.
  intros Hd Hhb Hcap.
  destruct (readField_quiet 1 be_uint st [b] rest Hd eq_refl Hcap)
    as (st1 & Hrun & Hd1 & (Hs1 & Hb1 & Hh1) & _ & Hc1).
  change (Z.of_nat 1) with 1 in Hrun. fold (readU8 read) in Hrun.
  exists (mkState (heap st1) (source st1) (byte_to_Z b) (bytes st1) (stack st1)).
  split; [| split; [exact Hd1 | split; [split; [exact Hs1 | split; [exact Hb1 | exact Hh1]] |]]].
  - unfold readHeadByte, bind at 1. unfold get at 1. cbv beta iota.
    rewrite Hhb. change (HEAD_BYTE_REQUIRED =? HEAD_BYTE_REQUIRED) with true. cbv iota.
    unfold bind at 1. rewrite Hrun. reflexivity.
  - exact Hc1.
Qed.

(** Each of the five guards is the first statement of its function: above
    the limit it throws with the machine untouched. *)
Lemma guard_throws_untouched (kind : LengthKind) (n : Z) (st : State S) :
  n > maxLength options kind ->
  let e := DecodeError (MaxLengthExceeded kind n (maxLength options kind)) in
  match kind with
  | StrLength => throwsUntouched (decodeUtf8String read host options n) st e
  | BinLength => throwsUntouched (decodeBinary read options n) st e
  | ArrayLength => throwsUntouched (pushArrayState options n) st e
  | MapLength => throwsUntouched (pushMapState options n) st e
  | ExtLength => throwsUntouched (decodeExtension read options n) st e
  end.
Proof.
  intros Hn e.
  assert (Hgt : forall m, n > m -> (n >? m) = true) by (intros; lia).
  destruct kind; simpl in *; unfold throwsUntouched,
    decodeUtf8String, decodeBinary, pushArrayState, pushMapState, decodeExtension;
    rewrite (Hgt _ Hn); reflexivity.
Qed.

(** The length field of a header, read without a frame pushed or a buffer
    made. *)
Lemma lengthField_quiet (w : nat) (st : State S) (size rest : list byte) :
  holds (source st) (size ++ rest) -> length size = w -> (w <= 4)%nat ->
  (4 <= capacity st)%nat ->
  exists st1,
    (readBytes read (Z.of_nat w) ;; b <- viewBytes w ;; ret (be_uint b)) st
    = (Ok (be_uint size), st1) /\
    holds (source st1) rest /\ nothingAllocated st st1.
Proof.
  intros Hd Hw Hw4 Hcap.
  destruct (readField_quiet w be_uint st size rest Hd Hw ltac:(lia))
    as (st1 & Hrun & Hd1 & Hq & _).
  exists st1. auto.
Qed.

Lemma nothingAllocated_refl (st : State S) : nothingAllocated st st.
Proof. repeat split. Qed.

(** A string or a binary whose declared length is above its limit. *)
Lemma over_limit_sized (hb : Z) (w : nat) (text : bool) (st : State S)
    (size rest : list byte) :
  sizedFormat hb = Some (w, text) ->
  holds (source st) (size ++ rest) -> length size = w -> (4 <= capacity st)%nat ->
  let kind := if text then StrLength else BinLength in
  declaredLength hb size > maxLength options kind ->
  exists st',
    decodeHead read host options hb st
    = (Throw (DecodeError (MaxLengthExceeded kind (declaredLength hb size)
                             (maxLength options kind))), st') /\
    holds (source st') rest /\ nothingAllocated st st'.
Proof.
  intros Hfmt Hd Hw Hcap kind Hover.
  assert (Hfield : forall n : nat, w = n -> (n <= 4)%nat -> n <> 0%nat ->
            exists st1,
              (readBytes read (Z.of_nat n) ;; b <- viewBytes n ;; ret (be_uint b)) st
              = (Ok (declaredLength hb size), st1) /\
              holds (source st1) rest /\ nothingAllocated st st1).
  { intros n Hn Hn4 Hn0.
    destruct (lengthField_quiet n st size rest Hd ltac:(lia) Hn4 Hcap)
      as (st1 & Hrun & Hd1 & Hq).
    exists st1. split; [| auto]. rewrite Hrun. f_equal. f_equal.
    unfold declaredLength. destruct size; [simpl in *; lia | reflexivity]. }
  assert (Hstr : forall n : nat, text = true -> w = n -> (n <= 4)%nat -> n <> 0%nat ->
            exists st',
              some (z <- (readBytes read (Z.of_nat n) ;; b <- viewBytes n ;; ret (be_uint b)) ;;
                    decodeUtf8String read host options z) VString st
              = (Throw (DecodeError (MaxLengthExceeded kind (declaredLength hb size)
                                       (maxLength options kind))), st') /\
              holds (source st') rest /\ nothingAllocated st st').
  { intros n Ht Hn Hn4 Hn0. destruct (Hfield n Hn Hn4 Hn0) as (st1 & Hrun & Hd1 & Hq).
    exists st1. split; [| auto]. unfold some, bind at 1. unfold bind at 1. rewrite Hrun.
    unfold kind in *. rewrite Ht in *.
    rewrite (guard_throws_untouched StrLength _ st1 Hover). reflexivity. }
  assert (Hbin : forall n : nat, text = false -> w = n -> (n <= 4)%nat -> n <> 0%nat ->
            exists st',
              some (z <- (readBytes read (Z.of_nat n) ;; b <- viewBytes n ;; ret (be_uint b)) ;;
                    decodeBinary read options z) VBinary st
              = (Throw (DecodeError (MaxLengthExceeded kind (declaredLength hb size)
                                       (maxLength options kind))), st') /\
              holds (source st') rest /\ nothingAllocated st st').
  { intros n Ht Hn Hn4 Hn0. destruct (Hfield n Hn Hn4 Hn0) as (st1 & Hrun & Hd1 & Hq).
    exists st1. split; [| auto]. unfold some, bind at 1. unfold bind at 1. rewrite Hrun.
    unfold kind in *. rewrite Ht in *.
    rewrite (guard_throws_untouched BinLength _ st1 Hover). reflexivity. }
  unfold sizedFormat in Hfmt.
  destruct ((0xa0 <=? hb) && (hb <? 0xc0)) eqn:Efix.
  { injection Hfmt as <- <-. destruct size; [| discriminate]. simpl in *.
    apply andb_prop in Efix as [E1 E2].
    exists st. split; [| split; [exact Hd | apply nothingAllocated_refl]].
    unfold decodeHead.
    replace (hb >=? 0xe0) with false by lia. replace (hb <? 0xc0) with true by lia.
    replace (hb <? 0x80) with false by lia. replace (hb <? 0x90) with false by lia.
    replace (hb <? 0xa0) with false by lia.
    unfold some, bind at 1.
    rewrite (guard_throws_untouched StrLength _ st Hover). reflexivity. }
  repeat match type of Hfmt with
  | (if ?c =? ?x then _ else _) = _ =>
      let E := fresh "E" in destruct (c =? x) eqn:E; [apply Z.eqb_eq in E; subst c |]
  end; try discriminate; injection Hfmt as <- <-.
  - apply (Hstr 1%nat); [reflexivity | reflexivity | lia | lia].
  - apply (Hstr 2%nat); [reflexivity | reflexivity | lia | lia].
  - apply (Hstr 4%nat); [reflexivity | reflexivity | lia | lia].
  - apply (Hbin 1%nat); [reflexivity | reflexivity | lia | lia].
  - apply (Hbin 2%nat); [reflexivity | reflexivity | lia | lia].
  - apply (Hbin 4%nat); [reflexivity | reflexivity | lia | lia].
Qed.

Lemma beginArray_over_limit (n : Z) (st : State S) :
  0 <= maxArrayLength options -> n > maxArrayLength options ->
  beginArray options n st
  = (Throw (DecodeError (MaxLengthExceeded ArrayLength n (maxArrayLength options))), st).
Proof.
  intros Hmax Hover. unfold beginArray.
  replace (n =? 0) with false by lia. change (negb false) with true. cbv iota.
  unfold bind at 1. rewrite (guard_throws_untouched ArrayLength n st Hover). reflexivity.
Qed.

Lemma beginMap_over_limit (n : Z) (st : State S) :
  0 <= maxMapLength options -> n > maxMapLength options ->
  beginMap options n st
  = (Throw (DecodeError (MaxLengthExceeded MapLength n (maxMapLength options))), st).
Proof.
  intros Hmax Hover. unfold beginMap.
  replace (n =? 0) with false by lia. change (negb false) with true. cbv iota.
  unfold bind at 1. rewrite (guard_throws_untouched MapLength n st Hover). reflexivity.
Qed.

(** An array or a map whose declared count is above its limit. *)
Lemma over_limit_container (hb : Z) (w : nat) (isArray : bool) (st : State S)
    (size rest : list byte) :
  containerFormat hb = Some (w, isArray) ->
  holds (source st) (size ++ rest) -> length size = w -> (4 <= capacity st)%nat ->
  let kind := if isArray then ArrayLength else MapLength in
  0 <= maxLength options kind ->
  declaredCount hb size > maxLength options kind ->
  exists st',
    decodeHead read host options hb st
    = (Throw (DecodeError (MaxLengthExceeded kind (declaredCount hb size)
                             (maxLength options kind))), st') /\
    holds (source st') rest /\ nothingAllocated st st'.
Proof.
  intros Hfmt Hd Hw Hcap kind Hmax Hover.
  assert (Hfield : forall (n : nat) (begin : Z -> M (State S) (option (value Uint8Array))),
            w = n -> (n <= 4)%nat -> n <> 0%nat ->
            (forall st1, begin (declaredCount hb size) st1
                         = (Throw (DecodeError (MaxLengthExceeded kind (declaredCount hb size)
                                                  (maxLength options kind))), st1)) ->
            exists st',
              (z <- (readBytes read (Z.of_nat n) ;; b <- viewBytes n ;; ret (be_uint b)) ;;
               begin z) st
              = (Throw (DecodeError (MaxLengthExceeded kind (declaredCount hb size)
                                       (maxLength options kind))), st') /\
              holds (source st') rest /\ nothingAllocated st st').
  { intros n begin Hn Hn4 Hn0 Hbegin.
    destruct (lengthField_quiet n st size rest Hd ltac:(lia) Hn4 Hcap)
      as (st1 & Hrun & Hd1 & Hq).
    exists st1. split; [| auto]. unfold bind at 1. rewrite Hrun.
    replace (be_uint size) with (declaredCount hb size); [apply Hbegin |].
    unfold declaredCount. destruct size; [simpl in *; lia | reflexivity]. }
  unfold containerFormat in Hfmt.
  destruct ((0x80 <=? hb) && (hb <? 0x90)) eqn:Emap.
  { injection Hfmt as <- <-. destruct size; [| discriminate]. simpl in Hd.
    apply andb_prop in Emap as [E1 E2].
    assert (Hdc : declaredCount hb [] = hb - 0x80)
      by (unfold declaredCount; replace (hb <? 0x90) with true by lia; reflexivity).
    rewrite Hdc in *.
    exists st. split; [| split; [exact Hd | apply nothingAllocated_refl]].
    unfold decodeHead.
    replace (hb >=? 0xe0) with false by lia. replace (hb <? 0xc0) with true by lia.
    replace (hb <? 0x80) with false by lia. replace (hb <? 0x90) with true by lia.
    apply beginMap_over_limit; [exact Hmax | exact Hover]. }
  destruct ((0x90 <=? hb) && (hb <? 0xa0)) eqn:Earr.
  { injection Hfmt as <- <-. destruct size; [| discriminate]. simpl in Hd.
    apply andb_prop in Earr as [E1 E2].
    assert (Hdc : declaredCount hb [] = hb - 0x90)
      by (unfold declaredCount; replace (hb <? 0x90) with false by lia; reflexivity).
    rewrite Hdc in *.
    exists st. split; [| split; [exact Hd | apply nothingAllocated_refl]].
    unfold decodeHead.
    replace (hb >=? 0xe0) with false by lia. replace (hb <? 0xc0) with true by lia.
    replace (hb <? 0x80) with false by lia. replace (hb <? 0x90) with false by lia.
    replace (hb <? 0xa0) with true by lia.
    apply beginArray_over_limit; [exact Hmax | exact Hover]. }
  repeat match type of Hfmt with
  | (if ?c =? ?x then _ else _) = _ =>
      let E := fresh "E" in destruct (c =? x) eqn:E; [apply Z.eqb_eq in E; subst c |]
  end; try discriminate; injection Hfmt as <- <-.
  - apply (Hfield 2%nat (beginArray options)); [reflexivity | lia | lia |].
    intros st1. apply beginArray_over_limit; [exact Hmax | exact Hover].
  - apply (Hfield 4%nat (beginArray options)); [reflexivity | lia | lia |].
    intros st1. apply beginArray_over_limit; [exact Hmax | exact Hover].
  - apply (Hfield 2%nat (beginMap options)); [reflexivity | lia | lia |].
    intros st1. apply beginMap_over_limit; [exact Hmax | exact Hover].
  - apply (Hfield 4%nat (beginMap options)); [reflexivity | lia | lia |].
    intros st1. apply beginMap_over_limit; [exact Hmax | exact Hover].
Qed.

(** An extension whose declared size is above its limit. *)
Lemma over_limit_extension (hb : Z) (w : nat) (st : State S) (size rest : list byte) :
  extFormat hb = Some w ->
  holds (source st) (size ++ rest) -> length size = w -> (4 <= capacity st)%nat ->
  extLength hb size > maxExtLength options ->
  exists st',
    decodeHead read host options hb st
    = (Throw (DecodeError (MaxLengthExceeded ExtLength (extLength hb size)
                             (maxExtLength options))), st') /\
    holds (source st') rest /\ nothingAllocated st st'.
Proof.
  intros Hfmt Hd Hw Hcap Hover.
  assert (Hfix : forall n : Z, size = [] -> extLength hb [] = n ->
            exists st',
              some (decodeExtension read options n) id st
              = (Throw (DecodeError (MaxLengthExceeded ExtLength (extLength hb size)
                                       (maxExtLength options))), st') /\
              holds (source st') rest /\ nothingAllocated st st').
  { intros n -> Hn. rewrite Hn in *. simpl in Hd.
    exists st. split; [| split; [exact Hd | apply nothingAllocated_refl]].
    unfold some, bind at 1.
    rewrite (guard_throws_untouched ExtLength n st Hover). reflexivity. }
  assert (Hvar : forall n : nat, w = n -> (n <= 4)%nat -> n <> 0%nat ->
            exists st',
              some (z <- (readBytes read (Z.of_nat n) ;; b <- viewBytes n ;; ret (be_uint b)) ;;
                    decodeExtension read options z) id st
              = (Throw (DecodeError (MaxLengthExceeded ExtLength (extLength hb size)
                                       (maxExtLength options))), st') /\
              holds (source st') rest /\ nothingAllocated st st').
  { intros n Hn Hn4 Hn0.
    destruct (lengthField_quiet n st size rest Hd ltac:(lia) Hn4 Hcap)
      as (st1 & Hrun & Hd1 & Hq).
    assert (Hdecl : extLength hb size = be_uint size).
    { unfold extLength. destruct size; [simpl in *; lia | reflexivity]. }
    rewrite Hdecl in *.
    exists st1. split; [| auto]. unfold some, bind at 1. unfold bind at 1. rewrite Hrun.
    rewrite (guard_throws_untouched ExtLength _ st1 Hover). reflexivity. }
  unfold extFormat in Hfmt.
  repeat match type of Hfmt with
  | (if ?c =? ?x then _ else _) = _ =>
      let E := fresh "E" in destruct (c =? x) eqn:E; [apply Z.eqb_eq in E; subst c |]
  end; try discriminate; injection Hfmt as <-.
  - apply (Hfix 1); [destruct size; [reflexivity | discriminate] | reflexivity].
  - apply (Hfix 2); [destruct size; [reflexivity | discriminate] | reflexivity].
  - apply (Hfix 4); [destruct size; [reflexivity | discriminate] | reflexivity].
  - apply (Hfix 8); [destruct size; [reflexivity | discriminate] | reflexivity].
  - apply (Hfix 16); [destruct size; [reflexivity | discriminate] | reflexivity].
  - apply (Hvar 1%nat); [reflexivity | lia | lia].
  - apply (Hvar 2%nat); [reflexivity | lia | lia].
  - apply (Hvar 4%nat); [reflexivity | lia | lia].
Qed.

(** A header whose length is above its limit, after its head byte. *)
Lemma decodeHead_over_limit (hb : Z) (kind : LengthKind) (w : nat) (st : State S)
    (size rest : list byte) :
  lengthField hb = Some (kind, w) ->
  holds (source st) (size ++ rest) -> length size = w -> (4 <= capacity st)%nat ->
  (kind = ArrayLength \/ kind = MapLength -> 0 <= maxLength options kind) ->
  lengthDeclared kind hb size > maxLength options kind ->
  exists st',
    decodeHead read host options hb st
    = (Throw (DecodeError (MaxLengthExceeded kind (lengthDeclared kind hb size)
                             (maxLength options kind))), st') /\
    holds (source st') rest /\ nothingAllocated st st'.
Proof.
  intros Hfmt Hd Hw Hcap Hmax Hover. unfold lengthField in Hfmt.
  destruct (sizedFormat hb) as [[w1 [|]]|] eqn:Es.
  - injection Hfmt as <- ->.
    apply (over_limit_sized hb w true st size rest Es Hd Hw Hcap Hover).
  - injection Hfmt as <- ->.
    apply (over_limit_sized hb w false st size rest Es Hd Hw Hcap Hover).
  - destruct (containerFormat hb) as [[w1 [|]]|] eqn:Ec.
    + injection Hfmt as <- ->.
      apply (over_limit_container hb w true st size rest Ec Hd Hw Hcap
               (Hmax (or_introl eq_refl)) Hover).
    + injection Hfmt as <- ->.
      apply (over_limit_container hb w false st size rest Ec Hd Hw Hcap
               (Hmax (or_intror eq_refl)) Hover).
    + destruct (extFormat hb) as [w1|] eqn:Ee; [| discriminate].
      injection Hfmt as <- ->.
      apply (over_limit_extension hb w st size rest Ee Hd Hw Hcap Hover).
Qed.

End OverLimit.

(** A length field has at most four bytes. *)
Lemma lengthField_width (hb : Z) (kind : LengthKind) (w : nat) :
  lengthField hb = Some (kind, w) -> (w <= 4)%nat.
Proof.
  unfold lengthField, sizedFormat, containerFormat, extFormat.
  repeat match goal with
  | |- context [if ?c then _ else _] => destruct c; cbv iota
  end; intros H; try discriminate; injection H as _ <-; lia.
Qed.

(** C3. Whatever the input before it, a length field above its limit ends
    the decode with the [DecodeError] of that limit, before anything is
    allocated for what it declares.  When the loop of a [decode()], over a
    callback that hands out the input in order, arrives at a head byte of a
    format that declares a length (a string, a binary, an array, a map or an
    extension, with the length in the head byte or in a field of 1, 2 or 4
    bytes), and the length declared is above the [maxStrLength],
    [maxBinLength], [maxArrayLength], [maxMapLength] or [maxExtLength] of
    the options, then [decode()] throws "Max length exceeded" with that
    length and that limit.  In the state it throws from, the stack is the
    one of the top of the turn, so no frame with its [new Array(size)] has
    been pushed; the scratch buffer is the same buffer and the heap has no
    new buffer, so nothing has grown; and the callback stands right after
    the length field, so nothing of the payload has been pulled.  For arrays
    and maps the limit is taken to be a length, not negative: a size of zero
    never reaches the guard, so that under a negative limit the empty array
    or map would still be accepted.  The scratch buffer has its four bytes,
    as it always has: it starts with 2048 and never shrinks. *)
Theorem length_limit_checked_first {S} (read : PullSource S)
    (holds : S -> list byte -> Prop) (host : Host) (options : Options)
    (st0 st : State S) (k fuel : nat) (hb : byte) (size rest : list byte)
    (kind : LengthKind) (w : nat) :
  delivers read holds -> (4 <= capacity st0)%nat ->
  arrives read host options (reinitializeState st0).2 k st ->
  holds (source st) (hb :: size ++ rest) ->
  lengthField (byte_to_Z hb) = Some (kind, w) -> length size = w ->
  (kind = ArrayLength \/ kind = MapLength -> 0 <= maxLength options kind) ->
  lengthDeclared kind (byte_to_Z hb) size > maxLength options kind ->
  exists st',
    decode read host options (k + Datatypes.S fuel) st0
    = (Throw (DecodeError (MaxLengthExceeded kind (lengthDeclared kind (byte_to_Z hb) size)
                             (maxLength options kind))), st') /\
    nothingAllocated st st' /\ holds (source st') rest.
Proof.
  intros Hread Hcap0 Harr Hd Hfmt Hw Hmax Hover.
  unfold decode, bind at 1.
  change (reinitializeState st0) with (Ok tt, (reinitializeState st0).2). cbv iota.
  rewrite (arrives_run read host options _ _ _ Harr).
  pose proof (arrives_capacity read host options _ _ _ Harr) as Hcap.
  change (capacity (reinitializeState st0).2) with (capacity st0) in Hcap.
  pose proof (arrives_headByte read host options _ _ _ Harr eq_refl) as Hhb.
  pose proof (lengthField_width _ _ _ Hfmt) as Hw4.
  destruct (readHeadByte_quiet read holds Hread st hb _ Hd Hhb ltac:(lia))
    as (st1 & Hrun1 & Hd1 & (Hs1 & Hb1 & Hh1) & Hc1).
  destruct (decodeHead_over_limit read holds Hread host options (byte_to_Z hb) kind w st1
              size rest Hfmt Hd1 Hw ltac:(lia) Hmax Hover)
    as (st2 & Hrun2 & Hd2 & (Hs2 & Hb2 & Hh2)).
  exists st2. split; [apply (turn_throws read host options fuel st st1 st2 _ _ Hrun1 Hrun2) |].
  split; [| exact Hd2].
  repeat split; congruence.
Qed.

Lemma length_limit_checked_first_witness :
  exists st',
    decode chunkRead Sample.host tightOptions 3 (newStreamDecoder overLimitInMap)
    = (Throw (DecodeError (MaxLengthExceeded ArrayLength 11 10)), st') /\
    stack st' = [StackMapState STATE_MAP_VALUE 1 (Some (KeyString "a")) 0 []] /\
    chunked (source st') [x01].
Proof.
  pose (st0 := newStreamDecoder overLimitInMap).
  pose (sa := (readHeadByte chunkRead st0).2).
  pose (sb := (decodeHead chunkRead Sample.host tightOptions 0x81 sa).2).
  pose (sc := (readHeadByte chunkRead sb).2).
  pose (sd := (decodeHead chunkRead Sample.host tightOptions 0xa1 sc).2).
  pose (st := mkState (heap sd) (source sd) HEAD_BYTE_REQUIRED (bytes sd)
                [StackMapState (B := Uint8Array) STATE_MAP_VALUE 1 (Some (KeyString "a")) 0 []]).
  assert (Harr : arrives chunkRead Sample.host tightOptions (reinitializeState st0).2 2 st).
  { apply (arrives_push chunkRead Sample.host tightOptions _ 0x81 sa sb);
      [vm_compute; reflexivity | vm_compute; reflexivity |].
    apply (arrives_fill chunkRead Sample.host tightOptions sb 0xa1 sc (VString "a") sd
             [StackMapState STATE_MAP_VALUE 1 (Some (KeyString "a")) 0 []]);
      [vm_compute; reflexivity | vm_compute; reflexivity | vm_compute; reflexivity |].
    apply arrives_here. }
  destruct (length_limit_checked_first chunkRead chunked Sample.host tightOptions st0 st
              2 0 xdc [x00; x0b] [x01] ArrayLength 2) as (st' & Hrun & (Hs & _) & Hd).
  - apply chunkRead_delivers.
  - vm_compute. lia.
  - exact Harr.
  - split; [vm_compute; reflexivity | repeat constructor; discriminate].
  - reflexivity.
  - reflexivity.
  - intros _. vm_compute. discriminate.
  - vm_compute. reflexivity.
  - exists st'. split; [exact Hrun |]. split; [exact Hs | exact Hd].
Defined.

(** ** The kinds of map keys *)

(** C5, as the code has it.  A completed object offered to a frame that
    awaits a key is tested by [typeof] alone, whether it is the object that
    the chain on the head byte yielded or a non-empty array or map that this
    object completes (the frames [above] the key frame, all popped by it): a
    string other than ["__proto__"] and any number, integer or float, is
    stored as the pending key and decoding goes on; every other kind of
    value (nil, boolean, binary, array, map, extension object) throws the
    [DecodeError] "The type of key must be string or number", and that
    error ends [doDecodeSync]. *)
Theorem map_key_string_or_number {S} (read : PullSource S) (host : Host)
    (options : Options) (fuel : nat) (st st1 st2 : State S) hb object above keyValue
    size key readCount map rest :
  readHeadByte read st = (Ok hb, st1) ->
  decodeHead read host options hb st1 = (Ok (Some object), st2) ->
  stack st2 = above ++ StackMapState STATE_MAP_KEY size key readCount map :: rest ->
  fillFrames host object above = (Ok (Return keyValue), []) ->
  match typeof keyValue with
  | TString | TNumber =>
      if strictEqualsString keyValue "__proto__"
      then (doDecodeSync read host options (Datatypes.S fuel) st).1
           = Throw (DecodeError KeyProtoNotAllowed)
      else doDecodeSync read host options (Datatypes.S fuel) st
           = doDecodeSync read host options fuel
               (mkState (heap st2) (source st2) HEAD_BYTE_REQUIRED (bytes st2)
                  (StackMapState STATE_MAP_VALUE size (asMapKey keyValue) readCount map :: rest))
           /\ asMapKey keyValue <> None
  | t => (doDecodeSync read host options (Datatypes.S fuel) st).1
         = Throw (DecodeError (KeyTypeMustBeStringOrNumber t))
  end.
Proof.
  intros H1 H2 H3 H4.
  pose proof (fillFrames_key host keyValue size key readCount map rest) as Hk.
  assert (Hfill : fillFrames host object (stack st2)
                  = fillFrames host keyValue
                      (StackMapState STATE_MAP_KEY size key readCount map :: rest)).
  { rewrite H3, fillFrames_app, H4. reflexivity. }
  rewrite doDecodeSync_turn, H1, H2. cbv zeta. rewrite Hfill, Hk.
  destruct keyValue; simpl; try reflexivity.
  - split; [reflexivity | discriminate].
  - destruct (String.eqb s "__proto__"); [reflexivity |].
    split; [reflexivity | discriminate].
Qed.

Lemma map_key_string_or_number_witness :
  (doDecodeSync chunkRead Sample.host Sample.options 9 arrayKeyAwaited).1
  = Throw (DecodeError (KeyTypeMustBeStringOrNumber TObject)).
Proof.
  set (st1 := (readHeadByte chunkRead arrayKeyAwaited).2).
  assert (H1 : readHeadByte chunkRead arrayKeyAwaited = (Ok 1, st1))
    by (vm_compute; reflexivity).
  assert (H2 : decodeHead chunkRead Sample.host Sample.options 1 st1
               = (Ok (Some (VNumber (Int 1))), st1))
    by (vm_compute; reflexivity).
  assert (H3 : stack st1 = [StackArrayState 1 [VUndefined] 0]
                           ++ StackMapState STATE_MAP_KEY 1 None 0 [] :: [])
    by (vm_compute; reflexivity).
  assert (H4 : fillFrames Sample.host (VNumber (Int 1))
                 [StackArrayState (B := Uint8Array) 1 [VUndefined] 0]
               = (Ok (Return (VArray [VNumber (Int 1)])), []))
    by (vm_compute; reflexivity).
  exact (map_key_string_or_number chunkRead Sample.host Sample.options 8
           arrayKeyAwaited st1 st1 1 (VNumber (Int 1)) [StackArrayState 1 [VUndefined] 0]
           (VArray [VNumber (Int 1)]) 1 None 0 [] [] H1 H2 H3 H4).
Defined.

(** ** Views handed out by the decoder, and growth *)

Section Growth.
Context {S : Type}.
Variable read : PullSource S.



End Growth.




